(** * libnetconf2: NETCONF framing, message reader and message writer

    A shallow embedding of [src/io.c] (with the declarations it needs from
    [src/session_p.h] and [src/config.h]) and the properties of its framed
    reader ([nc_read], [nc_read_until], [nc_read_chunk], [nc_read_msg],
    [nc_read_msg_poll]) and framed writer ([nc_write], [nc_write_clb],
    [nc_write_error], [nc_write_msg]).

    Modelling conventions.
    - A byte is a [Byte.byte]; a C buffer is the [list byte] of its meaningful
      prefix.  Where the C code treats a buffer as a string (strlen, strcmp,
      strncmp, strtoul, %s) the model stops at the first NUL byte too.
    - uint16_t and uint64_t variables are [Z] with the wrap-around written
      out ([uint16], [uint64]).  Byte counts are [Z] (or [nat] where they
      index a list).  Where a count of type size_t or ssize_t is stored in
      an int - the result of [nc_write], and the variable ret of
      [nc_read_msg] that receives what [nc_read_until] and [nc_read_chunk]
      return - the conversion is written out ([to_int]): a count of
      2^32 - 1 bytes becomes -1 there, and the callers take it for the
      error value.  The sums that the writer keeps in an int (ret += c) are
      sums in [Z], without the overflow that C leaves undefined.
    - The build is the one without NC_ENABLED_SSH and NC_ENABLED_TLS: a
      session is on file descriptors (NC_TI_FD) or has no transport
      (NC_TI_NONE).
    - A file descriptor is modelled by what is behind it: the input
      descriptor by the scripted outcomes of the coming read(2) and poll(2)
      calls, the output descriptor by the scripted outcomes of the coming
      write(2) calls and the bytes put on the wire so far.  The poll that
      [nc_read_poll] makes with the timeout of its caller is answered by an
      argument.
    - One write(2) transfers at most INT_MAX bytes (Linux stops at
      MAX_RW_COUNT), so the int that receives its result holds it.
    - malloc and realloc grant every request that the C library can grant;
      the requests of [nc_read_chunk], the one function that asks for a
      size read from the input, are modelled there ([malloc_fails]), the
      request for no byte at all among them.  Logging (ERR, WRN, DBG) and
      usleep have no effect on the state and are left out.  The sleeps are
      counted where the code counts them. *)

From Stdlib Require Import String.
From Stdlib Require Import Init.Byte Strings.Byte.
From Stdlib Require Import ZArith List Bool Lia.
Import ListNotations.
Local Open Scope Z_scope.

(** ** Bytes and C strings *)

Definition bytes (s : string) : list byte := list_byte_of_string s.
Arguments bytes s%_string.

Definition byte_val (b : byte) : Z := Z.of_N (Byte.to_N b).

Definition NUL : byte := x00.

Definition is_nul (b : byte) : bool := Byte.eqb b NUL.

(** The string a char pointer denotes: the bytes before the first NUL. *)
Fixpoint c_str (s : list byte) : list byte :=
  match s with
  | [] => []
  | b :: s' => if is_nul b then [] else b :: c_str s'
  end.

Definition strlen (s : list byte) : nat := length (c_str s).

(** [strcmp]: the difference of the first two bytes that differ, 0 when the
    strings agree up to their terminator.  The end of the list stands for the
    terminating NUL. *)
Fixpoint strcmp (a b : list byte) : Z :=
  match a, b with
  | [], [] => 0
  | [], y :: _ => 0 - byte_val y
  | x :: _, [] => byte_val x
  | x :: a', y :: b' =>
      if Byte.eqb x y then (if is_nul x then 0 else strcmp a' b')
      else byte_val x - byte_val y
  end.

(** [strncmp]: as [strcmp], over at most [n] bytes. *)
Fixpoint strncmp (a b : list byte) (n : nat) : Z :=
  match n with
  | O => 0
  | S n' =>
      match a, b with
      | [], [] => 0
      | [], y :: _ => 0 - byte_val y
      | x :: _, [] => byte_val x
      | x :: a', y :: b' =>
          if Byte.eqb x y then (if is_nul x then 0 else strncmp a' b' n')
          else byte_val x - byte_val y
      end
  end.

(** ** Fixed-width integers *)

Definition uint16 (z : Z) : Z := z mod 2 ^ 16.
Definition uint32 (z : Z) : Z := z mod 2 ^ 32.
Definition uint64 (z : Z) : Z := z mod 2 ^ 64.
Definition ULONG_MAX : Z := 2 ^ 64 - 1.
Definition INT_MAX : Z := 2 ^ 31 - 1.

(** The value an int takes when a size_t or an ssize_t is assigned to it:
    the low 32 bits, read in two's complement. *)
Definition to_int (z : Z) : Z := (z + 2 ^ 31) mod 2 ^ 32 - 2 ^ 31.

(** ** Decimal conversions: printf's %u, %zu, PRIu64 and strtoul *)

Definition digit_char (d : Z) : byte :=
  match Byte.of_N (Z.to_N (48 + d)) with
  | Some b => b
  | None => "0"%byte
  end.

(** The decimal digits of [n], least significant first. *)
Fixpoint digits_le (fuel : nat) (n : Z) : list Z :=
  match fuel with
  | O => []
  | S fuel' =>
      (n mod 10) :: (if n / 10 =? 0 then [] else digits_le fuel' (n / 10))
  end.

(** What printf's %u and its wider variants print for an unsigned value. *)
Definition utoa (n : Z) : list byte :=
  map digit_char (rev (digits_le (S (Z.to_nat (Z.log2 n))) n)).

Definition is_digit (b : byte) : bool :=
  (48 <=? byte_val b) && (byte_val b <=? 57).

Definition digit_val (b : byte) : Z := byte_val b - 48.

(** isspace(3) in the C locale: space, \t, \n, \v, \f, \r. *)
Definition isspace (b : byte) : bool :=
  (byte_val b =? 32) || ((9 <=? byte_val b) && (byte_val b <=? 13)).

Fixpoint skip_space (s : list byte) : list byte :=
  match s with
  | b :: s' => if isspace b then skip_space s' else s
  | [] => []
  end.

(** The value of the leading decimal digits of [s], from accumulator [acc],
    and whether there was any digit. *)
Fixpoint strtoul_digits (s : list byte) (acc : Z) (any : bool) : Z * bool :=
  match s with
  | b :: s' =>
      if is_digit b then strtoul_digits s' (10 * acc + digit_val b) true
      else (acc, any)
  | [] => (acc, any)
  end.

(** [strtoul(s, NULL, 10)] for a 64-bit unsigned long: leading white space,
    an optional sign, decimal digits; no digits give 0, a value that does not
    fit gives ULONG_MAX, a minus sign negates modulo 2^64. *)
Definition strtoul (s : list byte) : Z :=
  let s1 := skip_space s in
  let '(neg, s2) :=
    match s1 with
    | "-"%byte :: t => (true, t)
    | "+"%byte :: t => (false, t)
    | _ => (false, s1)
    end in
  let '(v, any) := strtoul_digits s2 0 false in
  if negb any then 0
  else if ULONG_MAX <? v then ULONG_MAX
  else if neg then uint64 (0 - v) else v.

(** ** Session data ([session_p.h]) *)

Inductive NC_STATUS :=
  NC_STATUS_STARTING | NC_STATUS_CLOSING | NC_STATUS_INVALID | NC_STATUS_RUNNING.

Inductive NC_SESSION_TERM_REASON :=
  | NC_SESSION_TERM_NONE | NC_SESSION_TERM_CLOSED | NC_SESSION_TERM_KILLED
  | NC_SESSION_TERM_DROPPED | NC_SESSION_TERM_TIMEOUT
  | NC_SESSION_TERM_BADHELLO | NC_SESSION_TERM_OTHER.

Inductive NC_SIDE := NC_CLIENT | NC_SERVER.

Inductive NC_VERSION := NC_VERSION_10 | NC_VERSION_11.

Inductive NC_TRANSPORT_IMPL := NC_TI_NONE | NC_TI_FD.

Inductive NC_MSG_TYPE :=
  | NC_MSG_ERROR | NC_MSG_WOULDBLOCK | NC_MSG_NONE | NC_MSG_HELLO
  | NC_MSG_BAD_HELLO | NC_MSG_RPC | NC_MSG_REPLY | NC_MSG_NOTIF.

Definition NC_VERSION_10_ENDTAG : list byte := bytes "]]>]]>".
Definition NC_VERSION_10_ENDTAG_LEN : Z := 6.

(** config.h *)
Definition NC_READ_TIMEOUT : Z := 30.

(** Modelled from the spec: the macro NC_TIMEOUT_STEP is defined outside
    io.c, session_p.h and config.h; the spec gives the sleep step as 1 ms
    (in microseconds, for usleep). *)
Definition NC_TIMEOUT_STEP : Z := 1000.

(** Modelled from the spec: NC_NS_BASE and NC_NS_NOTIF are defined outside
    io.c, session_p.h and config.h; the spec gives both namespaces. *)
Definition NC_NS_BASE : list byte := bytes "urn:ietf:params:xml:ns:netconf:base:1.0".
Definition NC_NS_NOTIF : list byte :=
  bytes "urn:ietf:params:xml:ns:netconf:notification:1.0".

(** One read(2) on the input descriptor. *)
Inductive rd_event :=
  | RdData (bs : list byte)  (* returns [length bs] bytes; [RdData []] is end of file *)
  | RdAgain                  (* -1, errno EAGAIN *)
  | RdIntr                   (* -1, errno EINTR *)
  | RdError.                 (* -1, any other errno *)

(** One poll(2) on the input descriptor, as [nc_session_is_connected] sees it. *)
Inductive poll_event :=
  | PollIntr                 (* -1, errno EINTR *)
  | PollError                (* -1, any other errno *)
  | PollHup                  (* > 0 with POLLHUP or POLLERR in revents *)
  | PollReady.               (* 0, or > 0 with neither *)

(** One write(2) on the output descriptor. *)
Inductive wr_event :=
  | WrError                  (* -1 *)
  | WrAccept (n : nat).      (* takes at most [n] of the bytes offered *)

(** [ti.fd.in]: what the descriptor will deliver.  An exhausted read script is
    a closed peer (read returns 0), an exhausted poll script a quiet
    descriptor. *)
Record fd_in_t := {
  rd_script : list rd_event;
  poll_script : list poll_event
}.

(** [ti.fd.out]: what the descriptor will accept and what it has taken.  An
    exhausted write script takes everything it is offered. *)
Record fd_out_t := {
  wr_script : list wr_event;
  wire : list byte
}.

Record nc_session := {
  status : NC_STATUS;
  term_reason : NC_SESSION_TERM_REASON;
  side : NC_SIDE;
  id : Z;
  version : NC_VERSION;
  ti_type : NC_TRANSPORT_IMPL;
  ti_fd_in : fd_in_t;
  ti_fd_out : fd_out_t;
  msgid : Z
}.

Definition set_status (s : nc_session) (st : NC_STATUS)
    (tr : NC_SESSION_TERM_REASON) : nc_session :=
  {| status := st; term_reason := tr; side := side s; id := id s;
     version := version s; ti_type := ti_type s; ti_fd_in := ti_fd_in s;
     ti_fd_out := ti_fd_out s; msgid := msgid s |}.

Definition set_fd_in (s : nc_session) (i : fd_in_t) : nc_session :=
  {| status := status s; term_reason := term_reason s; side := side s;
     id := id s; version := version s; ti_type := ti_type s; ti_fd_in := i;
     ti_fd_out := ti_fd_out s; msgid := msgid s |}.

Definition set_fd_out (s : nc_session) (o : fd_out_t) : nc_session :=
  {| status := status s; term_reason := term_reason s; side := side s;
     id := id s; version := version s; ti_type := ti_type s;
     ti_fd_in := ti_fd_in s; ti_fd_out := o; msgid := msgid s |}.

Definition set_msgid (s : nc_session) (m : Z) : nc_session :=
  {| status := status s; term_reason := term_reason s; side := side s;
     id := id s; version := version s; ti_type := ti_type s;
     ti_fd_in := ti_fd_in s; ti_fd_out := ti_fd_out s; msgid := m |}.

Definition set_rd_script (s : nc_session) (evs : list rd_event) : nc_session :=
  set_fd_in s {| rd_script := evs; poll_script := poll_script (ti_fd_in s) |}.

(** The test that opens every entry point:
    status != NC_STATUS_RUNNING && status != NC_STATUS_STARTING. *)
Definition not_usable (s : nc_session) : bool :=
  match status s with
  | NC_STATUS_RUNNING | NC_STATUS_STARTING => false
  | _ => true
  end.

(** ** Reading ([io.c], first part) *)

(** What a read function leaves behind: its return value, the buffer it
    filled, the read budget and the session. *)
Record read_res := {
  rr_ret : Z;
  rr_buf : list byte;
  rr_timeout : Z;
  rr_session : nc_session
}.

Definition len (bs : list byte) : Z := Z.of_nat (length bs).

(** The do-while loop of [nc_read].  [evs] is the read script of the input
    descriptor, [buf] the [readd] bytes put at the caller's address so far.
    A read asks for [count - readd] bytes and gets at most that many. *)
Fixpoint nc_read_loop (session : nc_session) (evs : list rd_event)
    (count readd : Z) (buf : list byte) (sleep_count read_timeout : Z)
    {struct evs} : read_res :=
  let finish evs' buf readd read_timeout :=
    {| rr_ret := readd; rr_buf := buf; rr_timeout := read_timeout;
       rr_session := set_rd_script session evs' |} in
  let fail evs' reason read_timeout :=
    {| rr_ret := -1; rr_buf := buf; rr_timeout := read_timeout;
       rr_session :=
         set_status (set_rd_script session evs') NC_STATUS_INVALID reason |} in
  match ti_type session with
  | NC_TI_NONE =>
      {| rr_ret := 0; rr_buf := buf; rr_timeout := read_timeout;
         rr_session := set_rd_script session evs |}
  | NC_TI_FD =>
      match evs with
      | [] => fail [] NC_SESSION_TERM_DROPPED read_timeout
      | RdError :: evs' => fail evs' NC_SESSION_TERM_OTHER read_timeout
      | RdIntr :: evs' =>
          (* usleep(NC_TIMEOUT_STEP); continue; *)
          if readd <? count
          then nc_read_loop session evs' count readd buf sleep_count read_timeout
          else finish evs' buf readd read_timeout
      | RdAgain :: evs' =>
          (* r = 0: nothing read *)
          let sleep_count := uint16 (sleep_count + 1) in
          let '(read_timeout, sleep_count) :=
            if 1000000 / NC_TIMEOUT_STEP =? sleep_count
            then (uint16 (read_timeout - 1), 0)
            else (read_timeout, sleep_count) in
          if read_timeout =? 0 then fail evs' NC_SESSION_TERM_OTHER read_timeout
          else if readd <? count
          then nc_read_loop session evs' count readd buf sleep_count read_timeout
          else finish evs' buf readd read_timeout
      | RdData bs :: evs' =>
          let r := Z.min (len bs) (count - readd) in
          if r =? 0 then fail evs' NC_SESSION_TERM_DROPPED read_timeout
          else
            let buf := buf ++ firstn (Z.to_nat r) bs in
            let readd := readd + r in
            if readd <? count
            then nc_read_loop session evs' count readd buf sleep_count read_timeout
            else
              let evs' := if r <? len bs
                          then RdData (skipn (Z.to_nat r) bs) :: evs' else evs' in
              finish evs' buf readd read_timeout
      end
  end.

Definition nc_read (session : nc_session) (count : Z) (read_timeout : Z)
    : read_res :=
  if not_usable session then
    {| rr_ret := -1; rr_buf := []; rr_timeout := read_timeout;
       rr_session := session |}
  else if count =? 0 then
    {| rr_ret := 0; rr_buf := []; rr_timeout := read_timeout;
       rr_session := session |}
  else
    nc_read_loop session (rd_script (ti_fd_in session)) count 0 [] 0 read_timeout.

Definition PTRDIFF_MAX : Z := 2 ^ 63 - 1.

(** malloc(size) for a size read from the input: the C library refuses a
    request above PTRDIFF_MAX; every other request is taken to be granted. *)
Definition malloc_fails (size : Z) : bool := PTRDIFF_MAX <? size.

(** [nc_read] into a buffer that has room for no byte, with a count that no
    range of addresses holds: the read(2) fails with EFAULT before it takes
    anything from the descriptor, and [nc_read] treats it as any other error
    of read(2). *)
Definition nc_read_fault (session : nc_session) (read_timeout : Z) : read_res :=
  if not_usable session then
    {| rr_ret := -1; rr_buf := []; rr_timeout := read_timeout;
       rr_session := session |}
  else
    match ti_type session with
    | NC_TI_NONE =>
        {| rr_ret := 0; rr_buf := []; rr_timeout := read_timeout;
           rr_session := session |}
    | NC_TI_FD =>
        {| rr_ret := -1; rr_buf := []; rr_timeout := read_timeout;
           rr_session :=
             set_status session NC_STATUS_INVALID NC_SESSION_TERM_OTHER |}
    end.

(** [nc_read_chunk].  The buffer is malloc((len + 1)) with the sum taken in
    size_t: for len = ULONG_MAX it is a request for no byte at all, which
    is granted and leaves the read without room. *)
Definition nc_read_chunk (session : nc_session) (len : Z) (read_timeout : Z)
    : read_res :=
  if len =? 0 then
    {| rr_ret := 0; rr_buf := []; rr_timeout := read_timeout;
       rr_session := session |}
  else
    let size := uint64 (len + 1) in
    if malloc_fails size then
      (* ERRMEM; return -1; *)
      {| rr_ret := -1; rr_buf := []; rr_timeout := read_timeout;
         rr_session := session |}
    else
      let r := if size =? 0 then nc_read_fault session read_timeout
               else nc_read session len read_timeout in
      if rr_ret r <=? 0 then
        {| rr_ret := -1; rr_buf := []; rr_timeout := rr_timeout r;
           rr_session := rr_session r |}
      else r.

(** What is left to come from a read script; every successful one-byte read
    makes it smaller. *)
Fixpoint stream_size (evs : list rd_event) : nat :=
  match evs with
  | [] => O
  | RdData bs :: evs' => S (length bs + stream_size evs')
  | _ :: evs' => S (stream_size evs')
  end.

(** The while (1) loop of [nc_read_until]: [chunk] holds the [count] bytes
    read so far.  [fuel] bounds the iterations; [None] is "out of fuel". *)
Fixpoint nc_read_until_loop (fuel : nat) (session : nc_session)
    (endtag : list byte) (limit : Z) (read_timeout : Z) (chunk : list byte)
    (count : Z) : option read_res :=
  match fuel with
  | O => None
  | S fuel' =>
      let len := Z.of_nat (strlen endtag) in
      if negb (limit =? 0) && (count =? limit) then
        Some {| rr_ret := -1; rr_buf := []; rr_timeout := read_timeout;
                rr_session := session |}
      else
        (* get another character *)
        let r := nc_read session 1 read_timeout in
        if negb (rr_ret r =? 1) then
          Some {| rr_ret := -1; rr_buf := []; rr_timeout := rr_timeout r;
                  rr_session := rr_session r |}
        else
          let chunk := chunk ++ rr_buf r in
          let count := count + 1 in
          (* check endtag *)
          if (len <=? count)
             && (strncmp endtag (skipn (Z.to_nat (count - len)) chunk)
                         (strlen endtag) =? 0)
          then Some {| rr_ret := count; rr_buf := chunk;
                       rr_timeout := rr_timeout r;
                       rr_session := rr_session r |}
          else nc_read_until_loop fuel' (rr_session r) endtag limit
                                  (rr_timeout r) chunk count
  end.

(** [nc_read_until]: every iteration that goes on has taken a byte from the
    read script, so the size of the script bounds the iterations. *)
Definition nc_read_until (session : nc_session) (endtag : list byte)
    (limit : Z) (read_timeout : Z) : option read_res :=
  nc_read_until_loop (S (stream_size (rd_script (ti_fd_in session))))
                     session endtag limit read_timeout [] 0.

(** ** Writing ([io.c], second part) *)

Definition BUFFERSIZE : Z := 512.
Definition WRITE_BUFSIZE : Z := 2 * BUFFERSIZE.

Definition LF : byte := x0a.

Definition set_poll_script (s : nc_session) (ps : list poll_event) : nc_session :=
  set_fd_in s {| rd_script := rd_script (ti_fd_in s); poll_script := ps |}.

(** The poll loop of [nc_session_is_connected] and the tests on its result. *)
Fixpoint poll_connected (ps : list poll_event) : Z * list poll_event :=
  match ps with
  | [] => (1, [])
  | PollIntr :: ps' => poll_connected ps'
  | PollError :: ps' => (0, ps')
  | PollHup :: ps' => (0, ps')
  | PollReady :: ps' => (1, ps')
  end.

Definition nc_session_is_connected (session : nc_session) : Z * nc_session :=
  match ti_type session with
  | NC_TI_NONE => (0, session)
  | NC_TI_FD =>
      let '(ret, ps) := poll_connected (poll_script (ti_fd_in session)) in
      (ret, set_poll_script session ps)
  end.

(** The do-while loop of [nc_write] on a file descriptor: [written] of the
    [count] bytes of [buf] are on the wire [w].  [c] is the int that takes
    the result of write(2).  When the script is used up the descriptor takes
    all that is left, in as many calls as that needs. *)
Fixpoint nc_write_loop (ws : list wr_event) (buf : list byte)
    (count written : Z) (w : list byte) : Z * list wr_event * list byte :=
  match ws with
  | [] =>
      (count, [],
       w ++ firstn (Z.to_nat (count - written)) (skipn (Z.to_nat written) buf))
  | WrError :: ws' => (-1, ws', w)
  | WrAccept n :: ws' =>
      let c := Z.min (Z.min (Z.of_nat n) (count - written)) INT_MAX in
      let w := w ++ firstn (Z.to_nat c) (skipn (Z.to_nat written) buf) in
      let written := written + c in
      if written <? count then nc_write_loop ws' buf count written w
      else (written, ws', w)
  end.

Definition nc_write (session : nc_session) (buf : list byte) (count : Z)
    : Z * nc_session :=
  if not_usable session then (-1, session)
  else
    (* prevent SIGPIPE this way *)
    let '(connected, session) := nc_session_is_connected session in
    if connected =? 0 then
      (-1, set_status session NC_STATUS_INVALID NC_SESSION_TERM_DROPPED)
    else
      match ti_type session with
      | NC_TI_FD =>
          let o := ti_fd_out session in
          let '(ret, ws, w) := nc_write_loop (wr_script o) buf count 0 (wire o) in
          (* return written; from a function that returns int *)
          (to_int ret, set_fd_out session {| wr_script := ws; wire := w |})
      | NC_TI_NONE => (-1, session)
      end.

(** The chunk header that sprintf builds in chunksize: a line feed, the
    hash sign, count in decimal (%zu of a size_t), a line feed. *)
Definition chunk_header (count : Z) : list byte :=
  [LF; "#"%byte] ++ utoa (uint64 count) ++ [LF].

Definition nc_write_starttag_and_msg (session : nc_session) (buf : list byte)
    (count : Z) : Z * nc_session :=
  let '(ret, session) :=
    match version session with
    | NC_VERSION_11 =>
        let chunksize := chunk_header count in
        nc_write session chunksize (Z.of_nat (strlen chunksize))
    | NC_VERSION_10 => (0, session)
    end in
  if ret =? -1 then (-1, session)
  else
    let '(c, session) := nc_write session buf count in
    if c =? -1 then (-1, session) else (ret + c, session).

Definition nc_write_endtag (session : nc_session) : Z * nc_session :=
  match version session with
  | NC_VERSION_11 => nc_write session [LF; "#"%byte; "#"%byte; LF] 4
  | NC_VERSION_10 => nc_write session (bytes "]]>]]>") 6
  end.

(** [struct wclb_arg]: [warg_buf] is buf[0 .. len), so that the field len is
    the length of [warg_buf]. *)
Record wclb_arg := {
  warg_session : nc_session;
  warg_buf : list byte
}.

Definition warg_len (warg : wclb_arg) : Z := len (warg_buf warg).

(** memcpy(&warg->buf[warg->len], src, n); warg->len += n; *)
Definition stage (warg : wclb_arg) (src : list byte) (n : Z) : wclb_arg :=
  {| warg_session := warg_session warg;
     warg_buf := warg_buf warg ++ firstn (Z.to_nat n) src |}.

Definition nc_write_clb_flush (warg : wclb_arg) : Z * wclb_arg :=
  if negb (warg_len warg =? 0) then
    let '(ret, session) :=
      nc_write_starttag_and_msg (warg_session warg) (warg_buf warg)
                                (warg_len warg) in
    (ret, {| warg_session := session; warg_buf := [] |})
  else (0, warg).

(** The for loop of [nc_write_clb] over the characters of a text in content
    mode. *)
Fixpoint nc_write_clb_content (warg : wclb_arg) (ret : Z) (text : list byte)
    : Z * wclb_arg :=
  match text with
  | [] => (ret, warg)
  | ch :: text' =>
      let '(c, warg) :=
        if WRITE_BUFSIZE <=? warg_len warg + 5
        then (* buffer is full *) nc_write_clb_flush warg
        else (0, warg) in
      if c =? -1 then (-1, warg)
      else if Byte.eqb ch "&"%byte then
        nc_write_clb_content (stage warg (bytes "&amp;") 5) (ret + 5) text'
      else if Byte.eqb ch "<"%byte then
        nc_write_clb_content (stage warg (bytes "&lt;") 4) (ret + 4) text'
      else if Byte.eqb ch ">"%byte then
        nc_write_clb_content (stage warg (bytes "&gt;") 4) (ret + 4) text'
      else
        nc_write_clb_content (stage warg [ch] 1) (ret + 1) text'
  end.

(** [nc_write_clb]; a NULL [buf] is [None]. *)
Definition nc_write_clb (warg : wclb_arg) (buf : option (list byte))
    (count : Z) (xmlcontent : bool) : Z * wclb_arg :=
  match buf with
  | None =>
      let '(c, warg) := nc_write_clb_flush warg in
      if c =? -1 then (-1, warg)
      else
        let ret := c in
        (* endtag *)
        let '(c, session) := nc_write_endtag (warg_session warg) in
        let warg := {| warg_session := session; warg_buf := warg_buf warg |} in
        if c =? -1 then (-1, warg) else (ret + c, warg)
  | Some buf =>
      let '(c, warg) :=
        if negb (warg_len warg =? 0) && (WRITE_BUFSIZE <? warg_len warg + count)
        then (* dump current buffer *) nc_write_clb_flush warg
        else (0, warg) in
      if c =? -1 then (-1, warg)
      else
        let ret := c in
        if negb xmlcontent && (WRITE_BUFSIZE <? count) then
          (* write directly *)
          let '(c, session) :=
            nc_write_starttag_and_msg (warg_session warg) buf count in
          let warg := {| warg_session := session; warg_buf := warg_buf warg |} in
          if c =? -1 then (-1, warg) else (ret + c, warg)
        else if xmlcontent then
          nc_write_clb_content warg ret (firstn (Z.to_nat count) buf)
        else
          (ret + count, stage warg buf count)
  end.

Definition nc_write_xmlclb (warg : wclb_arg) (buf : list byte) (count : Z)
    : Z * wclb_arg :=
  nc_write_clb warg (Some buf) count false.

(** ** The libyang collaborator

    io.c hands message bodies to libyang's XML parser and lets libyang's
    printers drive the write callback.  Both are outside the repository:
    the model takes them as an interface.  A printer is the list of buffers
    it passes to the callback, in order, whatever the callback returns. *)

Inductive ly_option :=
  | LYP_WITHSIBLINGS | LYP_NETCONF | LYP_WD_EXPLICIT | LYP_WD_TRIM
  | LYP_WD_ALL | LYP_WD_ALL_TAG | LYXML_PRINT_ATTRS.

Record lyxml_ns := {
  ns_prefix : option (list byte);
  ns_value : list byte
}.

Class LibYang := {
  lyxml_elem : Type;
  lyd_node : Type;
  elem_name : lyxml_elem -> list byte;
  elem_ns : lyxml_elem -> option lyxml_ns;
  lyxml_parse_mem : list byte -> option lyxml_elem;
  lyxml_print_clb : lyxml_elem -> list ly_option -> list (list byte);
  lyd_print_clb : lyd_node -> list ly_option -> list (list byte)
}.

(** One call nc_write_clb(arg, buf, count, xmlcontent) with a buffer. *)
Record clb_call := {
  cc_buf : list byte;
  cc_count : Z;
  cc_xmlcontent : bool
}.

(** A call in raw mode with a buffer and a count. *)
Definition raw (buf : list byte) (count : Z) : clb_call :=
  {| cc_buf := buf; cc_count := count; cc_xmlcontent := false |}.

(** A call with a string literal and the count written next to it. *)
Definition lit (s : string) (count : Z) : clb_call := raw (bytes s) count.
Arguments lit s%_string count%_Z.

(** The double quote character of the C string literals. *)
Definition DQ : byte := x22.

(** A call with a string and its strlen. *)
Definition str (s : list byte) (xmlcontent : bool) : clb_call :=
  {| cc_buf := s; cc_count := Z.of_nat (strlen s); cc_xmlcontent := xmlcontent |}.

(** The calls a libyang printer makes through [nc_write_xmlclb]. *)
Definition printed (pieces : list (list byte)) : list clb_call :=
  map (fun p => raw p (len p)) pieces.

(** The callers of [nc_write_clb] in io.c never look at what it returns, so
    what they do is a sequence of calls fixed by their arguments. *)
Definition nc_write_calls (warg : wclb_arg) (calls : list clb_call) : wclb_arg :=
  fold_left
    (fun w c => snd (nc_write_clb w (Some (cc_buf c)) (cc_count c)
                                  (cc_xmlcontent c)))
    calls warg.

Inductive NC_ERR_TYPE :=
  NC_ERR_TYPE_TRAN | NC_ERR_TYPE_RPC | NC_ERR_TYPE_PROT | NC_ERR_TYPE_APP.

Inductive NC_ERR :=
  | NC_ERR_IN_USE | NC_ERR_INVALID_VALUE | NC_ERR_TOO_BIG
  | NC_ERR_MISSING_ATTR | NC_ERR_BAD_ATTR | NC_ERR_UNKNOWN_ATTR
  | NC_ERR_MISSING_ELEM | NC_ERR_BAD_ELEM | NC_ERR_UNKNOWN_ELEM
  | NC_ERR_UNKNOWN_NS | NC_ERR_ACCESS_DENIED | NC_ERR_LOCK_DENIED
  | NC_ERR_RES_DENIED | NC_ERR_ROLLBACK_FAILED | NC_ERR_DATA_EXISTS
  | NC_ERR_DATA_MISSING | NC_ERR_OP_NOT_SUPPORTED | NC_ERR_OP_FAILED
  | NC_ERR_MALFORMED_MSG.

Inductive NC_WD_MODE :=
  NC_WD_UNKNOWN | NC_WD_ALL | NC_WD_ALL_TAG | NC_WD_TRIM | NC_WD_EXPLICIT.

Section Messages.

Context {LY : LibYang}.

(** [struct nc_server_error]; the arrays with their counts are lists. *)
Record nc_server_error := {
  err_type : NC_ERR_TYPE;
  err_tag : NC_ERR;
  err_apptag : option (list byte);
  err_path : option (list byte);
  err_message : option (list byte);
  err_message_lang : option (list byte);
  err_sid : Z;
  err_attr : list (list byte);
  err_elem : list (list byte);
  err_ns : list (list byte);
  err_other : list lyxml_elem
}.

(** [struct nc_server_reply] and the structures that extend it. *)
Inductive nc_server_reply :=
  | NC_RPL_OK
  | NC_RPL_DATA (data : lyd_node) (wd : NC_WD_MODE)
  | NC_RPL_ERROR (err : list nc_server_error)
  | NC_RPL_NOTIF.

Record nc_server_notif := {
  eventtime : list byte;
  tree : lyd_node
}.

(** The variable arguments of [nc_write_msg], by message type. *)
Inductive nc_msg_args :=
  | Args_RPC (content : lyd_node) (attrs : option (list byte))
  | Args_REPLY (rpc_elem : option lyxml_elem) (reply : nc_server_reply)
  | Args_NOTIF (notif : nc_server_notif)
  | Args_HELLO (capabilities : list (list byte)) (sid : option Z)
  | Args_other (type : NC_MSG_TYPE).

Definition nc_write_error (err : nc_server_error) : list clb_call :=
  [lit "<rpc-error>" 11]
  ++ [lit "<error-type>" 12]
  ++ [match err_type err with
      | NC_ERR_TYPE_TRAN => lit "transport" 9
      | NC_ERR_TYPE_RPC => lit "rpc" 3
      | NC_ERR_TYPE_PROT => lit "protocol" 8
      | NC_ERR_TYPE_APP => lit "application" 11
      end]
  ++ [lit "</error-type>" 13]
  ++ [lit "<error-tag>" 11]
  ++ [match err_tag err with
      | NC_ERR_IN_USE => lit "in-use" 6
      | NC_ERR_INVALID_VALUE => lit "invalid-value" 13
      | NC_ERR_TOO_BIG => lit "too-big" 7
      | NC_ERR_MISSING_ATTR => lit "missing-attribute" 17
      | NC_ERR_BAD_ATTR => lit "bad-attribute" 13
      | NC_ERR_UNKNOWN_ATTR => lit "unknown-attribute" 17
      | NC_ERR_MISSING_ELEM => lit "missing-element" 15
      | NC_ERR_BAD_ELEM => lit "bad-element" 11
      | NC_ERR_UNKNOWN_ELEM => lit "unknown-element" 15
      | NC_ERR_UNKNOWN_NS => lit "unknown-namespace" 17
      | NC_ERR_ACCESS_DENIED => lit "access-denied" 13
      | NC_ERR_LOCK_DENIED => lit "lock-denied" 11
      | NC_ERR_RES_DENIED => lit "resource-denied" 15
      | NC_ERR_ROLLBACK_FAILED => lit "rollback-failed" 15
      | NC_ERR_DATA_EXISTS => lit "data-exists" 11
      | NC_ERR_DATA_MISSING => lit "data-missing" 12
      | NC_ERR_OP_NOT_SUPPORTED => lit "operation-not-supported" 23
      | NC_ERR_OP_FAILED => lit "operation-failed" 16
      | NC_ERR_MALFORMED_MSG => lit "malformed-message" 17
      end]
  ++ [lit "</error-tag>" 12]
  ++ [lit "<error-severity>error</error-severity>" 38]
  ++ match err_apptag err with
     | Some apptag =>
         [lit "<error-app-tag>" 15; str apptag true; lit "</error-app-tag>" 16]
     | None => []
     end
  ++ match err_path err with
     | Some path =>
         [lit "<error-path>" 12; str path true; lit "</error-path>" 13]
     | None => []
     end
  ++ match err_message err with
     | Some message =>
         [lit "<error-message" 14]
         ++ match err_message_lang err with
            | Some lang => [raw (bytes " xml:lang=" ++ [DQ]) 11; str lang true; raw [DQ] 1]
            | None => []
            end
         ++ [lit ">" 1; str message true; lit "</error-message>" 16]
     | None => []
     end
  ++ (if (-1 <? err_sid err)
         || negb (length (err_attr err) =? 0)%nat
         || negb (length (err_elem err) =? 0)%nat
         || negb (length (err_ns err) =? 0)%nat
         || negb (length (err_other err) =? 0)%nat
      then
        [lit "<error-info>" 12]
        ++ (if -1 <? err_sid err
            then [lit "<session-id>" 12;
                  str (utoa (uint32 (err_sid err))) false;
                  lit "</session-id>" 13]
            else [])
        ++ flat_map (fun a => [lit "<bad-attribute>" 15; str a true;
                               lit "</bad-attribute>" 16]) (err_attr err)
        ++ flat_map (fun e => [lit "<bad-element>" 13; str e true;
                               lit "</bad-element>" 14]) (err_elem err)
        ++ flat_map (fun n => [lit "<bad-namespace>" 15; str n true;
                               lit "</bad-namespace>" 16]) (err_ns err)
        ++ flat_map (fun o => printed (lyxml_print_clb o [])) (err_other err)
        ++ [lit "</error-info>" 13]
      else [])
  ++ [lit "</rpc-error>" 12].

(** [nc_err(NC_ERR_MALFORMED_MSG)].
    Modelled from the spec: nc_err is defined outside io.c; the spec gives
    the error it builds for a malformed message: type rpc, tag
    malformed-message, nothing else. *)
Definition nc_err_malformed_msg : nc_server_error :=
  {| err_type := NC_ERR_TYPE_RPC; err_tag := NC_ERR_MALFORMED_MSG;
     err_apptag := None; err_path := None; err_message := None;
     err_message_lang := None; err_sid := -1; err_attr := []; err_elem := [];
     err_ns := []; err_other := [] |}.

(** [nc_server_reply_err]: the reply that carries one error. *)
Definition nc_server_reply_err (err : nc_server_error) : nc_server_reply :=
  NC_RPL_ERROR [err].

Definition set_warg_msgid (warg : wclb_arg) (m : Z) : wclb_arg :=
  {| warg_session := set_msgid (warg_session warg) m;
     warg_buf := warg_buf warg |}.

(** Whether rpc_elem && rpc_elem->ns && rpc_elem->ns->prefix, and the prefix. *)
Definition rpc_prefix (rpc_elem : option lyxml_elem) : option (list byte) :=
  match rpc_elem with
  | Some e => match elem_ns e with
              | Some ns => ns_prefix ns
              | None => None
              end
  | None => None
  end.

(** The start tag that asprintf builds in the NC_MSG_RPC case: NC_NS_BASE
    and attrs go through %s, the message id through PRIu64. *)
Definition rpc_start_tag (id : Z) (attrs : option (list byte)) : list byte :=
  bytes "<rpc xmlns=" ++ [DQ] ++ c_str NC_NS_BASE ++ [DQ]
  ++ bytes " message-id=" ++ [DQ] ++ utoa id ++ [DQ]
  ++ match attrs with Some a => c_str a | None => [] end
  ++ bytes ">".

(** The calls of the NC_MSG_REPLY case up to the closing tag. *)
Definition reply_calls (rpc_elem : option lyxml_elem) (reply : nc_server_reply)
    : list clb_call :=
  match rpc_prefix rpc_elem with
  | Some prefix => [lit "<" 1; str prefix false; lit ":rpc-reply" 10]
  | None => [lit "<rpc-reply" 10]
  end
  ++ match rpc_elem with
     | Some e =>
         printed (lyxml_print_clb e [LYXML_PRINT_ATTRS]) ++ [lit ">" 1]
     | None =>
         (* but put there at least the correct namespace *)
         [raw (bytes "xmlns=" ++ [DQ] ++ NC_NS_BASE ++ [DQ] ++ bytes ">") 48]
     end
  ++ match reply with
     | NC_RPL_OK => [lit "<ok/>" 5]
     | NC_RPL_DATA data wd =>
         let wd := match wd with
                   | NC_WD_UNKNOWN | NC_WD_EXPLICIT => LYP_WD_EXPLICIT
                   | NC_WD_TRIM => LYP_WD_TRIM
                   | NC_WD_ALL => LYP_WD_ALL
                   | NC_WD_ALL_TAG => LYP_WD_ALL_TAG
                   end in
         printed (lyd_print_clb data [LYP_WITHSIBLINGS; LYP_NETCONF; wd])
     | NC_RPL_ERROR errs => flat_map nc_write_error errs
     | NC_RPL_NOTIF => []
     end.

Definition reply_end_calls (rpc_elem : option lyxml_elem) : list clb_call :=
  match rpc_prefix rpc_elem with
  | Some prefix => [lit "</" 2; str prefix false; lit ":rpc-reply>" 11]
  | None => [lit "</rpc-reply>" 12]
  end.

Definition hello_calls (capabilities : list (list byte)) (sid : option Z)
    : list clb_call :=
  let buf := bytes "<hello xmlns=" ++ [DQ] ++ c_str NC_NS_BASE ++ [DQ]
             ++ bytes "><capabilities>" in
  [raw buf (len buf)]
  ++ flat_map (fun c => [lit "<capability>" 12; str c true;
                         lit "</capability>" 13]) capabilities
  ++ match sid with
     | Some sid =>
         let buf := bytes "</capabilities><session-id>" ++ utoa (uint32 sid)
                    ++ bytes "</session-id></hello>" in
         [raw buf (len buf)]
     | None => [lit "</capabilities></hello>" 23]
     end.

Definition notif_calls (notif : nc_server_notif) : list clb_call :=
  [raw (bytes "<notification xmlns=" ++ [DQ] ++ NC_NS_NOTIF ++ [DQ] ++ bytes ">")
       (21 + 47 + 2);
   lit "<eventTime>" 11;
   str (eventtime notif) false;
   lit "</eventTime>" 12]
  ++ printed (lyd_print_clb (tree notif) [])
  ++ [lit "</notification>" 12].

(** [nc_write_msg]: 0, or -1 with a session that may have changed. *)
Definition nc_write_msg (session : nc_session) (args : nc_msg_args)
    : Z * nc_session :=
  if not_usable session then (-1, session)
  else
    let arg := {| warg_session := session; warg_buf := [] |} in
    (* flush message *)
    let flush_message arg :=
      let '(_, arg) := nc_write_clb arg None 0 false in
      if not_usable (warg_session arg) then (-1, warg_session arg)
      else (0, warg_session arg) in
    match args with
    | Args_RPC content attrs =>
        let buf := rpc_start_tag (uint64 (msgid session + 1)) attrs in
        let arg := nc_write_calls arg
                     ([raw buf (len buf)]
                      ++ printed (lyd_print_clb content
                                    [LYP_WITHSIBLINGS; LYP_NETCONF])
                      ++ [lit "</rpc>" 6]) in
        (* session->msgid++ *)
        let arg := set_warg_msgid arg (uint64 (msgid (warg_session arg) + 1)) in
        flush_message arg
    | Args_REPLY rpc_elem reply =>
        let arg := nc_write_calls arg (reply_calls rpc_elem reply) in
        match reply with
        | NC_RPL_NOTIF =>
            (* default: *)
            let '(_, arg) := nc_write_clb arg None 0 false in
            (-1, warg_session arg)
        | _ =>
            flush_message (nc_write_calls arg (reply_end_calls rpc_elem))
        end
    | Args_NOTIF notif =>
        flush_message (nc_write_calls arg (notif_calls notif))
    | Args_HELLO capabilities sid =>
        if match version session with NC_VERSION_10 => false | _ => true end
        then (-1, session)
        else flush_message (nc_write_calls arg (hello_calls capabilities sid))
    | Args_other _ => (-1, session)
    end.

(** ** Reading a message ([nc_read_msg]) *)

(** How the switch on the protocol version ends: with the message body in
    msg, at the label malformed_msg, or at the label error. *)
Inductive frame_res :=
  | Frame_msg (msg : list byte) (session : nc_session)
  | Frame_malformed (session : nc_session)
  | Frame_error (session : nc_session).

(** msg[i] = 0 on the string [msg].  An index before the buffer, which takes
    a frame of 2^31 bytes or more, is a store that C leaves undefined; the
    string is then kept as it was read. *)
Definition cut_at (i : Z) (msg : list byte) : list byte :=
  if 0 <=? i then firstn (Z.to_nat i) msg else msg.

(** case NC_VERSION_10 *)
Definition nc_read_msg_v10 (session : nc_session) (read_timeout : Z)
    : option frame_res :=
  match nc_read_until session NC_VERSION_10_ENDTAG 0 read_timeout with
  | None => None
  | Some r =>
      (* int ret *)
      let ret := to_int (rr_ret r) in
      if ret =? -1 then Some (Frame_error (rr_session r))
      else
        (* cut off the end tag *)
        Some (Frame_msg (cut_at (ret - NC_VERSION_10_ENDTAG_LEN) (rr_buf r))
                        (rr_session r))
  end.

(** case NC_VERSION_11: the while (1) loop over the chunks.  [msg] is the
    message buffer, [None] while it is a null pointer; its length is the
    variable len of the C code.  What the three reads return goes through
    the int ret before it is compared with -1.  [fuel] bounds the
    iterations. *)
Fixpoint nc_read_msg_v11 (fuel : nat) (session : nc_session) (read_timeout : Z)
    (msg : option (list byte)) : option frame_res :=
  match fuel with
  | O => None
  | S fuel' =>
      match nc_read_until session [LF; "#"%byte] 0 read_timeout with
      | None => None
      | Some r1 =>
          if to_int (rr_ret r1) =? -1 then Some (Frame_error (rr_session r1))
          else
            match nc_read_until (rr_session r1) [LF] 0 (rr_timeout r1) with
            | None => None
            | Some r2 =>
                if to_int (rr_ret r2) =? -1
                then Some (Frame_error (rr_session r2))
                else
                  let chunk := rr_buf r2 in
                  if strcmp chunk ["#"%byte; LF] =? 0 then
                    (* end of chunked framing message *)
                    match msg with
                    | None => Some (Frame_malformed (rr_session r2))
                    | Some m => Some (Frame_msg m (rr_session r2))
                    end
                  else
                    (* convert string to the size of the following chunk *)
                    let chunk_len := strtoul chunk in
                    if chunk_len =? 0 then
                      Some (Frame_malformed (rr_session r2))
                    else
                      (* now we have size of next chunk, so read the chunk *)
                      let r3 := nc_read_chunk (rr_session r2) chunk_len
                                              (rr_timeout r2) in
                      if to_int (rr_ret r3) =? -1 then
                        Some (Frame_error (rr_session r3))
                      else
                        let m := match msg with Some m => m | None => [] end in
                        nc_read_msg_v11 fuel' (rr_session r3) (rr_timeout r3)
                          (Some (m ++ firstn (Z.to_nat chunk_len) (rr_buf r3)))
            end
      end
  end.

(** The switch that reads the message. *)
Definition nc_read_frame (session : nc_session) : option frame_res :=
  let read_timeout := NC_READ_TIMEOUT in
  match version session with
  | NC_VERSION_10 => nc_read_msg_v10 session read_timeout
  | NC_VERSION_11 =>
      nc_read_msg_v11 (S (stream_size (rd_script (ti_fd_in session))))
                      session read_timeout None
  end.

Definition msg_result : Type := NC_MSG_TYPE * option lyxml_elem * nc_session.

(** The label error. *)
Definition read_error (session : nc_session) : msg_result :=
  (NC_MSG_ERROR, None, session).

(** The label malformed_msg, which runs on into error. *)
Definition read_malformed_msg (session : nc_session) : msg_result :=
  match side session, version session with
  | NC_SERVER, NC_VERSION_11 =>
      (* NETCONF version 1.1 defines sending error reply from the server *)
      let reply := nc_server_reply_err nc_err_malformed_msg in
      let '(ret, session) := nc_write_msg session (Args_REPLY None reply) in
      if ret =? -1 then
        match status session with
        | NC_STATUS_INVALID => read_error session
        | _ => read_error (set_status session NC_STATUS_INVALID
                                      NC_SESSION_TERM_OTHER)
        end
      else read_error session
  | _, _ => read_error session
  end.

(** What follows the switch: build the XML tree, then get and return the
    message type. *)
Definition nc_classify (session : nc_session) (msg : list byte) : msg_result :=
  match lyxml_parse_mem (c_str msg) with
  | None => read_malformed_msg session
  | Some data =>
      match elem_ns data with
      | None => read_malformed_msg session
      | Some ns =>
          if strcmp (ns_value ns) NC_NS_BASE =? 0 then
            if strcmp (elem_name data) (bytes "rpc") =? 0 then
              (NC_MSG_RPC, Some data, session)
            else if strcmp (elem_name data) (bytes "rpc-reply") =? 0 then
              (NC_MSG_REPLY, Some data, session)
            else if strcmp (elem_name data) (bytes "hello") =? 0 then
              (NC_MSG_HELLO, Some data, session)
            else read_malformed_msg session
          else if strcmp (ns_value ns) NC_NS_NOTIF =? 0 then
            if strcmp (elem_name data) (bytes "notification") =? 0 then
              (NC_MSG_NOTIF, Some data, session)
            else read_malformed_msg session
          else read_malformed_msg session
      end
  end.

(** [nc_read_msg]: the message type, *data and the session; [None] only if
    the fuel of the loops ran out (it never does, see [nc_read_msg_total]). *)
Definition nc_read_msg (session : nc_session) : option msg_result :=
  if not_usable session then Some (read_error session)
  else
    match nc_read_frame session with
    | None => None
    | Some (Frame_error session) => Some (read_error session)
    | Some (Frame_malformed session) => Some (read_malformed_msg session)
    | Some (Frame_msg msg session) => Some (nc_classify session msg)
    end.

End Messages.

(** ** Polling before a read ([nc_read_poll], [nc_read_msg_poll]) *)

(** What poll(2) answers on the input descriptor within the timeout of the
    caller: its return value, and the POLLHUP and POLLERR bits of revents. *)
Record poll_answer := {
  poll_ret : Z;
  revents_hup : bool;
  revents_err : bool
}.

(** [nc_read_poll] on a file descriptor; a session without transport falls
    to the default case of the switch. *)
Definition nc_read_poll (session : nc_session) (answer : poll_answer)
    : Z * nc_session :=
  if not_usable session then (-1, session)
  else
    match ti_type session with
    | NC_TI_FD =>
        let ret := poll_ret answer in
        (* process the poll result *)
        if ret <? 0 then
          (* poll failed - something really bad happened, close the session *)
          (-1, set_status session NC_STATUS_INVALID NC_SESSION_TERM_OTHER)
        else if revents_hup answer then
          (-1, set_status session NC_STATUS_INVALID NC_SESSION_TERM_DROPPED)
        else if revents_err answer then
          (-1, set_status session NC_STATUS_INVALID NC_SESSION_TERM_OTHER)
        else (ret, session)
    | NC_TI_NONE => (-1, session)
    end.

Section Polling.

Context {LY : LibYang}.

Definition nc_read_msg_poll (session : nc_session) (answer : poll_answer)
    : option msg_result :=
  if not_usable session then Some (NC_MSG_ERROR, None, session)
  else
    let '(ret, session) := nc_read_poll session answer in
    if ret =? 0 then
      (* timed out *)
      Some (NC_MSG_WOULDBLOCK, None, session)
    else if ret <? 0 then
      (* poll error, error written *)
      Some (NC_MSG_ERROR, None, session)
    else nc_read_msg session.

End Polling.

(** * Vocabulary of the statements *)

(** A buffer without NUL bytes is the string it denotes. *)
Definition nul_free (s : list byte) : bool := forallb (fun b => negb (is_nul b)) s.

(** The number a list of digits, least significant first, stands for. *)
Definition digits_value (ds : list Z) : Z :=
  fold_right (fun d acc => 10 * acc + d) 0 ds.

Definition is_decimal_digit (d : Z) : Prop := 0 <= d < 10.

(** The digits of a numeral, most significant first. *)
Definition utoa_digits (n : Z) : list Z :=
  rev (digits_le (S (Z.to_nat (Z.log2 n))) n).

(** A byte that ends a numeral: not a digit. *)
Definition ends_numeral (rest : list byte) : Prop :=
  match rest with
  | [] => True
  | b :: _ => is_digit b = false
  end.

(** A session that passes the test on its status. *)
Definition usable (s : nc_session) : Prop := not_usable s = false.

(** [delivers evs bs rest]: the reads of script [evs] hand over the bytes
    [bs], in segments of any size, without blocking, and [rest] is the script
    after the last of these bytes. *)
Inductive delivers : list rd_event -> list byte -> list rd_event -> Prop :=
  | delivers_nil evs : delivers evs [] evs
  | delivers_seg b seg evs bs rest :
      delivers evs bs rest ->
      delivers (RdData (b :: seg) :: evs) ((b :: seg) ++ bs) rest
  | delivers_part b seg b' seg' evs :
      delivers (RdData ((b :: seg) ++ b' :: seg') :: evs) (b :: seg)
               (RdData (b' :: seg') :: evs).

(** The first place where [endtag] occurs in [pre ++ endtag] is its end. *)
Definition first_at_end (endtag pre : list byte) : Prop :=
  forall k, (k < length pre)%nat ->
            firstn (length endtag) (skipn k (pre ++ endtag)) <> endtag.

(** One chunk of NETCONF 1.1 framing on the wire, and the end of chunks. *)
Definition chunk_frame (block : list byte) : list byte :=
  chunk_header (len block) ++ block.

Definition END_OF_CHUNKS : list byte := [LF; "#"%byte; "#"%byte; LF].

(** A block that a chunk header can announce: not empty, with a length that
    fits the size_t the writer holds it in. *)
Definition chunk_sized (block : list byte) : Prop :=
  block <> [] /\ len block <= ULONG_MAX.

(** A block that the reader takes as a chunk: not empty, with a length that
    fits the int in which [nc_read_msg] keeps what [nc_read_chunk] returns. *)
Definition chunk_ok (block : list byte) : Prop :=
  block <> [] /\ len block <= INT_MAX.

(** A transport without faults: every poll finds the descriptor quiet, no
    write fails (but a write may take only part of what it is offered). *)
Definition poll_quiet (p : poll_event) : Prop := p = PollReady \/ p = PollIntr.

Definition accepts (e : wr_event) : Prop := e <> WrError.

Record healthy (s : nc_session) : Prop := {
  healthy_usable : usable s;
  healthy_fd : ti_type s = NC_TI_FD;
  healthy_poll : Forall poll_quiet (poll_script (ti_fd_in s));
  healthy_write : Forall accepts (wr_script (ti_fd_out s))
}.

(** [sent s bs s']: [s'] is [s] after the bytes [bs] went out on the wire,
    with what is left of fault-free poll and write scripts. *)
Definition sent (s : nc_session) (bs : list byte) (s' : nc_session) : Prop :=
  exists ps ws,
    Forall poll_quiet ps /\ Forall accepts ws /\
    s' = set_fd_out (set_poll_script s ps)
           {| wr_script := ws; wire := wire (ti_fd_out s) ++ bs |}.

(** XML content escaping, as the spec words it: the ampersand and the two
    angle brackets are replaced by their entities, every other byte is
    copied. *)
Definition xml_escape_char (b : byte) : list byte :=
  if Byte.eqb b "&"%byte then bytes "&amp;"
  else if Byte.eqb b "<"%byte then bytes "&lt;"
  else if Byte.eqb b ">"%byte then bytes "&gt;"
  else [b].

Definition xml_escape (text : list byte) : list byte :=
  flat_map xml_escape_char text.

(** The bytes one call of the write callback adds to the message body. *)
Definition call_bytes (c : clb_call) : list byte :=
  let data := firstn (Z.to_nat (cc_count c)) (cc_buf c) in
  if cc_xmlcontent c then xml_escape data else data.

Definition calls_bytes (calls : list clb_call) : list byte :=
  flat_map call_bytes calls.

(** A call whose count is within its buffer. *)
Definition call_ok (c : clb_call) : Prop :=
  0 <= cc_count c <= len (cc_buf c).

(** How a sequence of blocks goes out: as they are in NETCONF 1.0, each in a
    chunk in NETCONF 1.1. *)
Definition on_wire (v : NC_VERSION) (blocks : list (list byte)) : list byte :=
  match v with
  | NC_VERSION_10 => concat blocks
  | NC_VERSION_11 => concat (map chunk_frame blocks)
  end.

(** What ends a message on the wire. *)
Definition end_of_message (v : NC_VERSION) : list byte :=
  match v with
  | NC_VERSION_10 => NC_VERSION_10_ENDTAG
  | NC_VERSION_11 => END_OF_CHUNKS
  end.

(** The staging buffer as one block, or no block when it is empty. *)
Definition staged_block (buf : list byte) : list (list byte) :=
  match buf with
  | [] => []
  | _ => [buf]
  end.

(** A writer state on a fault-free transport with a staging buffer within
    its bounds. *)
Definition staged_ok (w : wclb_arg) : Prop :=
  healthy (warg_session w) /\ warg_len w <= WRITE_BUFSIZE.

(** [framed v body frame]: [frame] is the message [body] as it goes out in
    version [v]: the body and the end tag in NETCONF 1.0; the body cut into
    chunks, and the end of chunks, in NETCONF 1.1. *)
Definition framed (v : NC_VERSION) (body frame : list byte) : Prop :=
  exists blocks,
    Forall (fun b => b <> []) blocks /\ concat blocks = body
    /\ frame = on_wire v blocks ++ end_of_message v.

(** [pat] occurs in [l]; [l] ends with [pat]. *)
Definition contains (pat l : list byte) : Prop :=
  exists pre post, l = pre ++ pat ++ post.

Definition ends_with (pat l : list byte) : Prop :=
  exists pre, l = pre ++ pat.

(** A running session on file descriptors, with a given read script, a
    fault-free output and nothing on the wire yet. *)
Definition session_on (v : NC_VERSION) (sd : NC_SIDE) (input : list rd_event)
    : nc_session :=
  {| status := NC_STATUS_RUNNING; term_reason := NC_SESSION_TERM_NONE;
     side := sd; id := 1; version := v; ti_type := NC_TI_FD;
     ti_fd_in := {| rd_script := input; poll_script := [] |};
     ti_fd_out := {| wr_script := []; wire := [] |};
     msgid := 0 |}.

(** A libyang stand-in for the examples: an XML root is its name and its
    namespace, a data tree is the list of buffers its printer emits, and the
    parser takes every body for an rpc in the base namespace. *)
Record example_elem := {
  ex_name : list byte;
  ex_ns : option lyxml_ns
}.

Definition ExampleYang : LibYang :=
  {| lyxml_elem := example_elem;
     lyd_node := list (list byte);
     elem_name := ex_name;
     elem_ns := ex_ns;
     lyxml_parse_mem := fun _ =>
       Some {| ex_name := bytes "rpc";
               ex_ns := Some {| ns_prefix := None; ns_value := NC_NS_BASE |} |};
     lyxml_print_clb := fun _ _ => [];
     lyd_print_clb := fun t _ => t |}.

(** The body of a hello message: the capabilities in content mode, the
    session id if there is one. *)
Definition hello_body (capabilities : list (list byte)) (sid : option Z)
    : list byte :=
  bytes "<hello xmlns=" ++ [DQ] ++ NC_NS_BASE ++ [DQ] ++ bytes "><capabilities>"
  ++ flat_map (fun c => bytes "<capability>" ++ xml_escape (c_str c)
                        ++ bytes "</capability>") capabilities
  ++ match sid with
     | Some sid => bytes "</capabilities><session-id>" ++ utoa (uint32 sid)
                   ++ bytes "</session-id></hello>"
     | None => bytes "</capabilities></hello>"
     end.

(** [root_is msg ns name]: the body [msg] parses, and its root element has
    the namespace [ns] and the name [name]. *)
Definition root_is {LY : LibYang} (msg ns name : list byte) : Prop :=
  exists data r,
    lyxml_parse_mem (c_str msg) = Some data /\ elem_ns data = Some r
    /\ c_str (ns_value r) = ns /\ c_str (elem_name data) = name.

(** The four roots that make a message. *)
Definition known_root {LY : LibYang} (msg : list byte) : Prop :=
  root_is msg NC_NS_BASE (bytes "hello")
  \/ root_is msg NC_NS_BASE (bytes "rpc")
  \/ root_is msg NC_NS_BASE (bytes "rpc-reply")
  \/ root_is msg NC_NS_NOTIF (bytes "notification").

(** The rpc-error element of the reply to a malformed message. *)
Definition rpc_error_malformed : list byte :=
  bytes "<rpc-error><error-type>rpc</error-type><error-tag>malformed-message</error-tag><error-severity>error</error-severity></rpc-error>".

(** A frame that is not an error leaves the session as it was, but for the
    read script. *)
Definition frame_session (s : nc_session) (fr : frame_res) : Prop :=
  match fr with
  | Frame_error _ => True
  | Frame_msg _ s1 | Frame_malformed s1 => exists e, s1 = set_rd_script s e
  end.

(** The message-id attribute of an rpc, as the spec has it: the name, and
    the counter in decimal between double quotes. *)
Definition message_id_attr (id : Z) : list byte :=
  bytes " message-id=" ++ [DQ] ++ utoa id ++ [DQ].

(** The body of an rpc with a given message id, as it is to be on the wire:
    the rpc element in the base namespace, with the message-id attribute and
    the attributes of the caller, around the printed content. *)
Definition rpc_body {LY : LibYang} (id : Z) (content : lyd_node)
    (attrs : option (list byte)) : list byte :=
  bytes "<rpc xmlns=" ++ [DQ]
  ++ bytes "urn:ietf:params:xml:ns:netconf:base:1.0" ++ [DQ]
  ++ message_id_attr id
  ++ match attrs with Some a => c_str a | None => [] end
  ++ bytes ">"
  ++ concat (lyd_print_clb content [LYP_WITHSIBLINGS; LYP_NETCONF])
  ++ bytes "</rpc>".

(** The rpcs of a list sent one after the other: what the calls of
    nc_write_msg return and the session after the last. *)
Fixpoint nc_send_rpcs {LY : LibYang} (s : nc_session)
    (rpcs : list (lyd_node * option (list byte))) : list Z * nc_session :=
  match rpcs with
  | [] => ([], s)
  | (content, attrs) :: rpcs' =>
      let '(ret, s1) := nc_write_msg s (Args_RPC content attrs) in
      let '(rets, s2) := nc_send_rpcs s1 rpcs' in
      (ret :: rets, s2)
  end.

(** [rpc_frames v id rpcs frames]: the frames are those of the rpcs, in
    order, with the message ids [id], [id + 1], [id + 2], ... *)
Fixpoint rpc_frames {LY : LibYang} (v : NC_VERSION) (id : Z)
    (rpcs : list (lyd_node * option (list byte))) (frames : list (list byte))
    : Prop :=
  match rpcs, frames with
  | [], [] => True
  | (content, attrs) :: rpcs', frame :: frames' =>
      framed v (rpc_body id content attrs) frame
      /\ rpc_frames v (id + 1) rpcs' frames'
  | _, _ => False
  end.

(** What nc_write_msg writes as the body of a notification: the closing tag
    goes out with the count 12. *)
Definition notif_written {LY : LibYang} (notif : nc_server_notif) : list byte :=
  bytes "<notification xmlns=" ++ [DQ] ++ NC_NS_NOTIF ++ [DQ] ++ bytes ">"
  ++ bytes "<eventTime>" ++ c_str (eventtime notif) ++ bytes "</eventTime>"
  ++ concat (lyd_print_clb (tree notif) [])
  ++ bytes "</notificati".

(** The reads that would block among those that [nc_read] makes on a script
    until it has [count] bytes; [None] when the script ends, fails or is at
    end of file before that. *)
Fixpoint sleeps_before (count : Z) (evs : list rd_event) : option Z :=
  match evs with
  | [] => None
  | RdError :: _ => None
  | RdIntr :: evs' => sleeps_before count evs'
  | RdAgain :: evs' => option_map Z.succ (sleeps_before count evs')
  | RdData bs :: evs' =>
      if len bs =? 0 then None
      else if count <=? len bs then Some 0
      else sleeps_before (count - len bs) evs'
  end.

(** All the reads of a script that would block. *)
Fixpoint sleeps (evs : list rd_event) : Z :=
  match evs with
  | [] => 0
  | RdAgain :: evs' => 1 + sleeps evs'
  | _ :: evs' => sleeps evs'
  end.

(** What is left to come on the input of a session. *)
Definition left_to_read (s : nc_session) : nat :=
  stream_size (rd_script (ti_fd_in s)).

(** [wrote s s']: what the writer leaves of a session, whatever the transport
    does: bytes added to the wire, poll and write scripts used up, and a
    status that is as before or Invalid with the reason Dropped.  The input
    still to be read and the message counter are as before. *)
Definition wrote (s s' : nc_session) : Prop :=
  side s' = side s /\ id s' = id s /\ version s' = version s
  /\ ti_type s' = ti_type s /\ msgid s' = msgid s
  /\ rd_script (ti_fd_in s') = rd_script (ti_fd_in s)
  /\ (exists out, wire (ti_fd_out s') = wire (ti_fd_out s) ++ out)
  /\ (status s' = status s /\ term_reason s' = term_reason s
      \/ status s' = NC_STATUS_INVALID
         /\ term_reason s' = NC_SESSION_TERM_DROPPED).

(** A session whose peer is there at every poll; its writes may fail. *)
Definition connected (s : nc_session) : Prop :=
  usable s /\ ti_type s = NC_TI_FD
  /\ Forall poll_quiet (poll_script (ti_fd_in s)).

(** What every step of the writer keeps: [wrote], and a peer that is there
    stays there. *)
Definition writes (s s' : nc_session) : Prop :=
  wrote s s' /\ (connected s -> connected s').

(** The arguments with which [nc_write_msg] gets as far as writing a whole
    message on session [s]. *)
Definition sendable {LY : LibYang} (s : nc_session) (args : nc_msg_args)
    : Prop :=
  match args with
  | Args_RPC _ _ | Args_NOTIF _ => True
  | Args_REPLY _ reply => reply <> NC_RPL_NOTIF
  | Args_HELLO _ _ => version s = NC_VERSION_10
  | Args_other _ => False
  end.

(** The bytes a read script holds before the peer closes or the descriptor
    fails, whatever the reads that would block or are interrupted between
    them. *)
Fixpoint stream_bytes (evs : list rd_event) : list byte :=
  match evs with
  | [] => []
  | RdData [] :: _ => []
  | RdData bs :: evs' => bs ++ stream_bytes evs'
  | RdAgain :: evs' | RdIntr :: evs' => stream_bytes evs'
  | RdError :: _ => []
  end.

(** [reads s s']: what the reader leaves of a session that it did not give
    up: only the read script has moved on. *)
Definition reads (s s' : nc_session) : Prop :=
  exists e, s' = set_rd_script s e.

(** Bytes before a chunk header that the reader passes over: they hold no
    line feed followed by a hash sign, and with the two bytes that end them
    they have a length that an int holds. *)
Definition noise_ok (noise : list byte) : Prop :=
  ~ contains [LF; "#"%byte] noise
  /\ len (noise ++ [LF; "#"%byte]) <= INT_MAX.

(** Chunks on the wire, each with bytes before its header that are not part
    of any chunk. *)
Definition chunks_with_noise (parts : list (list byte * list byte))
    : list byte :=
  flat_map (fun p => fst p ++ chunk_frame (snd p)) parts.

(** One message on the wire, from the blocks it was written in. *)
Definition frame_of (v : NC_VERSION) (blocks : list (list byte)) : list byte :=
  on_wire v blocks ++ end_of_message v.

(** The blocks of a message that the reader of version [v] takes back: in
    NETCONF 1.0 a body in which the end tag first occurs at the end of the
    frame, in a frame of a length that an int holds; in NETCONF 1.1 at least
    one chunk and no empty one, each of a length that an int holds. *)
Definition readable (v : NC_VERSION) (blocks : list (list byte)) : Prop :=
  match v with
  | NC_VERSION_10 =>
      first_at_end NC_VERSION_10_ENDTAG (concat blocks)
      /\ len (concat blocks ++ NC_VERSION_10_ENDTAG) <= INT_MAX
  | NC_VERSION_11 => Forall chunk_ok blocks /\ blocks <> []
  end.

(** [reads_frames s bodies s']: successive calls of the message reader on
    [s] give the bodies, in order, and leave [s']. *)
Fixpoint reads_frames (s : nc_session) (bodies : list (list byte))
    (s' : nc_session) : Prop :=
  match bodies with
  | [] => s' = s
  | body :: bodies' =>
      exists s1,
        nc_read_frame s = Some (Frame_msg body s1)
        /\ reads_frames s1 bodies' s'
  end.

(** [read_from s s']: what the reader leaves of a session, whatever the
    input: only the read script has moved on, and the status is as before or
    Invalid with the reason Dropped or Other. *)
Definition read_from (s s' : nc_session) : Prop :=
  side s' = side s /\ id s' = id s /\ version s' = version s
  /\ ti_type s' = ti_type s /\ msgid s' = msgid s
  /\ ti_fd_out s' = ti_fd_out s
  /\ poll_script (ti_fd_in s') = poll_script (ti_fd_in s)
  /\ (status s' = status s /\ term_reason s' = term_reason s
      \/ status s' = NC_STATUS_INVALID
         /\ (term_reason s' = NC_SESSION_TERM_DROPPED
             \/ term_reason s' = NC_SESSION_TERM_OTHER)).

(** The session a frame result carries. *)
Definition frame_res_session (fr : frame_res) : nc_session :=
  match fr with
  | Frame_msg _ s | Frame_malformed s | Frame_error s => s
  end.

(** The text of an error type and of an error tag. *)
Definition err_type_name (t : NC_ERR_TYPE) : list byte :=
  match t with
  | NC_ERR_TYPE_TRAN => bytes "transport"
  | NC_ERR_TYPE_RPC => bytes "rpc"
  | NC_ERR_TYPE_PROT => bytes "protocol"
  | NC_ERR_TYPE_APP => bytes "application"
  end.

Definition err_tag_name (t : NC_ERR) : list byte :=
  match t with
  | NC_ERR_IN_USE => bytes "in-use"
  | NC_ERR_INVALID_VALUE => bytes "invalid-value"
  | NC_ERR_TOO_BIG => bytes "too-big"
  | NC_ERR_MISSING_ATTR => bytes "missing-attribute"
  | NC_ERR_BAD_ATTR => bytes "bad-attribute"
  | NC_ERR_UNKNOWN_ATTR => bytes "unknown-attribute"
  | NC_ERR_MISSING_ELEM => bytes "missing-element"
  | NC_ERR_BAD_ELEM => bytes "bad-element"
  | NC_ERR_UNKNOWN_ELEM => bytes "unknown-element"
  | NC_ERR_UNKNOWN_NS => bytes "unknown-namespace"
  | NC_ERR_ACCESS_DENIED => bytes "access-denied"
  | NC_ERR_LOCK_DENIED => bytes "lock-denied"
  | NC_ERR_RES_DENIED => bytes "resource-denied"
  | NC_ERR_ROLLBACK_FAILED => bytes "rollback-failed"
  | NC_ERR_DATA_EXISTS => bytes "data-exists"
  | NC_ERR_DATA_MISSING => bytes "data-missing"
  | NC_ERR_OP_NOT_SUPPORTED => bytes "operation-not-supported"
  | NC_ERR_OP_FAILED => bytes "operation-failed"
  | NC_ERR_MALFORMED_MSG => bytes "malformed-message"
  end.

(** A string of the application as it goes into a message: up to its
    terminator, escaped. *)
Definition escaped (s : list byte) : list byte := xml_escape (c_str s).

(** What the error-info element of a server error holds, and whether the
    error has one: it has when there is a session id (one above -1) or any
    bad attribute, element, namespace or other item. *)
Definition error_info {LY : LibYang} (err : nc_server_error) : list byte :=
  (if -1 <? err_sid err
   then bytes "<session-id>" ++ utoa (uint32 (err_sid err))
        ++ bytes "</session-id>"
   else [])
  ++ flat_map (fun a => bytes "<bad-attribute>" ++ escaped a
                        ++ bytes "</bad-attribute>") (err_attr err)
  ++ flat_map (fun e => bytes "<bad-element>" ++ escaped e
                        ++ bytes "</bad-element>") (err_elem err)
  ++ flat_map (fun n => bytes "<bad-namespace>" ++ escaped n
                        ++ bytes "</bad-namespace>") (err_ns err)
  ++ flat_map (fun o => concat (lyxml_print_clb o [])) (err_other err).

Definition has_error_info {LY : LibYang} (err : nc_server_error) : bool :=
  (-1 <? err_sid err)
  || match err_attr err, err_elem err, err_ns err, err_other err with
     | [], [], [], [] => false
     | _, _, _, _ => true
     end.

(** The rpc-error element of a server error, as text. *)
Definition rpc_error_body {LY : LibYang} (err : nc_server_error) : list byte :=
  bytes "<rpc-error>"
  ++ bytes "<error-type>" ++ err_type_name (err_type err)
  ++ bytes "</error-type>"
  ++ bytes "<error-tag>" ++ err_tag_name (err_tag err) ++ bytes "</error-tag>"
  ++ bytes "<error-severity>error</error-severity>"
  ++ match err_apptag err with
     | Some apptag =>
         bytes "<error-app-tag>" ++ escaped apptag ++ bytes "</error-app-tag>"
     | None => []
     end
  ++ match err_path err with
     | Some path =>
         bytes "<error-path>" ++ escaped path ++ bytes "</error-path>"
     | None => []
     end
  ++ match err_message err with
     | Some message =>
         bytes "<error-message"
         ++ match err_message_lang err with
            | Some lang => bytes " xml:lang=" ++ [DQ] ++ escaped lang ++ [DQ]
            | None => []
            end
         ++ bytes ">" ++ escaped message ++ bytes "</error-message>"
     | None => []
     end
  ++ (if has_error_info err
      then bytes "<error-info>" ++ error_info err ++ bytes "</error-info>"
      else [])
  ++ bytes "</rpc-error>".

(** The name of the reply element: rpc-reply, with the prefix of the rpc
    that is answered if it has one. *)
Definition reply_name {LY : LibYang} (rpc_elem : option lyxml_elem)
    : list byte :=
  match rpc_prefix rpc_elem with
  | Some prefix => c_str prefix ++ bytes ":rpc-reply"
  | None => bytes "rpc-reply"
  end.

(** The start tag of a reply: the attributes of the rpc that is answered,
    as libyang prints them; without an rpc, the base namespace, which the
    code puts right after the name. *)
Definition reply_start_tag {LY : LibYang} (rpc_elem : option lyxml_elem)
    : list byte :=
  bytes "<" ++ reply_name rpc_elem
  ++ match rpc_elem with
     | Some e => concat (lyxml_print_clb e [LYXML_PRINT_ATTRS]) ++ bytes ">"
     | None => bytes "xmlns=" ++ [DQ] ++ NC_NS_BASE ++ [DQ] ++ bytes ">"
     end.

Definition reply_content {LY : LibYang} (reply : nc_server_reply)
    : list byte :=
  match reply with
  | NC_RPL_OK => bytes "<ok/>"
  | NC_RPL_DATA data wd =>
      concat (lyd_print_clb data
                [LYP_WITHSIBLINGS; LYP_NETCONF;
                 match wd with
                 | NC_WD_UNKNOWN | NC_WD_EXPLICIT => LYP_WD_EXPLICIT
                 | NC_WD_TRIM => LYP_WD_TRIM
                 | NC_WD_ALL => LYP_WD_ALL
                 | NC_WD_ALL_TAG => LYP_WD_ALL_TAG
                 end])
  | NC_RPL_ERROR errs => flat_map rpc_error_body errs
  | NC_RPL_NOTIF => []
  end.

Definition reply_body {LY : LibYang} (rpc_elem : option lyxml_elem)
    (reply : nc_server_reply) : list byte :=
  reply_start_tag rpc_elem ++ reply_content reply
  ++ bytes "</" ++ reply_name rpc_elem ++ bytes ">".

(** [gt_free_after prev l]: in [l] no right angle bracket follows a right
    square bracket, nor is one at the head when [prev] says that a right
    square bracket came before.  [tag_safe]: text that can neither hold nor
    complete the end tag of NETCONF 1.0, whatever comes before it. *)
Fixpoint gt_free_after (prev : bool) (l : list byte) : bool :=
  match l with
  | [] => true
  | b :: l' =>
      if Byte.eqb b ">"%byte then negb prev && gt_free_after false l'
      else gt_free_after (Byte.eqb b "]"%byte) l'
  end.

Definition tag_safe (l : list byte) : bool := gt_free_after true l.

(** The body of the message that [nc_write_msg] writes for an rpc, a reply
    or a notification on session [s]. *)
Definition message_body {LY : LibYang} (s : nc_session) (args : nc_msg_args)
    : list byte :=
  match args with
  | Args_RPC content attrs => rpc_body (uint64 (msgid s + 1)) content attrs
  | Args_REPLY rpc_elem reply => reply_body rpc_elem reply
  | Args_NOTIF notif => notif_written notif
  | Args_HELLO capabilities sid => hello_body capabilities sid
  | Args_other _ => []
  end.

(** A byte that comes after a full second of reads that would block. *)
Definition slow_byte (b : byte) : list rd_event :=
  repeat RdAgain (Z.to_nat (1000000 / NC_TIMEOUT_STEP)) ++ [RdData [b]].

(** * Properties *)

(** ** Bytes, C strings *)

Lemma byte_val_inj (x y : byte) : byte_val x = byte_val y -> x = y.
Proof.
  unfold byte_val. intros H. apply N2Z.inj in H.
  assert (E : Some x = Some y)
    by (rewrite <- (Byte.of_to_N x), <- (Byte.of_to_N y), H; reflexivity).
  now inversion E.
Qed.

Lemma byte_val_range (b : byte) : 0 <= byte_val b <= 255.
Proof.
  unfold byte_val. pose proof (Byte.to_N_bounded b). lia.
Qed.

Lemma byte_eqb_eq (x y : byte) : Byte.eqb x y = true <-> x = y.
Proof.
  split; [apply Byte.byte_dec_bl | apply Byte.byte_dec_lb].
Qed.

Lemma byte_eqb_neq (x y : byte) : Byte.eqb x y = false <-> x <> y.
Proof.
  split.
  - apply Byte.eqb_false.
  - intros H. destruct (Byte.eqb x y) eqn:E; [|reflexivity].
    apply byte_eqb_eq in E. contradiction.
Qed.

Lemma byte_eqb_refl (x : byte) : Byte.eqb x x = true.
Proof. now apply byte_eqb_eq. Qed.

Lemma c_str_nul_free (s : list byte) : nul_free s = true -> c_str s = s.
Proof.
  induction s as [|b s IH]; simpl; [reflexivity|].
  intros H. apply andb_prop in H as [Hb Hs].
  destruct (is_nul b); [discriminate|]. now rewrite IH.
Qed.

Lemma nul_free_app (a b : list byte) :
  nul_free (a ++ b) = nul_free a && nul_free b.
Proof. apply forallb_app. Qed.

Lemma c_str_idem (s : list byte) : nul_free (c_str s) = true.
Proof.
  induction s as [|b s IH]; simpl; [reflexivity|].
  destruct (is_nul b) eqn:E; simpl; [reflexivity|]. now rewrite E.
Qed.

Lemma strlen_nul_free (s : list byte) :
  nul_free s = true -> strlen s = length s.
Proof. intros H. unfold strlen. now rewrite c_str_nul_free. Qed.

Lemma firstn_strlen (s : list byte) : firstn (strlen s) s = c_str s.
Proof.
  unfold strlen. induction s as [|b s IH]; simpl; [reflexivity|].
  destruct (is_nul b); simpl; [reflexivity|]. now rewrite IH.
Qed.

Lemma is_nul_byte_val (b : byte) : is_nul b = false -> byte_val b <> 0.
Proof.
  unfold is_nul. intros H E. apply byte_eqb_neq in H. apply H.
  apply byte_val_inj. exact E.
Qed.

(** [strncmp] against a NUL-free string of the compared length is equality
    with the bytes at hand. *)
Lemma strncmp_0_iff (a x : list byte) :
  nul_free a = true ->
  strncmp a x (length a) = 0 <-> firstn (length a) x = a.
Proof.
  revert x. induction a as [|h a IH]; intros x Hnf; simpl.
  - tauto.
  - simpl in Hnf. apply andb_prop in Hnf as [Hh Ha].
    apply negb_true_iff in Hh.
    destruct x as [|y x].
    + split; [intros E; now apply is_nul_byte_val in Hh | discriminate].
    + destruct (Byte.eqb h y) eqn:E.
      * apply byte_eqb_eq in E. subst y. rewrite Hh.
        rewrite IH by assumption. split; intros H; [now f_equal | now injection H].
      * apply byte_eqb_neq in E. split.
        -- intros H. exfalso. apply E. apply byte_val_inj. lia.
        -- intros H. injection H as H1 H2. congruence.
Qed.

(** ** Decimal numerals *)

Lemma digit_char_val (d : Z) : 0 <= d < 10 -> byte_val (digit_char d) = 48 + d.
Proof.
  intros H.
  assert (C : d = 0 \/ d = 1 \/ d = 2 \/ d = 3 \/ d = 4 \/ d = 5 \/ d = 6
              \/ d = 7 \/ d = 8 \/ d = 9) by lia.
  repeat (destruct C as [C|C]; [subst d; reflexivity|]). subst d. reflexivity.
Qed.

Lemma is_digit_digit_char (d : Z) : 0 <= d < 10 -> is_digit (digit_char d) = true.
Proof.
  intros H. unfold is_digit. rewrite digit_char_val by assumption.
  apply andb_true_intro. split; apply Z.leb_le; lia.
Qed.

Lemma digit_val_digit_char (d : Z) : 0 <= d < 10 -> digit_val (digit_char d) = d.
Proof.
  intros H. unfold digit_val. rewrite digit_char_val by assumption. lia.
Qed.

Lemma digits_le_S (fuel : nat) (n : Z) :
  digits_le (S fuel) n
  = (n mod 10) :: (if n / 10 =? 0 then [] else digits_le fuel (n / 10)).
Proof. reflexivity. Qed.

Lemma digits_le_spec (fuel : nat) (n : Z) :
  0 <= n < 2 ^ Z.of_nat (S fuel) ->
  digits_value (digits_le (S fuel) n) = n
  /\ Forall is_decimal_digit (digits_le (S fuel) n)
  /\ digits_le (S fuel) n <> [].
Proof.
  revert n. induction fuel as [|fuel IH]; intros n Hn;
    rewrite (digits_le_S _ n); destruct (n / 10 =? 0) eqn:E.
  - apply Z.eqb_eq in E. split; [|split].
    + unfold digits_value. simpl.
      pose proof (Z_div_mod_eq_full n 10). lia.
    + constructor; [|constructor]. unfold is_decimal_digit.
      apply Z.mod_pos_bound. lia.
    + discriminate.
  - apply Z.eqb_neq in E. exfalso. apply E.
    apply Z.div_small. change (2 ^ Z.of_nat 1) with 2 in Hn. lia.
  - apply Z.eqb_eq in E. split; [|split].
    + unfold digits_value. simpl.
      pose proof (Z_div_mod_eq_full n 10). lia.
    + constructor; [|constructor]. unfold is_decimal_digit.
      apply Z.mod_pos_bound. lia.
    + discriminate.
  - apply Z.eqb_neq in E.
    assert (Hq : 0 <= n / 10 < 2 ^ Z.of_nat (S fuel)).
    { split; [apply Z.div_pos; lia|].
      apply Z.div_lt_upper_bound; [lia|].
      rewrite (Nat2Z.inj_succ (S fuel)), Z.pow_succ_r in Hn by lia. lia. }
    destruct (IH _ Hq) as (Hv & Hd & _). split; [|split].
    + unfold digits_value in *. cbn [fold_right]. rewrite Hv.
      pose proof (Z_div_mod_eq_full n 10). lia.
    + constructor; [|exact Hd]. unfold is_decimal_digit.
      apply Z.mod_pos_bound. lia.
    + discriminate.
Qed.

Lemma utoa_fuel (n : Z) : 0 <= n -> 0 <= n < 2 ^ Z.of_nat (S (Z.to_nat (Z.log2 n))).
Proof.
  intros Hn. split; [assumption|].
  rewrite Nat2Z.inj_succ, Z2Nat.id by apply Z.log2_nonneg.
  destruct (Z.eq_dec n 0) as [->|Hz]; [reflexivity|].
  apply Z.log2_spec. lia.
Qed.

Lemma utoa_digits_spec (n : Z) :
  0 <= n ->
  fold_left (fun acc d => 10 * acc + d) (utoa_digits n) 0 = n
  /\ Forall is_decimal_digit (utoa_digits n)
  /\ utoa_digits n <> [].
Proof.
  intros Hn. unfold utoa_digits.
  destruct (digits_le_spec _ _ (utoa_fuel n Hn)) as (Hv & Hd & Hne).
  split; [|split].
  - rewrite <- fold_left_rev_right, rev_involutive. exact Hv.
  - apply Forall_rev. exact Hd.
  - intros E. apply Hne. apply (f_equal (@rev Z)) in E.
    now rewrite rev_involutive in E.
Qed.

Lemma utoa_map (n : Z) : utoa n = map digit_char (utoa_digits n).
Proof. reflexivity. Qed.

Lemma strtoul_digits_app (ds : list Z) (rest : list byte) (acc : Z) (any : bool) :
  Forall is_decimal_digit ds ->
  strtoul_digits (map digit_char ds ++ rest) acc any
  = strtoul_digits rest (fold_left (fun a d => 10 * a + d) ds acc)
                   (any || negb (length ds =? 0)%nat).
Proof.
  revert acc any. induction ds as [|d ds IH]; intros acc any Hd; simpl.
  - now rewrite orb_false_r.
  - inversion Hd; subst.
    rewrite is_digit_digit_char, digit_val_digit_char by assumption.
    rewrite IH by assumption. now rewrite orb_true_r.
Qed.

Lemma strtoul_digits_stop (rest : list byte) (acc : Z) (any : bool) :
  ends_numeral rest -> strtoul_digits rest acc any = (acc, any).
Proof.
  destruct rest as [|b rest]; simpl; [reflexivity|]. now intros ->.
Qed.

Lemma strtoul_digits_utoa (n : Z) (rest : list byte) :
  0 <= n -> ends_numeral rest ->
  strtoul_digits (utoa n ++ rest) 0 false = (n, true).
Proof.
  intros Hn Hr. destruct (utoa_digits_spec n Hn) as (Hv & Hd & Hne).
  rewrite utoa_map, strtoul_digits_app by assumption.
  rewrite strtoul_digits_stop by assumption. rewrite Hv.
  destruct (utoa_digits n); [contradiction|reflexivity].
Qed.

Lemma utoa_head (n : Z) :
  0 <= n -> exists d t, utoa n = d :: t /\ is_digit d = true.
Proof.
  intros Hn. destruct (utoa_digits_spec n Hn) as (_ & Hd & Hne).
  rewrite utoa_map. destruct (utoa_digits n) as [|d ds]; [contradiction|].
  inversion Hd; subst. exists (digit_char d), (map digit_char ds).
  split; [reflexivity|]. now apply is_digit_digit_char.
Qed.

Lemma utoa_all_digits (n : Z) :
  0 <= n -> Forall (fun b => is_digit b = true) (utoa n).
Proof.
  intros Hn. destruct (utoa_digits_spec n Hn) as (_ & Hd & _).
  rewrite utoa_map. apply Forall_map.
  eapply Forall_impl; [|exact Hd]. intros d H. now apply is_digit_digit_char.
Qed.

(** ** Sessions *)

Lemma set_rd_script_twice (s : nc_session) (e1 e2 : list rd_event) :
  set_rd_script (set_rd_script s e1) e2 = set_rd_script s e2.
Proof. reflexivity. Qed.

Lemma set_rd_script_same (s : nc_session) :
  set_rd_script s (rd_script (ti_fd_in s)) = s.
Proof. destruct s as [? ? ? ? ? ? [? ?] ? ?]. reflexivity. Qed.

Lemma len_app (a b : list byte) : len (a ++ b) = len a + len b.
Proof. unfold len. rewrite length_app. lia. Qed.

Lemma len_cons (b : byte) (l : list byte) : len (b :: l) = 1 + len l.
Proof. unfold len. simpl length. lia. Qed.

Lemma len_nonneg (l : list byte) : 0 <= len l.
Proof. unfold len. lia. Qed.

Lemma len_to_nat (l : list byte) : Z.to_nat (len l) = length l.
Proof. unfold len. apply Nat2Z.id. Qed.

Lemma len_0 (l : list byte) : len l = 0 -> l = [].
Proof. unfold len. destruct l; simpl; [reflexivity|lia]. Qed.

Lemma firstn_len_app (a b : list byte) : firstn (Z.to_nat (len a)) (a ++ b) = a.
Proof.
  rewrite len_to_nat, firstn_app, Nat.sub_diag, firstn_all. simpl.
  apply app_nil_r.
Qed.

Lemma skipn_len_app (a b : list byte) : skipn (Z.to_nat (len a)) (a ++ b) = b.
Proof.
  rewrite len_to_nat, skipn_app, Nat.sub_diag, skipn_all. reflexivity.
Qed.

(** ** Reading from a script that delivers *)

Lemma delivers_nil_inv (evs rest : list rd_event) :
  delivers evs [] rest -> rest = evs.
Proof. intros H. inversion H; reflexivity. Qed.

Lemma delivers_split (evs rest : list rd_event) (a b : list byte) :
  delivers evs (a ++ b) rest ->
  exists mid, delivers evs a mid /\ delivers mid b rest.
Proof.
  intros H. remember (a ++ b) as bs eqn:E. revert a b E.
  induction H as [evs | x seg evs bs rest H IH | x seg x' seg' evs];
    intros a b E.
  - symmetry in E. apply app_eq_nil in E as [-> ->].
    exists evs. split; constructor.
  - destruct a as [|y a].
    + exists (RdData (x :: seg) :: evs). split; [constructor|].
      simpl in E. subst b. now constructor.
    + simpl in E. injection E as <- E.
      apply app_eq_app in E as [l [[E1 E2]|[E1 E2]]].
      * (* seg = a ++ l *)
        subst seg b. destruct l as [|c l].
        -- rewrite app_nil_r. exists evs. split; [|exact H].
           rewrite <- (app_nil_r (x :: a)) at 2. constructor. constructor.
        -- exists (RdData (c :: l) :: evs). split.
           ++ change (x :: a ++ c :: l) with ((x :: a) ++ c :: l). constructor.
           ++ now constructor.
      * (* a = seg ++ l *)
        subst a bs. destruct (IH l b eq_refl) as (mid & H1 & H2).
        exists mid. split; [|exact H2].
        change (x :: seg ++ l) with ((x :: seg) ++ l). now constructor.
  - destruct a as [|y a].
    + exists (RdData ((x :: seg) ++ x' :: seg') :: evs). split; [constructor|].
      simpl in E. subst b. constructor.
    + simpl in E. injection E as <- E. subst seg.
      destruct b as [|c b].
      * rewrite app_nil_r. exists (RdData (x' :: seg') :: evs).
        split; constructor.
      * exists (RdData ((c :: b) ++ x' :: seg') :: evs). split.
        -- replace ((x :: a ++ c :: b) ++ x' :: seg')
             with ((x :: a) ++ c :: (b ++ x' :: seg'))
             by (simpl; now rewrite <- app_assoc).
           constructor.
        -- constructor.
Qed.

Lemma delivers_size (evs rest : list rd_event) (bs : list byte) :
  delivers evs bs rest ->
  (length bs + stream_size rest <= stream_size evs)%nat.
Proof.
  induction 1 as [evs | x seg evs bs rest H IH | x seg x' seg' evs].
  - simpl. lia.
  - simpl. rewrite length_app. simpl in IH. lia.
  - simpl. rewrite length_app. simpl. lia.
Qed.

Lemma nc_read_loop_delivers (evs rest : list rd_event) (bs : list byte) :
  delivers evs bs rest -> bs <> [] ->
  forall s count readd buf sc t,
    ti_type s = NC_TI_FD -> count = readd + len bs ->
    nc_read_loop s evs count readd buf sc t
    = {| rr_ret := count; rr_buf := buf ++ bs; rr_timeout := t;
         rr_session := set_rd_script s rest |}.
Proof.
  induction 1 as [evs | x seg evs bs rest H IH | x seg x' seg' evs];
    intros Hne s count readd buf sc t Hti Hc.
  - contradiction.
  - cbn [nc_read_loop]. rewrite Hti.
    rewrite len_app in Hc.
    pose proof (len_nonneg bs) as Hbs.
    assert (Hseg : 1 <= len (x :: seg))
      by (rewrite len_cons; pose proof (len_nonneg seg); lia).
    replace (Z.min (len (x :: seg)) (count - readd)) with (len (x :: seg)) by lia.
    replace (len (x :: seg) =? 0) with false by (symmetry; apply Z.eqb_neq; lia).
    rewrite len_to_nat, firstn_all.
    destruct (readd + len (x :: seg) <? count) eqn:E.
    + apply Z.ltb_lt in E.
      assert (Hb : bs <> []) by (intros ->; unfold len in *; simpl in *; lia).
      rewrite (IH Hb s count (readd + len (x :: seg)) (buf ++ x :: seg) sc t Hti)
        by lia.
      now rewrite <- app_assoc.
    + apply Z.ltb_ge in E.
      assert (Hb : bs = []) by (apply len_0; lia). subst bs.
      apply delivers_nil_inv in H. subst rest.
      rewrite Z.ltb_irrefl, app_nil_r. f_equal. lia.
  - cbn [nc_read_loop]. rewrite Hti.
    assert (Hseg : 1 <= len (x :: seg))
      by (rewrite len_cons; pose proof (len_nonneg seg); lia).
    assert (Hw : len ((x :: seg) ++ x' :: seg')
                 = len (x :: seg) + len (x' :: seg')) by apply len_app.
    assert (Hseg' : 1 <= len (x' :: seg'))
      by (rewrite len_cons; pose proof (len_nonneg seg'); lia).
    replace (Z.min (len ((x :: seg) ++ x' :: seg')) (count - readd))
      with (len (x :: seg)) by lia.
    replace (len (x :: seg) =? 0) with false by (symmetry; apply Z.eqb_neq; lia).
    rewrite firstn_len_app, skipn_len_app.
    replace (readd + len (x :: seg) <? count) with false
      by (symmetry; apply Z.ltb_ge; lia).
    replace (len (x :: seg) <? len ((x :: seg) ++ x' :: seg')) with true
      by (symmetry; apply Z.ltb_lt; lia).
    f_equal. lia.
Qed.

Lemma nc_read_delivers (s : nc_session) (bs : list byte) (rest : list rd_event)
    (t : Z) :
  usable s -> ti_type s = NC_TI_FD ->
  delivers (rd_script (ti_fd_in s)) bs rest -> bs <> [] ->
  nc_read s (len bs) t
  = {| rr_ret := len bs; rr_buf := bs; rr_timeout := t;
       rr_session := set_rd_script s rest |}.
Proof.
  intros Hu Hti Hd Hne. unfold nc_read. rewrite Hu.
  assert (len bs <> 0) by (intros E; apply len_0 in E; contradiction).
  replace (len bs =? 0) with false by (symmetry; now apply Z.eqb_neq).
  now rewrite (nc_read_loop_delivers _ _ _ Hd Hne s (len bs) 0 [] 0 t Hti).
Qed.

Lemma usable_set_rd_script (s : nc_session) (e : list rd_event) :
  usable s -> usable (set_rd_script s e).
Proof. intros H. exact H. Qed.

Lemma firstn_skipn_prefix (m k : nat) (chunk more : list byte) :
  (k + m = length chunk)%nat ->
  firstn m (skipn k (chunk ++ more)) = skipn k chunk.
Proof.
  intros H. rewrite skipn_app.
  replace (k - length chunk)%nat with O by lia. simpl skipn at 2.
  rewrite firstn_app, length_skipn.
  replace (m - (length chunk - k))%nat with O by lia.
  rewrite firstn_O, app_nil_r. apply firstn_all2. rewrite length_skipn. lia.
Qed.

Lemma nc_read_until_loop_delivers (endtag : list byte) :
  nul_free endtag = true -> endtag <> [] ->
  forall todo done evs rest s t fuel,
    usable s -> ti_type s = NC_TI_FD -> rd_script (ti_fd_in s) = evs ->
    delivers evs todo rest -> todo <> [] ->
    (forall k, (k + length endtag < length (done ++ todo))%nat ->
               firstn (length endtag) (skipn k (done ++ todo)) <> endtag) ->
    (length endtag <= length (done ++ todo))%nat ->
    skipn (length (done ++ todo) - length endtag) (done ++ todo) = endtag ->
    (length todo <= fuel)%nat ->
    nc_read_until_loop fuel s endtag 0 t done (len done)
    = Some {| rr_ret := len (done ++ todo); rr_buf := done ++ todo;
              rr_timeout := t; rr_session := set_rd_script s rest |}.
Proof.
  intros Hnf Hne.
  induction todo as [|b todo IH];
    intros done evs rest s t fuel Hu Hti Hevs Hd Htodo Hno Hlen Hend Hfuel.
  - contradiction.
  - destruct fuel as [|fuel]; [simpl in Hfuel; lia|].
    cbn [nc_read_until_loop]. rewrite Z.eqb_refl. cbn [negb andb].
    change (b :: todo) with ([b] ++ todo) in Hd.
    subst evs. apply delivers_split in Hd as (mid & Hd1 & Hd2).
    assert (Hr : nc_read s 1 t
                 = {| rr_ret := 1; rr_buf := [b]; rr_timeout := t;
                      rr_session := set_rd_script s mid |})
      by (apply (nc_read_delivers s [b] mid t Hu Hti Hd1); discriminate).
    rewrite Hr. cbn [rr_ret rr_buf rr_timeout rr_session].
    rewrite Z.eqb_refl. cbn [negb].
    rewrite (strlen_nul_free _ Hnf).
    assert (Hc : len done + 1 = len (done ++ [b]))
      by (rewrite len_app; reflexivity).
    rewrite Hc.
    assert (Hk : Z.to_nat (len (done ++ [b]) - Z.of_nat (length endtag))
                 = (length (done ++ [b]) - length endtag)%nat)
      by (unfold len; lia).
    rewrite Hk.
    assert (Hdata : (done ++ [b]) ++ todo = done ++ b :: todo)
      by (now rewrite <- app_assoc).
    destruct todo as [|c todo].
    + (* the last byte of the end tag *)
      clear Hdata.
      apply delivers_nil_inv in Hd2. subst mid.
      replace (Z.of_nat (length endtag) <=? len (done ++ [b])) with true
        by (symmetry; apply Z.leb_le; unfold len; lia).
      rewrite Hend.
      assert (E : strncmp endtag endtag (length endtag) = 0)
        by (apply strncmp_0_iff; [assumption | apply firstn_all]).
      rewrite E. reflexivity.
    + (* not yet *)
      assert (Hcont : (Z.of_nat (length endtag) <=? len (done ++ [b]))
                      && (strncmp endtag
                            (skipn (length (done ++ [b]) - length endtag)
                                   (done ++ [b])) (length endtag) =? 0)
                      = false).
      { apply andb_false_iff.
        destruct (Z.of_nat (length endtag) <=? len (done ++ [b])) eqn:E;
          [right|now left].
        apply Z.leb_le in E. apply Z.eqb_neq. intros E0.
        apply strncmp_0_iff in E0; [|assumption].
        apply (Hno (length (done ++ [b]) - length endtag)%nat).
        - unfold len in E. rewrite <- Hdata. rewrite !length_app in *.
          simpl in *. lia.
        - rewrite <- Hdata.
          rewrite firstn_skipn_prefix by (unfold len in E; lia).
          rewrite <- E0 at 2. symmetry. apply firstn_all2.
          rewrite length_skipn. unfold len in E. lia. }
      rewrite Hcont. rewrite <- Hdata.
      rewrite (IH (done ++ [b]) mid rest (set_rd_script s mid) t fuel);
        try assumption; try reflexivity.
      * discriminate.
      * now rewrite Hdata.
      * now rewrite Hdata.
      * now rewrite Hdata.
      * simpl in *. lia.
Qed.

Lemma nc_read_until_delivers (s : nc_session) (endtag pre : list byte)
    (rest : list rd_event) (t : Z) :
  nul_free endtag = true -> endtag <> [] ->
  usable s -> ti_type s = NC_TI_FD ->
  delivers (rd_script (ti_fd_in s)) (pre ++ endtag) rest ->
  first_at_end endtag pre ->
  nc_read_until s endtag 0 t
  = Some {| rr_ret := len (pre ++ endtag); rr_buf := pre ++ endtag;
            rr_timeout := t; rr_session := set_rd_script s rest |}.
Proof.
  intros Hnf Hne Hu Hti Hd Hfirst. unfold nc_read_until.
  change 0 with (len []) at 2.
  apply (nc_read_until_loop_delivers endtag Hnf Hne (pre ++ endtag) []
           (rd_script (ti_fd_in s)) rest s t); try assumption; try reflexivity.
  - destruct pre, endtag; try discriminate; contradiction.
  - intros k Hk. apply Hfirst. simpl in Hk. rewrite length_app in Hk. lia.
  - simpl. rewrite length_app. lia.
  - simpl. rewrite length_app.
    replace (length pre + length endtag - length endtag)%nat with (length pre)
      by lia.
    rewrite skipn_app, Nat.sub_diag, skipn_all. reflexivity.
  - apply delivers_size in Hd. lia.
Qed.

(** ** Counts in an int *)

Lemma to_int_small (z : Z) : - 2 ^ 31 <= z <= INT_MAX -> to_int z = z.
Proof.
  unfold to_int, INT_MAX. intros H.
  rewrite Z.mod_small by lia. lia.
Qed.

Lemma to_int_range (z : Z) : - 2 ^ 31 <= to_int z <= INT_MAX.
Proof.
  unfold to_int, INT_MAX.
  pose proof (Z.mod_pos_bound (z + 2 ^ 31) (2 ^ 32) ltac:(lia)). lia.
Qed.

Lemma to_int_error : to_int (-1) = -1.
Proof. reflexivity. Qed.

(** The counts that an int takes for -1. *)
Lemma to_int_error_iff (z : Z) : to_int z = -1 <-> z mod 2 ^ 32 = 2 ^ 32 - 1.
Proof.
  unfold to_int.
  pose proof (Z.mod_pos_bound (z + 2 ^ 31) (2 ^ 32) ltac:(lia)) as Hb.
  pose proof (Z.mod_pos_bound z (2 ^ 32) ltac:(lia)) as Hz.
  pose proof (Z.div_mod z (2 ^ 32) ltac:(lia)) as Ez.
  pose proof (Z.div_mod (z + 2 ^ 31) (2 ^ 32) ltac:(lia)) as Es.
  split; intros H.
  - assert (E : (z + 2 ^ 31) mod 2 ^ 32 = 2 ^ 31 - 1) by lia.
    rewrite E in Es.
    assert (z / 2 ^ 32 = (z + 2 ^ 31) / 2 ^ 32 - 1) by lia.
    lia.
  - rewrite H in Ez.
    assert (E : z + 2 ^ 31 = 2 ^ 32 * (z / 2 ^ 32 + 1) + (2 ^ 31 - 1)) by lia.
    rewrite E, Z.add_comm, Z.mul_comm, Z.mod_add by lia.
    rewrite Z.mod_small by lia. lia.
Qed.

Lemma to_int_neq (z : Z) : to_int z <> -1 -> z <> -1.
Proof. intros H ->. now apply H. Qed.

Lemma to_int_count (z : Z) :
  0 <= z <= INT_MAX -> (to_int z =? -1) = false.
Proof.
  intros H. rewrite to_int_small by (unfold INT_MAX in *; lia).
  apply Z.eqb_neq. lia.
Qed.

(** ** NETCONF 1.0: the message up to the end tag *)

Lemma nc_read_msg_v10_delivers (s : nc_session) (body : list byte)
    (rest : list rd_event) (t : Z) :
  usable s -> ti_type s = NC_TI_FD ->
  delivers (rd_script (ti_fd_in s)) (body ++ NC_VERSION_10_ENDTAG) rest ->
  first_at_end NC_VERSION_10_ENDTAG body ->
  len (body ++ NC_VERSION_10_ENDTAG) <= INT_MAX ->
  nc_read_msg_v10 s t = Some (Frame_msg body (set_rd_script s rest)).
Proof.
  intros Hu Hti Hd Hfirst Hmax. unfold nc_read_msg_v10.
  rewrite (nc_read_until_delivers s NC_VERSION_10_ENDTAG body rest t);
    try assumption; try reflexivity; try discriminate.
  cbn [rr_ret rr_buf rr_session]. cbv zeta.
  pose proof (len_nonneg body) as Hpos.
  rewrite len_app in *. change (len NC_VERSION_10_ENDTAG) with 6 in *.
  rewrite to_int_small by (unfold INT_MAX in *; lia).
  unfold NC_VERSION_10_ENDTAG_LEN, cut_at.
  replace (len body + 6 =? -1) with false by (symmetry; apply Z.eqb_neq; lia).
  replace (len body + 6 - 6) with (len body) by lia.
  replace (0 <=? len body) with true by (symmetry; apply Z.leb_le; lia).
  now rewrite firstn_len_app.
Qed.

(** ** NETCONF 1.1: the chunks *)

Lemma is_digit_not_space (d : byte) : is_digit d = true -> isspace d = false.
Proof.
  unfold is_digit, isspace. intros H. apply andb_prop in H as [H1 H2].
  apply Z.leb_le in H1. apply Z.leb_le in H2.
  apply orb_false_iff. split; [apply Z.eqb_neq; lia|].
  apply andb_false_iff. right. apply Z.leb_gt. lia.
Qed.

Lemma strtoul_numeral (d : byte) (t : list byte) :
  is_digit d = true ->
  strtoul (d :: t)
  = let '(v, _) := strtoul_digits (d :: t) 0 false in
    if ULONG_MAX <? v then ULONG_MAX else v.
Proof.
  intros Hd. unfold strtoul. cbn [skip_space].
  rewrite (is_digit_not_space d Hd).
  assert (Hm : match d :: t with
               | "-"%byte :: t0 => (true, t0)
               | "+"%byte :: t0 => (false, t0)
               | _ => (false, d :: t)
               end = (false, d :: t))
    by (destruct d; try reflexivity; discriminate Hd).
  rewrite Hm. cbn [strtoul_digits]. rewrite Hd.
  destruct (strtoul_digits t (10 * 0 + digit_val d) true) as [v any] eqn:E.
  assert (any = true).
  { clear -E. revert E. generalize (10 * 0 + digit_val d).
    induction t as [|b t IH]; intros acc E; simpl in E.
    - now inversion E.
    - destruct (is_digit b); [now apply IH in E | now inversion E]. }
  subst any. reflexivity.
Qed.

Lemma strtoul_utoa (n : Z) (rest : list byte) :
  0 <= n <= ULONG_MAX -> ends_numeral rest -> strtoul (utoa n ++ rest) = n.
Proof.
  intros [Hn Hmax] Hr. destruct (utoa_head n Hn) as (d & t & E & Hd).
  pose proof (strtoul_digits_utoa n rest Hn Hr) as Hv.
  rewrite E in *. cbn [app] in *. rewrite strtoul_numeral by assumption.
  rewrite Hv. replace (ULONG_MAX <? n) with false; [reflexivity|].
  symmetry. apply Z.ltb_ge. lia.
Qed.

Lemma first_at_end_nil (endtag : list byte) : first_at_end endtag [].
Proof. intros k Hk. simpl in Hk. lia. Qed.

Lemma first_at_end_byte (e : byte) (pre : list byte) :
  Forall (fun b => b <> e) pre -> first_at_end [e] pre.
Proof.
  intros H k Hk. revert k Hk. induction H as [|b pre Hb H IH]; intros k Hk.
  - simpl in Hk. lia.
  - destruct k as [|k].
    + simpl. destruct pre; simpl; intros E; injection E as E; contradiction.
    + simpl in Hk. apply (IH k). lia.
Qed.

Lemma utoa_no_LF (n : Z) : 0 <= n -> Forall (fun b => b <> LF) (utoa n).
Proof.
  intros Hn. eapply Forall_impl; [|apply utoa_all_digits; exact Hn].
  intros b Hb ->. discriminate Hb.
Qed.

Lemma strcmp_numeral (d : byte) (t : list byte) :
  is_digit d = true -> (strcmp (d :: t) ["#"%byte; LF] =? 0) = false.
Proof.
  intros Hd. cbn [strcmp].
  destruct (Byte.eqb d "#"%byte) eqn:E.
  - apply byte_eqb_eq in E. subst d. discriminate Hd.
  - apply Z.eqb_neq. intros H. apply byte_eqb_neq in E. apply E.
    apply byte_val_inj. lia.
Qed.

Lemma uint64_small (n : Z) : 0 <= n <= ULONG_MAX -> uint64 n = n.
Proof. intros H. apply Z.mod_small. unfold ULONG_MAX in H. lia. Qed.

Lemma chunk_header_split (n : Z) :
  0 <= n <= ULONG_MAX ->
  chunk_header n = [LF; "#"%byte] ++ (utoa n ++ [LF]).
Proof. intros H. unfold chunk_header. now rewrite uint64_small. Qed.

(** One turn of the loop over the chunks, up to the test on the chunk size:
    the two calls of [nc_read_until] take the line feed and the hash sign,
    then the rest of the header line. *)
Lemma nc_read_msg_v11_header (s : nc_session) (tok : list byte)
    (mid : list rd_event) (t : Z) (msg : option (list byte)) (fuel : nat) :
  usable s -> ti_type s = NC_TI_FD ->
  delivers (rd_script (ti_fd_in s)) ([LF; "#"%byte] ++ tok ++ [LF]) mid ->
  Forall (fun b => b <> LF) tok ->
  nc_read_msg_v11 (S fuel) s t msg
  = let s2 := set_rd_script s mid in
    let chunk := tok ++ [LF] in
    if to_int (len chunk) =? -1 then Some (Frame_error s2)
    else if strcmp chunk ["#"%byte; LF] =? 0 then
      match msg with
      | None => Some (Frame_malformed s2)
      | Some m => Some (Frame_msg m s2)
      end
    else
      let chunk_len := strtoul chunk in
      if chunk_len =? 0 then Some (Frame_malformed s2)
      else
        let r3 := nc_read_chunk s2 chunk_len t in
        if to_int (rr_ret r3) =? -1 then Some (Frame_error (rr_session r3))
        else
          let m := match msg with Some m => m | None => [] end in
          nc_read_msg_v11 fuel (rr_session r3) (rr_timeout r3)
            (Some (m ++ firstn (Z.to_nat chunk_len) (rr_buf r3))).
Proof.
  intros Hu Hti Hd Htok.
  apply delivers_split in Hd as (mid1 & Hd1 & Hd2).
  cbn [nc_read_msg_v11].
  rewrite (nc_read_until_delivers s [LF; "#"%byte] [] mid1 t);
    try assumption; try reflexivity; try discriminate;
    [|apply first_at_end_nil].
  cbn [rr_ret rr_session rr_timeout rr_buf app].
  change (to_int (len [LF; "#"%byte]) =? -1) with false. cbv iota.
  pose proof (nc_read_until_delivers (set_rd_script s mid1) [LF] tok mid t
                eq_refl ltac:(discriminate) Hu Hti Hd2
                (first_at_end_byte LF tok Htok)) as E2.
  rewrite E2. reflexivity.
Qed.

Lemma digits_le_length (fuel : nat) (n : Z) :
  (length (digits_le fuel n) <= fuel)%nat.
Proof.
  revert n. induction fuel as [|fuel IH]; intros n; [apply Nat.le_refl|].
  cbn [digits_le length]. destruct (n / 10 =? 0); [simpl; lia|].
  specialize (IH (n / 10)). lia.
Qed.

(** A size_t printed in decimal is short. *)
Lemma utoa_len (n : Z) : 0 <= n <= ULONG_MAX -> len (utoa n) <= 64.
Proof.
  intros [Hn Hmax]. unfold utoa, len. rewrite length_map, length_rev.
  pose proof (digits_le_length (S (Z.to_nat (Z.log2 n))) n) as Hl.
  assert (Z.log2 n < 64).
  { destruct (Z.eq_dec n 0) as [->|Hz]; [reflexivity|].
    apply Z.log2_lt_pow2; unfold ULONG_MAX in Hmax; lia. }
  pose proof (Z.log2_nonneg n). lia.
Qed.

(** A chunk that can be allocated and is read in full. *)
Lemma nc_read_chunk_delivers (s : nc_session) (blk : list byte)
    (rest : list rd_event) (t : Z) :
  usable s -> ti_type s = NC_TI_FD -> blk <> [] -> len blk < PTRDIFF_MAX ->
  delivers (rd_script (ti_fd_in s)) blk rest ->
  nc_read_chunk s (len blk) t
  = {| rr_ret := len blk; rr_buf := blk; rr_timeout := t;
       rr_session := set_rd_script s rest |}.
Proof.
  intros Hu Hti Hne Hmax Hd.
  assert (Hn : 0 < len blk).
  { destruct blk; [contradiction|]. rewrite len_cons.
    pose proof (len_nonneg blk). lia. }
  unfold nc_read_chunk, malloc_fails, uint64.
  replace (len blk =? 0) with false by (symmetry; apply Z.eqb_neq; lia).
  rewrite Z.mod_small by (unfold PTRDIFF_MAX in Hmax; lia).
  replace (PTRDIFF_MAX <? len blk + 1) with false
    by (symmetry; apply Z.ltb_ge; lia).
  replace (len blk + 1 =? 0) with false by (symmetry; apply Z.eqb_neq; lia).
  rewrite (nc_read_delivers s blk rest t); try assumption.
  cbn [rr_ret]. 
  replace (len blk <=? 0) with false by (symmetry; apply Z.leb_gt; lia).
  reflexivity.
Qed.

(** A header with a good size and its chunk. *)
Lemma nc_read_msg_v11_chunk (s : nc_session) (tok blk : list byte)
    (mid : list rd_event) (t : Z) (msg : option (list byte)) (fuel : nat) :
  usable s -> ti_type s = NC_TI_FD ->
  delivers (rd_script (ti_fd_in s)) (([LF; "#"%byte] ++ tok ++ [LF]) ++ blk) mid ->
  Forall (fun b => b <> LF) tok ->
  (strcmp (tok ++ [LF]) ["#"%byte; LF] =? 0) = false ->
  strtoul (tok ++ [LF]) = len blk -> blk <> [] ->
  len (tok ++ [LF]) <= INT_MAX -> len blk <= INT_MAX ->
  nc_read_msg_v11 (S fuel) s t msg
  = nc_read_msg_v11 fuel (set_rd_script s mid) t
      (Some (match msg with Some m => m | None => [] end ++ blk)).
Proof.
  intros Hu Hti Hd Htok Hcmp Hlen Hne Htmax Hbmax.
  apply delivers_split in Hd as (mid1 & Hd1 & Hd2).
  rewrite (nc_read_msg_v11_header s tok mid1 t msg fuel Hu Hti Hd1 Htok).
  cbv zeta.
  rewrite to_int_count by (pose proof (len_nonneg (tok ++ [LF])); lia).
  rewrite Hcmp, Hlen.
  assert (Hn : 0 < len blk).
  { destruct blk; [contradiction|]. rewrite len_cons.
    pose proof (len_nonneg blk). lia. }
  replace (len blk =? 0) with false by (symmetry; apply Z.eqb_neq; lia).
  rewrite (nc_read_chunk_delivers (set_rd_script s mid1) blk mid t);
    try assumption; try reflexivity;
    [|unfold INT_MAX, PTRDIFF_MAX in *; lia].
  cbn [rr_ret rr_session rr_timeout rr_buf].
  rewrite to_int_count by lia.
  now rewrite len_to_nat, firstn_all.
Qed.

(** The same with a chunk of any size that a header can announce: where the
    loop does not go on, it ends at the label error. *)
Lemma nc_read_msg_v11_chunk_any (s : nc_session) (tok blk : list byte)
    (mid : list rd_event) (t : Z) (msg : option (list byte)) (fuel : nat) :
  usable s -> ti_type s = NC_TI_FD ->
  delivers (rd_script (ti_fd_in s)) (([LF; "#"%byte] ++ tok ++ [LF]) ++ blk) mid ->
  Forall (fun b => b <> LF) tok ->
  (strcmp (tok ++ [LF]) ["#"%byte; LF] =? 0) = false ->
  strtoul (tok ++ [LF]) = len blk -> blk <> [] -> len blk <= ULONG_MAX ->
  (exists s', nc_read_msg_v11 (S fuel) s t msg = Some (Frame_error s'))
  \/ nc_read_msg_v11 (S fuel) s t msg
     = nc_read_msg_v11 fuel (set_rd_script s mid) t
         (Some (match msg with Some m => m | None => [] end ++ blk)).
Proof.
  intros Hu Hti Hd Htok Hcmp Hlen Hne Hmax.
  apply delivers_split in Hd as (mid1 & Hd1 & Hd2).
  rewrite (nc_read_msg_v11_header s tok mid1 t msg fuel Hu Hti Hd1 Htok).
  cbv zeta.
  destruct (to_int (len (tok ++ [LF])) =? -1); [left; eexists; reflexivity|].
  rewrite Hcmp, Hlen.
  assert (Hn : 0 < len blk).
  { destruct blk; [contradiction|]. rewrite len_cons.
    pose proof (len_nonneg blk). lia. }
  replace (len blk =? 0) with false by (symmetry; apply Z.eqb_neq; lia).
  destruct (Z_lt_le_dec (len blk) PTRDIFF_MAX) as [Hfit|Hbig].
  - rewrite (nc_read_chunk_delivers (set_rd_script s mid1) blk mid t);
      try assumption; try reflexivity.
    cbn [rr_ret rr_session rr_timeout rr_buf].
    destruct (to_int (len blk) =? -1); [left; eexists; reflexivity|].
    right. now rewrite len_to_nat, firstn_all.
  - left. unfold nc_read_chunk, malloc_fails, nc_read_fault.
    replace (len blk =? 0) with false by (symmetry; apply Z.eqb_neq; lia).
    destruct (PTRDIFF_MAX <? uint64 (len blk + 1)) eqn:Em;
      [eexists; reflexivity|].
    apply Z.ltb_ge in Em.
    assert (E : uint64 (len blk + 1) = 0).
    { unfold uint64 in *.
      destruct (Z.eq_dec (len blk) ULONG_MAX) as [E|E]; [now rewrite E|].
      rewrite Z.mod_small in Em by (unfold ULONG_MAX in *; lia). lia. }
    rewrite E. cbn [Z.eqb].
    replace (not_usable (set_rd_script s mid1)) with false
      by (symmetry; exact Hu).
    replace (ti_type (set_rd_script s mid1)) with NC_TI_FD
      by (symmetry; exact Hti).
    eexists; reflexivity.
Qed.

(** The chunk as the writer frames it. *)
Lemma nc_read_msg_v11_frame (s : nc_session) (blk : list byte)
    (mid : list rd_event) (t : Z) (msg : option (list byte)) (fuel : nat) :
  usable s -> ti_type s = NC_TI_FD -> chunk_ok blk ->
  delivers (rd_script (ti_fd_in s)) (chunk_frame blk) mid ->
  nc_read_msg_v11 (S fuel) s t msg
  = nc_read_msg_v11 fuel (set_rd_script s mid) t
      (Some (match msg with Some m => m | None => [] end ++ blk)).
Proof.
  intros Hu Hti [Hne Hsz] Hd. pose proof (len_nonneg blk) as Hpos.
  assert (Hul : len blk <= ULONG_MAX) by (unfold INT_MAX, ULONG_MAX in *; lia).
  unfold chunk_frame in Hd. rewrite chunk_header_split in Hd by lia.
  apply (nc_read_msg_v11_chunk s (utoa (len blk)) blk mid t msg fuel);
    try assumption.
  - now apply utoa_no_LF.
  - destruct (utoa_head (len blk) Hpos) as (d & tl & E & Hdig).
    rewrite E. cbn [app]. now apply strcmp_numeral.
  - apply strtoul_utoa; [now split|reflexivity].
  - rewrite len_app. pose proof (utoa_len (len blk) (conj Hpos Hul)).
    change (len [LF]) with 1. unfold INT_MAX. lia.
Qed.

(** The chunk as the writer frames it, of any size that the header can
    announce. *)
Lemma nc_read_msg_v11_frame_any (s : nc_session) (blk : list byte)
    (mid : list rd_event) (t : Z) (msg : option (list byte)) (fuel : nat) :
  usable s -> ti_type s = NC_TI_FD -> chunk_sized blk ->
  delivers (rd_script (ti_fd_in s)) (chunk_frame blk) mid ->
  (exists s', nc_read_msg_v11 (S fuel) s t msg = Some (Frame_error s'))
  \/ nc_read_msg_v11 (S fuel) s t msg
     = nc_read_msg_v11 fuel (set_rd_script s mid) t
         (Some (match msg with Some m => m | None => [] end ++ blk)).
Proof.
  intros Hu Hti [Hne Hsz] Hd. pose proof (len_nonneg blk) as Hpos.
  unfold chunk_frame in Hd. rewrite chunk_header_split in Hd by lia.
  apply (nc_read_msg_v11_chunk_any s (utoa (len blk)) blk mid t msg fuel);
    try assumption.
  - now apply utoa_no_LF.
  - destruct (utoa_head (len blk) Hpos) as (d & tl & E & Hdig).
    rewrite E. cbn [app]. now apply strcmp_numeral.
  - apply strtoul_utoa; [now split|reflexivity].
Qed.

(** The end of chunks. *)
Lemma nc_read_msg_v11_end (s : nc_session) (rest : list rd_event) (t : Z)
    (msg : option (list byte)) (fuel : nat) :
  usable s -> ti_type s = NC_TI_FD ->
  delivers (rd_script (ti_fd_in s)) END_OF_CHUNKS rest ->
  nc_read_msg_v11 (S fuel) s t msg
  = match msg with
    | None => Some (Frame_malformed (set_rd_script s rest))
    | Some m => Some (Frame_msg m (set_rd_script s rest))
    end.
Proof.
  intros Hu Hti Hd.
  change END_OF_CHUNKS with ([LF; "#"%byte] ++ ["#"%byte] ++ [LF]) in Hd.
  rewrite (nc_read_msg_v11_header s ["#"%byte] rest t msg fuel Hu Hti Hd);
    [reflexivity|].
  repeat constructor. discriminate.
Qed.

Lemma chunk_ok_sized (blk : list byte) : chunk_ok blk -> chunk_sized blk.
Proof.
  intros [Hne Hsz]. split; [exact Hne|].
  unfold INT_MAX, ULONG_MAX in *. lia.
Qed.

Lemma nc_read_msg_v11_delivers (blocks : list (list byte)) :
  Forall chunk_ok blocks ->
  forall msg s t rest fuel,
    usable s -> ti_type s = NC_TI_FD ->
    delivers (rd_script (ti_fd_in s))
             (concat (map chunk_frame blocks) ++ END_OF_CHUNKS) rest ->
    msg <> None \/ blocks <> [] ->
    (length blocks < fuel)%nat ->
    nc_read_msg_v11 fuel s t msg
    = Some (Frame_msg (match msg with Some m => m | None => [] end
                       ++ concat blocks)
                      (set_rd_script s rest)).
Proof.
  induction 1 as [|blk blocks Hblk Hok IH];
    intros msg s t rest fuel Hu Hti Hd Hmsg Hfuel;
    (destruct fuel as [|fuel]; [simpl in Hfuel; lia|]).
  - (* the end of chunks *)
    cbn [map concat app] in Hd.
    rewrite (nc_read_msg_v11_end s rest t msg fuel Hu Hti Hd).
    destruct msg as [m|]; [|destruct Hmsg; contradiction].
    cbn [concat]. now rewrite app_nil_r.
  - (* one more chunk *)
    cbn [map concat] in Hd. rewrite <- app_assoc in Hd.
    apply delivers_split in Hd as (mid & Hd1 & Hd2).
    rewrite (nc_read_msg_v11_frame s blk mid t msg fuel Hu Hti Hblk Hd1).
    rewrite (IH (Some (match msg with Some m => m | None => [] end ++ blk))
                (set_rd_script s mid) t rest fuel);
      try assumption; try reflexivity.
    + cbn [concat]. now rewrite <- app_assoc.
    + left. discriminate.
    + simpl in Hfuel. lia.
Qed.

Lemma chunk_frames_length (blocks : list (list byte)) :
  (length blocks <= length (concat (map chunk_frame blocks)))%nat.
Proof.
  induction blocks as [|b blocks IH]; [simpl; lia|].
  cbn [map concat length]. rewrite length_app.
  assert (1 <= length (chunk_frame b))%nat
    by (unfold chunk_frame, chunk_header; rewrite !length_app; simpl; lia).
  lia.
Qed.

(** What the reader makes of a chunked message. *)
Lemma nc_read_frame_v11 (s : nc_session) (blocks : list (list byte))
    (rest : list rd_event) :
  usable s -> ti_type s = NC_TI_FD -> version s = NC_VERSION_11 ->
  Forall chunk_ok blocks -> blocks <> [] ->
  delivers (rd_script (ti_fd_in s))
           (concat (map chunk_frame blocks) ++ END_OF_CHUNKS) rest ->
  nc_read_frame s = Some (Frame_msg (concat blocks) (set_rd_script s rest)).
Proof.
  intros Hu Hti Hv Hok Hne Hd. unfold nc_read_frame. rewrite Hv.
  rewrite (nc_read_msg_v11_delivers blocks Hok None s NC_READ_TIMEOUT rest);
    try assumption; try reflexivity.
  - now right.
  - apply delivers_size in Hd. rewrite length_app in Hd.
    pose proof (chunk_frames_length blocks). lia.
Qed.

Lemma nc_read_frame_v10 (s : nc_session) (body : list byte)
    (rest : list rd_event) :
  usable s -> ti_type s = NC_TI_FD -> version s = NC_VERSION_10 ->
  delivers (rd_script (ti_fd_in s)) (body ++ NC_VERSION_10_ENDTAG) rest ->
  first_at_end NC_VERSION_10_ENDTAG body ->
  len (body ++ NC_VERSION_10_ENDTAG) <= INT_MAX ->
  nc_read_frame s = Some (Frame_msg body (set_rd_script s rest)).
Proof.
  intros Hu Hti Hv Hd Hfirst Hmax. unfold nc_read_frame. rewrite Hv.
  now apply nc_read_msg_v10_delivers.
Qed.

(** ** Counts that the int of nc_read_msg does not hold *)

(** A NETCONF 1.0 frame whose length the int takes for -1 is dropped as a
    failed read, although it was read in full. *)
Lemma nc_read_msg_v10_wraps (s : nc_session) (body : list byte)
    (rest : list rd_event) (t : Z) :
  usable s -> ti_type s = NC_TI_FD ->
  delivers (rd_script (ti_fd_in s)) (body ++ NC_VERSION_10_ENDTAG) rest ->
  first_at_end NC_VERSION_10_ENDTAG body ->
  to_int (len (body ++ NC_VERSION_10_ENDTAG)) = -1 ->
  nc_read_msg_v10 s t = Some (Frame_error (set_rd_script s rest)).
Proof.
  intros Hu Hti Hd Hfirst Hwrap. unfold nc_read_msg_v10.
  rewrite (nc_read_until_delivers s NC_VERSION_10_ENDTAG body rest t);
    try assumption; try reflexivity; try discriminate.
  cbn [rr_ret rr_buf rr_session]. cbv zeta. now rewrite Hwrap.
Qed.

(** A chunk whose length the int takes for -1 ends the message at the
    label error, although it was read in full. *)
Lemma nc_read_msg_v11_chunk_wraps (s : nc_session) (blk : list byte)
    (mid : list rd_event) (t : Z) (msg : option (list byte)) (fuel : nat) :
  usable s -> ti_type s = NC_TI_FD ->
  blk <> [] -> len blk < PTRDIFF_MAX -> to_int (len blk) = -1 ->
  delivers (rd_script (ti_fd_in s)) (chunk_frame blk) mid ->
  nc_read_msg_v11 (S fuel) s t msg = Some (Frame_error (set_rd_script s mid)).
Proof.
  intros Hu Hti Hne Hmax Hwrap Hd. pose proof (len_nonneg blk) as Hpos.
  assert (Hul : 0 <= len blk <= ULONG_MAX)
    by (unfold PTRDIFF_MAX, ULONG_MAX in *; lia).
  unfold chunk_frame in Hd. rewrite chunk_header_split in Hd by exact Hul.
  apply delivers_split in Hd as (mid1 & Hd1 & Hd2).
  rewrite (nc_read_msg_v11_header s (utoa (len blk)) mid1 t msg fuel Hu Hti
             Hd1 (utoa_no_LF _ Hpos)).
  cbv zeta.
  rewrite to_int_count
    by (rewrite len_app; pose proof (utoa_len _ Hul);
        pose proof (len_nonneg (utoa (len blk))); change (len [LF]) with 1;
        unfold INT_MAX; lia).
  destruct (utoa_head (len blk) Hpos) as (d & tl & E & Hdig).
  assert (Hcmp : (strcmp (utoa (len blk) ++ [LF]) ["#"%byte; LF] =? 0) = false)
    by (rewrite E; cbn [app]; now apply strcmp_numeral).
  rewrite Hcmp, (strtoul_utoa (len blk) [LF] Hul eq_refl).
  assert (Hn : 0 < len blk).
  { destruct blk; [contradiction|]. rewrite len_cons.
    pose proof (len_nonneg blk). lia. }
  replace (len blk =? 0) with false by (symmetry; apply Z.eqb_neq; lia).
  rewrite (nc_read_chunk_delivers (set_rd_script s mid1) blk mid t);
    try assumption.
  cbn [rr_ret rr_session]. rewrite Hwrap, set_rd_script_twice. reflexivity.
Qed.

(** A chunk of ULONG_MAX bytes: the buffer asked for has no room, the read
    fails before it takes anything and the session is Invalid with the
    reason Other. *)
Lemma nc_read_chunk_no_room (s : nc_session) (t : Z) :
  usable s -> ti_type s = NC_TI_FD ->
  nc_read_chunk s ULONG_MAX t
  = {| rr_ret := -1; rr_buf := []; rr_timeout := t;
       rr_session := set_status s NC_STATUS_INVALID NC_SESSION_TERM_OTHER |}.
Proof.
  intros Hu Hti. unfold nc_read_chunk, nc_read_fault.
  change (ULONG_MAX =? 0) with false.
  change (malloc_fails (uint64 (ULONG_MAX + 1))) with false.
  change (uint64 (ULONG_MAX + 1) =? 0) with true. cbv iota.
  unfold usable in Hu. rewrite Hu, Hti. reflexivity.
Qed.

(** A chunk that the C library does not allocate: [nc_read_chunk] fails and
    leaves the session and the input as they were. *)
Lemma nc_read_chunk_no_memory (s : nc_session) (n t : Z) :
  PTRDIFF_MAX <= n < ULONG_MAX ->
  nc_read_chunk s n t
  = {| rr_ret := -1; rr_buf := []; rr_timeout := t; rr_session := s |}.
Proof.
  intros Hn. unfold nc_read_chunk, malloc_fails.
  replace (n =? 0) with false
    by (symmetry; apply Z.eqb_neq; unfold PTRDIFF_MAX in Hn; lia).
  rewrite uint64_small by (unfold PTRDIFF_MAX, ULONG_MAX in *; lia).
  replace (PTRDIFF_MAX <? n + 1) with true
    by (symmetry; apply Z.ltb_lt; lia).
  reflexivity.
Qed.

(** ** Writing on a transport without faults *)

Lemma sent_healthy (s s' : nc_session) (bs : list byte) :
  healthy s -> sent s bs s' -> healthy s'.
Proof.
  intros [Hu Hfd Hp Hw] (ps & ws & Hps & Hws & ->).
  constructor; simpl; assumption.
Qed.

Lemma sent_nil (s : nc_session) : healthy s -> sent s [] s.
Proof.
  intros [Hu Hfd Hp Hw].
  exists (poll_script (ti_fd_in s)), (wr_script (ti_fd_out s)).
  split; [assumption|]. split; [assumption|].
  destruct s as [? ? ? ? ? ? [? ?] [? ?] ?]. simpl.
  now rewrite app_nil_r.
Qed.

Lemma sent_trans (s1 s2 s3 : nc_session) (a b : list byte) :
  sent s1 a s2 -> sent s2 b s3 -> sent s1 (a ++ b) s3.
Proof.
  intros (ps & ws & Hps & Hws & ->) (ps' & ws' & Hps' & Hws' & ->).
  exists ps', ws'. split; [assumption|]. split; [assumption|].
  simpl. unfold set_fd_out, set_poll_script, set_fd_in. simpl.
  now rewrite app_assoc.
Qed.

Lemma sent_fields (s s' : nc_session) (bs : list byte) :
  sent s bs s' ->
  status s' = status s /\ term_reason s' = term_reason s
  /\ side s' = side s /\ id s' = id s /\ version s' = version s
  /\ ti_type s' = ti_type s /\ msgid s' = msgid s
  /\ rd_script (ti_fd_in s') = rd_script (ti_fd_in s)
  /\ wire (ti_fd_out s') = wire (ti_fd_out s) ++ bs.
Proof.
  intros (ps & ws & _ & _ & ->). simpl. repeat split.
Qed.

Lemma sent_version (s s' : nc_session) (bs : list byte) :
  sent s bs s' -> version s' = version s.
Proof. intros H. apply sent_fields in H. tauto. Qed.

Lemma sent_set_msgid (s s' : nc_session) (bs : list byte) (m : Z) :
  sent s bs s' -> sent (set_msgid s m) bs (set_msgid s' m).
Proof.
  intros (ps & ws & Hps & Hws & ->). exists ps, ws.
  split; [assumption|]. split; [assumption|]. reflexivity.
Qed.

Lemma poll_connected_quiet (ps : list poll_event) :
  Forall poll_quiet ps ->
  exists ps', poll_connected ps = (1, ps') /\ Forall poll_quiet ps'.
Proof.
  induction 1 as [|p ps [->| ->] H IH]; simpl.
  - exists []. split; [reflexivity|constructor].
  - exists ps. split; [reflexivity|assumption].
  - exact IH.
Qed.

Lemma firstn_add_skipn (a b : nat) (l : list byte) :
  firstn (a + b) l = firstn a l ++ firstn b (skipn a l).
Proof.
  revert l. induction a as [|a IH]; intros l; simpl; [reflexivity|].
  destruct l as [|x l]; simpl.
  - now rewrite firstn_nil.
  - now rewrite IH.
Qed.

Lemma nc_write_loop_accepts (ws : list wr_event) (buf : list byte) (count : Z) :
  Forall accepts ws ->
  forall written w,
    0 <= written <= count ->
    exists ws',
      nc_write_loop ws buf count written w
      = (count, ws',
         w ++ firstn (Z.to_nat (count - written)) (skipn (Z.to_nat written) buf))
      /\ Forall accepts ws'.
Proof.
  induction 1 as [|e ws He H IH]; intros written w Hw; cbn [nc_write_loop].
  - exists []. split; [reflexivity|constructor].
  - destruct e as [|n]; [now contradiction He|].
    cbv zeta.
    remember (Z.min (Z.min (Z.of_nat n) (count - written)) INT_MAX) as c
      eqn:Ec.
    assert (Hc : 0 <= c <= count - written) by (unfold INT_MAX in Ec; lia).
    destruct (written + c <? count) eqn:E.
    + apply Z.ltb_lt in E.
      destruct (IH (written + c)
                   (w ++ firstn (Z.to_nat c) (skipn (Z.to_nat written) buf)))
        as (ws' & Eq & Hws'); [lia|].
      exists ws'. split; [|assumption]. rewrite Eq. f_equal.
      rewrite <- app_assoc. f_equal.
      replace (Z.to_nat (count - written))
        with (Z.to_nat c + Z.to_nat (count - (written + c)))%nat by lia.
      rewrite firstn_add_skipn, skipn_skipn. do 3 f_equal. lia.
    + apply Z.ltb_ge in E. exists ws. split; [|assumption].
      replace c with (count - written) by lia.
      f_equal. f_equal. lia.
Qed.

Lemma nc_write_healthy (s : nc_session) (buf : list byte) (count : Z) :
  healthy s -> 0 <= count ->
  exists s',
    nc_write s buf count = (to_int count, s')
    /\ sent s (firstn (Z.to_nat count) buf) s'.
Proof.
  intros [Hu Hfd Hp Hw] Hc. unfold nc_write. rewrite Hu.
  unfold nc_session_is_connected. rewrite Hfd.
  destruct (poll_connected_quiet _ Hp) as (ps & -> & Hps).
  change (1 =? 0) with false. cbv iota.
  change (ti_type (set_poll_script s ps)) with (ti_type s). rewrite Hfd.
  change (ti_fd_out (set_poll_script s ps)) with (ti_fd_out s).
  destruct (nc_write_loop_accepts _ buf count Hw 0 (wire (ti_fd_out s)))
    as (ws & -> & Hws); [lia|].
  eexists. split; [reflexivity|]. exists ps, ws.
  split; [assumption|]. split; [assumption|].
  now rewrite Z.sub_0_r.
Qed.

Lemma nul_free_digits (l : list byte) :
  Forall (fun b => is_digit b = true) l -> nul_free l = true.
Proof.
  induction 1 as [|b l Hb H IH]; simpl; [reflexivity|].
  rewrite IH, andb_true_r. apply negb_true_iff.
  unfold is_nul. apply byte_eqb_neq. intros ->. discriminate Hb.
Qed.

Lemma uint64_range (n : Z) : 0 <= uint64 n <= ULONG_MAX.
Proof.
  unfold uint64, ULONG_MAX.
  pose proof (Z.mod_pos_bound n (2 ^ 64) ltac:(lia)). lia.
Qed.

Lemma chunk_header_nul_free (n : Z) : nul_free (chunk_header n) = true.
Proof.
  unfold chunk_header. rewrite !nul_free_app.
  rewrite (nul_free_digits _ (utoa_all_digits _ (proj1 (uint64_range n)))).
  reflexivity.
Qed.

(** The header of a chunk is short. *)
Lemma chunk_header_len (n : Z) : 0 <= len (chunk_header n) <= 67.
Proof.
  unfold chunk_header. rewrite !len_app.
  pose proof (utoa_len _ (uint64_range n)).
  pose proof (len_nonneg (utoa (uint64 n))).
  change (len [LF; "#"%byte]) with 2. change (len [LF]) with 1. lia.
Qed.

Lemma on_wire_app (v : NC_VERSION) (a b : list (list byte)) :
  on_wire v (a ++ b) = on_wire v a ++ on_wire v b.
Proof.
  destruct v; simpl.
  - apply concat_app.
  - rewrite map_app. apply concat_app.
Qed.

Lemma nc_write_starttag_and_msg_healthy (s : nc_session) (buf : list byte)
    (count : Z) :
  healthy s -> 0 <= count <= len buf ->
  exists ret s',
    nc_write_starttag_and_msg s buf count = (ret, s')
    /\ (count <= INT_MAX -> 0 <= ret)
    /\ sent s (on_wire (version s) [firstn (Z.to_nat count) buf]) s'.
Proof.
  intros Hs Hc. unfold nc_write_starttag_and_msg.
  assert (Hlen : len (firstn (Z.to_nat count) buf) = count).
  { unfold len in *. rewrite length_firstn. lia. }
  assert (Hint : count <= INT_MAX -> to_int count = count)
    by (intros H; apply to_int_small; unfold INT_MAX in *; lia).
  destruct (version s) eqn:Hv.
  - change (0 =? -1) with false. cbv iota.
    destruct (nc_write_healthy s buf count Hs ltac:(lia)) as (s' & -> & Hsent).
    exists (if to_int count =? -1 then -1 else 0 + to_int count), s'.
    split; [now destruct (to_int count =? -1)|]. split.
    + intros Hmax. rewrite (Hint Hmax).
      replace (count =? -1) with false by (symmetry; apply Z.eqb_neq; lia).
      lia.
    + simpl. now rewrite app_nil_r.
  - pose proof (chunk_header_nul_free count) as Hnf.
    pose proof (chunk_header_len count) as Hhl.
    rewrite (strlen_nul_free _ Hnf).
    destruct (nc_write_healthy s (chunk_header count)
                (Z.of_nat (length (chunk_header count))) Hs ltac:(lia))
      as (s1 & -> & Hsent1).
    rewrite Nat2Z.id, firstn_all in Hsent1.
    fold (len (chunk_header count)).
    rewrite (to_int_small (len (chunk_header count)))
      by (unfold INT_MAX; lia).
    replace (len (chunk_header count) =? -1) with false
      by (symmetry; apply Z.eqb_neq; lia).
    destruct (nc_write_healthy s1 buf count (sent_healthy _ _ _ Hs Hsent1)
                ltac:(lia)) as (s2 & -> & Hsent2).
    exists (if to_int count =? -1 then -1
            else len (chunk_header count) + to_int count), s2.
    split; [now destruct (to_int count =? -1)|]. split.
    + intros Hmax. rewrite (Hint Hmax).
      replace (count =? -1) with false by (symmetry; apply Z.eqb_neq; lia).
      lia.
    + cbn [on_wire map concat]. unfold chunk_frame. rewrite Hlen, app_nil_r.
      exact (sent_trans _ _ _ _ _ Hsent1 Hsent2).
Qed.

Lemma nc_write_endtag_healthy (s : nc_session) :
  healthy s ->
  exists ret s',
    nc_write_endtag s = (ret, s') /\ 0 <= ret
    /\ sent s (end_of_message (version s)) s'.
Proof.
  intros Hs. unfold nc_write_endtag.
  destruct (version s).
  - destruct (nc_write_healthy s (bytes "]]>]]>") 6 Hs ltac:(lia))
      as (s' & -> & Hsent).
    exists 6, s'. split; [reflexivity|]. split; [lia|]. exact Hsent.
  - destruct (nc_write_healthy s [LF; "#"%byte; "#"%byte; LF] 4 Hs ltac:(lia))
      as (s' & -> & Hsent).
    exists 4, s'. split; [reflexivity|]. split; [lia|]. exact Hsent.
Qed.

Lemma nc_write_clb_flush_healthy (w : wclb_arg) :
  staged_ok w ->
  exists ret s',
    nc_write_clb_flush w = (ret, {| warg_session := s'; warg_buf := [] |})
    /\ 0 <= ret
    /\ sent (warg_session w)
            (on_wire (version (warg_session w)) (staged_block (warg_buf w))) s'.
Proof.
  intros [Hs Hstaged]. unfold nc_write_clb_flush.
  unfold warg_len in *.
  destruct w as [s buf]. simpl in *.
  destruct buf as [|b buf].
  - simpl. exists 0, s. split; [reflexivity|]. split; [lia|].
    destruct (version s); apply sent_nil; assumption.
  - replace (len (b :: buf) =? 0) with false
      by (symmetry; apply Z.eqb_neq; rewrite len_cons;
          pose proof (len_nonneg buf); lia).
    cbn [negb].
    destruct (nc_write_starttag_and_msg_healthy s (b :: buf) (len (b :: buf)) Hs)
      as (ret & s' & -> & Hret & Hsent).
    { pose proof (len_nonneg (b :: buf)). lia. }
    rewrite len_to_nat, firstn_all in Hsent.
    exists ret, s'. split; [reflexivity|]. split; [|assumption].
    apply Hret. unfold WRITE_BUFSIZE, BUFFERSIZE, INT_MAX in *. lia.
Qed.

Lemma staged_block_concat (buf : list byte) : concat (staged_block buf) = buf.
Proof. destruct buf; simpl; [reflexivity|now rewrite app_nil_r]. Qed.

Lemma staged_block_ok (buf : list byte) (bound : Z) :
  len buf <= bound ->
  Forall (fun b => b <> [] /\ len b <= bound) (staged_block buf).
Proof.
  intros H. destruct buf; simpl; constructor; [|constructor].
  split; [discriminate|assumption].
Qed.

Lemma xml_escape_char_len (ch : byte) : 1 <= len (xml_escape_char ch) <= 5.
Proof.
  unfold xml_escape_char.
  destruct (Byte.eqb ch "&"%byte); [cbv; split; discriminate|].
  destruct (Byte.eqb ch "<"%byte); [cbv; split; discriminate|].
  destruct (Byte.eqb ch ">"%byte); cbv; split; discriminate.
Qed.

(** One turn of the loop over a text in content mode: an optional flush,
    then the character or its entity goes to the staging buffer. *)
Lemma nc_write_clb_content_step (w : wclb_arg) (ret : Z) (ch : byte)
    (text : list byte) :
  nc_write_clb_content w ret (ch :: text)
  = let '(c, w1) := if WRITE_BUFSIZE <=? warg_len w + 5
                    then nc_write_clb_flush w else (0, w) in
    if c =? -1 then (-1, w1)
    else nc_write_clb_content
           {| warg_session := warg_session w1;
              warg_buf := warg_buf w1 ++ xml_escape_char ch |}
           (ret + len (xml_escape_char ch)) text.
Proof.
  cbn [nc_write_clb_content].
  destruct (if WRITE_BUFSIZE <=? warg_len w + 5
            then nc_write_clb_flush w else (0, w)) as [c w1].
  destruct (c =? -1); [reflexivity|].
  unfold xml_escape_char.
  destruct (Byte.eqb ch "&"%byte); [reflexivity|].
  destruct (Byte.eqb ch "<"%byte); [reflexivity|].
  destruct (Byte.eqb ch ">"%byte); reflexivity.
Qed.

Lemma nc_write_clb_content_healthy (text : list byte) :
  forall w ret,
    staged_ok w -> 0 <= ret ->
    exists r w' blocks,
      nc_write_clb_content w ret text = (r, w')
      /\ 0 <= r /\ staged_ok w'
      /\ sent (warg_session w) (on_wire (version (warg_session w)) blocks)
              (warg_session w')
      /\ concat blocks ++ warg_buf w' = warg_buf w ++ xml_escape text
      /\ Forall (fun b => b <> [] /\ len b <= WRITE_BUFSIZE) blocks.
Proof.
  induction text as [|ch text IH]; intros w ret [Hs Hlen] Hret.
  - exists ret, w, []. split; [reflexivity|]. split; [assumption|].
    split; [now split|]. split.
    { destruct (version (warg_session w)); now apply sent_nil. }
    split; [simpl; now rewrite app_nil_r | constructor].
  - rewrite nc_write_clb_content_step.
    pose proof (xml_escape_char_len ch) as Hch.
    destruct (WRITE_BUFSIZE <=? warg_len w + 5) eqn:E.
    + destruct (nc_write_clb_flush_healthy w (conj Hs Hlen)) as (c & s1 & -> & Hc & Hsent).
      replace (c =? -1) with false by (symmetry; apply Z.eqb_neq; lia).
      cbn [warg_session warg_buf app].
      destruct (IH {| warg_session := s1; warg_buf := xml_escape_char ch |}
                   (ret + len (xml_escape_char ch)))
        as (r & w' & blocks & -> & Hr & Hok & Hsent' & Hcat & Hbl).
      { split; [exact (sent_healthy _ _ _ Hs Hsent)|].
        unfold warg_len, WRITE_BUFSIZE, BUFFERSIZE. simpl. lia. }
      { lia. }
      cbn [warg_session warg_buf] in *.
      rewrite (sent_version _ _ _ Hsent) in Hsent'.
      exists r, w', (staged_block (warg_buf w) ++ blocks).
      split; [reflexivity|]. split; [assumption|]. split; [assumption|].
      split; [|split].
      * rewrite on_wire_app. exact (sent_trans _ _ _ _ _ Hsent Hsent').
      * rewrite concat_app, staged_block_concat, <- app_assoc, Hcat.
        reflexivity.
      * apply Forall_app. split; [|assumption].
        now apply staged_block_ok.
    + apply Z.leb_gt in E. change (0 =? -1) with false. cbv iota.
      destruct (IH {| warg_session := warg_session w;
                      warg_buf := warg_buf w ++ xml_escape_char ch |}
                   (ret + len (xml_escape_char ch)))
        as (r & w' & blocks & -> & Hr & Hok & Hsent' & Hcat & Hbl).
      { split; [exact Hs|]. unfold warg_len in *. simpl. rewrite len_app. lia. }
      { lia. }
      cbn [warg_session warg_buf] in *.
      exists r, w', blocks.
      split; [reflexivity|]. split; [assumption|]. split; [assumption|].
      split; [assumption|]. split; [|assumption].
      rewrite Hcat, <- app_assoc. reflexivity.
Qed.

Lemma nonempty_of_bound (blocks : list (list byte)) (bound : Z) :
  Forall (fun b => b <> [] /\ len b <= bound) blocks ->
  Forall (fun b => b <> []) blocks.
Proof.
  intros H. eapply Forall_impl; [|exact H]. now intros b [Hne _].
Qed.

(** The optional dump of the current buffer at the head of [nc_write_clb]. *)
Lemma nc_write_clb_dump_healthy (w : wclb_arg) (count : Z) :
  staged_ok w ->
  exists c1 w1 blocks1,
    (if negb (warg_len w =? 0) && (WRITE_BUFSIZE <? warg_len w + count)
     then nc_write_clb_flush w else (0, w)) = (c1, w1)
    /\ 0 <= c1 /\ staged_ok w1
    /\ sent (warg_session w)
            (on_wire (version (warg_session w)) blocks1)
            (warg_session w1)
    /\ concat blocks1 ++ warg_buf w1 = warg_buf w
    /\ Forall (fun b => b <> [] /\ len b <= WRITE_BUFSIZE) blocks1
    /\ (warg_buf w1 = [] \/ warg_len w1 + count <= WRITE_BUFSIZE)
    /\ (warg_len w + count <= WRITE_BUFSIZE -> w1 = w /\ blocks1 = [])
    /\ (WRITE_BUFSIZE < warg_len w + count -> warg_buf w <> [] ->
        warg_buf w1 = [] /\ blocks1 = [warg_buf w]).
Proof.
  intros [Hs Hlen].
  pose proof (len_nonneg (warg_buf w)) as Hw0.
  destruct (negb (warg_len w =? 0) && (WRITE_BUFSIZE <? warg_len w + count))
    eqn:E.
  - apply andb_prop in E as [E1 E2].
    apply negb_true_iff, Z.eqb_neq in E1. apply Z.ltb_lt in E2.
    destruct (nc_write_clb_flush_healthy w (conj Hs Hlen)) as (c1 & s1 & -> & Hc & Hsent).
    exists c1, {| warg_session := s1; warg_buf := [] |},
      (staged_block (warg_buf w)).
    split; [reflexivity|]. split; [assumption|]. split.
    { split; [exact (sent_healthy _ _ _ Hs Hsent)|]. cbv. discriminate. }
    split; [assumption|]. split.
    { rewrite staged_block_concat. apply app_nil_r. }
    split; [now apply staged_block_ok|]. split; [now left|].
    split; [lia|]. intros _ Hne. split; [reflexivity|].
    destruct (warg_buf w); [contradiction|reflexivity].
  - exists 0, w, []. split; [reflexivity|]. split; [lia|].
    split; [now split|]. split.
    { destruct (version (warg_session w)); now apply sent_nil. }
    split; [reflexivity|]. split; [constructor|].
    apply andb_false_iff in E as [E|E].
    + apply negb_false_iff, Z.eqb_eq in E. split; [left; now apply len_0|].
      split; [now split|]. intros _ Hne. exfalso. apply Hne. now apply len_0.
    + apply Z.ltb_ge in E. split; [now right|].
      split; [now split|]. lia.
Qed.

Lemma nc_write_clb_healthy (w : wclb_arg) (c : clb_call) :
  staged_ok w -> call_ok c ->
  exists r w' blocks,
    nc_write_clb w (Some (cc_buf c)) (cc_count c) (cc_xmlcontent c) = (r, w')
    /\ (cc_count c <= INT_MAX -> 0 <= r) /\ staged_ok w'
    /\ sent (warg_session w) (on_wire (version (warg_session w)) blocks)
            (warg_session w')
    /\ concat blocks ++ warg_buf w' = warg_buf w ++ call_bytes c
    /\ Forall (fun b => b <> []) blocks.
Proof.
  intros [Hs Hlen] [Hc0 Hc1]. destruct c as [buf count xml].
  cbn [cc_buf cc_count cc_xmlcontent] in *. unfold call_bytes.
  cbn [cc_buf cc_count cc_xmlcontent]. unfold nc_write_clb.
  pose proof (len_nonneg (warg_buf w)) as Hw0.
  destruct (nc_write_clb_dump_healthy w count (conj Hs Hlen))
    as (c1 & w1 & blocks1 & -> & Hc1' & [Hs1 Hlen1] & Hsent1
        & Hcat1 & Hbl1 & Hroom & _).
  replace (c1 =? -1) with false by (symmetry; apply Z.eqb_neq; lia).
  pose proof (sent_version _ _ _ Hsent1) as Hv1.
  destruct xml; cbn [negb andb].
  - (* content mode *)
    destruct (nc_write_clb_content_healthy (firstn (Z.to_nat count) buf) w1 c1
                (conj Hs1 Hlen1) Hc1')
      as (r & w' & blocks & -> & Hr & Hok & Hsent & Hcat & Hbl).
    rewrite Hv1 in Hsent.
    exists r, w', (blocks1 ++ blocks).
    split; [reflexivity|]. split; [intros _; assumption|].
    split; [assumption|]. split; [|split].
    + rewrite on_wire_app. exact (sent_trans _ _ _ _ _ Hsent1 Hsent).
    + rewrite concat_app, <- app_assoc, Hcat, app_assoc, Hcat1. reflexivity.
    + apply Forall_app. split; eapply nonempty_of_bound; eassumption.
  - destruct (WRITE_BUFSIZE <? count) eqn:E.
    + (* write directly *)
      apply Z.ltb_lt in E.
      assert (Hempty : warg_buf w1 = []).
      { destruct Hroom as [H|H]; [assumption|].
        pose proof (len_nonneg (warg_buf w1)). unfold warg_len in H. lia. }
      destruct (nc_write_starttag_and_msg_healthy (warg_session w1) buf count
                  Hs1 (conj Hc0 Hc1))
        as (r & s2 & -> & Hr & Hsent).
      rewrite Hv1 in Hsent.
      exists (if r =? -1 then -1 else c1 + r),
        {| warg_session := s2; warg_buf := warg_buf w1 |},
        (blocks1 ++ [firstn (Z.to_nat count) buf]).
      split; [now destruct (r =? -1)|]. split.
      { intros Hmax. specialize (Hr Hmax).
        replace (r =? -1) with false by (symmetry; apply Z.eqb_neq; lia).
        lia. }
      split.
      { split; [exact (sent_healthy _ _ _ Hs1 Hsent)|exact Hlen1]. }
      split; [|split].
      * rewrite on_wire_app. exact (sent_trans _ _ _ _ _ Hsent1 Hsent).
      * cbn [warg_buf]. rewrite Hempty in *. rewrite app_nil_r in *.
        rewrite concat_app, Hcat1. simpl. now rewrite app_nil_r.
      * apply Forall_app. split; [eapply nonempty_of_bound; eassumption|].
        constructor; [|constructor].
        assert (Hl : len (firstn (Z.to_nat count) buf) = count)
          by (unfold len in *; rewrite length_firstn; lia).
        intros E0. rewrite E0 in Hl.
        unfold WRITE_BUFSIZE, BUFFERSIZE in E. cbv in Hl. lia.
    + (* keep in buffer and write later *)
      apply Z.ltb_ge in E.
      exists (c1 + count), (stage w1 buf count), blocks1.
      split; [reflexivity|]. split; [lia|]. split.
      { split; [exact Hs1|]. unfold warg_len, stage in *. cbn [warg_buf].
        rewrite len_app.
        assert (Hl : len (firstn (Z.to_nat count) buf) = count)
          by (unfold len in *; rewrite length_firstn; lia).
        destruct Hroom as [H|H]; [rewrite H; change (len []) with 0; lia|lia]. }
      split; [assumption|]. split.
      * unfold stage. cbn [warg_buf]. now rewrite app_assoc, Hcat1.
      * eapply nonempty_of_bound; eassumption.
Qed.

Lemma nc_write_calls_cons (w : wclb_arg) (c : clb_call) (calls : list clb_call) :
  nc_write_calls w (c :: calls)
  = nc_write_calls
      (snd (nc_write_clb w (Some (cc_buf c)) (cc_count c) (cc_xmlcontent c)))
      calls.
Proof. reflexivity. Qed.

Lemma nc_write_calls_app (w : wclb_arg) (a b : list clb_call) :
  nc_write_calls w (a ++ b) = nc_write_calls (nc_write_calls w a) b.
Proof. apply fold_left_app. Qed.

Lemma nc_write_calls_healthy (calls : list clb_call) :
  Forall call_ok calls ->
  forall w,
    staged_ok w ->
    exists blocks,
      staged_ok (nc_write_calls w calls)
      /\ sent (warg_session w) (on_wire (version (warg_session w)) blocks)
              (warg_session (nc_write_calls w calls))
      /\ concat blocks ++ warg_buf (nc_write_calls w calls)
         = warg_buf w ++ calls_bytes calls
      /\ Forall (fun b => b <> []) blocks.
Proof.
  induction 1 as [|c calls Hc H IH]; intros w Hw.
  - exists []. split; [exact Hw|]. split.
    { destruct Hw as [Hs _].
      destruct (version (warg_session w)); now apply sent_nil. }
    split; [simpl; now rewrite app_nil_r | constructor].
  - rewrite nc_write_calls_cons.
    destruct (nc_write_clb_healthy w c Hw Hc)
      as (r & w1 & blocks1 & -> & Hr & Hw1 & Hsent1 & Hcat1 & Hbl1).
    cbn [snd].
    destruct (IH w1 Hw1) as (blocks & Hw' & Hsent & Hcat & Hbl).
    rewrite (sent_version _ _ _ Hsent1) in Hsent.
    exists (blocks1 ++ blocks). split; [assumption|]. split; [|split].
    + rewrite on_wire_app. exact (sent_trans _ _ _ _ _ Hsent1 Hsent).
    + rewrite concat_app, <- app_assoc, Hcat, app_assoc, Hcat1.
      unfold calls_bytes. cbn [flat_map]. now rewrite app_assoc.
    + now apply Forall_app.
Qed.

Lemma nc_write_clb_end_healthy (w : wclb_arg) :
  staged_ok w ->
  exists r s',
    nc_write_clb w None 0 false
    = (r, {| warg_session := s'; warg_buf := [] |})
    /\ 0 <= r
    /\ sent (warg_session w)
            (on_wire (version (warg_session w)) (staged_block (warg_buf w))
             ++ end_of_message (version (warg_session w))) s'.
Proof.
  intros [Hs Hlen]. unfold nc_write_clb.
  destruct (nc_write_clb_flush_healthy w (conj Hs Hlen)) as (c & s1 & -> & Hc & Hsent1).
  replace (c =? -1) with false by (symmetry; apply Z.eqb_neq; lia).
  cbn [warg_session warg_buf].
  destruct (nc_write_endtag_healthy s1 (sent_healthy _ _ _ Hs Hsent1))
    as (r & s2 & -> & Hr & Hsent2).
  replace (r =? -1) with false by (symmetry; apply Z.eqb_neq; lia).
  rewrite (sent_version _ _ _ Hsent1) in Hsent2.
  exists (c + r), s2. split; [reflexivity|]. split; [lia|].
  exact (sent_trans _ _ _ _ _ Hsent1 Hsent2).
Qed.

(** A whole message on a fault-free transport: the calls of the callback,
    then the call that flushes and ends the message. *)
Lemma nc_write_message_healthy (w : wclb_arg) (calls : list clb_call) :
  staged_ok w -> warg_buf w = [] -> Forall call_ok calls ->
  exists r s' frame,
    nc_write_clb (nc_write_calls w calls) None 0 false
    = (r, {| warg_session := s'; warg_buf := [] |})
    /\ 0 <= r
    /\ sent (warg_session w) frame s'
    /\ framed (version (warg_session w)) (calls_bytes calls) frame.
Proof.
  intros Hw Hempty Hcalls.
  destruct (nc_write_calls_healthy calls Hcalls w Hw)
    as (blocks & Hw1 & Hsent1 & Hcat & Hbl).
  destruct (nc_write_clb_end_healthy _ Hw1) as (r & s' & -> & Hr & Hsent2).
  rewrite (sent_version _ _ _ Hsent1) in Hsent2.
  rewrite Hempty in Hcat. cbn [app] in Hcat.
  exists r, s', (on_wire (version (warg_session w))
                   (blocks ++ staged_block (warg_buf (nc_write_calls w calls)))
                 ++ end_of_message (version (warg_session w))).
  split; [reflexivity|]. split; [assumption|]. split.
  - rewrite on_wire_app, <- app_assoc.
    exact (sent_trans _ _ _ _ _ Hsent1 Hsent2).
  - exists (blocks ++ staged_block (warg_buf (nc_write_calls w calls))).
    split; [|split; [|reflexivity]].
    + apply Forall_app. split; [assumption|].
      apply (nonempty_of_bound _ WRITE_BUFSIZE).
      apply staged_block_ok. apply Hw1.
    + now rewrite concat_app, staged_block_concat.
Qed.

Lemma framed_v10 (body frame : list byte) :
  framed NC_VERSION_10 body frame -> frame = body ++ NC_VERSION_10_ENDTAG.
Proof.
  intros (blocks & _ & Hcat & ->). simpl. now rewrite Hcat.
Qed.

(** ** Round trip through the framed writer and the framed reader *)

Lemma healthy_session_on (v : NC_VERSION) (sd : NC_SIDE) (input : list rd_event) :
  healthy (session_on v sd input).
Proof. constructor; simpl; try reflexivity; constructor. Qed.

Lemma first_at_end_endtag (body : list byte) :
  ~ contains NC_VERSION_10_ENDTAG body ->
  ~ ends_with (bytes "]]>") body ->
  first_at_end NC_VERSION_10_ENDTAG body.
Proof.
  intros Hc He k Hk Heq.
  assert (HE : NC_VERSION_10_ENDTAG
               = ["]"%byte; "]"%byte; ">"%byte; "]"%byte; "]"%byte; ">"%byte])
    by reflexivity.
  rewrite skipn_app in Heq.
  replace (k - length body)%nat with O in Heq by lia.
  cbn [skipn] in Heq.
  assert (Hbody : body = firstn k body ++ skipn k body)
    by (symmetry; apply firstn_skipn).
  assert (Hq : skipn k body <> []).
  { intros E. apply (f_equal (@length byte)) in E.
    rewrite length_skipn in E. simpl in E. lia. }
  rewrite HE in Heq.
  destruct (skipn k body) as [|x1 [|x2 [|x3 [|x4 [|x5 [|x6 q]]]]]] eqn:Eq;
    try (cbn in Heq; congruence).
  - (* three bytes of the body and three of the end tag *)
    cbn in Heq. apply He. exists (firstn k body).
    rewrite Hbody at 1. injection Heq as E1 E2 E3. subst. reflexivity.
  - (* six bytes of the body *)
    cbn in Heq. apply Hc. exists (firstn k body), q.
    rewrite Hbody at 1. rewrite HE.
    injection Heq as E1 E2 E3 E4 E5 E6. subst. reflexivity.
Qed.

Lemma len_concat_le (blocks : list (list byte)) (b : list byte) :
  In b blocks -> len b <= len (concat blocks).
Proof.
  induction blocks as [|x blocks IH]; intros H; [contradiction|].
  cbn [concat]. rewrite len_app. destruct H as [->|H].
  - pose proof (len_nonneg (concat blocks)). lia.
  - pose proof (len_nonneg x). specialize (IH H). lia.
Qed.

Lemma chunk_ok_blocks (blocks : list (list byte)) :
  Forall (fun b => b <> []) blocks -> len (concat blocks) <= INT_MAX ->
  Forall chunk_ok blocks.
Proof.
  intros Hne Hmax. apply Forall_forall. intros b Hb. split.
  - exact (proj1 (Forall_forall _ _) Hne b Hb).
  - pose proof (len_concat_le blocks b Hb). lia.
Qed.

Section Roundtrip.

Context {LY : LibYang}.

(** C1 (amended).  On a transport without faults, whatever goes through the
    write callback (calls in raw or in content mode) followed by the call
    that flushes and ends the message is read back by nc_read_msg as exactly
    the body it was (the bytes of the calls, escaped where in content mode):
    in NETCONF 1.0 for a body that neither contains the end tag nor ends with
    its first half (the three bytes that open it) and that, with the end tag
    after it, has a length that an int holds, in NETCONF 1.1 for every body
    that is not empty and has a length that an int holds (nc_read_msg keeps
    the count of the bytes it has read in an int).  The reader gets the
    written bytes in segments of any size. *)
Theorem framed_roundtrip (sw : nc_session) (calls : list clb_call) :
  healthy sw -> Forall call_ok calls ->
  (version sw = NC_VERSION_10 ->
   ~ contains NC_VERSION_10_ENDTAG (calls_bytes calls)
   /\ ~ ends_with (bytes "]]>") (calls_bytes calls)
   /\ len (calls_bytes calls) + NC_VERSION_10_ENDTAG_LEN <= INT_MAX) ->
  (version sw = NC_VERSION_11 ->
   calls_bytes calls <> [] /\ len (calls_bytes calls) <= INT_MAX) ->
  exists r sw' frame,
    nc_write_clb
      (nc_write_calls {| warg_session := sw; warg_buf := [] |} calls)
      None 0 false
    = (r, {| warg_session := sw'; warg_buf := [] |})
    /\ 0 <= r
    /\ wire (ti_fd_out sw') = wire (ti_fd_out sw) ++ frame
    /\ forall sr rest,
         usable sr -> ti_type sr = NC_TI_FD -> version sr = version sw ->
         delivers (rd_script (ti_fd_in sr)) frame rest ->
         nc_read_frame sr
         = Some (Frame_msg (calls_bytes calls) (set_rd_script sr rest))
         /\ nc_read_msg sr
            = Some (nc_classify (set_rd_script sr rest) (calls_bytes calls)).
Proof.
  intros Hs Hcalls H10 H11.
  destruct (nc_write_message_healthy {| warg_session := sw; warg_buf := [] |}
              calls)
    as (r & sw' & frame & Hw & Hr & Hsent & Hframed);
    [split; [exact Hs | cbv; discriminate] | reflexivity | assumption |].
  cbn [warg_session] in *.
  exists r, sw', frame. split; [exact Hw|]. split; [exact Hr|]. split.
  { apply sent_fields in Hsent. tauto. }
  intros sr rest Hu Hfd Hv Hd.
  assert (Hframe : nc_read_frame sr
                   = Some (Frame_msg (calls_bytes calls) (set_rd_script sr rest))).
  { destruct (version sw) eqn:Ev.
    - apply framed_v10 in Hframed. subst frame.
      destruct (H10 eq_refl) as (Hc & He & Hmax).
      apply nc_read_frame_v10; try assumption.
      + now apply first_at_end_endtag.
      + rewrite len_app. exact Hmax.
    - destruct Hframed as (blocks & Hok & Hcat & ->).
      destruct (H11 eq_refl) as [Hne Hmax]. rewrite <- Hcat in *.
      apply nc_read_frame_v11; try assumption.
      + now apply chunk_ok_blocks.
      + intros ->. now apply Hne. }
  split; [exact Hframe|].
  unfold nc_read_msg. rewrite Hu, Hframe. reflexivity.
Qed.

End Roundtrip.

(** The round trip at work: the body <rpc/> written in one raw call on a
    NETCONF 1.0 session. *)
Lemma framed_roundtrip_witness :
  let sw := session_on NC_VERSION_10 NC_CLIENT [] in
  let calls := [lit "<rpc/>" 6] in
  (healthy sw /\ Forall call_ok calls
   /\ ~ contains NC_VERSION_10_ENDTAG (calls_bytes calls)
   /\ ~ ends_with (bytes "]]>") (calls_bytes calls)
   /\ len (calls_bytes calls) + NC_VERSION_10_ENDTAG_LEN <= INT_MAX)
  /\ exists r sw' frame,
       nc_write_clb
         (nc_write_calls {| warg_session := sw; warg_buf := [] |} calls)
         None 0 false
       = (r, {| warg_session := sw'; warg_buf := [] |})
       /\ 0 <= r
       /\ wire (ti_fd_out sw') = wire (ti_fd_out sw) ++ frame
       /\ forall sr rest,
            usable sr -> ti_type sr = NC_TI_FD -> version sr = version sw ->
            delivers (rd_script (ti_fd_in sr)) frame rest ->
            nc_read_frame sr
            = Some (Frame_msg (calls_bytes calls) (set_rd_script sr rest))
            /\ nc_read_msg (LY := ExampleYang) sr
               = Some (nc_classify (set_rd_script sr rest) (calls_bytes calls)).
Proof.
  intros sw calls.
  assert (H1 : healthy sw) by apply healthy_session_on.
  assert (H2 : Forall call_ok calls)
    by (repeat constructor; vm_compute; discriminate).
  assert (H3 : ~ contains NC_VERSION_10_ENDTAG (calls_bytes calls)).
  { intros (pre & post & E). vm_compute in E.
    destruct pre as [|? pre]; [discriminate E|].
    apply (f_equal (@length byte)) in E. simpl in E.
    rewrite length_app in E. simpl in E. lia. }
  assert (H4 : ~ ends_with (bytes "]]>") (calls_bytes calls)).
  { intros (pre & E). vm_compute in E.
    destruct pre as [|? [|? [|? [|? pre]]]]; try discriminate E.
    apply (f_equal (@length byte)) in E. simpl in E.
    rewrite length_app in E. simpl in E. lia. }
  assert (H5 : len (calls_bytes calls) + NC_VERSION_10_ENDTAG_LEN <= INT_MAX)
    by (vm_compute; discriminate).
  split; [tauto|].
  apply (framed_roundtrip (LY := ExampleYang) sw calls H1 H2).
  - intros _. repeat split; assumption.
  - intros E. discriminate E.
Defined.

(** C1, as the spec states it, fails in NETCONF 1.0: the body of three
    bytes that open the end tag does not contain the end tag, yet what is read
    back from the bytes written for it is the empty body, and the last three
    bytes written are left unread. *)
Lemma framed_roundtrip_counterexample :
  let body := bytes "]]>" in
  let written :=
    nc_write_clb
      (nc_write_calls
         {| warg_session := session_on NC_VERSION_10 NC_CLIENT [];
            warg_buf := [] |}
         [raw body 3])
      None 0 false in
  let frame := wire (ti_fd_out (warg_session (snd written))) in
  ~ contains NC_VERSION_10_ENDTAG body
  /\ fst written = 9
  /\ frame = bytes "]]>]]>]]>"
  /\ nc_read_frame (session_on NC_VERSION_10 NC_SERVER [RdData frame])
     = Some (Frame_msg []
               (session_on NC_VERSION_10 NC_SERVER [RdData (bytes "]]>")]))
  /\ [] <> body.
Proof.
  cbv zeta. split; [|split; [|split; [|split]]].
  - intros (pre & post & E). apply (f_equal (@length byte)) in E.
    rewrite !length_app in E.
    change (length (bytes "]]>")) with 3%nat in E.
    change (length NC_VERSION_10_ENDTAG) with 6%nat in E. lia.
  - vm_compute. reflexivity.
  - vm_compute. reflexivity.
  - vm_compute. reflexivity.
  - discriminate.
Qed.

(** ** The calls of the message writers *)

Lemma c_str_length (s : list byte) : (length (c_str s) <= length s)%nat.
Proof.
  induction s as [|b s IH]; simpl; [lia|].
  destruct (is_nul b); simpl; lia.
Qed.

Lemma call_ok_str (s : list byte) (xml : bool) : call_ok (str s xml).
Proof.
  unfold call_ok, str, strlen, len. cbn [cc_count cc_buf].
  pose proof (c_str_length s). lia.
Qed.

Lemma call_ok_raw_len (buf : list byte) : call_ok (raw buf (len buf)).
Proof.
  unfold call_ok, raw. cbn [cc_count cc_buf]. pose proof (len_nonneg buf). lia.
Qed.

Lemma call_ok_printed (pieces : list (list byte)) :
  Forall call_ok (printed pieces).
Proof.
  unfold printed. apply Forall_map, Forall_forall. intros p _.
  apply call_ok_raw_len.
Qed.

Lemma call_bytes_str (s : list byte) (xml : bool) :
  call_bytes (str s xml) = if xml then xml_escape (c_str s) else c_str s.
Proof.
  unfold call_bytes, str. cbn [cc_count cc_buf cc_xmlcontent].
  now rewrite Nat2Z.id, firstn_strlen.
Qed.

Lemma call_bytes_raw_len (buf : list byte) : call_bytes (raw buf (len buf)) = buf.
Proof.
  unfold call_bytes, raw. cbn [cc_count cc_buf cc_xmlcontent].
  now rewrite len_to_nat, firstn_all.
Qed.

Lemma calls_bytes_app (a b : list clb_call) :
  calls_bytes (a ++ b) = calls_bytes a ++ calls_bytes b.
Proof. apply flat_map_app. Qed.

Lemma calls_bytes_cons (c : clb_call) (calls : list clb_call) :
  calls_bytes (c :: calls) = call_bytes c ++ calls_bytes calls.
Proof. reflexivity. Qed.

Lemma calls_bytes_printed (pieces : list (list byte)) :
  calls_bytes (printed pieces) = concat pieces.
Proof.
  induction pieces as [|p pieces IH]; [reflexivity|].
  cbn [printed map concat]. rewrite calls_bytes_cons, call_bytes_raw_len.
  f_equal. exact IH.
Qed.

Lemma calls_bytes_flat_map {A : Type} (f : A -> list clb_call) (l : list A) :
  calls_bytes (flat_map f l) = flat_map (fun x => calls_bytes (f x)) l.
Proof.
  induction l as [|x l IH]; [reflexivity|].
  cbn [flat_map]. rewrite calls_bytes_app. f_equal. exact IH.
Qed.

Lemma Forall_flat_map {A B : Type} (P : B -> Prop) (f : A -> list B)
    (l : list A) :
  (forall x, Forall P (f x)) -> Forall P (flat_map f l).
Proof.
  intros H. induction l as [|x l IH]; cbn [flat_map]; [constructor|].
  apply Forall_app. split; [apply H | exact IH].
Qed.

(** The end of [nc_write_msg]: the message is flushed and the status of the
    session decides the result. *)
Lemma nc_write_msg_flush_healthy (w : wclb_arg) (calls : list clb_call) :
  staged_ok w -> warg_buf w = [] -> Forall call_ok calls ->
  exists s' frame,
    (let '(_, arg) := nc_write_clb (nc_write_calls w calls) None 0 false in
     if not_usable (warg_session arg) then (-1, warg_session arg)
     else (0, warg_session arg)) = (0, s')
    /\ sent (warg_session w) frame s'
    /\ framed (version (warg_session w)) (calls_bytes calls) frame.
Proof.
  intros Hw Hempty Hcalls.
  destruct (nc_write_message_healthy w calls Hw Hempty Hcalls)
    as (r & s' & frame & -> & Hr & Hsent & Hframed).
  cbn [warg_session]. exists s', frame.
  destruct Hw as [Hs _].
  pose proof (healthy_usable _ (sent_healthy _ _ _ Hs Hsent)) as Hu.
  unfold usable in Hu. rewrite Hu. repeat split; assumption.
Qed.

Lemma hello_calls_ok (capabilities : list (list byte)) (sid : option Z) :
  Forall call_ok (hello_calls capabilities sid).
Proof.
  unfold hello_calls. apply Forall_app. split; [|apply Forall_app; split].
  - constructor; [apply call_ok_raw_len|constructor].
  - apply Forall_flat_map. intros c.
    constructor; [vm_compute; split; discriminate|].
    constructor; [apply call_ok_str|].
    constructor; [vm_compute; split; discriminate|constructor].
  - destruct sid; (constructor; [|constructor]).
    + apply call_ok_raw_len.
    + vm_compute. split; discriminate.
Qed.

Lemma hello_calls_bytes (capabilities : list (list byte)) (sid : option Z) :
  calls_bytes (hello_calls capabilities sid) = hello_body capabilities sid.
Proof.
  unfold hello_calls, hello_body. rewrite !calls_bytes_app.
  rewrite calls_bytes_cons, call_bytes_raw_len.
  change (calls_bytes []) with (@nil byte). rewrite app_nil_r.
  change (c_str NC_NS_BASE) with NC_NS_BASE.
  rewrite <- !app_assoc. do 5 f_equal.
  rewrite calls_bytes_flat_map. f_equal.
  - induction capabilities as [|c caps IH]; [reflexivity|].
    cbn [flat_map]. rewrite IH. f_equal.
    rewrite !calls_bytes_cons, call_bytes_str. reflexivity.
  - destruct sid as [sid|].
    + rewrite calls_bytes_cons, call_bytes_raw_len. apply app_nil_r.
    + reflexivity.
Qed.

Section Hello.

Context {LY : LibYang}.

(** C3 (amended).  nc_write_msg frames a hello the NETCONF 1.0 way, the body
    followed by the end tag, on a session whose version field is NETCONF 1.0
    (here on a transport without faults); on a session whose version field is
    NETCONF 1.1 it writes nothing, leaves the session as it is and returns
    -1. *)
Theorem nc_write_msg_hello (s : nc_session) (capabilities : list (list byte))
    (sid : option Z) :
  (version s = NC_VERSION_10 -> healthy s ->
   exists s',
     nc_write_msg s (Args_HELLO capabilities sid) = (0, s')
     /\ sent s (hello_body capabilities sid ++ NC_VERSION_10_ENDTAG) s')
  /\ (version s = NC_VERSION_11 ->
      nc_write_msg s (Args_HELLO capabilities sid) = (-1, s)).
Proof.
  split.
  - intros Hv Hs. unfold nc_write_msg.
    pose proof (healthy_usable _ Hs) as Hu. unfold usable in Hu.
    rewrite Hu, Hv.
    destruct (nc_write_msg_flush_healthy
                {| warg_session := s; warg_buf := [] |}
                (hello_calls capabilities sid))
      as (s' & frame & -> & Hsent & Hframed);
      [split; [exact Hs | cbv; discriminate] | reflexivity
      | apply hello_calls_ok |].
    cbn [warg_session] in *. rewrite Hv in Hframed.
    apply framed_v10 in Hframed. rewrite hello_calls_bytes in Hframed.
    subst frame. exists s'. split; [reflexivity|assumption].
  - intros Hv. unfold nc_write_msg. rewrite Hv.
    destruct (not_usable s); reflexivity.
Qed.

End Hello.

(** C3, as the spec states it, fails: a hello on a running session whose
    version field is NETCONF 1.1 is refused; nothing is written. *)
Lemma nc_write_msg_hello_counterexample :
  let s := session_on NC_VERSION_11 NC_CLIENT [] in
  nc_write_msg (LY := ExampleYang) s (Args_HELLO [] None) = (-1, s)
  /\ wire (ti_fd_out s) = [].
Proof. split; reflexivity. Qed.

(** The hello of the amended C3 at work, on a NETCONF 1.0 session. *)
Lemma nc_write_msg_hello_witness :
  let s := session_on NC_VERSION_10 NC_SERVER [] in
  let capabilities := [bytes "urn:ietf:params:netconf:base:1.0"] in
  (version s = NC_VERSION_10 /\ healthy s)
  /\ exists s',
       nc_write_msg (LY := ExampleYang) s (Args_HELLO capabilities (Some 42))
       = (0, s')
       /\ sent s (hello_body capabilities (Some 42) ++ NC_VERSION_10_ENDTAG) s'.
Proof.
  intros s capabilities.
  assert (Hv : version s = NC_VERSION_10) by reflexivity.
  assert (Hs : healthy s) by apply healthy_session_on.
  split; [now split|].
  exact (proj1 (nc_write_msg_hello (LY := ExampleYang) s capabilities (Some 42))
               Hv Hs).
Defined.

(** ** Framing faults and lenient chunk sizes in NETCONF 1.1 *)

Lemma nc_read_msg_v11_blocks (blocks : list (list byte)) :
  Forall chunk_ok blocks ->
  forall msg s t mid fuel,
    usable s -> ti_type s = NC_TI_FD ->
    delivers (rd_script (ti_fd_in s)) (concat (map chunk_frame blocks)) mid ->
    exists msg',
      nc_read_msg_v11 (length blocks + fuel) s t msg
      = nc_read_msg_v11 fuel (set_rd_script s mid) t msg'.
Proof.
  induction 1 as [|blk blocks Hblk Hok IH]; intros msg s t mid fuel Hu Hti Hd.
  - cbn [map concat] in Hd. apply delivers_nil_inv in Hd. subst mid.
    exists msg. now rewrite set_rd_script_same.
  - cbn [map concat] in Hd.
    apply delivers_split in Hd as (mid1 & Hd1 & Hd2).
    cbn [length Nat.add].
    rewrite (nc_read_msg_v11_frame s blk mid1 t msg _ Hu Hti Hblk Hd1).
    destruct (IH (Some (match msg with Some m => m | None => [] end ++ blk))
                 (set_rd_script s mid1) t mid fuel Hu Hti Hd2) as (msg' & E).
    exists msg'. exact E.
Qed.

(** The same with chunks of any size that a header can announce: where the
    loop does not get through them, it ends at the label error. *)
Lemma nc_read_msg_v11_blocks_any (blocks : list (list byte)) :
  Forall chunk_sized blocks ->
  forall msg s t mid fuel,
    usable s -> ti_type s = NC_TI_FD ->
    delivers (rd_script (ti_fd_in s)) (concat (map chunk_frame blocks)) mid ->
    (exists s',
       nc_read_msg_v11 (length blocks + fuel) s t msg = Some (Frame_error s'))
    \/ exists msg',
         nc_read_msg_v11 (length blocks + fuel) s t msg
         = nc_read_msg_v11 fuel (set_rd_script s mid) t msg'.
Proof.
  induction 1 as [|blk blocks Hblk Hok IH]; intros msg s t mid fuel Hu Hti Hd.
  - cbn [map concat] in Hd. apply delivers_nil_inv in Hd. subst mid.
    right. exists msg. now rewrite set_rd_script_same.
  - cbn [map concat] in Hd.
    apply delivers_split in Hd as (mid1 & Hd1 & Hd2).
    cbn [length Nat.add].
    destruct (nc_read_msg_v11_frame_any s blk mid1 t msg
                (length blocks + fuel) Hu Hti Hblk Hd1) as [Herr | ->].
    + left. exact Herr.
    + exact (IH (Some (match msg with Some m => m | None => [] end ++ blk))
                (set_rd_script s mid1) t mid fuel Hu Hti Hd2).
Qed.

Lemma delivers_one (bs : list byte) (evs : list rd_event) :
  bs <> [] -> delivers (RdData bs :: evs) bs evs.
Proof.
  destruct bs as [|b bs]; [contradiction|]. intros _.
  rewrite <- (app_nil_r (b :: bs)) at 2. apply delivers_seg. constructor.
Qed.

Lemma strcmp_first_byte (b : byte) (t : list byte) :
  b <> "#"%byte -> (strcmp (b :: t) ["#"%byte; LF] =? 0) = false.
Proof.
  intros Hb. cbn [strcmp]. destruct (Byte.eqb b "#"%byte) eqn:E.
  - apply byte_eqb_eq in E. contradiction.
  - apply Z.eqb_neq. intros H. apply Hb, byte_val_inj. lia.
Qed.

Lemma strcmp_not_end_of_chunks (tok : list byte) :
  tok <> ["#"%byte] -> Forall (fun b => b <> LF) tok ->
  (strcmp (tok ++ [LF]) ["#"%byte; LF] =? 0) = false.
Proof.
  intros Hne Hlf. destruct tok as [|x tok]; [reflexivity|].
  destruct (Byte.byte_eq_dec x "#"%byte) as [->|Hx].
  - cbn [app strcmp]. rewrite byte_eqb_refl. change (is_nul "#"%byte) with false.
    cbv iota. destruct tok as [|y tok]; [contradiction|].
    inversion Hlf as [|? ? _ Hlf']; subst. inversion Hlf' as [|? ? Hy _]; subst.
    cbn [app strcmp]. destruct (Byte.eqb y LF) eqn:E.
    + apply byte_eqb_eq in E. contradiction.
    + apply Z.eqb_neq. intros H. apply Hy, byte_val_inj. lia.
  - cbn [app]. now apply strcmp_first_byte.
Qed.

Section FramingFaults.

Context {LY : LibYang}.

Lemma read_malformed_msg_error (s : nc_session) :
  exists s', read_malformed_msg s = (NC_MSG_ERROR, None, s').
Proof.
  unfold read_malformed_msg, read_error.
  destruct (side s), (version s); try (eexists; reflexivity).
  destruct (nc_write_msg s _) as [ret s1].
  destruct (ret =? -1); [|eexists; reflexivity].
  destruct (status s1); eexists; reflexivity.
Qed.

Lemma nc_read_msg_malformed (s s1 : nc_session) :
  usable s -> nc_read_frame s = Some (Frame_malformed s1) ->
  exists s', nc_read_msg s = Some (NC_MSG_ERROR, None, s').
Proof.
  intros Hu Hf. unfold nc_read_msg. rewrite Hu, Hf.
  destruct (read_malformed_msg_error s1) as (s' & E). exists s'. now rewrite E.
Qed.

Lemma nc_read_msg_error (s s1 : nc_session) :
  usable s -> nc_read_frame s = Some (Frame_error s1) ->
  nc_read_msg s = Some (NC_MSG_ERROR, None, s1).
Proof.
  intros Hu Hf. unfold nc_read_msg. rewrite Hu, Hf. reflexivity.
Qed.

(** C4.  In the NETCONF 1.1 read path a chunk header whose size parses to
    zero, after any number of good chunks, and an end of chunks that comes
    before any chunk are framing faults: nc_read_msg returns NC_MSG_ERROR
    and no message.  The reader ends at the label malformed_msg, with the
    input taken up to the end of the faulty header; after chunks or a header
    line too long for the int in which nc_read_msg keeps the counts, it can
    end at the label error before it gets there. *)
Theorem nc_read_msg_framing_fault (s : nc_session) (blocks : list (list byte))
    (tok : list byte) (rest : list rd_event) :
  usable s -> ti_type s = NC_TI_FD -> version s = NC_VERSION_11 ->
  Forall chunk_sized blocks ->
  Forall (fun b => b <> LF) tok -> tok <> ["#"%byte] ->
  strtoul (tok ++ [LF]) = 0 ->
  (delivers (rd_script (ti_fd_in s))
            (concat (map chunk_frame blocks) ++ [LF; "#"%byte] ++ tok ++ [LF])
            rest ->
   (Forall chunk_ok blocks -> len (tok ++ [LF]) <= INT_MAX ->
    nc_read_frame s = Some (Frame_malformed (set_rd_script s rest)))
   /\ exists s', nc_read_msg s = Some (NC_MSG_ERROR, None, s'))
  /\ (delivers (rd_script (ti_fd_in s)) END_OF_CHUNKS rest ->
      nc_read_frame s = Some (Frame_malformed (set_rd_script s rest))
      /\ exists s', nc_read_msg s = Some (NC_MSG_ERROR, None, s')).
Proof.
  intros Hu Hti Hv Hsized Htok Hne Hzero. split; intros Hd.
  - pose proof (delivers_size _ _ _ Hd) as Hsz.
    rewrite !length_app in Hsz. cbn [length] in Hsz.
    pose proof (chunk_frames_length blocks) as Hbl.
    apply delivers_split in Hd as (mid & Hd1 & Hd2).
    assert (Hfuel : S (stream_size (rd_script (ti_fd_in s)))
                    = (length blocks
                       + S (stream_size (rd_script (ti_fd_in s))
                            - length blocks))%nat) by lia.
    pose proof (nc_read_msg_v11_header (set_rd_script s mid) tok rest
                  NC_READ_TIMEOUT) as Hhdr.
    split.
    + (* counts that an int holds *)
      intros Hok Htmax.
      unfold nc_read_frame. rewrite Hv, Hfuel.
      destruct (nc_read_msg_v11_blocks blocks Hok None s NC_READ_TIMEOUT mid
                  (S (stream_size (rd_script (ti_fd_in s)) - length blocks))
                  Hu Hti Hd1) as (msg' & ->).
      rewrite (Hhdr msg' _ Hu Hti Hd2 Htok). cbv zeta.
      rewrite to_int_count by (pose proof (len_nonneg (tok ++ [LF])); lia).
      rewrite (strcmp_not_end_of_chunks tok Hne Htok), Hzero.
      reflexivity.
    + (* any counts *)
      assert (Hf : exists fr,
                 nc_read_frame s = Some fr
                 /\ forall m s1, fr <> Frame_msg m s1).
      { unfold nc_read_frame. rewrite Hv, Hfuel.
        destruct (nc_read_msg_v11_blocks_any blocks Hsized None s
                    NC_READ_TIMEOUT mid
                    (S (stream_size (rd_script (ti_fd_in s)) - length blocks))
                    Hu Hti Hd1) as [(s' & ->) | (msg' & ->)].
        - eexists. split; [reflexivity|]. discriminate.
        - rewrite (Hhdr msg' _ Hu Hti Hd2 Htok). cbv zeta.
          destruct (to_int (len (tok ++ [LF])) =? -1).
          + eexists. split; [reflexivity|]. discriminate.
          + rewrite (strcmp_not_end_of_chunks tok Hne Htok), Hzero.
            eexists. split; [reflexivity|]. discriminate. }
      destruct Hf as ([m s1|s1|s1] & Hf & Hno).
      * now destruct (Hno m s1).
      * exact (nc_read_msg_malformed s _ Hu Hf).
      * exists s1. exact (nc_read_msg_error s _ Hu Hf).
  - assert (Hf : nc_read_frame s
                 = Some (Frame_malformed (set_rd_script s rest))).
    { unfold nc_read_frame. rewrite Hv.
      exact (nc_read_msg_v11_end s rest NC_READ_TIMEOUT None _ Hu Hti Hd). }
    split; [exact Hf|]. exact (nc_read_msg_malformed s _ Hu Hf).
Qed.

End FramingFaults.

(** C4 at work: a chunk of one byte followed by the header of size 0. *)
Lemma nc_read_msg_framing_fault_witness :
  let wire_bytes := chunk_frame (bytes "x") ++ [LF; "#"%byte; "0"%byte; LF] in
  let s := session_on NC_VERSION_11 NC_CLIENT [RdData wire_bytes] in
  nc_read_frame s = Some (Frame_malformed (set_rd_script s []))
  /\ exists s', nc_read_msg (LY := ExampleYang) s = Some (NC_MSG_ERROR, None, s').
Proof.
  intros wire_bytes s.
  assert (Hd : delivers (rd_script (ti_fd_in s)) wire_bytes [])
    by (apply (delivers_one wire_bytes []); discriminate).
  destruct (proj1 (nc_read_msg_framing_fault (LY := ExampleYang) s [bytes "x"]
                     ["0"%byte] [] eq_refl eq_refl eq_refl
                     ltac:(repeat constructor; vm_compute; discriminate)
                     ltac:(repeat constructor; discriminate)
                     ltac:(discriminate) eq_refl) Hd) as [Hframe Hmsg].
  split; [|exact Hmsg].
  apply Hframe; [|vm_compute; discriminate].
  repeat constructor; vm_compute; discriminate.
Defined.

Lemma skip_space_app (ws x : list byte) :
  Forall (fun b => isspace b = true) ws -> skip_space (ws ++ x) = skip_space x.
Proof.
  induction 1 as [|b ws Hb H IH]; [reflexivity|].
  cbn [app skip_space]. now rewrite Hb.
Qed.

Lemma strtoul_skip (ws x : list byte) :
  Forall (fun b => isspace b = true) ws -> strtoul (ws ++ x) = strtoul x.
Proof. intros H. unfold strtoul. now rewrite skip_space_app. Qed.

Lemma strtoul_plus (d : byte) (t : list byte) :
  is_digit d = true -> strtoul ("+"%byte :: d :: t) = strtoul (d :: t).
Proof.
  intros Hd. rewrite (strtoul_numeral d t Hd). unfold strtoul.
  cbn [skip_space]. change (isspace "+"%byte) with false. cbv iota.
  cbn [strtoul_digits]. rewrite Hd.
  destruct (strtoul_digits t (10 * 0 + digit_val d) true) as [v any] eqn:E.
  assert (any = true).
  { clear -E. revert E. generalize (10 * 0 + digit_val d).
    induction t as [|b t IH]; intros acc E; simpl in E.
    - now inversion E.
    - destruct (is_digit b); [now apply IH in E | now inversion E]. }
  subst any. reflexivity.
Qed.

Lemma ends_numeral_LF (junk : list byte) :
  ends_numeral junk -> ends_numeral (junk ++ [LF]).
Proof. destruct junk; simpl; [reflexivity|tauto]. Qed.

(** What strtoul makes of a numeral with white space and a plus sign before
    it and anything but a digit after it. *)
Lemma strtoul_lenient (ws sign junk : list byte) (n : Z) :
  Forall (fun b => isspace b = true) ws ->
  sign = [] \/ sign = ["+"%byte] ->
  ends_numeral junk -> 0 <= n <= ULONG_MAX ->
  strtoul ((ws ++ sign ++ utoa n ++ junk) ++ [LF]) = n.
Proof.
  intros Hws Hsign Hjunk Hn.
  rewrite <- !app_assoc. rewrite strtoul_skip by assumption.
  destruct (utoa_head n (proj1 Hn)) as (d & t & E & Hd).
  assert (Hnum : strtoul (utoa n ++ junk ++ [LF]) = n)
    by (apply strtoul_utoa; [assumption | now apply ends_numeral_LF]).
  destruct Hsign as [-> | ->]; [exact Hnum|].
  rewrite E in *. cbn [app] in *. now rewrite strtoul_plus.
Qed.

Lemma lenient_token_first_byte (ws sign junk : list byte) (n : Z) :
  Forall (fun b => isspace b = true /\ b <> LF) ws ->
  sign = [] \/ sign = ["+"%byte] -> 0 <= n ->
  exists b t, (ws ++ sign ++ utoa n ++ junk) ++ [LF] = b :: t /\ b <> "#"%byte.
Proof.
  intros Hws Hsign Hn.
  destruct ws as [|w ws].
  - destruct Hsign as [-> | ->].
    + destruct (utoa_head n Hn) as (d & t & E & Hd). rewrite E.
      eexists _, _. split; [reflexivity|]. intros ->. discriminate Hd.
    + eexists _, _. split; [reflexivity|]. discriminate.
  - inversion Hws as [|? ? [Hw _] _]; subst.
    eexists _, _. split; [reflexivity|]. intros ->. discriminate Hw.
Qed.

(** C10.  The size of a chunk is what strtoul makes of the header line, so
    a header that is no plain decimal numeral is taken all the same: white
    space and a plus sign before the numeral and anything that does not start
    with a digit after it are skipped, and the numeral is the length of the
    chunk.  Such a chunk and the end of chunks are read as the message that
    the chunk holds, where the header line and the chunk each have a length
    that the int of nc_read_msg holds. *)
Theorem nc_read_msg_lenient_chunk_size (s : nc_session)
    (ws sign junk payload : list byte) (rest : list rd_event) :
  usable s -> ti_type s = NC_TI_FD -> version s = NC_VERSION_11 ->
  Forall (fun b => isspace b = true /\ b <> LF) ws ->
  sign = [] \/ sign = ["+"%byte] ->
  ends_numeral junk -> Forall (fun b => b <> LF) junk ->
  payload <> [] -> len payload <= INT_MAX ->
  len ((ws ++ sign ++ utoa (len payload) ++ junk) ++ [LF]) <= INT_MAX ->
  delivers (rd_script (ti_fd_in s))
           ((([LF; "#"%byte] ++ (ws ++ sign ++ utoa (len payload) ++ junk)
              ++ [LF]) ++ payload) ++ END_OF_CHUNKS)
           rest ->
  strtoul ((ws ++ sign ++ utoa (len payload) ++ junk) ++ [LF]) = len payload
  /\ nc_read_frame s = Some (Frame_msg payload (set_rd_script s rest)).
Proof.
  intros Hu Hti Hv Hws Hsign Hjunk Hjlf Hne Hmax Hline Hd.
  pose proof (len_nonneg payload) as Hpos.
  assert (Hws' : Forall (fun b => isspace b = true) ws)
    by (eapply Forall_impl; [|exact Hws]; now intros b [H _]).
  assert (Hval : strtoul ((ws ++ sign ++ utoa (len payload) ++ junk) ++ [LF])
                 = len payload)
    by (apply strtoul_lenient; try assumption;
        unfold INT_MAX, ULONG_MAX in *; lia).
  split; [exact Hval|].
  unfold nc_read_frame. rewrite Hv.
  pose proof (delivers_size _ _ _ Hd) as Hsz.
  rewrite !length_app in Hsz. cbn [length] in Hsz.
  apply delivers_split in Hd as (mid & Hd1 & Hd2).
  destruct (stream_size (rd_script (ti_fd_in s))) as [|fuel] eqn:Efuel; [lia|].
  rewrite (nc_read_msg_v11_chunk s (ws ++ sign ++ utoa (len payload) ++ junk)
             payload mid NC_READ_TIMEOUT None (S fuel) Hu Hti);
    try assumption.
  - rewrite (nc_read_msg_v11_end (set_rd_script s mid) rest NC_READ_TIMEOUT
               (Some ([] ++ payload)) fuel Hu Hti Hd2).
    reflexivity.
  - apply Forall_app. split.
    { eapply Forall_impl; [|exact Hws]. now intros b [_ H]. }
    apply Forall_app. split.
    { destruct Hsign as [-> | ->]; repeat constructor. discriminate. }
    apply Forall_app. split; [now apply utoa_no_LF | assumption].
  - destruct (lenient_token_first_byte ws sign junk (len payload) Hws Hsign Hpos)
      as (b & t & E & Hb).
    rewrite E. now apply strcmp_first_byte.
Qed.

(** C10 at work: the header line " +5abc" before a chunk of five bytes. *)
Lemma nc_read_msg_lenient_chunk_size_witness :
  let payload := bytes "hello" in
  let header := [LF; "#"%byte] ++ bytes " +5abc" ++ [LF] in
  let s := session_on NC_VERSION_11 NC_SERVER
             [RdData (header ++ payload ++ END_OF_CHUNKS)] in
  strtoul (bytes " +5abc" ++ [LF]) = 5
  /\ nc_read_frame s = Some (Frame_msg payload (set_rd_script s [])).
Proof.
  intros payload header s.
  apply (nc_read_msg_lenient_chunk_size s [" "%byte] ["+"%byte] (bytes "abc")
           payload [] eq_refl eq_refl eq_refl).
  - repeat constructor. discriminate.
  - now right.
  - reflexivity.
  - repeat constructor; discriminate.
  - discriminate.
  - vm_compute. discriminate.
  - vm_compute. discriminate.
  - apply (delivers_one (header ++ payload ++ END_OF_CHUNKS) []). discriminate.
Defined.

(** ** Classification of a message *)

Lemma is_nul_true_iff (b : byte) : is_nul b = true <-> byte_val b = 0.
Proof.
  unfold is_nul. rewrite byte_eqb_eq. split.
  - now intros ->.
  - intros H. apply byte_val_inj. exact H.
Qed.

Lemma strcmp_0_iff (a b : list byte) : strcmp a b = 0 <-> c_str a = c_str b.
Proof.
  revert b. induction a as [|x a IH]; intros [|y b]; cbn [strcmp c_str].
  - tauto.
  - destruct (is_nul y) eqn:E.
    + apply is_nul_true_iff in E. split; [reflexivity|lia].
    + pose proof (is_nul_byte_val _ E). split; [lia|discriminate].
  - destruct (is_nul x) eqn:E.
    + apply is_nul_true_iff in E. split; [reflexivity|lia].
    + pose proof (is_nul_byte_val _ E). split; [lia|discriminate].
  - destruct (Byte.eqb x y) eqn:E.
    + apply byte_eqb_eq in E. subst y. destruct (is_nul x); [tauto|].
      rewrite IH. split; intros H; [now f_equal | now injection H].
    + apply byte_eqb_neq in E. split.
      * intros H. exfalso. apply E, byte_val_inj. lia.
      * intros H. exfalso. destruct (is_nul x) eqn:Ex, (is_nul y) eqn:Ey;
          try discriminate H.
        -- apply E. apply byte_eqb_eq in Ex, Ey. congruence.
        -- apply E. now injection H.
Qed.

Lemma strcmp_const (a k : list byte) :
  nul_free k = true -> (strcmp a k =? 0) = true <-> c_str a = k.
Proof.
  intros Hk. rewrite Z.eqb_eq, strcmp_0_iff, (c_str_nul_free k Hk). tauto.
Qed.

Lemma strcmp_const_false (a k : list byte) :
  nul_free k = true -> (strcmp a k =? 0) = false <-> c_str a <> k.
Proof.
  intros Hk. rewrite Z.eqb_neq, strcmp_0_iff, (c_str_nul_free k Hk). tauto.
Qed.

Section Classification.

Context {LY : LibYang}.

Ltac root_inv H Hp Hn :=
  let data' := fresh "data'" in
  let r' := fresh "r'" in
  let Hp' := fresh "Hp'" in
  let Hn' := fresh "Hn'" in
  let Hv' := fresh "Hv'" in
  let Hm' := fresh "Hm'" in
  destruct H as (data' & r' & Hp' & Hn' & Hv' & Hm');
  rewrite Hp in Hp'; injection Hp' as <-;
  rewrite Hn in Hn'; injection Hn' as <-.

Ltac clash :=
  match goal with
  | H1 : ?x = ?a, H2 : ?x <> ?a |- _ => exact (False_ind _ (H2 H1))
  | H1 : ?x = ?a, H2 : ?x = ?b |- _ =>
      rewrite H1 in H2; vm_compute in H2; discriminate H2
  end.

Lemma root_is_parse_none (msg ns name : list byte) :
  lyxml_parse_mem (c_str msg) = None -> ~ root_is msg ns name.
Proof. intros Hp (data & r & Hp' & _). congruence. Qed.

Lemma root_is_ns_none (msg ns name : list byte) (data : lyxml_elem) :
  lyxml_parse_mem (c_str msg) = Some data -> elem_ns data = None ->
  ~ root_is msg ns name.
Proof. intros Hp Hn (data' & r & Hp' & Hn' & _). congruence. Qed.

Lemma nc_classify_spec (s : nc_session) (msg : list byte) :
  exists t data s2,
    nc_classify s msg = (t, data, s2)
    /\ (t = NC_MSG_HELLO <-> root_is msg NC_NS_BASE (bytes "hello"))
    /\ (t = NC_MSG_RPC <-> root_is msg NC_NS_BASE (bytes "rpc"))
    /\ (t = NC_MSG_REPLY <-> root_is msg NC_NS_BASE (bytes "rpc-reply"))
    /\ (t = NC_MSG_NOTIF <-> root_is msg NC_NS_NOTIF (bytes "notification"))
    /\ (t = NC_MSG_ERROR <-> ~ known_root msg)
    /\ (t = NC_MSG_ERROR -> data = None
                            /\ nc_classify s msg = read_malformed_msg s)
    /\ (t <> NC_MSG_ERROR -> data = lyxml_parse_mem (c_str msg) /\ s2 = s).
Proof.
  unfold nc_classify, known_root.
  destruct (read_malformed_msg_error s) as (s' & Hmal).
  destruct (lyxml_parse_mem (c_str msg)) as [data|] eqn:Hp.
  2: { exists NC_MSG_ERROR, None, s'. rewrite Hmal.
       pose proof (root_is_parse_none msg) as Hno.
       repeat split; try discriminate; try congruence;
         try (intros H; now apply Hno in H).
       intros _ [H0|[H0|[H0|H0]]]; now apply Hno in H0. }
  destruct (elem_ns data) as [r|] eqn:Hn.
  2: { exists NC_MSG_ERROR, None, s'. rewrite Hmal.
       pose proof (fun ns name => root_is_ns_none msg ns name data Hp Hn) as Hno.
       repeat split; try discriminate; try congruence;
         try (intros H; now apply Hno in H).
       intros _ [H0|[H0|[H0|H0]]]; now apply Hno in H0. }
  assert (Hroot : forall ns name,
             c_str (ns_value r) = ns -> c_str (elem_name data) = name ->
             root_is msg ns name).
  { intros ns name H1 H2. exists data, r. now repeat split. }
  destruct (strcmp (ns_value r) NC_NS_BASE =? 0) eqn:Ebase;
    [apply strcmp_const in Ebase; [|reflexivity]
    |apply strcmp_const_false in Ebase; [|reflexivity]];
  [ destruct (strcmp (elem_name data) (bytes "rpc") =? 0) eqn:Erpc;
      [apply strcmp_const in Erpc; [|reflexivity]
      |apply strcmp_const_false in Erpc; [|reflexivity];
       destruct (strcmp (elem_name data) (bytes "rpc-reply") =? 0) eqn:Erep;
         [apply strcmp_const in Erep; [|reflexivity]
         |apply strcmp_const_false in Erep; [|reflexivity];
          destruct (strcmp (elem_name data) (bytes "hello") =? 0) eqn:Ehel;
            [apply strcmp_const in Ehel; [|reflexivity]
            |apply strcmp_const_false in Ehel; [|reflexivity]]]]
  | destruct (strcmp (ns_value r) NC_NS_NOTIF =? 0) eqn:Enot;
      [apply strcmp_const in Enot; [|reflexivity];
       destruct (strcmp (elem_name data) (bytes "notification") =? 0) eqn:Ename;
         [apply strcmp_const in Ename; [|reflexivity]
         |apply strcmp_const_false in Ename; [|reflexivity]]
      |apply strcmp_const_false in Enot; [|reflexivity]] ];
  (eexists _, _, _; try rewrite Hmal; split; [reflexivity|]);
  repeat split;
  try discriminate; try congruence;
  try (intros _; now apply Hroot);
  try (intros H; root_inv H Hp Hn; clash);
  try (intros _ [H0|[H0|[H0|H0]]]; root_inv H0 Hp Hn; clash);
  try (intros H; exfalso; apply H;
       first [ left; now apply Hroot
             | right; left; now apply Hroot
             | right; right; left; now apply Hroot
             | right; right; right; now apply Hroot ]).
Qed.

(** C6.  Once the body of a message is read, nc_read_msg returns the type
    Hello, Rpc or RpcReply exactly when the body parses to a root in the base
    namespace named hello, rpc or rpc-reply, and Notification exactly when the
    root is in the notification namespace and named notification; every other
    body, among them one that does not parse and one whose root has no
    namespace, gives NC_MSG_ERROR and no data. *)
Theorem nc_read_msg_classifies (s s1 : nc_session) (msg : list byte) :
  usable s -> nc_read_frame s = Some (Frame_msg msg s1) ->
  exists t data s2,
    nc_read_msg s = Some (t, data, s2)
    /\ (t = NC_MSG_HELLO <-> root_is msg NC_NS_BASE (bytes "hello"))
    /\ (t = NC_MSG_RPC <-> root_is msg NC_NS_BASE (bytes "rpc"))
    /\ (t = NC_MSG_REPLY <-> root_is msg NC_NS_BASE (bytes "rpc-reply"))
    /\ (t = NC_MSG_NOTIF <-> root_is msg NC_NS_NOTIF (bytes "notification"))
    /\ (t = NC_MSG_ERROR <->
        ~ (root_is msg NC_NS_BASE (bytes "hello")
           \/ root_is msg NC_NS_BASE (bytes "rpc")
           \/ root_is msg NC_NS_BASE (bytes "rpc-reply")
           \/ root_is msg NC_NS_NOTIF (bytes "notification")))
    /\ (t = NC_MSG_ERROR -> data = None)
    /\ (t <> NC_MSG_ERROR -> data = lyxml_parse_mem (c_str msg) /\ s2 = s1).
Proof.
  intros Hu Hf. unfold nc_read_msg. rewrite Hu, Hf.
  destruct (nc_classify_spec s1 msg)
    as (t & data & s2 & -> & H1 & H2 & H3 & H4 & H5 & H6 & H7).
  exists t, data, s2. split; [reflexivity|].
  split; [exact H1|]. split; [exact H2|]. split; [exact H3|].
  split; [exact H4|]. split; [exact H5|].
  split; [intros H; exact (proj1 (H6 H)) | exact H7].
Qed.

End Classification.

Section ClassificationExample.

#[local] Existing Instance ExampleYang.

(** C6 at work: a body read on a NETCONF 1.0 session, with the parser of the
    examples, for which every body has the root rpc in the base namespace. *)
Lemma nc_read_msg_classifies_witness :
  let s := session_on NC_VERSION_10 NC_SERVER [RdData (bytes "<rpc/>]]>]]>")] in
  let s1 := session_on NC_VERSION_10 NC_SERVER [] in
  let msg := bytes "<rpc/>" in
  (usable s /\ nc_read_frame s = Some (Frame_msg msg s1))
  /\ exists t data s2,
       nc_read_msg s = Some (t, data, s2)
       /\ (t = NC_MSG_HELLO <-> root_is msg NC_NS_BASE (bytes "hello"))
       /\ (t = NC_MSG_RPC <-> root_is msg NC_NS_BASE (bytes "rpc"))
       /\ (t = NC_MSG_REPLY <-> root_is msg NC_NS_BASE (bytes "rpc-reply"))
       /\ (t = NC_MSG_NOTIF <-> root_is msg NC_NS_NOTIF (bytes "notification"))
       /\ (t = NC_MSG_ERROR <->
           ~ (root_is msg NC_NS_BASE (bytes "hello")
              \/ root_is msg NC_NS_BASE (bytes "rpc")
              \/ root_is msg NC_NS_BASE (bytes "rpc-reply")
              \/ root_is msg NC_NS_NOTIF (bytes "notification")))
       /\ (t = NC_MSG_ERROR -> data = None)
       /\ (t <> NC_MSG_ERROR -> data = lyxml_parse_mem (c_str msg) /\ s2 = s1).
Proof.
  intros s s1 msg.
  assert (Hu : usable s) by reflexivity.
  assert (Hf : nc_read_frame s = Some (Frame_msg msg s1))
    by (vm_compute; reflexivity).
  split; [now split|].
  exact (nc_read_msg_classifies s s1 msg Hu Hf).
Defined.

End ClassificationExample.

(** ** What reading leaves of the session *)

Lemma nc_read_loop_session (evs : list rd_event) :
  forall s count readd buf sc t,
    rr_ret (nc_read_loop s evs count readd buf sc t) = -1
    \/ exists e,
         rr_session (nc_read_loop s evs count readd buf sc t)
         = set_rd_script s e.
Proof.
  induction evs as [|ev evs IH]; intros s count readd buf sc t;
    cbn [nc_read_loop]; destruct (ti_type s);
    try (right; eexists; reflexivity); try (now left).
  destruct ev as [bs| | |].
  - destruct (Z.min (len bs) (count - readd) =? 0); [now left|].
    destruct (readd + Z.min (len bs) (count - readd) <? count); [apply IH|].
    right. eexists. reflexivity.
  - destruct (1000000 / NC_TIMEOUT_STEP =? uint16 (sc + 1)).
    + destruct (uint16 (t - 1) =? 0); [now left|].
      destruct (readd <? count); [apply IH|]. right. eexists. reflexivity.
    + destruct (t =? 0); [now left|].
      destruct (readd <? count); [apply IH|]. right. eexists. reflexivity.
  - destruct (readd <? count); [apply IH|]. right. eexists. reflexivity.
  - now left.
Qed.

Lemma nc_read_session (s : nc_session) (count t : Z) :
  rr_ret (nc_read s count t) = -1
  \/ exists e, rr_session (nc_read s count t) = set_rd_script s e.
Proof.
  unfold nc_read. destruct (not_usable s); [now left|].
  destruct (count =? 0).
  - right. exists (rd_script (ti_fd_in s)). cbn [rr_session].
    now rewrite set_rd_script_same.
  - apply nc_read_loop_session.
Qed.

Lemma nc_read_until_loop_session (endtag : list byte) (limit : Z) (fuel : nat) :
  forall s t chunk count r,
    nc_read_until_loop fuel s endtag limit t chunk count = Some r ->
    rr_ret r = -1 \/ exists e, rr_session r = set_rd_script s e.
Proof.
  induction fuel as [|fuel IH]; intros s t chunk count r H;
    cbn [nc_read_until_loop] in H; [discriminate|].
  destruct (negb (limit =? 0) && (count =? limit)).
  { injection H as <-. now left. }
  destruct (negb (rr_ret (nc_read s 1 t) =? 1)) eqn:E1.
  { injection H as <-. now left. }
  apply negb_false_iff, Z.eqb_eq in E1.
  destruct (nc_read_session s 1 t) as [Hm|(e & He)]; [lia|].
  match type of H with
  | (if ?c then _ else _) = _ => destruct c
  end.
  - injection H as <-. right. exists e. exact He.
  - apply IH in H. destruct H as [H|(e' & H)]; [now left|].
    right. exists e'. rewrite H, He. reflexivity.
Qed.

Lemma nc_read_until_session (s : nc_session) (endtag : list byte) (limit t : Z)
    (r : read_res) :
  nc_read_until s endtag limit t = Some r ->
  rr_ret r = -1 \/ exists e, rr_session r = set_rd_script s e.
Proof. apply nc_read_until_loop_session. Qed.

Lemma nc_read_chunk_session (s : nc_session) (n t : Z) :
  rr_ret (nc_read_chunk s n t) = -1
  \/ exists e, rr_session (nc_read_chunk s n t) = set_rd_script s e.
Proof.
  unfold nc_read_chunk. destruct (n =? 0).
  - right. exists (rd_script (ti_fd_in s)). cbn [rr_session].
    now rewrite set_rd_script_same.
  - destruct (malloc_fails (uint64 (n + 1))); [now left|].
    destruct (uint64 (n + 1) =? 0).
    + destruct (rr_ret (nc_read_fault s t) <=? 0) eqn:E; [now left|].
      exfalso. unfold nc_read_fault in E.
      destruct (not_usable s), (ti_type s); discriminate E.
    + destruct (rr_ret (nc_read s n t) <=? 0); [now left|].
      apply nc_read_session.
Qed.

Lemma nc_read_msg_v11_session (fuel : nat) :
  forall s t msg fr,
    nc_read_msg_v11 fuel s t msg = Some fr -> frame_session s fr.
Proof.
  induction fuel as [|fuel IH]; intros s t msg fr H;
    cbn [nc_read_msg_v11] in H; [discriminate|].
  destruct (nc_read_until s [LF; "#"%byte] 0 t) as [r1|] eqn:E1; [|discriminate].
  destruct (to_int (rr_ret r1) =? -1) eqn:N1; [injection H as <-; exact I|].
  apply Z.eqb_neq, to_int_neq in N1.
  destruct (nc_read_until_session _ _ _ _ _ E1) as [|(e1 & He1)]; [lia|].
  destruct (nc_read_until (rr_session r1) [LF] 0 (rr_timeout r1)) as [r2|] eqn:E2;
    [|discriminate].
  destruct (to_int (rr_ret r2) =? -1) eqn:N2; [injection H as <-; exact I|].
  apply Z.eqb_neq, to_int_neq in N2.
  destruct (nc_read_until_session _ _ _ _ _ E2) as [|(e2 & He2)]; [lia|].
  rewrite He1 in He2. rewrite set_rd_script_twice in He2.
  destruct (strcmp (rr_buf r2) ["#"%byte; LF] =? 0).
  { destruct msg; injection H as <-; exists e2; exact He2. }
  destruct (strtoul (rr_buf r2) =? 0).
  { injection H as <-. exists e2. exact He2. }
  destruct (to_int (rr_ret (nc_read_chunk (rr_session r2)
                              (strtoul (rr_buf r2)) (rr_timeout r2))) =? -1)
    eqn:N3;
    [injection H as <-; exact I|].
  apply Z.eqb_neq, to_int_neq in N3.
  destruct (nc_read_chunk_session (rr_session r2) (strtoul (rr_buf r2))
              (rr_timeout r2)) as [|(e3 & He3)]; [lia|].
  apply IH in H. rewrite He3, He2, set_rd_script_twice in H.
  destruct fr as [m s1|s1|s1]; [|  |exact I];
    destruct H as (e & ->); exists e; reflexivity.
Qed.

Lemma nc_read_frame_session (s : nc_session) (fr : frame_res) :
  nc_read_frame s = Some fr -> frame_session s fr.
Proof.
  unfold nc_read_frame. destruct (version s).
  - unfold nc_read_msg_v10.
    destruct (nc_read_until s NC_VERSION_10_ENDTAG 0 NC_READ_TIMEOUT)
      as [r|] eqn:E; [|discriminate].
    cbv zeta.
    destruct (to_int (rr_ret r) =? -1) eqn:N; intros H; injection H as <-;
      [exact I|].
    apply Z.eqb_neq, to_int_neq in N.
    destruct (nc_read_until_session _ _ _ _ _ E) as [|(e & He)]; [lia|].
    exists e. exact He.
  - apply nc_read_msg_v11_session.
Qed.

Lemma healthy_set_rd_script (s : nc_session) (e : list rd_event) :
  healthy s -> healthy (set_rd_script s e).
Proof. intros [Hu Hfd Hp Hw]. constructor; assumption. Qed.

(** ** The reply to a malformed message *)

Section MalformedMessage.

Context {LY : LibYang}.

(** What nc_write_msg hands to the write callback for the reply to a
    malformed message. *)
Lemma malformed_reply_calls :
  Forall call_ok
    (reply_calls None (nc_server_reply_err nc_err_malformed_msg)
     ++ reply_end_calls None)
  /\ calls_bytes
       (reply_calls None (nc_server_reply_err nc_err_malformed_msg)
        ++ reply_end_calls None)
     = (bytes "<rpc-reply" ++ bytes "xmlns=" ++ [DQ] ++ NC_NS_BASE ++ [DQ]
        ++ bytes ">")
       ++ rpc_error_malformed ++ bytes "</rpc-reply>".
Proof.
  split.
  - repeat (constructor; [vm_compute; split; discriminate|]). constructor.
  - vm_compute. reflexivity.
Qed.

Lemma nc_write_msg_reply_eq (s : nc_session) (rpc_elem : option lyxml_elem)
    (reply : nc_server_reply) :
  usable s -> reply <> NC_RPL_NOTIF ->
  nc_write_msg s (Args_REPLY rpc_elem reply)
  = let '(_, arg) :=
      nc_write_clb
        (nc_write_calls {| warg_session := s; warg_buf := [] |}
           (reply_calls rpc_elem reply ++ reply_end_calls rpc_elem))
        None 0 false in
    if not_usable (warg_session arg) then (-1, warg_session arg)
    else (0, warg_session arg).
Proof.
  intros Hu Hr. unfold usable in Hu. unfold nc_write_msg. rewrite Hu.
  rewrite nc_write_calls_app.
  destruct reply; try reflexivity. contradiction.
Qed.

Lemma nc_write_msg_malformed_reply (s : nc_session) :
  healthy s ->
  exists s' frame start_tag,
    nc_write_msg s (Args_REPLY None (nc_server_reply_err nc_err_malformed_msg))
    = (0, s')
    /\ sent s frame s'
    /\ framed (version s)
              (start_tag ++ rpc_error_malformed ++ bytes "</rpc-reply>") frame.
Proof.
  intros Hs.
  rewrite nc_write_msg_reply_eq;
    [|exact (healthy_usable _ Hs)|discriminate].
  destruct malformed_reply_calls as [Hok Hbytes].
  assert (Hw : staged_ok {| warg_session := s; warg_buf := [] |}).
  { split; [exact Hs|]. unfold warg_len. cbn [warg_buf]. cbv. discriminate. }
  destruct (nc_write_msg_flush_healthy
              {| warg_session := s; warg_buf := [] |} _ Hw eq_refl Hok)
    as (s' & frame & E & Hsent & Hframed).
  cbn [warg_session] in *. rewrite Hbytes in Hframed.
  exists s', frame. eexists. split; [exact E|]. split; eassumption.
Qed.

(** C2 (amended).  On a server-side session with version NETCONF 1.1 and a
    transport without faults, when the message received cannot be classified
    (a framing fault, or a body whose root is none of the four roots that make
    a message) nc_read_msg returns NC_MSG_ERROR without data and writes,
    framed for NETCONF 1.1, a reply that holds the rpc-error element with
    error-type rpc, error-tag malformed-message and error-severity error and
    ends with the closing tag of rpc-reply; the session keeps the status and
    the termination reason it had: it does not become invalid. *)
Theorem nc_read_msg_malformed_reply (s s1 : nc_session) :
  side s = NC_SERVER -> version s = NC_VERSION_11 -> healthy s ->
  nc_read_frame s = Some (Frame_malformed s1)
  \/ (exists msg, nc_read_frame s = Some (Frame_msg msg s1) /\ ~ known_root msg) ->
  exists s2 frame start_tag,
    nc_read_msg s = Some (NC_MSG_ERROR, None, s2)
    /\ sent s1 frame s2
    /\ framed NC_VERSION_11
              (start_tag ++ rpc_error_malformed ++ bytes "</rpc-reply>") frame
    /\ status s2 = status s /\ term_reason s2 = term_reason s.
Proof.
  intros Hside Hv Hs Hfault.
  pose proof (healthy_usable _ Hs) as Hu.
  assert (Hread : nc_read_msg s = Some (read_malformed_msg s1)
                  /\ exists e, s1 = set_rd_script s e).
  { unfold nc_read_msg. rewrite Hu.
    destruct Hfault as [Hf|(msg & Hf & Hroot)]; rewrite Hf;
      (split; [|exact (nc_read_frame_session s _ Hf)]); [reflexivity|].
    destruct (nc_classify_spec s1 msg)
      as (t & data & s2 & Hc & _ & _ & _ & _ & H5 & H6 & _).
    f_equal. apply H6, H5, Hroot. }
  destruct Hread as [Hread (e & ->)].
  pose proof (healthy_set_rd_script s e Hs) as Hs1.
  destruct (nc_write_msg_malformed_reply _ Hs1)
    as (s2 & frame & start_tag & Hw & Hsent & Hframed).
  change (version (set_rd_script s e)) with (version s) in Hframed.
  rewrite Hv in Hframed.
  exists s2, frame, start_tag. split; [|split; [exact Hsent|split]].
  - rewrite Hread. unfold read_malformed_msg.
    change (side (set_rd_script s e)) with (side s).
    change (version (set_rd_script s e)) with (version s).
    rewrite Hside, Hv, Hw. reflexivity.
  - exact Hframed.
  - apply sent_fields in Hsent. cbn in Hsent. tauto.
Qed.

End MalformedMessage.

Section MalformedMessageExample.

#[local] Existing Instance ExampleYang.

(** C2, as the spec states it, fails: a running server-side NETCONF 1.1
    session that receives a chunk header of size 0 sends the reply and is
    running afterwards, with no termination reason. *)
Lemma nc_read_msg_malformed_reply_counterexample :
  let s := session_on NC_VERSION_11 NC_SERVER
             [RdData [LF; "#"%byte; "0"%byte; LF]] in
  exists s2,
    nc_read_msg s = Some (NC_MSG_ERROR, None, s2)
    /\ wire (ti_fd_out s2) <> []
    /\ status s2 = NC_STATUS_RUNNING
    /\ term_reason s2 = NC_SESSION_TERM_NONE
    /\ ~ (status s2 = NC_STATUS_INVALID
          /\ term_reason s2 = NC_SESSION_TERM_OTHER).
Proof.
  intros s. eexists. split; [vm_compute; reflexivity|].
  split; [discriminate|]. split; [reflexivity|]. split; [reflexivity|].
  intros [H _]. discriminate H.
Qed.

(** The amended C2 at work, on the same session. *)
Lemma nc_read_msg_malformed_reply_witness :
  let s := session_on NC_VERSION_11 NC_SERVER
             [RdData [LF; "#"%byte; "0"%byte; LF]] in
  let s1 := set_rd_script s [] in
  (side s = NC_SERVER /\ version s = NC_VERSION_11 /\ healthy s
   /\ nc_read_frame s = Some (Frame_malformed s1))
  /\ exists s2 frame start_tag,
       nc_read_msg s = Some (NC_MSG_ERROR, None, s2)
       /\ sent s1 frame s2
       /\ framed NC_VERSION_11
                 (start_tag ++ rpc_error_malformed ++ bytes "</rpc-reply>") frame
       /\ status s2 = status s /\ term_reason s2 = term_reason s.
Proof.
  intros s s1.
  assert (H1 : side s = NC_SERVER) by reflexivity.
  assert (H2 : version s = NC_VERSION_11) by reflexivity.
  assert (H3 : healthy s) by apply healthy_session_on.
  assert (H4 : nc_read_frame s = Some (Frame_malformed s1))
    by (vm_compute; reflexivity).
  split; [tauto|].
  exact (nc_read_msg_malformed_reply s s1 H1 H2 H3 (or_introl H4)).
Defined.

End MalformedMessageExample.

(** ** Content mode of the write callback *)

Lemma nc_write_clb_content_one (w : wclb_arg) (ret : Z) (ch : byte) :
  nc_write_clb_content w ret [ch]
  = let '(c, w1) := if WRITE_BUFSIZE <=? warg_len w + 5
                    then nc_write_clb_flush w else (0, w) in
    if c =? -1 then (-1, w1)
    else (ret + len (xml_escape_char ch),
          {| warg_session := warg_session w1;
             warg_buf := warg_buf w1 ++ xml_escape_char ch |}).
Proof. rewrite nc_write_clb_content_step. reflexivity. Qed.

(** C7.  In content mode the write callback puts into the staging buffer,
    for every byte of the text, the entity of the ampersand, of the left and
    of the right angle bracket, and every other byte as it is: what has been
    flushed and what is staged is, after the call, what was staged before
    followed by the escaped text.  The staging buffer holds at most 1024
    bytes and so does every block flushed.  Before a character is staged the
    buffer is flushed whenever fewer than 5 bytes are free in it (and also
    when exactly 5 are); with more room the character is staged without a
    flush. *)
Theorem nc_write_clb_content_escapes (w : wclb_arg) (text : list byte) :
  staged_ok w ->
  (exists r w' blocks,
     nc_write_clb w (Some text) (len text) true = (r, w')
     /\ 0 <= r /\ staged_ok w'
     /\ sent (warg_session w) (on_wire (version (warg_session w)) blocks)
             (warg_session w')
     /\ concat blocks ++ warg_buf w' = warg_buf w ++ xml_escape text
     /\ Forall (fun b => b <> [] /\ len b <= WRITE_BUFSIZE) blocks)
  /\ (forall ch,
        WRITE_BUFSIZE - warg_len w <= 5 ->
        exists r s',
          nc_write_clb w (Some [ch]) 1 true
          = (r, {| warg_session := s'; warg_buf := xml_escape_char ch |})
          /\ sent (warg_session w)
                  (on_wire (version (warg_session w)) [warg_buf w]) s')
  /\ (forall ch,
        5 < WRITE_BUFSIZE - warg_len w ->
        nc_write_clb w (Some [ch]) 1 true
        = (len (xml_escape_char ch),
           {| warg_session := warg_session w;
              warg_buf := warg_buf w ++ xml_escape_char ch |})).
Proof.
  intros Hw. pose proof Hw as [Hs Hlen].
  pose proof (len_nonneg (warg_buf w)) as Hpos.
  split; [|split].
  - unfold nc_write_clb.
    destruct (nc_write_clb_dump_healthy w (len text) Hw)
      as (c1 & w1 & blocks1 & -> & Hc1 & Hw1 & Hsent1 & Hcat1 & Hbl1 & _).
    replace (c1 =? -1) with false by (symmetry; apply Z.eqb_neq; lia).
    cbn [negb andb]. rewrite len_to_nat, firstn_all.
    destruct (nc_write_clb_content_healthy text w1 c1 Hw1 Hc1)
      as (r & w' & blocks & -> & Hr & Hok & Hsent & Hcat & Hbl).
    rewrite (sent_version _ _ _ Hsent1) in Hsent.
    exists r, w', (blocks1 ++ blocks).
    split; [reflexivity|]. split; [assumption|]. split; [assumption|].
    split; [|split].
    + rewrite on_wire_app. exact (sent_trans _ _ _ _ _ Hsent1 Hsent).
    + rewrite concat_app, <- app_assoc, Hcat, app_assoc, Hcat1. reflexivity.
    + now apply Forall_app.
  - intros ch Hfull.
    assert (Hne : warg_buf w <> []).
    { intros E. unfold warg_len in Hfull. rewrite E in Hfull.
      cbv in Hfull. now apply Hfull. }
    unfold nc_write_clb. change (firstn (Z.to_nat 1) [ch]) with [ch].
    destruct (nc_write_clb_dump_healthy w 1 Hw)
      as (c1 & w1 & blocks1 & -> & Hc1 & [Hs1 Hlen1] & Hsent1 & Hcat1 & Hbl1
          & _ & Hkeep & Hdump).
    replace (c1 =? -1) with false by (symmetry; apply Z.eqb_neq; lia).
    cbn [negb andb]. rewrite nc_write_clb_content_one.
    destruct (Z_le_gt_dec (warg_len w + 1) WRITE_BUFSIZE) as [Hroom|Hroom].
    + (* the loop flushes *)
      destruct (Hkeep Hroom) as [-> ->].
      replace (WRITE_BUFSIZE <=? warg_len w + 5) with true
        by (symmetry; apply Z.leb_le; lia).
      destruct (nc_write_clb_flush_healthy w (conj Hs Hlen)) as (c & s' & -> & Hc & Hsent).
      replace (c =? -1) with false by (symmetry; apply Z.eqb_neq; lia).
      cbn [warg_session warg_buf app].
      eexists _, s'. split; [reflexivity|].
      destruct (warg_buf w); [contradiction|exact Hsent].
    + (* the buffer was dumped before the loop *)
      destruct (Hdump ltac:(lia) Hne) as [Hempty ->].
      unfold warg_len at 1. rewrite Hempty.
      change (WRITE_BUFSIZE <=? len [] + 5) with false. cbv iota.
      change (0 =? -1) with false. cbv iota. rewrite Hempty. cbn [app].
      eexists _, (warg_session w1). split; [reflexivity|]. exact Hsent1.
  - intros ch Hroom.
    unfold nc_write_clb. change (firstn (Z.to_nat 1) [ch]) with [ch].
    replace (negb (warg_len w =? 0) && (WRITE_BUFSIZE <? warg_len w + 1))
      with false
      by (symmetry; apply andb_false_iff; right; apply Z.ltb_ge; lia).
    change (0 =? -1) with false. cbn [negb andb]. cbv iota.
    rewrite nc_write_clb_content_one.
    replace (WRITE_BUFSIZE <=? warg_len w + 5) with false
      by (symmetry; apply Z.leb_gt; lia).
    change (0 =? -1) with false. cbv iota. reflexivity.
Qed.

(** C7 at work: a staging buffer with 1020 bytes, four bytes free. *)
Lemma nc_write_clb_content_escapes_witness :
  let w := {| warg_session := session_on NC_VERSION_11 NC_SERVER [];
              warg_buf := repeat "a"%byte 1020 |} in
  let text := bytes "a < b & c > d" in
  staged_ok w
  /\ (exists r w' blocks,
        nc_write_clb w (Some text) (len text) true = (r, w')
        /\ 0 <= r /\ staged_ok w'
        /\ sent (warg_session w) (on_wire (version (warg_session w)) blocks)
                (warg_session w')
        /\ concat blocks ++ warg_buf w' = warg_buf w ++ xml_escape text
        /\ Forall (fun b => b <> [] /\ len b <= WRITE_BUFSIZE) blocks)
  /\ (exists r s',
        nc_write_clb w (Some ["<"%byte]) 1 true
        = (r, {| warg_session := s'; warg_buf := xml_escape_char "<"%byte |})
        /\ sent (warg_session w)
                (on_wire (version (warg_session w)) [warg_buf w]) s').
Proof.
  intros w text.
  assert (Hw : staged_ok w).
  { split; [apply healthy_session_on|]. vm_compute. discriminate. }
  split; [exact Hw|].
  destruct (nc_write_clb_content_escapes w text Hw) as (H1 & H2 & _).
  split; [exact H1|].
  apply H2. vm_compute. discriminate.
Defined.

(** ** The messages of [nc_write_msg] *)

Lemma healthy_set_msgid (s : nc_session) (m : Z) :
  healthy s -> healthy (set_msgid s m).
Proof. intros [Hu Hfd Hp Hw]. constructor; assumption. Qed.

Section Messages_written.

Context {LY : LibYang}.

Lemma rpc_calls_bytes (id : Z) (content : lyd_node) (attrs : option (list byte)) :
  calls_bytes
    ([raw (rpc_start_tag id attrs) (len (rpc_start_tag id attrs))]
     ++ printed (lyd_print_clb content [LYP_WITHSIBLINGS; LYP_NETCONF])
     ++ [lit "</rpc>" 6])
  = rpc_body id content attrs.
Proof.
  rewrite !calls_bytes_app, calls_bytes_printed.
  rewrite calls_bytes_cons, call_bytes_raw_len.
  change (calls_bytes []) with (@nil byte). rewrite app_nil_r.
  unfold rpc_body, rpc_start_tag, message_id_attr.
  change (c_str NC_NS_BASE)
    with (bytes "urn:ietf:params:xml:ns:netconf:base:1.0").
  rewrite <- !app_assoc. reflexivity.
Qed.

Lemma rpc_calls_ok (id : Z) (content : lyd_node) (attrs : option (list byte)) :
  Forall call_ok
    ([raw (rpc_start_tag id attrs) (len (rpc_start_tag id attrs))]
     ++ printed (lyd_print_clb content [LYP_WITHSIBLINGS; LYP_NETCONF])
     ++ [lit "</rpc>" 6]).
Proof.
  apply Forall_app. split; [|apply Forall_app; split].
  - constructor; [apply call_ok_raw_len|constructor].
  - apply call_ok_printed.
  - constructor; [vm_compute; split; discriminate|constructor].
Qed.

(** One rpc on a transport without faults: the counter goes up by one and
    the frame written carries its new value. *)
Lemma nc_write_msg_rpc_healthy (s : nc_session) (content : lyd_node)
    (attrs : option (list byte)) :
  healthy s ->
  exists s' frame,
    nc_write_msg s (Args_RPC content attrs) = (0, s')
    /\ msgid s' = uint64 (msgid s + 1)
    /\ sent (set_msgid s (uint64 (msgid s + 1))) frame s'
    /\ framed (version s) (rpc_body (uint64 (msgid s + 1)) content attrs) frame.
Proof.
  intros Hs. unfold nc_write_msg.
  pose proof (healthy_usable _ Hs) as Hu. unfold usable in Hu. rewrite Hu.
  cbv zeta.
  assert (Hw : staged_ok {| warg_session := s; warg_buf := [] |}).
  { split; [exact Hs|]. cbv. discriminate. }
  destruct (nc_write_calls_healthy _
              (rpc_calls_ok (uint64 (msgid s + 1)) content attrs) _ Hw)
    as (blocks & [Hs1 Hlen1] & Hsent1 & Hcat & Hbl).
  rewrite rpc_calls_bytes in Hcat.
  cbn [warg_session warg_buf app] in Hsent1, Hcat.
  set (w1 := nc_write_calls {| warg_session := s; warg_buf := [] |} _) in *.
  pose proof (sent_fields _ _ _ Hsent1) as (_ & _ & _ & _ & Hv1 & _ & Hm1 & _).
  rewrite Hm1.
  assert (Hw2 : staged_ok (set_warg_msgid w1 (uint64 (msgid s + 1)))).
  { split; [now apply healthy_set_msgid|exact Hlen1]. }
  destruct (nc_write_clb_end_healthy _ Hw2) as (r & s' & -> & Hr & Hsent2).
  cbn [warg_session warg_buf set_warg_msgid] in Hsent2 |- *.
  change (version (set_msgid (warg_session w1) (uint64 (msgid s + 1))))
    with (version (warg_session w1)) in Hsent2.
  rewrite Hv1 in Hsent2.
  pose proof (sent_trans _ _ _ _ _
                (sent_set_msgid _ _ _ (uint64 (msgid s + 1)) Hsent1) Hsent2)
    as Hsent.
  pose proof (healthy_usable _
                (sent_healthy _ _ _
                   (healthy_set_msgid _ (uint64 (msgid s + 1)) Hs) Hsent))
    as Hu'.
  unfold usable in Hu'. rewrite Hu'.
  exists s'. eexists. split; [reflexivity|]. split; [|split; [exact Hsent|]].
  - apply sent_fields in Hsent. cbn in Hsent. tauto.
  - exists (blocks ++ staged_block (warg_buf w1)). split; [|split].
    + apply Forall_app. split; [assumption|].
      apply (nonempty_of_bound _ WRITE_BUFSIZE). now apply staged_block_ok.
    + now rewrite concat_app, staged_block_concat.
    + now rewrite on_wire_app, <- app_assoc.
Qed.

Lemma notif_calls_bytes (notif : nc_server_notif) :
  Forall call_ok (notif_calls notif)
  /\ calls_bytes (notif_calls notif) = notif_written notif.
Proof.
  unfold notif_calls, notif_written. split.
  - constructor; [vm_compute; split; discriminate|].
    constructor; [vm_compute; split; discriminate|].
    constructor; [apply call_ok_str|].
    constructor; [vm_compute; split; discriminate|].
    apply Forall_app. split; [apply call_ok_printed|].
    constructor; [vm_compute; split; discriminate|constructor].
  - rewrite !calls_bytes_app, calls_bytes_printed.
    unfold calls_bytes. cbn [flat_map]. rewrite call_bytes_str.
    generalize (c_str (eventtime notif)) as ev.
    generalize (concat (lyd_print_clb (tree notif) [])) as p. intros p ev.
    rewrite <- !app_assoc. vm_compute. reflexivity.
Qed.

(** What a notification is on the wire: the body that nc_write_msg writes
    ends with the first 12 bytes of the closing tag. *)
Lemma nc_write_msg_notif_healthy (s : nc_session) (notif : nc_server_notif) :
  healthy s ->
  exists s' frame,
    nc_write_msg s (Args_NOTIF notif) = (0, s')
    /\ sent s frame s'
    /\ framed (version s) (notif_written notif) frame.
Proof.
  intros Hs. unfold nc_write_msg.
  pose proof (healthy_usable _ Hs) as Hu. unfold usable in Hu. rewrite Hu.
  destruct (notif_calls_bytes notif) as [Hok Hbytes].
  destruct (nc_write_msg_flush_healthy
              {| warg_session := s; warg_buf := [] |} (notif_calls notif))
    as (s' & frame & E & Hsent & Hframed);
    [split; [exact Hs | cbv; discriminate] | reflexivity | assumption |].
  cbn [warg_session] in *. rewrite Hbytes in Hframed.
  exists s', frame. split; [exact E|]. split; assumption.
Qed.

End Messages_written.

Section MessagesExample.

#[local] Existing Instance ExampleYang.

(** C9: the code at a notification.  On a NETCONF 1.0 session nc_write_msg
    returns 0 and what is on the wire is the opening tag, the event time, the
    tree, then only the first 12 of the 15 bytes of the closing tag, and the
    end tag: not the message with the complete closing tag. *)
Lemma nc_write_msg_notif_truncated :
  let s := session_on NC_VERSION_10 NC_SERVER [] in
  let notif := {| eventtime := bytes "2016-01-01T00:00:00Z";
                  tree := [bytes "<event/>"] |} in
  let head :=
    bytes "<notification xmlns=" ++ [DQ] ++ NC_NS_NOTIF ++ [DQ] ++ bytes ">"
    ++ bytes "<eventTime>2016-01-01T00:00:00Z</eventTime><event/>" in
  fst (nc_write_msg s (Args_NOTIF notif)) = 0
  /\ wire (ti_fd_out (snd (nc_write_msg s (Args_NOTIF notif))))
     = head ++ bytes "</notificati" ++ NC_VERSION_10_ENDTAG
  /\ wire (ti_fd_out (snd (nc_write_msg s (Args_NOTIF notif))))
     <> head ++ bytes "</notification>" ++ NC_VERSION_10_ENDTAG.
Proof.
  cbv zeta. split; [vm_compute; reflexivity|].
  split; [vm_compute; reflexivity|]. vm_compute. discriminate.
Qed.

End MessagesExample.

(** ** The read budget *)

Lemma sleep_step : 1000000 / NC_TIMEOUT_STEP = 1000.
Proof. reflexivity. Qed.

Lemma sleeps_to_seconds (W : Z) : W * NC_TIMEOUT_STEP / 1000000 = W / 1000.
Proof.
  change 1000000 with (1000 * NC_TIMEOUT_STEP).
  apply Z.div_mul_cancel_r; discriminate.
Qed.

Lemma nc_read_loop_budget (evs : list rd_event) :
  forall s count readd buf sc t W,
    ti_type s = NC_TI_FD ->
    0 <= sc < 1000 -> 0 < t < 2 ^ 16 -> readd < count ->
    sleeps_before (count - readd) evs = Some W ->
    0 <= W
    /\ ((sc + W) / 1000 < t ->
        rr_ret (nc_read_loop s evs count readd buf sc t) = count
        /\ rr_timeout (nc_read_loop s evs count readd buf sc t)
           = t - (sc + W) / 1000
        /\ status (rr_session (nc_read_loop s evs count readd buf sc t))
           = status s
        /\ term_reason (rr_session (nc_read_loop s evs count readd buf sc t))
           = term_reason s)
    /\ (t <= (sc + W) / 1000 ->
        rr_ret (nc_read_loop s evs count readd buf sc t) = -1
        /\ status (rr_session (nc_read_loop s evs count readd buf sc t))
           = NC_STATUS_INVALID
        /\ term_reason (rr_session (nc_read_loop s evs count readd buf sc t))
           = NC_SESSION_TERM_OTHER).
Proof.
  induction evs as [|ev evs IH]; intros s count readd buf sc t W Hti Hsc Ht Hrd HW;
    [discriminate|].
  destruct ev as [bs| | |]; cbn [sleeps_before] in HW; cbn [nc_read_loop];
    rewrite Hti.
  - (* data *)
    destruct (len bs =? 0) eqn:E0; [discriminate|]. apply Z.eqb_neq in E0.
    pose proof (len_nonneg bs) as Hbs.
    destruct (count - readd <=? len bs) eqn:E1.
    + apply Z.leb_le in E1. injection HW as <-.
      replace (Z.min (len bs) (count - readd)) with (count - readd) by lia.
      replace (count - readd =? 0) with false by (symmetry; apply Z.eqb_neq; lia).
      replace (readd + (count - readd) <? count) with false
        by (symmetry; apply Z.ltb_ge; lia).
      cbn [rr_ret rr_timeout rr_session].
      rewrite Z.add_0_r, (Z.div_small sc 1000) by lia.
      split; [lia|]. split; [intros _|intros Hlt; lia].
      repeat split; try reflexivity; lia.
    + apply Z.leb_gt in E1.
      replace (Z.min (len bs) (count - readd)) with (len bs) by lia.
      replace (len bs =? 0) with false by (symmetry; apply Z.eqb_neq; lia).
      replace (readd + len bs <? count) with true
        by (symmetry; apply Z.ltb_lt; lia).
      apply IH; try assumption; try lia.
      rewrite <- HW. f_equal. lia.
  - (* would block *)
    destruct (sleeps_before (count - readd) evs) as [W'|] eqn:EW; [|discriminate].
    cbn in HW. injection HW as <-.
    unfold uint16. rewrite sleep_step.
    rewrite (Z.mod_small (sc + 1)) by lia.
    replace (readd <? count) with true by (symmetry; apply Z.ltb_lt; lia).
    destruct (1000 =? sc + 1) eqn:E.
    + apply Z.eqb_eq in E. rewrite (Z.mod_small (t - 1)) by lia.
      assert (Hdiv : (sc + Z.succ W') / 1000 = 1 + W' / 1000).
      { replace (sc + Z.succ W') with (1 * 1000 + W') by lia.
        apply Z_div_plus_full_l. discriminate. }
      destruct (t - 1 =? 0) eqn:Et.
      * apply Z.eqb_eq in Et. cbn [rr_ret rr_session].
        destruct (IH s count readd buf 0 1 W' Hti ltac:(lia) ltac:(lia) Hrd EW)
          as (HW' & _).
        pose proof (Z.div_pos W' 1000 HW' ltac:(lia)) as Hq.
        split; [lia|]. split; [intros Hlt; lia|intros _]. repeat split.
      * apply Z.eqb_neq in Et.
        destruct (IH s count readd buf 0 (t - 1) W' Hti ltac:(lia) ltac:(lia)
                     Hrd EW) as (HW' & Hok & Hfail).
        rewrite Z.add_0_l in Hok, Hfail. rewrite Hdiv.
        split; [lia|]. split; intros Hlt.
        -- destruct (Hok ltac:(lia)) as (H1 & H2 & H3 & H4).
           repeat split; try assumption. lia.
        -- apply Hfail. lia.
    + apply Z.eqb_neq in E.
      replace (t =? 0) with false by (symmetry; apply Z.eqb_neq; lia).
      destruct (IH s count readd buf (sc + 1) t W' Hti ltac:(lia) Ht Hrd EW)
        as (HW' & Hok & Hfail).
      replace (sc + Z.succ W') with (sc + 1 + W') by lia.
      split; [lia|]. split; assumption.
  - (* interrupted *)
    replace (readd <? count) with true by (symmetry; apply Z.ltb_lt; lia).
    now apply IH.
  - discriminate.
Qed.

Lemma nc_read_until_first_fails (s : nc_session) (endtag : list byte) (t : Z) :
  rr_ret (nc_read s 1 t) = -1 ->
  nc_read_until s endtag 0 t
  = Some {| rr_ret := -1; rr_buf := []; rr_timeout := rr_timeout (nc_read s 1 t);
            rr_session := rr_session (nc_read s 1 t) |}.
Proof.
  intros Hr. unfold nc_read_until. cbn [nc_read_until_loop].
  rewrite Hr. reflexivity.
Qed.

Section ReadBudget.

Context {LY : LibYang}.

(** C5, as the code has it: [nc_read] counts the reads that would block in a
    counter of its own, which is zero when the call starts; each of them
    sleeps NC_TIMEOUT_STEP microseconds.  A call that meets [W] of them before
    it has its [count] bytes takes one second off the budget for every
    1,000,000 microseconds of these sleeps: it returns [count] with the
    budget lowered by that many seconds when this leaves a second or more,
    and otherwise it returns -1 and leaves the session Invalid with
    termination reason Other.  The budget of a message is NC_READ_TIMEOUT,
    30 seconds: a message whose first byte is that late fails in
    [nc_read_msg]. *)
Theorem nc_read_budget (s : nc_session) (count t W : Z) :
  usable s -> ti_type s = NC_TI_FD ->
  0 < count -> 0 < t < 2 ^ 16 ->
  sleeps_before count (rd_script (ti_fd_in s)) = Some W ->
  let spent := W * NC_TIMEOUT_STEP / 1000000 in
  let r := nc_read s count t in
  NC_READ_TIMEOUT = 30
  /\ (spent < t ->
      rr_ret r = count /\ rr_timeout r = t - spent
      /\ status (rr_session r) = status s
      /\ term_reason (rr_session r) = term_reason s)
  /\ (t <= spent ->
      rr_ret r = -1
      /\ status (rr_session r) = NC_STATUS_INVALID
      /\ term_reason (rr_session r) = NC_SESSION_TERM_OTHER)
  /\ (count = 1 -> NC_READ_TIMEOUT <= spent ->
      exists s',
        nc_read_msg s = Some (NC_MSG_ERROR, None, s')
        /\ status s' = NC_STATUS_INVALID
        /\ term_reason s' = NC_SESSION_TERM_OTHER).
Proof.
  intros Hu Hti Hc Ht HW spent r.
  assert (Hloop : forall t', 0 < t' < 2 ^ 16 ->
            (spent < t' ->
             rr_ret (nc_read s count t') = count
             /\ rr_timeout (nc_read s count t') = t' - spent
             /\ status (rr_session (nc_read s count t')) = status s
             /\ term_reason (rr_session (nc_read s count t')) = term_reason s)
            /\ (t' <= spent ->
                rr_ret (nc_read s count t') = -1
                /\ status (rr_session (nc_read s count t')) = NC_STATUS_INVALID
                /\ term_reason (rr_session (nc_read s count t'))
                   = NC_SESSION_TERM_OTHER)).
  { intros t' Ht'. unfold nc_read. rewrite Hu.
    replace (count =? 0) with false by (symmetry; apply Z.eqb_neq; lia).
    unfold spent. rewrite sleeps_to_seconds.
    refine (proj2 (nc_read_loop_budget _ s count 0 [] 0 t' W Hti
                     ltac:(lia) Ht' Hc _)).
    rewrite Z.sub_0_r. exact HW. }
  split; [reflexivity|].
  split; [apply (Hloop t Ht)|]. split; [apply (Hloop t Ht)|].
  intros -> Hlate.
  destruct (proj2 (Hloop NC_READ_TIMEOUT ltac:(split; reflexivity)) Hlate)
    as (Hret & Hst & Htr).
  exists (rr_session (nc_read s 1 NC_READ_TIMEOUT)).
  split; [|now split].
  unfold nc_read_msg. rewrite Hu. unfold nc_read_frame.
  destruct (version s).
  - unfold nc_read_msg_v10.
    rewrite (nc_read_until_first_fails s _ _ Hret). reflexivity.
  - cbn [nc_read_msg_v11].
    rewrite (nc_read_until_first_fails s _ _ Hret). reflexivity.
Qed.

End ReadBudget.

Section ReadBudgetExample.

#[local] Existing Instance ExampleYang.

(** C5 at work: a call for two bytes that sleeps 1500 times before they come
    takes one second off, and a message that starts after 30000 sleeps is
    given up. *)
Lemma nc_read_budget_witness :
  let s := session_on NC_VERSION_10 NC_SERVER
             (repeat RdAgain 1500 ++ [RdData (bytes "ab")]) in
  let late := session_on NC_VERSION_11 NC_SERVER
                (repeat RdAgain (Z.to_nat 30000) ++ [RdData (bytes "<")]) in
  (rr_ret (nc_read s 2 30) = 2 /\ rr_timeout (nc_read s 2 30) = 29)
  /\ exists s',
       nc_read_msg late = Some (NC_MSG_ERROR, None, s')
       /\ status s' = NC_STATUS_INVALID
       /\ term_reason s' = NC_SESSION_TERM_OTHER.
Proof.
  intros s late. split.
  - assert (HW : sleeps_before 2 (rd_script (ti_fd_in s)) = Some 1500)
      by (vm_compute; reflexivity).
    destruct (nc_read_budget s 2 30 1500 eq_refl eq_refl ltac:(lia) ltac:(lia) HW)
      as (_ & Hok & _).
    destruct (Hok ltac:(vm_compute; reflexivity)) as (H1 & H2 & _).
    split; [exact H1|exact H2].
  - assert (HW : sleeps_before 1 (rd_script (ti_fd_in late)) = Some 30000)
      by (vm_compute; reflexivity).
    destruct (nc_read_budget late 1 30 30000 eq_refl eq_refl ltac:(lia)
                ltac:(lia) HW) as (_ & _ & _ & Hlate).
    apply Hlate; [reflexivity|]. vm_compute. discriminate.
Defined.

End ReadBudgetExample.

(** Against C5 as it is worded: this NETCONF 1.0 message comes in two
    pieces, each after 999 reads that would block.  The sleeps sum to nearly
    two seconds, yet no call of [nc_read] reaches a full second: the budget
    is still 30, not 29, when the message is complete. *)
Lemma nc_read_budget_counterexample :
  let msg := bytes "<a/>" in
  let evs := repeat RdAgain 999 ++ [RdData (bytes "<a")]
             ++ repeat RdAgain 999 ++ [RdData (bytes "/>]]>]]>")] in
  let s := session_on NC_VERSION_10 NC_SERVER evs in
  1000000 <= sleeps evs * NC_TIMEOUT_STEP
  /\ (exists r,
        nc_read_until s NC_VERSION_10_ENDTAG 0 NC_READ_TIMEOUT = Some r
        /\ rr_ret r = len (msg ++ NC_VERSION_10_ENDTAG)
        /\ rr_timeout r = NC_READ_TIMEOUT
        /\ rr_timeout r
           <> NC_READ_TIMEOUT - sleeps evs * NC_TIMEOUT_STEP / 1000000)
  /\ nc_read_frame s
     = Some (Frame_msg msg (session_on NC_VERSION_10 NC_SERVER [])).
Proof.
  intros msg evs s. split; [vm_compute; discriminate|]. split.
  - eexists. split; [vm_compute; reflexivity|].
    split; [reflexivity|]. split; [reflexivity|]. vm_compute. discriminate.
  - vm_compute. reflexivity.
Qed.

(** ** The message reader always returns *)

Lemma nc_read_loop_left (evs : list rd_event) :
  forall s count readd buf sc t,
    (left_to_read (rr_session (nc_read_loop s evs count readd buf sc t))
     <= stream_size evs)%nat.
Proof.
  unfold left_to_read.
  induction evs as [|ev evs IH]; intros s count readd buf sc t;
    cbn [nc_read_loop]; destruct (ti_type s); try (cbn; lia).
  destruct ev as [bs| | |]; cbn [stream_size].
  - destruct (Z.min (len bs) (count - readd) =? 0); [cbn; lia|].
    destruct (readd + Z.min (len bs) (count - readd) <? count).
    + etransitivity; [apply IH|lia].
    + destruct (Z.min (len bs) (count - readd) <? len bs); cbn; [|lia].
      rewrite length_skipn. lia.
  - destruct (1000000 / NC_TIMEOUT_STEP =? uint16 (sc + 1)).
    + destruct (uint16 (t - 1) =? 0); [cbn; lia|].
      destruct (readd <? count); [etransitivity; [apply IH|lia]|cbn; lia].
    + destruct (t =? 0); [cbn; lia|].
      destruct (readd <? count); [etransitivity; [apply IH|lia]|cbn; lia].
  - destruct (readd <? count); [etransitivity; [apply IH|lia]|cbn; lia].
  - cbn. lia.
Qed.

Lemma nc_read_loop_takes (evs : list rd_event) :
  forall s count readd buf sc t,
    0 <= readd ->
    readd < rr_ret (nc_read_loop s evs count readd buf sc t) ->
    (left_to_read (rr_session (nc_read_loop s evs count readd buf sc t))
     < stream_size evs)%nat.
Proof.
  induction evs as [|ev evs IH]; intros s count readd buf sc t Hrd;
    cbn [nc_read_loop]; destruct (ti_type s); try (cbn; lia).
  destruct ev as [bs| | |]; cbn [stream_size].
  - destruct (Z.min (len bs) (count - readd) =? 0) eqn:E0; [cbn; lia|].
    apply Z.eqb_neq in E0. pose proof (len_nonneg bs) as Hbs.
    destruct (readd + Z.min (len bs) (count - readd) <? count) eqn:E1.
    + intros _.
      pose proof (nc_read_loop_left evs s count
                    (readd + Z.min (len bs) (count - readd))
                    (buf ++ firstn (Z.to_nat (Z.min (len bs) (count - readd))) bs)
                    sc t).
      lia.
    + intros Hret. cbn [rr_ret] in Hret. unfold left_to_read.
      destruct (Z.min (len bs) (count - readd) <? len bs) eqn:E2; cbn; [|lia].
      apply Z.ltb_lt in E2.
      rewrite length_skipn. unfold len in *. lia.
  - destruct (1000000 / NC_TIMEOUT_STEP =? uint16 (sc + 1)).
    + destruct (uint16 (t - 1) =? 0); [cbn; lia|].
      destruct (readd <? count); [|cbn; lia].
      intros H. specialize (IH _ _ _ _ _ _ Hrd H). lia.
    + destruct (t =? 0); [cbn; lia|].
      destruct (readd <? count); [|cbn; lia].
      intros H. specialize (IH _ _ _ _ _ _ Hrd H). lia.
  - destruct (readd <? count); [|cbn; lia].
    intros H. specialize (IH _ _ _ _ _ _ Hrd H). lia.
  - cbn. lia.
Qed.

Lemma nc_read_left (s : nc_session) (count t : Z) :
  (left_to_read (rr_session (nc_read s count t)) <= left_to_read s)%nat
  /\ (0 < rr_ret (nc_read s count t) ->
      (left_to_read (rr_session (nc_read s count t)) < left_to_read s)%nat).
Proof.
  unfold nc_read. destruct (not_usable s); [cbn; split; lia|].
  destruct (count =? 0); [cbn; split; lia|]. split.
  - apply nc_read_loop_left.
  - apply nc_read_loop_takes. lia.
Qed.

Lemma nc_read_chunk_left (s : nc_session) (n t : Z) :
  (left_to_read (rr_session (nc_read_chunk s n t)) <= left_to_read s)%nat.
Proof.
  unfold nc_read_chunk. destruct (n =? 0); [cbn; lia|].
  destruct (malloc_fails (uint64 (n + 1))); [cbn; lia|].
  destruct (uint64 (n + 1) =? 0).
  - assert (H : left_to_read (rr_session (nc_read_fault s t)) = left_to_read s)
      by (unfold nc_read_fault; destruct (not_usable s), (ti_type s);
          reflexivity).
    destruct (rr_ret (nc_read_fault s t) <=? 0); cbn [rr_session]; lia.
  - destruct (rr_ret (nc_read s n t) <=? 0); cbn [rr_session];
      apply nc_read_left.
Qed.

Lemma nc_read_until_loop_total (fuel : nat) :
  forall s endtag limit t chunk count,
    (left_to_read s < fuel)%nat ->
    exists r,
      nc_read_until_loop fuel s endtag limit t chunk count = Some r
      /\ (left_to_read (rr_session r) <= left_to_read s)%nat
      /\ (rr_ret r <> -1 ->
          (left_to_read (rr_session r) < left_to_read s)%nat).
Proof.
  induction fuel as [|fuel IH]; intros s endtag limit t chunk count Hf; [lia|].
  cbn [nc_read_until_loop].
  destruct (negb (limit =? 0) && (count =? limit)).
  { eexists. split; [reflexivity|]. cbn. split; [lia|congruence]. }
  destruct (nc_read_left s 1 t) as (Hle & Hlt).
  destruct (negb (rr_ret (nc_read s 1 t) =? 1)) eqn:E.
  { eexists. split; [reflexivity|]. cbn. split; [exact Hle|congruence]. }
  apply negb_false_iff, Z.eqb_eq in E. specialize (Hlt ltac:(lia)).
  match goal with |- context [if ?c then _ else _] => destruct c end.
  { eexists. split; [reflexivity|]. cbn. split; [lia|intros _; exact Hlt]. }
  destruct (IH (rr_session (nc_read s 1 t)) endtag limit
               (rr_timeout (nc_read s 1 t)) (chunk ++ rr_buf (nc_read s 1 t))
               (count + 1) ltac:(lia)) as (r & Hr & H1 & _).
  exists r. split; [exact Hr|]. split; [lia|intros _; lia].
Qed.

Lemma nc_read_until_total (s : nc_session) (endtag : list byte) (limit t : Z) :
  exists r,
    nc_read_until s endtag limit t = Some r
    /\ (left_to_read (rr_session r) <= left_to_read s)%nat
    /\ (rr_ret r <> -1 -> (left_to_read (rr_session r) < left_to_read s)%nat).
Proof.
  apply nc_read_until_loop_total. unfold left_to_read. lia.
Qed.

Lemma nc_read_msg_v11_total (fuel : nat) :
  forall s t msg,
    (left_to_read s < fuel)%nat ->
    exists res, nc_read_msg_v11 fuel s t msg = Some res.
Proof.
  induction fuel as [|fuel IH]; intros s t msg Hf; [lia|].
  cbn [nc_read_msg_v11].
  destruct (nc_read_until_total s [LF; "#"%byte] 0 t) as (r1 & -> & _ & H1).
  destruct (to_int (rr_ret r1) =? -1) eqn:E1; [eexists; reflexivity|].
  apply Z.eqb_neq, to_int_neq in E1. specialize (H1 E1).
  destruct (nc_read_until_total (rr_session r1) [LF] 0 (rr_timeout r1))
    as (r2 & -> & H2 & _).
  destruct (to_int (rr_ret r2) =? -1); [eexists; reflexivity|].
  destruct (strcmp (rr_buf r2) ["#"%byte; LF] =? 0);
    [destruct msg; eexists; reflexivity|].
  destruct (strtoul (rr_buf r2) =? 0); [eexists; reflexivity|].
  destruct (to_int (rr_ret (nc_read_chunk (rr_session r2)
                              (strtoul (rr_buf r2)) (rr_timeout r2))) =? -1);
    [eexists; reflexivity|].
  apply IH.
  pose proof (nc_read_chunk_left (rr_session r2) (strtoul (rr_buf r2))
                                 (rr_timeout r2)).
  lia.
Qed.

Lemma nc_read_frame_total (s : nc_session) :
  exists res, nc_read_frame s = Some res.
Proof.
  unfold nc_read_frame. destruct (version s).
  - unfold nc_read_msg_v10.
    destruct (nc_read_until_total s NC_VERSION_10_ENDTAG 0 NC_READ_TIMEOUT)
      as (r & -> & _).
    cbv zeta. destruct (to_int (rr_ret r) =? -1); eexists; reflexivity.
  - apply nc_read_msg_v11_total. unfold left_to_read. lia.
Qed.

Section Totality.

Context {LY : LibYang}.

(** [nc_read_msg] returns on every session and every input. *)
Lemma nc_read_msg_total (s : nc_session) :
  exists res, nc_read_msg s = Some res.
Proof.
  unfold nc_read_msg. destruct (not_usable s); [eexists; reflexivity|].
  destruct (nc_read_frame_total s) as (res & ->).
  destruct res; eexists; reflexivity.
Qed.

End Totality.

(** * The writer on any transport *)

Lemma wrote_refl (s : nc_session) : wrote s s.
Proof.
  unfold wrote. repeat split; try reflexivity.
  - exists []. now rewrite app_nil_r.
  - now left.
Qed.

Lemma wrote_trans (s1 s2 s3 : nc_session) :
  wrote s1 s2 -> wrote s2 s3 -> wrote s1 s3.
Proof.
  intros (A1 & A2 & A3 & A4 & A5 & A6 & (o1 & A7) & A8)
         (B1 & B2 & B3 & B4 & B5 & B6 & (o2 & B7) & B8).
  unfold wrote. repeat split; try congruence.
  - exists (o1 ++ o2). now rewrite B7, A7, app_assoc.
  - destruct A8 as [[Ha Hb]|[Ha Hb]], B8 as [[Hc Hd]|[Hc Hd]];
      [left|right|right|right]; split; congruence.
Qed.

Lemma poll_connected_ret (ps : list poll_event) :
  fst (poll_connected ps) = 0 \/ fst (poll_connected ps) = 1.
Proof.
  induction ps as [|[| | |] ps IH]; cbn; auto.
Qed.

(** The loop of [nc_write] puts a prefix of the buffer on the wire: all of it
    when it returns the count, and it returns nothing else but -1. *)
Lemma nc_write_loop_prefix (ws : list wr_event) (buf : list byte) (count : Z) :
  forall written w0,
    0 <= written <= count ->
    exists k,
      written <= k <= count
      /\ snd (nc_write_loop ws buf count written
                (w0 ++ firstn (Z.to_nat written) buf))
         = w0 ++ firstn (Z.to_nat k) buf
      /\ (fst (fst (nc_write_loop ws buf count written
                      (w0 ++ firstn (Z.to_nat written) buf))) = count
          /\ k = count
          \/ fst (fst (nc_write_loop ws buf count written
                         (w0 ++ firstn (Z.to_nat written) buf))) = -1).
Proof.
  induction ws as [|[|n] ws IH]; intros written w0 Hw; cbn [nc_write_loop].
  - exists count. cbn [fst snd]. split; [lia|]. split; [|now left].
    rewrite <- app_assoc. f_equal.
    replace (Z.to_nat count)
      with (Z.to_nat written + Z.to_nat (count - written))%nat by lia.
    symmetry. apply firstn_add_skipn.
  - exists written. cbn [fst snd]. split; [lia|]. split; [reflexivity|now right].
  - cbv zeta.
    set (c := Z.min (Z.min (Z.of_nat n) (count - written)) INT_MAX).
    assert (Hc : 0 <= c <= count - written) by (unfold c, INT_MAX; lia).
    assert (E : (w0 ++ firstn (Z.to_nat written) buf)
                ++ firstn (Z.to_nat c) (skipn (Z.to_nat written) buf)
                = w0 ++ firstn (Z.to_nat (written + c)) buf).
    { rewrite <- app_assoc. f_equal.
      replace (Z.to_nat (written + c))
        with (Z.to_nat written + Z.to_nat c)%nat by lia.
      symmetry. apply firstn_add_skipn. }
    rewrite E.
    destruct (written + c <? count) eqn:El.
    + destruct (IH (written + c) w0 ltac:(lia)) as (k & Hk & Hwire & Hret).
      exists k. split; [lia|]. split; assumption.
    + apply Z.ltb_ge in El. exists (written + c). cbn [fst snd].
      split; [lia|]. split; [reflexivity|]. left. lia.
Qed.

Lemma writes_refl (s : nc_session) : writes s s.
Proof. split; [apply wrote_refl|auto]. Qed.

Lemma writes_trans (s1 s2 s3 : nc_session) :
  writes s1 s2 -> writes s2 s3 -> writes s1 s3.
Proof.
  intros [A1 A2] [B1 B2]. split; [exact (wrote_trans _ _ _ A1 B1)|auto].
Qed.

Lemma nc_write_loop_out (ws : list wr_event) (buf : list byte) (count : Z) :
  forall written w,
    exists out, snd (nc_write_loop ws buf count written w) = w ++ out.
Proof.
  induction ws as [|[|n] ws IH]; intros written w; cbn [nc_write_loop].
  - eexists. reflexivity.
  - exists []. cbn. now rewrite app_nil_r.
  - cbv zeta.
    set (c := Z.min (Z.min (Z.of_nat n) (count - written)) INT_MAX).
    match goal with |- context [if ?c then _ else _] => destruct c end.
    + destruct (IH (written + c)
                   (w ++ firstn (Z.to_nat c) (skipn (Z.to_nat written) buf)))
        as (out & ->).
      eexists. rewrite <- app_assoc. reflexivity.
    + eexists. reflexivity.
Qed.

Lemma nc_write_writes (s : nc_session) (buf : list byte) (count : Z) :
  writes s (snd (nc_write s buf count)).
Proof.
  unfold nc_write. destruct (not_usable s) eqn:Hu; [apply writes_refl|].
  unfold nc_session_is_connected. destruct (ti_type s) eqn:Hti.
  - cbn. split.
    + unfold wrote. cbn. repeat split; auto.
      exists []. now rewrite app_nil_r.
    + intros (_ & Hfd & _). congruence.
  - destruct (poll_connected (poll_script (ti_fd_in s))) as [ret ps] eqn:Hp.
    destruct (ret =? 0) eqn:Hret.
    + cbn. split.
      * unfold wrote. cbn. repeat split; auto.
        exists []. now rewrite app_nil_r.
      * intros (_ & _ & Hq).
        destruct (poll_connected_quiet _ Hq) as (ps' & E & _).
        rewrite E in Hp. injection Hp as <- <-. discriminate.
    + change (ti_type (set_poll_script s ps)) with (ti_type s). rewrite Hti.
      change (ti_fd_out (set_poll_script s ps)) with (ti_fd_out s).
      destruct (nc_write_loop_out (wr_script (ti_fd_out s)) buf count 0
                                  (wire (ti_fd_out s))) as (out & Hout).
      destruct (nc_write_loop (wr_script (ti_fd_out s)) buf count 0
                              (wire (ti_fd_out s))) as [[r ws] w].
      cbn [snd] in Hout. subst w. cbn [snd]. split.
      * unfold wrote. cbn. repeat split; auto. now exists out.
      * intros (Hus & Hfd & Hq).
        destruct (poll_connected_quiet _ Hq) as (ps' & E & Hq').
        rewrite E in Hp. injection Hp as <- <-.
        repeat split; assumption.
Qed.

Lemma nc_write_starttag_and_msg_writes (s : nc_session) (buf : list byte)
    (count : Z) :
  writes s (snd (nc_write_starttag_and_msg s buf count)).
Proof.
  unfold nc_write_starttag_and_msg. destruct (version s).
  - cbn [Z.eqb]. pose proof (nc_write_writes s buf count) as H.
    destruct (nc_write s buf count) as [c s1]. cbn [snd] in H.
    destruct (c =? -1); exact H.
  - pose proof (nc_write_writes s (chunk_header count)
                  (Z.of_nat (strlen (chunk_header count)))) as H1.
    destruct (nc_write s (chunk_header count)
                (Z.of_nat (strlen (chunk_header count)))) as [ret s1].
    cbn [snd] in H1. destruct (ret =? -1); [exact H1|].
    pose proof (nc_write_writes s1 buf count) as H2.
    destruct (nc_write s1 buf count) as [c s2]. cbn [snd] in H2.
    destruct (c =? -1); exact (writes_trans _ _ _ H1 H2).
Qed.

Lemma nc_write_endtag_writes (s : nc_session) :
  writes s (snd (nc_write_endtag s)).
Proof.
  unfold nc_write_endtag. destruct (version s); apply nc_write_writes.
Qed.

Lemma nc_write_clb_flush_writes (w : wclb_arg) :
  writes (warg_session w) (warg_session (snd (nc_write_clb_flush w))).
Proof.
  unfold nc_write_clb_flush. destruct (negb (warg_len w =? 0));
    [|apply writes_refl].
  pose proof (nc_write_starttag_and_msg_writes (warg_session w) (warg_buf w)
                (warg_len w)) as H.
  destruct (nc_write_starttag_and_msg (warg_session w) (warg_buf w)
              (warg_len w)) as [ret s1].
  exact H.
Qed.

Lemma nc_write_clb_content_writes (text : list byte) :
  forall w ret,
    writes (warg_session w)
           (warg_session (snd (nc_write_clb_content w ret text))).
Proof.
  induction text as [|ch text IH]; intros w ret; [apply writes_refl|].
  rewrite nc_write_clb_content_step.
  assert (H : writes (warg_session w)
                (warg_session
                   (snd (if WRITE_BUFSIZE <=? warg_len w + 5
                         then nc_write_clb_flush w else (0, w))))).
  { destruct (WRITE_BUFSIZE <=? warg_len w + 5);
      [apply nc_write_clb_flush_writes|apply writes_refl]. }
  destruct (if WRITE_BUFSIZE <=? warg_len w + 5
            then nc_write_clb_flush w else (0, w)) as [c w1].
  cbn [snd] in H. destruct (c =? -1); [exact H|].
  eapply writes_trans; [exact H|].
  exact (IH {| warg_session := warg_session w1;
               warg_buf := warg_buf w1 ++ xml_escape_char ch |} _).
Qed.

Lemma nc_write_clb_writes (w : wclb_arg) (buf : option (list byte))
    (count : Z) (xmlcontent : bool) :
  writes (warg_session w)
         (warg_session (snd (nc_write_clb w buf count xmlcontent))).
Proof.
  unfold nc_write_clb. destruct buf as [buf|].
  - assert (H : writes (warg_session w)
                  (warg_session
                     (snd (if negb (warg_len w =? 0)
                              && (WRITE_BUFSIZE <? warg_len w + count)
                           then nc_write_clb_flush w else (0, w))))).
    { destruct (negb (warg_len w =? 0) && (WRITE_BUFSIZE <? warg_len w + count));
        [apply nc_write_clb_flush_writes|apply writes_refl]. }
    destruct (if negb (warg_len w =? 0) && (WRITE_BUFSIZE <? warg_len w + count)
              then nc_write_clb_flush w else (0, w)) as [c w1].
    cbn [snd] in H. destruct (c =? -1); [exact H|].
    destruct (negb xmlcontent && (WRITE_BUFSIZE <? count)).
    + pose proof (nc_write_starttag_and_msg_writes (warg_session w1) buf count)
        as H2.
      destruct (nc_write_starttag_and_msg (warg_session w1) buf count)
        as [c2 s2].
      cbn [snd] in H2.
      destruct (c2 =? -1); exact (writes_trans _ _ _ H H2).
    + destruct xmlcontent; [|exact H].
      eapply writes_trans; [exact H|]. apply nc_write_clb_content_writes.
  - pose proof (nc_write_clb_flush_writes w) as H.
    destruct (nc_write_clb_flush w) as [c w1]. cbn [snd] in H.
    destruct (c =? -1); [exact H|].
    pose proof (nc_write_endtag_writes (warg_session w1)) as H2.
    destruct (nc_write_endtag (warg_session w1)) as [c2 s2]. cbn [snd] in H2.
    destruct (c2 =? -1); exact (writes_trans _ _ _ H H2).
Qed.

Lemma nc_write_calls_writes (calls : list clb_call) :
  forall w, writes (warg_session w) (warg_session (nc_write_calls w calls)).
Proof.
  induction calls as [|c calls IH]; intros w; [apply writes_refl|].
  rewrite nc_write_calls_cons.
  eapply writes_trans; [apply nc_write_clb_writes|apply IH].
Qed.

Lemma writes_set_msgid (s s' : nc_session) (m : Z) :
  writes s s' -> writes (set_msgid s m) (set_msgid s' m).
Proof.
  intros [(A1 & A2 & A3 & A4 & A5 & A6 & A7 & A8) Hc]. split.
  - unfold wrote. cbn. repeat split; assumption.
  - intros (Hu & Hfd & Hq). destruct (Hc ltac:(repeat split; assumption))
      as (Hu' & Hfd' & Hq').
    repeat split; assumption.
Qed.

Lemma writes_usable (s s' : nc_session) :
  writes s s' -> usable s' -> 
  status s' = status s /\ term_reason s' = term_reason s.
Proof.
  intros [(_ & _ & _ & _ & _ & _ & _ & [H|[H _]]) _] Hu; [exact H|].
  unfold usable, not_usable in Hu. rewrite H in Hu. discriminate.
Qed.

Lemma writes_not_usable (s s' : nc_session) :
  writes s s' -> usable s -> not_usable s' = true ->
  status s' = NC_STATUS_INVALID /\ term_reason s' = NC_SESSION_TERM_DROPPED.
Proof.
  intros [(_ & _ & _ & _ & _ & _ & _ & [[H _]|H]) _] Hu Hn; [|exact H].
  unfold usable, not_usable in *. rewrite H in Hn. congruence.
Qed.

Section WriterAnyTransport.

Context {LY : LibYang}.

(** The tail of [nc_write_msg]: the flush of the message and the test on the
    status. *)
Lemma flush_message_writes (w : wclb_arg) :
  let res := (let '(_, arg) := nc_write_clb w None 0 false in
              if not_usable (warg_session arg) then (-1, warg_session arg)
              else (0, warg_session arg)) in
  writes (warg_session w) (snd res)
  /\ (fst res = 0 /\ usable (snd res)
      \/ fst res = -1 /\ not_usable (snd res) = true).
Proof.
  pose proof (nc_write_clb_writes w None 0 false) as H.
  destruct (nc_write_clb w None 0 false) as [r w1]. cbn [snd] in H.
  destruct (not_usable (warg_session w1)) eqn:E; cbn [fst snd];
    (split; [exact H|]); [right|left]; split; auto.
Qed.

Lemma nc_write_msg_rpc_writes (s : nc_session) (content : lyd_node)
    (attrs : option (list byte)) :
  usable s ->
  writes (set_msgid s (uint64 (msgid s + 1)))
         (snd (nc_write_msg s (Args_RPC content attrs)))
  /\ (fst (nc_write_msg s (Args_RPC content attrs)) = 0
      /\ usable (snd (nc_write_msg s (Args_RPC content attrs)))
      \/ fst (nc_write_msg s (Args_RPC content attrs)) = -1
         /\ not_usable (snd (nc_write_msg s (Args_RPC content attrs))) = true).
Proof.
  intros Hu. unfold nc_write_msg. rewrite Hu.
  set (calls := [raw _ _] ++ _ ++ _).
  pose proof (nc_write_calls_writes calls {| warg_session := s; warg_buf := [] |})
    as H1.
  set (w1 := nc_write_calls _ calls) in *. cbn [warg_session] in H1.
  assert (Hm : msgid (warg_session w1) = msgid s) by apply H1.
  rewrite Hm.
  destruct (flush_message_writes (set_warg_msgid w1 (uint64 (msgid s + 1))))
    as [H2 H3].
  split; [|exact H3].
  eapply writes_trans; [|exact H2].
  apply writes_set_msgid. exact H1.
Qed.

Lemma nc_write_msg_writes (s : nc_session) (args : nc_msg_args) :
  (forall content attrs, args <> Args_RPC content attrs) ->
  writes s (snd (nc_write_msg s args)).
Proof.
  intros Hargs. unfold nc_write_msg.
  destruct (not_usable s); [apply writes_refl|].
  destruct args as [content attrs|rpc_elem reply|notif|caps sid|type].
  - now destruct (Hargs content attrs).
  - pose proof (nc_write_calls_writes (reply_calls rpc_elem reply)
                  {| warg_session := s; warg_buf := [] |}) as H1.
    cbn [warg_session] in H1.
    destruct reply.
    1, 2, 3:
      eapply writes_trans;
        [eapply writes_trans; [exact H1|apply nc_write_calls_writes]
        |apply flush_message_writes].
    pose proof (nc_write_clb_writes
                  (nc_write_calls {| warg_session := s; warg_buf := [] |}
                     (reply_calls rpc_elem NC_RPL_NOTIF)) None 0 false) as H2.
    destruct (nc_write_clb _ None 0 false) as [r w2]. cbn [snd] in *.
    exact (writes_trans _ _ _ H1 H2).
  - eapply writes_trans;
      [apply (nc_write_calls_writes (notif_calls notif)
                {| warg_session := s; warg_buf := [] |})
      |apply flush_message_writes].
  - destruct (version s); [|apply writes_refl].
    eapply writes_trans;
      [apply (nc_write_calls_writes (hello_calls caps sid)
                {| warg_session := s; warg_buf := [] |})
      |apply flush_message_writes].
  - apply writes_refl.
Qed.

Lemma nc_write_msg_sendable (s : nc_session) (args : nc_msg_args) :
  usable s -> sendable s args ->
  fst (nc_write_msg s args) = 0 /\ usable (snd (nc_write_msg s args))
  \/ fst (nc_write_msg s args) = -1
     /\ not_usable (snd (nc_write_msg s args)) = true.
Proof.
  intros Hu Hs.
  destruct args as [content attrs|rpc_elem reply|notif|caps sid|type].
  - apply nc_write_msg_rpc_writes. exact Hu.
  - unfold nc_write_msg. rewrite Hu. cbn in Hs.
    destruct reply; try (now destruct Hs); apply flush_message_writes.
  - unfold nc_write_msg. rewrite Hu. apply flush_message_writes.
  - unfold nc_write_msg. rewrite Hu. cbn in Hs. rewrite Hs.
    apply flush_message_writes.
  - destruct Hs.
Qed.

End WriterAnyTransport.

Lemma poll_connected_intr (k : nat) (ps : list poll_event) :
  poll_connected (repeat PollIntr k ++ ps) = poll_connected ps.
Proof. induction k as [|k IH]; [reflexivity|exact IH]. Qed.

(** X1.  [nc_write] puts a prefix of its buffer on the wire and nothing
    else.  It returns an int: the count as the conversion to int leaves it,
    with the whole buffer written and the status as it was, or -1.  For a
    count up to INT_MAX the first is the count itself; beyond, it is not,
    and a count of 2^32 - 1 bytes written in full gives -1 as well.  The
    only change of status that [nc_write] makes is to Invalid with the
    reason Dropped, and then it has written nothing.  A write(2) that fails
    gives -1 with the status as it was. *)
Theorem nc_write_prefix (s : nc_session) (buf : list byte) (count : Z) :
  0 <= count ->
  exists k,
    0 <= k <= count
    /\ wire (ti_fd_out (snd (nc_write s buf count)))
       = wire (ti_fd_out s) ++ firstn (Z.to_nat k) buf
    /\ (fst (nc_write s buf count) = to_int count /\ k = count
        \/ fst (nc_write s buf count) = -1)
    /\ (count <= INT_MAX ->
        fst (nc_write s buf count) = count /\ k = count
        \/ fst (nc_write s buf count) = -1)
    /\ (status (snd (nc_write s buf count)) = status s
        /\ term_reason (snd (nc_write s buf count)) = term_reason s
        \/ fst (nc_write s buf count) = -1 /\ k = 0
           /\ status (snd (nc_write s buf count)) = NC_STATUS_INVALID
           /\ term_reason (snd (nc_write s buf count))
              = NC_SESSION_TERM_DROPPED).
Proof.
  intros Hc. unfold nc_write.
  destruct (not_usable s).
  { exists 0. cbn. rewrite app_nil_r. repeat split; auto; lia. }
  unfold nc_session_is_connected. destruct (ti_type s) eqn:Hti.
  { exists 0. cbn. rewrite app_nil_r. split; [lia|]. split; [reflexivity|].
    split; [now right|]. split; [now right|]. right. repeat split. }
  destruct (poll_connected (poll_script (ti_fd_in s))) as [ret ps].
  destruct (ret =? 0).
  { exists 0. cbn. rewrite app_nil_r. split; [lia|]. split; [reflexivity|].
    split; [now right|]. split; [now right|]. right. repeat split. }
  change (ti_type (set_poll_script s ps)) with (ti_type s). rewrite Hti.
  change (ti_fd_out (set_poll_script s ps)) with (ti_fd_out s).
  destruct (nc_write_loop_prefix (wr_script (ti_fd_out s)) buf count 0
              (wire (ti_fd_out s)) ltac:(lia)) as (k & Hk & Hwire & Hret).
  cbn [Z.to_nat firstn] in Hwire, Hret. rewrite app_nil_r in Hwire, Hret.
  destruct (nc_write_loop (wr_script (ti_fd_out s)) buf count 0
              (wire (ti_fd_out s))) as [[r ws] w].
  cbn [fst snd] in *. exists k. split; [exact Hk|]. split; [exact Hwire|].
  split; [|split].
  - destruct Hret as [[-> ->] | ->]; [now left | now right].
  - intros Hmax. destruct Hret as [[-> ->] | ->]; [left | now right].
    split; [|reflexivity]. apply to_int_small. unfold INT_MAX in *. lia.
  - left. split; reflexivity.
Qed.

(** X1 at work: three bytes of which a first write takes two and a second
    fails. *)
Lemma nc_write_prefix_witness :
  let s := set_fd_out (session_on NC_VERSION_10 NC_CLIENT [])
             {| wr_script := [WrAccept 2; WrError]; wire := [] |} in
  (fst (nc_write s (bytes "abc") 3) = -1
   /\ wire (ti_fd_out (snd (nc_write s (bytes "abc") 3))) = bytes "ab"
   /\ status (snd (nc_write s (bytes "abc") 3)) = NC_STATUS_RUNNING)
  /\ exists k,
       0 <= k <= 3
       /\ wire (ti_fd_out (snd (nc_write s (bytes "abc") 3)))
          = wire (ti_fd_out s) ++ firstn (Z.to_nat k) (bytes "abc")
       /\ (fst (nc_write s (bytes "abc") 3) = to_int 3 /\ k = 3
           \/ fst (nc_write s (bytes "abc") 3) = -1)
       /\ (3 <= INT_MAX ->
           fst (nc_write s (bytes "abc") 3) = 3 /\ k = 3
           \/ fst (nc_write s (bytes "abc") 3) = -1)
       /\ (status (snd (nc_write s (bytes "abc") 3)) = status s
           /\ term_reason (snd (nc_write s (bytes "abc") 3)) = term_reason s
           \/ fst (nc_write s (bytes "abc") 3) = -1 /\ k = 0
              /\ status (snd (nc_write s (bytes "abc") 3)) = NC_STATUS_INVALID
              /\ term_reason (snd (nc_write s (bytes "abc") 3))
                 = NC_SESSION_TERM_DROPPED).
Proof.
  intros s. split; [repeat split|].
  exact (nc_write_prefix s (bytes "abc") 3 ltac:(lia)).
Defined.

(** X2.  [nc_write] does not write to a peer that is gone: on a session
    without transport, or when the poll (taken again after every EINTR)
    fails or shows the descriptor hung up or in error, it returns -1, the
    session is Invalid with the reason Dropped, and the output descriptor
    has not been used. *)
Theorem nc_write_peer_gone (s : nc_session) (buf : list byte) (count : Z)
    (k : nat) (e : poll_event) (ps : list poll_event) :
  usable s ->
  ti_type s = NC_TI_NONE
  \/ poll_script (ti_fd_in s) = repeat PollIntr k ++ e :: ps
     /\ (e = PollHup \/ e = PollError) ->
  fst (nc_write s buf count) = -1
  /\ status (snd (nc_write s buf count)) = NC_STATUS_INVALID
  /\ term_reason (snd (nc_write s buf count)) = NC_SESSION_TERM_DROPPED
  /\ ti_fd_out (snd (nc_write s buf count)) = ti_fd_out s.
Proof.
  intros Hu Hgone. unfold nc_write. rewrite Hu.
  unfold nc_session_is_connected.
  destruct (ti_type s); [repeat split|].
  destruct Hgone as [Hn|[Hp He]]; [discriminate|].
  rewrite Hp, poll_connected_intr.
  destruct He as [-> | ->]; repeat split.
Qed.

Lemma nc_write_peer_gone_witness :
  let s := set_poll_script (session_on NC_VERSION_11 NC_SERVER [])
             [PollIntr; PollIntr; PollHup; PollReady] in
  usable s
  /\ fst (nc_write s (bytes "abc") 3) = -1
  /\ status (snd (nc_write s (bytes "abc") 3)) = NC_STATUS_INVALID
  /\ term_reason (snd (nc_write s (bytes "abc") 3)) = NC_SESSION_TERM_DROPPED
  /\ ti_fd_out (snd (nc_write s (bytes "abc") 3)) = ti_fd_out s.
Proof.
  intros s. split; [reflexivity|].
  apply (nc_write_peer_gone s (bytes "abc") 3 2%nat PollHup [PollReady]);
    [reflexivity|].
  right. split; [reflexivity|now left].
Defined.

Lemma connected_set_msgid (s : nc_session) (m : Z) :
  connected s -> connected (set_msgid s m).
Proof. intros (Hu & Hfd & Hq). repeat split; assumption. Qed.

Section MessagesAnyTransport.

Context {LY : LibYang}.

(** X3.  [nc_write_msg] does not report a write that failed.  [nc_write]
    answers a failed write(2) with -1 and leaves the status alone, the
    write callback's result is not looked at, and [nc_write_msg] tests only
    the status in the end: on a session whose peer is there at every poll it
    returns 0 for every message it gets as far as writing, whatever the
    writes did, and the status is as before. *)
Theorem nc_write_msg_hides_write_errors (s : nc_session) (args : nc_msg_args) :
  connected s -> sendable s args ->
  fst (nc_write_msg s args) = 0
  /\ status (snd (nc_write_msg s args)) = status s
  /\ term_reason (snd (nc_write_msg s args)) = term_reason s.
Proof.
  intros Hc Hs. pose proof Hc as (Hu & _).
  assert (Hw : exists s0, writes s0 (snd (nc_write_msg s args))
                          /\ connected s0 /\ status s0 = status s
                          /\ term_reason s0 = term_reason s).
  { destruct args as [content attrs|rpc_elem reply|notif|caps sid|type].
    - exists (set_msgid s (uint64 (msgid s + 1))).
      split; [apply nc_write_msg_rpc_writes, Hu|].
      split; [apply connected_set_msgid, Hc|]. split; reflexivity.
    - exists s. split; [now apply nc_write_msg_writes|auto].
    - exists s. split; [now apply nc_write_msg_writes|auto].
    - exists s. split; [now apply nc_write_msg_writes|auto].
    - destruct Hs. }
  destruct Hw as (s0 & Hw & Hc0 & Hst & Htr).
  pose proof (proj2 Hw Hc0) as (Hu' & _).
  destruct (writes_usable _ _ Hw Hu') as [H1 H2].
  split; [|split; congruence].
  destruct (nc_write_msg_sendable s args Hu Hs) as [[H _]|[_ H]]; [exact H|].
  unfold usable in Hu'. congruence.
Qed.

End MessagesAnyTransport.

Section MessagesAnyTransportExample.

#[local] Existing Instance ExampleYang.

(** X3 at work: every write fails, nothing reaches the wire, and the rpc
    counts as sent. *)
Lemma nc_write_msg_hides_write_errors_witness :
  let s := set_fd_out (session_on NC_VERSION_11 NC_CLIENT [])
             {| wr_script := repeat WrError 8; wire := [] |} in
  let args := Args_RPC [bytes "<get/>"] None in
  (connected s /\ sendable s args
   /\ wire (ti_fd_out (snd (nc_write_msg s args))) = [])
  /\ fst (nc_write_msg s args) = 0
  /\ status (snd (nc_write_msg s args)) = status s
  /\ term_reason (snd (nc_write_msg s args)) = term_reason s.
Proof.
  intros s args.
  assert (Hc : connected s).
  { split; [reflexivity|]. split; [reflexivity|constructor]. }
  assert (Hs : sendable s args) by exact I.
  split; [split; [exact Hc|split; [exact Hs|vm_compute; reflexivity]]|].
  exact (nc_write_msg_hides_write_errors s args Hc Hs).
Defined.

End MessagesAnyTransportExample.

Section MessageCounter.

Context {LY : LibYang}.

Lemma nc_write_msg_ret (s : nc_session) (args : nc_msg_args) :
  fst (nc_write_msg s args) = 0 /\ usable s
  /\ usable (snd (nc_write_msg s args))
  \/ fst (nc_write_msg s args) = -1.
Proof.
  destruct (not_usable s) eqn:Hu.
  { right. unfold nc_write_msg. rewrite Hu. reflexivity. }
  assert (Hs : sendable s args
               \/ fst (nc_write_msg s args) = -1).
  { unfold nc_write_msg. rewrite Hu.
    destruct args as [content attrs|rpc_elem reply|notif|caps sid|type];
      cbn [sendable]; auto.
    - destruct reply; try (left; discriminate). right.
      destruct (nc_write_clb _ None 0 false). reflexivity.
    - destruct (version s); auto. }
  destruct Hs as [Hs|Hs]; [|now right].
  destruct (nc_write_msg_sendable s args Hu Hs) as [[H1 H2]|[H1 _]]; auto.
Qed.

(** X4.  The message counter.  On a session that can be written to, an rpc
    moves the counter on by one (modulo 2^64) whatever becomes of the rpc:
    also when its writes fail, and when the peer is gone and [nc_write_msg]
    returns -1.  No other message type touches the counter. *)
Theorem nc_write_msg_msgid (s : nc_session) (args : nc_msg_args) :
  usable s ->
  msgid (snd (nc_write_msg s args))
  = match args with
    | Args_RPC _ _ => uint64 (msgid s + 1)
    | _ => msgid s
    end.
Proof.
  intros Hu.
  destruct args as [content attrs|rpc_elem reply|notif|caps sid|type].
  - apply (nc_write_msg_rpc_writes s content attrs Hu).
  - now apply nc_write_msg_writes.
  - now apply nc_write_msg_writes.
  - now apply nc_write_msg_writes.
  - now apply nc_write_msg_writes.
Qed.

(** X5.  What [nc_write_msg] never does, on any session and any transport:
    it returns 0 or -1; it only adds to what is on the wire; it leaves the
    input to be read, the side, the version and the transport alone; and the
    only change of status it makes is to Invalid with the reason Dropped.
    When it returns 0 the session could be written to before and can be
    after. *)
Theorem nc_write_msg_appends (s : nc_session) (args : nc_msg_args) :
  (fst (nc_write_msg s args) = 0
   /\ usable s /\ usable (snd (nc_write_msg s args))
   \/ fst (nc_write_msg s args) = -1)
  /\ (exists out,
        wire (ti_fd_out (snd (nc_write_msg s args)))
        = wire (ti_fd_out s) ++ out)
  /\ rd_script (ti_fd_in (snd (nc_write_msg s args))) = rd_script (ti_fd_in s)
  /\ side (snd (nc_write_msg s args)) = side s
  /\ version (snd (nc_write_msg s args)) = version s
  /\ ti_type (snd (nc_write_msg s args)) = ti_type s
  /\ (status (snd (nc_write_msg s args)) = status s
      /\ term_reason (snd (nc_write_msg s args)) = term_reason s
      \/ status (snd (nc_write_msg s args)) = NC_STATUS_INVALID
         /\ term_reason (snd (nc_write_msg s args)) = NC_SESSION_TERM_DROPPED).
Proof.
  split; [apply nc_write_msg_ret|].
  assert (Hw : exists s0, wrote s0 (snd (nc_write_msg s args))
                 /\ wire (ti_fd_out s0) = wire (ti_fd_out s)
                 /\ rd_script (ti_fd_in s0) = rd_script (ti_fd_in s)
                 /\ side s0 = side s /\ version s0 = version s
                 /\ ti_type s0 = ti_type s /\ status s0 = status s
                 /\ term_reason s0 = term_reason s).
  { destruct (not_usable s) eqn:Hu.
    { exists s. unfold nc_write_msg. rewrite Hu.
      split; [apply wrote_refl|repeat split]. }
    destruct args as [content attrs|rpc_elem reply|notif|caps sid|type].
    - exists (set_msgid s (uint64 (msgid s + 1))).
      split; [apply nc_write_msg_rpc_writes, Hu|repeat split].
    - exists s. split; [now apply nc_write_msg_writes|repeat split].
    - exists s. split; [now apply nc_write_msg_writes|repeat split].
    - exists s. split; [now apply nc_write_msg_writes|repeat split].
    - exists s. split; [now apply nc_write_msg_writes|repeat split]. }
  destruct Hw as (s0 & (A1 & A2 & A3 & A4 & A5 & A6 & (out & A7) & A8)
                  & B1 & B2 & B3 & B4 & B5 & B6 & B7).
  split; [exists out; congruence|].
  repeat (split; [congruence|]).
  destruct A8 as [[H1 H2]|[H1 H2]]; [left|right]; split; congruence.
Qed.

End MessageCounter.

Section MessageCounterExample.

#[local] Existing Instance ExampleYang.

(** X4 at work: the peer has hung up and the counter is at its last value;
    the rpc is not sent, and the counter has gone round to 0. *)
Lemma nc_write_msg_msgid_witness :
  let s := set_msgid
             (set_poll_script (session_on NC_VERSION_11 NC_CLIENT []) [PollHup])
             (2 ^ 64 - 1) in
  let args := Args_RPC [bytes "<get/>"] None in
  (usable s /\ fst (nc_write_msg s args) = -1)
  /\ msgid (snd (nc_write_msg s args)) = 0.
Proof.
  intros s args. split; [split; [reflexivity|vm_compute; reflexivity]|].
  exact (nc_write_msg_msgid s args eq_refl).
Defined.

End MessageCounterExample.

(** ** The message ids of the rpcs of a session *)

Section RpcIds.

Context {LY : LibYang}.

(** One rpc on a session whose peer is there, whatever its writes do: it
    counts as sent, the peer is still there and the counter has gone up by
    one. *)
Lemma nc_write_msg_rpc_connected (s : nc_session) (content : lyd_node)
    (attrs : option (list byte)) :
  connected s ->
  fst (nc_write_msg s (Args_RPC content attrs)) = 0
  /\ connected (snd (nc_write_msg s (Args_RPC content attrs)))
  /\ msgid (snd (nc_write_msg s (Args_RPC content attrs)))
     = uint64 (msgid s + 1).
Proof.
  intros Hc. pose proof Hc as (Hu & _).
  destruct (nc_write_msg_rpc_writes s content attrs Hu) as [Hw Hret].
  pose proof (proj2 Hw (connected_set_msgid s _ Hc)) as Hc'.
  split; [|split; [exact Hc'|]].
  - destruct Hret as [[H _]|[_ H]]; [exact H|].
    destruct Hc' as (Hu' & _). unfold usable in Hu'. congruence.
  - destruct Hw as [(_ & _ & _ & _ & Hm & _) _]. exact Hm.
Qed.

(** C8 (amended).  The counter: on every session whose peer is there, the
    rpcs sent one after the other by nc_write_msg all return 0, whatever the
    writes do, and each moves the msgid counter on by exactly one (short of
    the wrap of the 64-bit counter).  The wire: when moreover no write
    fails, every rpc is written, and the rpcs carry on the wire, in the
    order in which they were sent, the message-id attributes that follow
    the counter one by one - the first rpc the counter plus one, each next
    rpc the id of the one before plus one - so that no id is skipped and
    none comes twice. *)
Theorem nc_write_msg_rpc_ids (rpcs : list (lyd_node * option (list byte))) :
  forall s,
    connected s -> 0 <= msgid s ->
    msgid s + Z.of_nat (length rpcs) < 2 ^ 64 ->
    (Forall (fun ret => ret = 0) (fst (nc_send_rpcs s rpcs))
     /\ length (fst (nc_send_rpcs s rpcs)) = length rpcs
     /\ msgid (snd (nc_send_rpcs s rpcs)) = msgid s + Z.of_nat (length rpcs))
    /\ (Forall accepts (wr_script (ti_fd_out s)) ->
        exists frames,
          wire (ti_fd_out (snd (nc_send_rpcs s rpcs)))
          = wire (ti_fd_out s) ++ concat frames
          /\ rpc_frames (version s) (msgid s + 1) rpcs frames).
Proof.
  induction rpcs as [|[content attrs] rpcs IH]; intros s Hc Hm0 Hm.
  - cbn [nc_send_rpcs fst snd length Z.of_nat]. rewrite Z.add_0_r.
    split; [split; [constructor|split; reflexivity]|].
    intros _. exists []. cbn [concat rpc_frames]. rewrite app_nil_r.
    split; [reflexivity|exact I].
  - cbn [nc_send_rpcs length] in *.
    assert (Hu64 : uint64 (msgid s + 1) = msgid s + 1)
      by (unfold uint64; apply Z.mod_small; lia).
    (* the rpc at the head: it returns 0 and takes the next id *)
    destruct (nc_write_msg_rpc_connected s content attrs Hc)
      as (Hret & Hc1 & Hid).
    rewrite Hu64 in Hid.
    (* on the wire, when no write fails *)
    assert (Hwire : Forall accepts (wr_script (ti_fd_out s)) ->
              let s1 := snd (nc_write_msg s (Args_RPC content attrs)) in
              exists frame,
                wire (ti_fd_out s1) = wire (ti_fd_out s) ++ frame
                /\ framed (version s) (rpc_body (msgid s + 1) content attrs)
                          frame
                /\ Forall accepts (wr_script (ti_fd_out s1))).
    { intros Hw. destruct Hc as (Hu & Hfd & Hp).
      assert (Hs : healthy s) by (constructor; assumption).
      destruct (nc_write_msg_rpc_healthy s content attrs Hs)
        as (s1 & frame & E & _ & Hsent & Hframed).
      rewrite Hu64 in Hsent, Hframed. rewrite E. cbn [snd].
      exists frame. split; [|split; [exact Hframed|]].
      - apply sent_fields in Hsent. cbn in Hsent. tauto.
      - exact (healthy_write _
                 (sent_healthy _ _ _
                    (healthy_set_msgid _ (msgid s + 1) Hs) Hsent)). }
    assert (Hv : version (snd (nc_write_msg s (Args_RPC content attrs)))
                 = version s).
    { destruct Hc as (Hu & _).
      destruct (nc_write_msg_rpc_writes s content attrs Hu)
        as [[(_ & _ & H & _) _] _].
      exact H. }
    destruct (nc_write_msg s (Args_RPC content attrs)) as [ret s1].
    cbn [fst snd] in *.
    destruct (IH s1 Hc1) as ((Hrets & Hlen & Hmsgid) & Hrest); [lia|lia|].
    destruct (nc_send_rpcs s1 rpcs) as [rets s2]. cbn [fst snd] in *.
    split.
    + split; [now constructor|].
      split; [cbn [length]; now f_equal|lia].
    + intros Hw. destruct (Hwire Hw) as (frame & Hw1 & Hframed & Hw').
      destruct (Hrest Hw') as (frames & Hw2 & Hframes).
      rewrite Hv, Hid in Hframes.
      exists (frame :: frames). split.
      * rewrite Hw2, Hw1. cbn [concat]. now rewrite app_assoc.
      * split; assumption.
Qed.

End RpcIds.

Section RpcIdsExample.

#[local] Existing Instance ExampleYang.

(** C8 at work: two rpcs on a fresh NETCONF 1.1 session. *)
Lemma nc_write_msg_rpc_ids_witness :
  let s := session_on NC_VERSION_11 NC_CLIENT [] in
  let rpcs := [([bytes "<get/>"], None);
               ([bytes "<get-config/>"], Some (bytes " xmlns:x=''"))] in
  (connected s /\ 0 <= msgid s
   /\ msgid s + Z.of_nat (length rpcs) < 2 ^ 64
   /\ Forall accepts (wr_script (ti_fd_out s)))
  /\ (Forall (fun ret => ret = 0) (fst (nc_send_rpcs s rpcs))
      /\ length (fst (nc_send_rpcs s rpcs)) = length rpcs
      /\ msgid (snd (nc_send_rpcs s rpcs)) = msgid s + Z.of_nat (length rpcs))
  /\ exists frames,
       wire (ti_fd_out (snd (nc_send_rpcs s rpcs)))
       = wire (ti_fd_out s) ++ concat frames
       /\ rpc_frames (version s) (msgid s + 1) rpcs frames.
Proof.
  intros s rpcs.
  assert (H1 : connected s).
  { split; [reflexivity|]. split; [reflexivity|constructor]. }
  assert (H2 : 0 <= msgid s) by (vm_compute; discriminate).
  assert (H3 : msgid s + Z.of_nat (length rpcs) < 2 ^ 64)
    by (vm_compute; reflexivity).
  assert (H4 : Forall accepts (wr_script (ti_fd_out s))) by constructor.
  destruct (nc_write_msg_rpc_ids (LY := ExampleYang) rpcs s H1 H2 H3)
    as [Hcount Hwire].
  split; [tauto|]. split; [exact Hcount|]. exact (Hwire H4).
Defined.

(** C8, as the spec states it, fails when a write fails: of three rpcs
    sent on a session whose third write(2) fails, each returns 0 and each
    moves the counter on, but the second never reaches the wire, which
    carries the message ids 1 and 3 and skips 2. *)
Lemma nc_write_msg_rpc_ids_counterexample :
  let s := set_fd_out (session_on NC_VERSION_10 NC_CLIENT [])
             {| wr_script := [WrAccept 4096; WrAccept 4096; WrError];
                wire := [] |} in
  let get := ([bytes "<get/>"], None) in
  let res := nc_send_rpcs s [get; get; get] in
  connected s
  /\ fst res = [0; 0; 0]
  /\ msgid (snd res) = 3
  /\ wire (ti_fd_out (snd res))
     = (rpc_body 1 (fst get) (snd get) ++ NC_VERSION_10_ENDTAG)
       ++ (rpc_body 3 (fst get) (snd get) ++ NC_VERSION_10_ENDTAG).
Proof.
  cbv zeta. split; [|split; [|split]].
  - split; [reflexivity|]. split; [reflexivity|constructor].
  - vm_compute. reflexivity.
  - vm_compute. reflexivity.
  - vm_compute. reflexivity.
Qed.

End RpcIdsExample.

(** ** The staging buffer *)

Lemma nc_write_clb_flush_len (w : wclb_arg) :
  warg_len (snd (nc_write_clb_flush w)) = 0.
Proof.
  unfold nc_write_clb_flush. destruct (warg_len w =? 0) eqn:E; cbn [negb].
  - cbn [snd]. now apply Z.eqb_eq.
  - destruct (nc_write_starttag_and_msg _ _ _). reflexivity.
Qed.

Lemma nc_write_clb_content_len (text : list byte) :
  forall w ret,
    warg_len w <= WRITE_BUFSIZE ->
    warg_len (snd (nc_write_clb_content w ret text)) <= WRITE_BUFSIZE.
Proof.
  induction text as [|ch text IH]; intros w ret Hw; [exact Hw|].
  rewrite nc_write_clb_content_step.
  assert (H : warg_len (snd (if WRITE_BUFSIZE <=? warg_len w + 5
                             then nc_write_clb_flush w else (0, w))) + 5
              < WRITE_BUFSIZE).
  { destruct (WRITE_BUFSIZE <=? warg_len w + 5) eqn:E.
    - rewrite nc_write_clb_flush_len. reflexivity.
    - apply Z.leb_gt in E. exact E. }
  destruct (if WRITE_BUFSIZE <=? warg_len w + 5
            then nc_write_clb_flush w else (0, w)) as [c w1].
  cbn [snd] in H. destruct (c =? -1); [cbn [snd]; lia|].
  apply IH. unfold warg_len in *. cbn [warg_buf]. rewrite len_app.
  pose proof (xml_escape_char_len ch). lia.
Qed.

(** X6.  The staging buffer is never overrun.  Whatever the transport does
    and whatever is handed to the write callback (a buffer of any size in raw
    or in content mode, or the call that ends the message), a staging buffer
    that holds at most WRITE_BUFSIZE = 1024 bytes before the call holds at
    most that many after it; so it does after any sequence of calls. *)
Theorem nc_write_clb_staging_bound (w : wclb_arg) (buf : option (list byte))
    (count : Z) (xmlcontent : bool) (calls : list clb_call) :
  warg_len w <= WRITE_BUFSIZE ->
  warg_len (snd (nc_write_clb w buf count xmlcontent)) <= WRITE_BUFSIZE
  /\ warg_len (nc_write_calls w calls) <= WRITE_BUFSIZE.
Proof.
  assert (Hone : forall w buf count xmlcontent,
            warg_len w <= WRITE_BUFSIZE ->
            warg_len (snd (nc_write_clb w buf count xmlcontent))
            <= WRITE_BUFSIZE).
  { clear. intros w buf count xmlcontent Hw. unfold nc_write_clb.
    destruct buf as [buf|].
    - assert (H : warg_len (snd (if negb (warg_len w =? 0)
                                    && (WRITE_BUFSIZE <? warg_len w + count)
                                 then nc_write_clb_flush w else (0, w)))
                  <= WRITE_BUFSIZE
                  /\ (warg_len
                        (snd (if negb (warg_len w =? 0)
                                 && (WRITE_BUFSIZE <? warg_len w + count)
                              then nc_write_clb_flush w else (0, w))) = 0
                      \/ warg_len
                           (snd (if negb (warg_len w =? 0)
                                    && (WRITE_BUFSIZE <? warg_len w + count)
                                 then nc_write_clb_flush w else (0, w)))
                         + count <= WRITE_BUFSIZE)).
      { destruct (warg_len w =? 0) eqn:E0; cbn [negb andb snd].
        - apply Z.eqb_eq in E0. split; [lia|now left].
        - destruct (WRITE_BUFSIZE <? warg_len w + count) eqn:E1.
          + rewrite nc_write_clb_flush_len. split; [discriminate|now left].
          + apply Z.ltb_ge in E1. cbn [snd]. split; [lia|now right]. }
      destruct (if negb (warg_len w =? 0) && (WRITE_BUFSIZE <? warg_len w + count)
                then nc_write_clb_flush w else (0, w)) as [c w1].
      cbn [snd] in H. destruct H as [H1 H2].
      destruct (c =? -1); [exact H1|].
      destruct xmlcontent; cbn [negb andb].
      + now apply nc_write_clb_content_len.
      + destruct (WRITE_BUFSIZE <? count) eqn:E.
        * destruct (nc_write_starttag_and_msg _ _ _) as [c2 s2].
          destruct (c2 =? -1); exact H1.
        * apply Z.ltb_ge in E. cbn [snd]. unfold stage, warg_len in *.
          cbn [warg_buf]. rewrite len_app.
          pose proof (len_nonneg (warg_buf w1)).
          assert (Hf : len (firstn (Z.to_nat count) buf) <= Z.max 0 count).
          { unfold len. rewrite length_firstn. lia. }
          lia.
    - pose proof (nc_write_clb_flush_len w) as H.
      destruct (nc_write_clb_flush w) as [c w1]. cbn [snd] in H.
      destruct (c =? -1); [cbn [snd]; rewrite H; discriminate|].
      destruct (nc_write_endtag _) as [c2 s2].
      destruct (c2 =? -1); cbn [snd]; unfold warg_len in *; cbn [warg_buf];
        rewrite H; discriminate. }
  intros Hw. split; [now apply Hone|].
  revert w Hw. induction calls as [|c calls IH]; intros w Hw; [exact Hw|].
  rewrite nc_write_calls_cons. apply IH, Hone, Hw.
Qed.

(** X6 at work: 1020 bytes staged, then four ampersands in content mode. *)
Lemma nc_write_clb_staging_bound_witness :
  let w := {| warg_session := session_on NC_VERSION_11 NC_SERVER [];
              warg_buf := repeat "a"%byte 1020 |} in
  warg_len w <= WRITE_BUFSIZE
  /\ warg_len (snd (nc_write_clb w (Some (bytes "&&&&")) 4 true))
     <= WRITE_BUFSIZE
  /\ warg_len (nc_write_calls w [str (bytes "&&&&") true; lit "<ok/>" 5])
     <= WRITE_BUFSIZE.
Proof.
  intros w.
  assert (Hw : warg_len w <= WRITE_BUFSIZE) by (vm_compute; discriminate).
  split; [exact Hw|].
  exact (nc_write_clb_staging_bound w (Some (bytes "&&&&")) 4 true
           [str (bytes "&&&&") true; lit "<ok/>" 5] Hw).
Defined.

(** * The reader on any input *)

Lemma nc_read_loop_any (evs : list rd_event) :
  forall s count readd buf sc t,
    ti_type s = NC_TI_FD -> 0 <= readd < count ->
    (rr_ret (nc_read_loop s evs count readd buf sc t) = count
     /\ reads s (rr_session (nc_read_loop s evs count readd buf sc t))
     /\ exists bs,
          rr_buf (nc_read_loop s evs count readd buf sc t) = buf ++ bs
          /\ len bs = count - readd
          /\ stream_bytes evs
             = bs ++ stream_bytes
                       (rd_script
                          (ti_fd_in
                             (rr_session
                                (nc_read_loop s evs count readd buf sc t)))))
    \/ (rr_ret (nc_read_loop s evs count readd buf sc t) = -1
        /\ status (rr_session (nc_read_loop s evs count readd buf sc t))
           = NC_STATUS_INVALID
        /\ (term_reason (rr_session (nc_read_loop s evs count readd buf sc t))
            = NC_SESSION_TERM_DROPPED
            \/ term_reason
                 (rr_session (nc_read_loop s evs count readd buf sc t))
               = NC_SESSION_TERM_OTHER)).
Proof.
  induction evs as [|ev evs IH]; intros s count readd buf sc t Hti Hrd;
    cbn [nc_read_loop]; rewrite Hti.
  { right. cbn. auto. }
  destruct ev as [bs| | |].
  - destruct (Z.min (len bs) (count - readd) =? 0) eqn:E0;
      [right; cbn; auto|].
    apply Z.eqb_neq in E0. pose proof (len_nonneg bs) as Hbs.
    assert (Hne : bs <> []) by (intros ->; cbn in E0; lia).
    assert (Hsb : stream_bytes (RdData bs :: evs) = bs ++ stream_bytes evs)
      by (destruct bs; [congruence|reflexivity]).
    rewrite Hsb.
    destruct (readd + Z.min (len bs) (count - readd) <? count) eqn:E1.
    + apply Z.ltb_lt in E1.
      assert (Hm : Z.min (len bs) (count - readd) = len bs) by lia.
      rewrite Hm in *. rewrite len_to_nat, firstn_all.
      destruct (IH s count (readd + len bs) (buf ++ bs) sc t Hti ltac:(lia))
        as [(H1 & H2 & more & H3 & H4 & H5)|H]; [left|now right].
      split; [exact H1|]. split; [exact H2|].
      exists (bs ++ more). rewrite H3, H5, len_app, <- !app_assoc.
      split; [reflexivity|]. split; [lia|reflexivity].
    + apply Z.ltb_ge in E1. left. cbn [rr_ret rr_buf rr_session].
      assert (Hm : Z.min (len bs) (count - readd) = count - readd) by lia.
      rewrite Hm in *. split; [lia|]. split; [eexists; reflexivity|].
      exists (firstn (Z.to_nat (count - readd)) bs).
      split; [reflexivity|]. split.
      * unfold len in *. rewrite length_firstn. lia.
      * destruct (count - readd <? len bs) eqn:E2; cbn.
        -- apply Z.ltb_lt in E2.
           assert (Hsk : skipn (Z.to_nat (count - readd)) bs <> []).
           { intros Hnil. apply (f_equal (@length byte)) in Hnil.
             rewrite length_skipn in Hnil. unfold len in *. cbn in Hnil. lia. }
           destruct (skipn (Z.to_nat (count - readd)) bs) as [|b sk] eqn:Esk;
             [congruence|].
           rewrite <- Esk, app_assoc, firstn_skipn. reflexivity.
        -- apply Z.ltb_ge in E2.
           assert (El : count - readd = len bs) by lia.
           rewrite El, len_to_nat, firstn_all. reflexivity.
  - destruct (1000000 / NC_TIMEOUT_STEP =? uint16 (sc + 1)).
    + destruct (uint16 (t - 1) =? 0); [right; cbn; auto|].
      replace (readd <? count) with true by (symmetry; apply Z.ltb_lt; lia).
      now apply IH.
    + destruct (t =? 0); [right; cbn; auto|].
      replace (readd <? count) with true by (symmetry; apply Z.ltb_lt; lia).
      now apply IH.
  - replace (readd <? count) with true by (symmetry; apply Z.ltb_lt; lia).
    now apply IH.
  - right. cbn. auto.
Qed.

Lemma nc_read_took (s : nc_session) (count t : Z) :
  0 < count -> rr_ret (nc_read s count t) = count ->
  usable s /\ ti_type s = NC_TI_FD
  /\ reads s (rr_session (nc_read s count t))
  /\ len (rr_buf (nc_read s count t)) = count
  /\ stream_bytes (rd_script (ti_fd_in s))
     = rr_buf (nc_read s count t)
       ++ stream_bytes (rd_script (ti_fd_in (rr_session (nc_read s count t)))).
Proof.
  intros Hc. unfold nc_read, usable.
  destruct (not_usable s); [cbn; lia|].
  replace (count =? 0) with false by (symmetry; apply Z.eqb_neq; lia).
  destruct (ti_type s) eqn:Hti.
  { destruct (rd_script (ti_fd_in s)); cbn [nc_read_loop]; rewrite Hti;
      cbn; lia. }
  destruct (nc_read_loop_any (rd_script (ti_fd_in s)) s count 0 [] 0 t Hti
              ltac:(lia)) as [(H1 & H2 & bs & H3 & H4 & H5)|(H1 & _)];
    [|lia].
  intros _. cbn [app] in H3. rewrite H3. repeat split; auto. lia.
Qed.

(** X7.  [nc_read] is all or nothing.  On a session on file descriptors
    that can be read from, a call for count > 0 bytes either returns count,
    with exactly the next count bytes of the input in the buffer, the rest of
    the input left for the next call and the session otherwise as it was; or
    it returns -1 and the session is Invalid, with the reason Dropped or
    Other.  It never returns a short count, however the input is cut into
    reads and whatever blocks or is interrupted between them. *)
Theorem nc_read_all_or_nothing (s : nc_session) (count t : Z) :
  usable s -> ti_type s = NC_TI_FD -> 0 < count ->
  (rr_ret (nc_read s count t) = count
   /\ len (rr_buf (nc_read s count t)) = count
   /\ stream_bytes (rd_script (ti_fd_in s))
      = rr_buf (nc_read s count t)
        ++ stream_bytes (rd_script (ti_fd_in (rr_session (nc_read s count t))))
   /\ exists e, rr_session (nc_read s count t) = set_rd_script s e)
  \/ (rr_ret (nc_read s count t) = -1
      /\ status (rr_session (nc_read s count t)) = NC_STATUS_INVALID
      /\ (term_reason (rr_session (nc_read s count t))
          = NC_SESSION_TERM_DROPPED
          \/ term_reason (rr_session (nc_read s count t))
             = NC_SESSION_TERM_OTHER)).
Proof.
  intros Hu Hti Hc.
  assert (H : rr_ret (nc_read s count t) = count
              \/ rr_ret (nc_read s count t) = -1
                 /\ status (rr_session (nc_read s count t)) = NC_STATUS_INVALID
                 /\ (term_reason (rr_session (nc_read s count t))
                     = NC_SESSION_TERM_DROPPED
                     \/ term_reason (rr_session (nc_read s count t))
                        = NC_SESSION_TERM_OTHER)).
  { unfold nc_read. rewrite Hu.
    replace (count =? 0) with false by (symmetry; apply Z.eqb_neq; lia).
    destruct (nc_read_loop_any (rd_script (ti_fd_in s)) s count 0 [] 0 t Hti
                ltac:(lia)) as [(H1 & _)|H]; [now left|now right]. }
  destruct H as [H|H]; [left|now right].
  destruct (nc_read_took s count t Hc H) as (_ & _ & H2 & H3 & H4).
  repeat split; assumption.
Qed.

Lemma nc_read_all_or_nothing_witness :
  let s := session_on NC_VERSION_10 NC_SERVER
             [RdAgain; RdData (bytes "ab"); RdIntr; RdData (bytes "cde")] in
  (rr_ret (nc_read s 4 30) = 4 /\ rr_buf (nc_read s 4 30) = bytes "abcd")
  /\ ((rr_ret (nc_read s 4 30) = 4
       /\ len (rr_buf (nc_read s 4 30)) = 4
       /\ stream_bytes (rd_script (ti_fd_in s))
          = rr_buf (nc_read s 4 30)
            ++ stream_bytes (rd_script (ti_fd_in (rr_session (nc_read s 4 30))))
       /\ exists e, rr_session (nc_read s 4 30) = set_rd_script s e)
      \/ (rr_ret (nc_read s 4 30) = -1
          /\ status (rr_session (nc_read s 4 30)) = NC_STATUS_INVALID
          /\ (term_reason (rr_session (nc_read s 4 30))
              = NC_SESSION_TERM_DROPPED
              \/ term_reason (rr_session (nc_read s 4 30))
                 = NC_SESSION_TERM_OTHER))).
Proof.
  intros s. split; [split; reflexivity|].
  exact (nc_read_all_or_nothing s 4 30 eq_refl eq_refl ltac:(lia)).
Defined.

Lemma nc_read_loop_short (evs rest : list rd_event) (bs : list byte) :
  delivers evs bs rest ->
  rest = [] \/ (exists r', rest = RdData [] :: r')
  \/ (exists r', rest = RdError :: r') ->
  forall s count readd buf sc t,
    ti_type s = NC_TI_FD -> 0 <= readd -> readd + len bs < count ->
    rr_ret (nc_read_loop s evs count readd buf sc t) = -1
    /\ status (rr_session (nc_read_loop s evs count readd buf sc t))
       = NC_STATUS_INVALID
    /\ term_reason (rr_session (nc_read_loop s evs count readd buf sc t))
       = match rest with
         | RdError :: _ => NC_SESSION_TERM_OTHER
         | _ => NC_SESSION_TERM_DROPPED
         end.
Proof.
  induction 1 as [evs|b seg evs bs rest Hd IH|b seg b' seg' evs];
    intros Hend s count readd buf sc t Hti Hrd Hlt.
  - cbn [len length Z.of_nat Z.add] in Hlt. rewrite Z.add_0_r in Hlt.
    destruct Hend as [->|[(r' & ->)|(r' & ->)]]; cbn [nc_read_loop];
      rewrite Hti; [repeat split| |repeat split].
    replace (Z.min (len []) (count - readd)) with 0
      by (unfold len; cbn [length Z.of_nat]; lia).
    repeat split.
  - cbn [nc_read_loop]. rewrite Hti. rewrite len_app in Hlt.
    pose proof (len_nonneg bs) as Hbs.
    assert (Hpos : 0 < len (b :: seg)) by (rewrite len_cons; pose proof (len_nonneg seg); lia).
    replace (Z.min (len (b :: seg)) (count - readd)) with (len (b :: seg))
      by lia.
    replace (len (b :: seg) =? 0) with false
      by (symmetry; apply Z.eqb_neq; lia).
    replace (readd + len (b :: seg) <? count) with true
      by (symmetry; apply Z.ltb_lt; lia).
    apply IH; try assumption; lia.
  - destruct Hend as [H|[(r' & H)|(r' & H)]]; discriminate H.
Qed.

(** X8.  A peer that closes, or a descriptor that fails, in the middle of
    what [nc_read] was asked for: when the input gives fewer than count bytes
    and then ends (read returns 0), [nc_read] returns -1 and the session is
    Invalid with the reason Dropped; when it then fails with an error other
    than EAGAIN and EINTR, the reason is Other.  The bytes read so far are
    not returned. *)
Theorem nc_read_peer_closes (s : nc_session) (count t : Z) (bs : list byte)
    (rest : list rd_event) :
  usable s -> ti_type s = NC_TI_FD ->
  delivers (rd_script (ti_fd_in s)) bs rest -> len bs < count ->
  rest = [] \/ (exists r', rest = RdData [] :: r')
  \/ (exists r', rest = RdError :: r') ->
  rr_ret (nc_read s count t) = -1
  /\ status (rr_session (nc_read s count t)) = NC_STATUS_INVALID
  /\ term_reason (rr_session (nc_read s count t))
     = match rest with
       | RdError :: _ => NC_SESSION_TERM_OTHER
       | _ => NC_SESSION_TERM_DROPPED
       end.
Proof.
  intros Hu Hti Hd Hlt Hend. unfold nc_read. rewrite Hu.
  pose proof (len_nonneg bs).
  replace (count =? 0) with false by (symmetry; apply Z.eqb_neq; lia).
  apply (nc_read_loop_short _ _ _ Hd Hend); [assumption|lia|lia].
Qed.

Lemma nc_read_peer_closes_witness :
  let s := session_on NC_VERSION_11 NC_CLIENT
             [RdData (bytes "ab"); RdData (bytes "c"); RdError;
              RdData (bytes "d")] in
  rr_ret (nc_read s 4 30) = -1
  /\ status (rr_session (nc_read s 4 30)) = NC_STATUS_INVALID
  /\ term_reason (rr_session (nc_read s 4 30)) = NC_SESSION_TERM_OTHER.
Proof.
  intros s.
  refine (nc_read_peer_closes s 4 30 (bytes "abc")
            [RdError; RdData (bytes "d")] eq_refl eq_refl _ _ _).
  - apply (delivers_seg "a"%byte [("b"%byte)] _ (bytes "c")).
    apply (delivers_seg "c"%byte [] _ []). constructor.
  - vm_compute. reflexivity.
  - right. right. eexists. reflexivity.
Defined.

Lemma nc_read_loop_intr (k : nat) :
  forall s evs count readd buf sc t,
    ti_type s = NC_TI_FD -> readd < count ->
    nc_read_loop s (repeat RdIntr k ++ evs) count readd buf sc t
    = nc_read_loop s evs count readd buf sc t.
Proof.
  induction k as [|k IH]; intros s evs count readd buf sc t Hti Hrd;
    [reflexivity|].
  cbn [repeat app nc_read_loop]. rewrite Hti.
  replace (readd <? count) with true by (symmetry; apply Z.ltb_lt; lia).
  rewrite (IH s evs count readd buf sc t Hti Hrd).
  destruct evs; cbn [nc_read_loop]; rewrite Hti; reflexivity.
Qed.

Lemma nc_read_loop_from (evs : list rd_event) :
  forall s e0 count readd buf sc t,
    nc_read_loop (set_rd_script s e0) evs count readd buf sc t
    = nc_read_loop s evs count readd buf sc t.
Proof.
  induction evs as [|ev evs IH]; intros s e0 count readd buf sc t;
    cbn [nc_read_loop];
    change (ti_type (set_rd_script s e0)) with (ti_type s);
    destruct (ti_type s); rewrite ?set_rd_script_twice; try reflexivity.
  destruct ev as [bs| | |];
    try destruct (1000000 / NC_TIMEOUT_STEP =? uint16 (sc + 1));
    rewrite ?set_rd_script_twice, ?IH; reflexivity.
Qed.

(** X9.  A read that a signal interrupts (EINTR) is taken again and costs
    nothing: with any number of interrupted reads before it, the input gives
    [nc_read] the same return value, buffer, budget and session as without
    them. *)
Theorem nc_read_retries_interrupts (s : nc_session) (count t : Z) (k : nat)
    (evs : list rd_event) :
  usable s -> ti_type s = NC_TI_FD -> 0 < count ->
  rd_script (ti_fd_in s) = repeat RdIntr k ++ evs ->
  nc_read s count t = nc_read (set_rd_script s evs) count t.
Proof.
  intros Hu Hti Hc Hs. unfold nc_read.
  change (not_usable (set_rd_script s evs)) with (not_usable s).
  rewrite Hu.
  replace (count =? 0) with false by (symmetry; apply Z.eqb_neq; lia).
  rewrite Hs. cbn [set_rd_script set_fd_in ti_fd_in rd_script].
  rewrite nc_read_loop_intr by (assumption || lia).
  symmetry. apply (nc_read_loop_from evs s evs).
Qed.

Lemma nc_read_retries_interrupts_witness :
  let s := session_on NC_VERSION_10 NC_SERVER
             [RdIntr; RdIntr; RdIntr; RdData (bytes "abc")] in
  nc_read s 2 30 = nc_read (set_rd_script s [RdData (bytes "abc")]) 2 30
  /\ rr_timeout (nc_read s 2 30) = 30.
Proof.
  intros s. split; [|reflexivity].
  exact (nc_read_retries_interrupts s 2 30 3 [RdData (bytes "abc")]
           eq_refl eq_refl ltac:(lia) eq_refl).
Defined.

Lemma reads_refl (s : nc_session) : reads s s.
Proof. exists (rd_script (ti_fd_in s)). symmetry. apply set_rd_script_same. Qed.

Lemma reads_trans (s1 s2 s3 : nc_session) :
  reads s1 s2 -> reads s2 s3 -> reads s1 s3.
Proof.
  intros (e1 & ->) (e2 & ->). exists e2. apply set_rd_script_twice.
Qed.

Lemma firstn_skipn_app_within (n k : nat) (a b : list byte) :
  (k + n <= length a)%nat ->
  firstn n (skipn k (a ++ b)) = firstn n (skipn k a).
Proof.
  intros H. rewrite skipn_app, firstn_app.
  replace (n - length (skipn k a))%nat with 0%nat
    by (rewrite length_skipn; lia).
  cbn [firstn]. now rewrite app_nil_r.
Qed.

(** The loop of [nc_read_until], on any input: when it returns a count, the
    buffer is what it had with the bytes read added, it ends with the end
    tag, and the end tag occurs nowhere before. *)
Lemma nc_read_until_loop_sound (endtag : list byte) (limit : Z) :
  nul_free endtag = true -> endtag <> [] ->
  forall fuel s t chunk r,
    (forall k, (k + length endtag <= length chunk)%nat ->
               firstn (length endtag) (skipn k chunk) <> endtag) ->
    limit = 0 \/ len chunk <= limit ->
    nc_read_until_loop fuel s endtag limit t chunk (len chunk) = Some r ->
    rr_ret r <> -1 ->
    exists more,
      rr_buf r = chunk ++ more
      /\ rr_ret r = len (rr_buf r)
      /\ (limit = 0 \/ rr_ret r <= limit)
      /\ reads s (rr_session r)
      /\ stream_bytes (rd_script (ti_fd_in s))
         = more ++ stream_bytes (rd_script (ti_fd_in (rr_session r)))
      /\ (length endtag <= length (rr_buf r))%nat
      /\ skipn (length (rr_buf r) - length endtag) (rr_buf r) = endtag
      /\ (forall k, (k + length endtag < length (rr_buf r))%nat ->
                    firstn (length endtag) (skipn k (rr_buf r)) <> endtag).
Proof.
  intros Hnf Hne.
  induction fuel as [|fuel IH]; intros s t chunk r Hinv Hlim Hrun Hret;
    [discriminate|].
  cbn [nc_read_until_loop] in Hrun.
  destruct (negb (limit =? 0) && (len chunk =? limit)) eqn:El.
  { injection Hrun as <-. now destruct Hret. }
  assert (Hlim' : limit = 0 \/ len chunk + 1 <= limit).
  { destruct Hlim as [->|Hl]; [now left|].
    destruct (limit =? 0) eqn:E0; [apply Z.eqb_eq in E0; now left|].
    cbn [negb andb] in El. apply Z.eqb_neq in El. right. lia. }
  destruct (negb (rr_ret (nc_read s 1 t) =? 1)) eqn:Er.
  { injection Hrun as <-. now destruct Hret. }
  apply negb_false_iff, Z.eqb_eq in Er.
  destruct (nc_read_took s 1 t ltac:(lia) Er) as (_ & _ & Hrd & Hlen & Hst).
  destruct (rr_buf (nc_read s 1 t)) as [|b [|b' tl]] eqn:Eb.
  1: { unfold len in Hlen. cbn [length] in Hlen. lia. }
  2: { unfold len in Hlen. cbn [length] in Hlen. lia. }
  rewrite strlen_nul_free in Hrun by exact Hnf.
  assert (Hcount : len chunk + 1 = len (chunk ++ [b]))
    by (rewrite len_app; reflexivity).
  rewrite Hcount in Hrun.
  assert (Hidx : Z.to_nat (len (chunk ++ [b]) - Z.of_nat (length endtag))
                 = (length (chunk ++ [b]) - length endtag)%nat)
    by (unfold len; lia).
  rewrite Hidx in Hrun.
  destruct ((Z.of_nat (length endtag) <=? len (chunk ++ [b]))
            && (strncmp endtag
                  (skipn (length (chunk ++ [b]) - length endtag) (chunk ++ [b]))
                  (length endtag) =? 0)) eqn:Etag.
  - injection Hrun as <-. cbn [rr_ret rr_buf rr_session].
    apply andb_prop in Etag. destruct Etag as [E1 E2].
    apply Z.leb_le in E1. apply Z.eqb_eq in E2.
    apply (strncmp_0_iff _ _ Hnf) in E2.
    exists [b]. split; [reflexivity|]. split; [reflexivity|].
    split; [rewrite <- Hcount; exact Hlim'|].
    split; [exact Hrd|]. split; [exact Hst|].
    assert (Hle : (length endtag <= length (chunk ++ [b]))%nat)
      by (unfold len in E1; lia).
    split; [exact Hle|]. split.
    + rewrite <- E2 at 2. symmetry. apply firstn_all2.
      rewrite length_skipn. lia.
    + intros k Hk. rewrite firstn_skipn_app_within.
      * apply Hinv. rewrite length_app in Hk. cbn in Hk. lia.
      * rewrite length_app in Hk. cbn in Hk. lia.
  - assert (Hinv' : forall k,
              (k + length endtag <= length (chunk ++ [b]))%nat ->
              firstn (length endtag) (skipn k (chunk ++ [b])) <> endtag).
    { intros k Hk.
      destruct (Nat.eq_dec (k + length endtag) (length (chunk ++ [b])))
        as [Heq|Hneq].
      - apply andb_false_iff in Etag. destruct Etag as [E1|E2].
        + apply Z.leb_gt in E1. unfold len in E1. lia.
        + apply Z.eqb_neq in E2. intros Hc. apply E2.
          apply (strncmp_0_iff _ _ Hnf).
          replace (length (chunk ++ [b]) - length endtag)%nat with k by lia.
          exact Hc.
      - rewrite length_app in Hk, Hneq. cbn in Hk, Hneq.
        rewrite firstn_skipn_app_within by lia. apply Hinv. lia. }
    destruct (IH (rr_session (nc_read s 1 t)) (rr_timeout (nc_read s 1 t))
                 (chunk ++ [b]) r Hinv'
                 ltac:(rewrite <- Hcount; exact Hlim') Hrun Hret)
      as (more & H1 & H2 & H3 & H4 & H5 & H6 & H7 & H8).
    exists (b :: more). rewrite H1, <- app_assoc in *. cbn [app] in *.
    split; [reflexivity|]. split; [exact H2|]. split; [exact H3|].
    split; [exact (reads_trans _ _ _ Hrd H4)|].
    split; [rewrite Hst, H5; reflexivity|].
    split; [exact H6|]. split; [exact H7|exact H8].
Qed.

Lemma nc_read_until_sound_pre (s : nc_session) (endtag : list byte)
    (limit t : Z) (r : read_res) :
  nul_free endtag = true -> endtag <> [] -> 0 <= limit ->
  nc_read_until s endtag limit t = Some r -> rr_ret r <> -1 ->
  exists pre,
    rr_buf r = pre ++ endtag
    /\ first_at_end endtag pre
    /\ rr_ret r = len (rr_buf r)
    /\ (limit = 0 \/ rr_ret r <= limit)
    /\ stream_bytes (rd_script (ti_fd_in s))
       = rr_buf r ++ stream_bytes (rd_script (ti_fd_in (rr_session r)))
    /\ reads s (rr_session r).
Proof.
  intros Hnf Hne Hlim Hrun Hret. unfold nc_read_until in Hrun.
  destruct (nc_read_until_loop_sound endtag limit Hnf Hne
              (S (stream_size (rd_script (ti_fd_in s)))) s t [] r)
    as (more & H1 & H2 & H3 & H4 & H5 & H6 & H7 & H8); try assumption.
  { intros k Hk. destruct endtag; [congruence|cbn in Hk; lia]. }
  { right. exact Hlim. }
  cbn [app] in H1.
  pose proof (firstn_skipn (length (rr_buf r) - length endtag) (rr_buf r))
    as Hfs.
  rewrite H7 in Hfs.
  exists (firstn (length (rr_buf r) - length endtag) (rr_buf r)).
  split; [symmetry; exact Hfs|].
  split; [|split; [exact H2|split; [exact H3|split; [|exact H4]]]].
  - intros k Hk. rewrite length_firstn in Hk. rewrite Hfs. apply H8. lia.
  - rewrite H1. exact H5.
Qed.

(** X10.  [nc_read_until] on any input: it always returns, and when it does
    not return -1 the buffer it hands over is the input read up to and with
    the first occurrence of the end tag, byte for byte: the buffer ends with
    the end tag, the end tag occurs nowhere before in it, the count returned
    is its length (at most the limit, if there is one), and the input that
    follows is left for the next read.  The session is otherwise as it
    was. *)
Theorem nc_read_until_first_endtag (s : nc_session) (endtag : list byte)
    (limit t : Z) :
  nul_free endtag = true -> endtag <> [] -> 0 <= limit ->
  exists r,
    nc_read_until s endtag limit t = Some r
    /\ (rr_ret r = -1
        \/ exists pre,
             rr_buf r = pre ++ endtag
             /\ first_at_end endtag pre
             /\ rr_ret r = len (rr_buf r)
             /\ (limit = 0 \/ rr_ret r <= limit)
             /\ stream_bytes (rd_script (ti_fd_in s))
                = rr_buf r
                  ++ stream_bytes (rd_script (ti_fd_in (rr_session r)))
             /\ exists e, rr_session r = set_rd_script s e).
Proof.
  intros Hnf Hne Hlim.
  destruct (nc_read_until_total s endtag limit t) as (r & Hr & _).
  exists r. split; [exact Hr|].
  destruct (Z.eq_dec (rr_ret r) (-1)) as [E|E]; [now left|right].
  exact (nc_read_until_sound_pre s endtag limit t r Hnf Hne Hlim Hr E).
Qed.

Lemma nc_read_until_first_endtag_witness :
  let s := session_on NC_VERSION_11 NC_SERVER
             [RdData (bytes "ab"); RdAgain; RdData [LF; "#"%byte; "7"%byte]] in
  exists r,
    nc_read_until s [LF; "#"%byte] 0 30 = Some r
    /\ (rr_ret r = -1
        \/ exists pre,
             rr_buf r = pre ++ [LF; "#"%byte]
             /\ first_at_end [LF; "#"%byte] pre
             /\ rr_ret r = len (rr_buf r)
             /\ (0 = 0 \/ rr_ret r <= 0)
             /\ stream_bytes (rd_script (ti_fd_in s))
                = rr_buf r
                  ++ stream_bytes (rd_script (ti_fd_in (rr_session r)))
             /\ exists e, rr_session r = set_rd_script s e).
Proof.
  intros s.
  exact (nc_read_until_first_endtag s [LF; "#"%byte] 0 30 eq_refl
           ltac:(discriminate) ltac:(lia)).
Defined.

Section FirstSentinel.

Context {LY : LibYang}.

(** X11.  What [nc_read_msg] takes for a message in NETCONF 1.0, on an
    input of at most INT_MAX bytes: when it returns a message type other
    than NC_MSG_ERROR, the tree it hands over is the parse of the bytes of
    the input before the first occurrence of the end tag, the end tag
    follows them in the input, and what comes after the end tag is left for
    the next message.  The session is otherwise as it was. *)
Theorem nc_read_msg_v10_first_sentinel (s s' : nc_session) (t : NC_MSG_TYPE)
    (data : option lyxml_elem) :
  version s = NC_VERSION_10 ->
  len (stream_bytes (rd_script (ti_fd_in s))) <= INT_MAX ->
  nc_read_msg s = Some (t, data, s') -> t <> NC_MSG_ERROR ->
  exists msg,
    data = lyxml_parse_mem (c_str msg)
    /\ first_at_end NC_VERSION_10_ENDTAG msg
    /\ stream_bytes (rd_script (ti_fd_in s))
       = msg ++ NC_VERSION_10_ENDTAG
         ++ stream_bytes (rd_script (ti_fd_in s'))
    /\ exists e, s' = set_rd_script s e.
Proof.
  intros Hv Hmax Hrun Ht. unfold nc_read_msg in Hrun.
  destruct (not_usable s); [injection Hrun as <- _ _; now destruct Ht|].
  unfold nc_read_frame, nc_read_msg_v10 in Hrun. rewrite Hv in Hrun.
  destruct (nc_read_until s NC_VERSION_10_ENDTAG 0 NC_READ_TIMEOUT)
    as [r|] eqn:Hr; [|discriminate].
  cbv zeta in Hrun.
  destruct (to_int (rr_ret r) =? -1) eqn:Eret;
    [injection Hrun as <- _ _; now destruct Ht|].
  apply Z.eqb_neq, to_int_neq in Eret.
  destruct (nc_read_until_sound_pre s NC_VERSION_10_ENDTAG 0 NC_READ_TIMEOUT r
              eq_refl ltac:(discriminate) ltac:(lia) Hr Eret)
    as (pre & H1 & H2 & H3 & _ & H5 & H6).
  assert (Hmsg : cut_at (to_int (rr_ret r) - NC_VERSION_10_ENDTAG_LEN)
                        (rr_buf r) = pre).
  { pose proof (len_nonneg pre) as Hpos.
    pose proof (len_nonneg
                  (stream_bytes (rd_script (ti_fd_in (rr_session r)))))
      as Hrest.
    rewrite H5, len_app in Hmax.
    rewrite H3, H1 in *. rewrite len_app in *.
    change (len NC_VERSION_10_ENDTAG) with 6 in *.
    rewrite to_int_small by (unfold INT_MAX in *; lia).
    unfold NC_VERSION_10_ENDTAG_LEN, cut_at.
    replace (len pre + 6 - 6) with (len pre) by lia.
    replace (0 <=? len pre) with true by (symmetry; apply Z.leb_le; lia).
    apply firstn_len_app. }
  rewrite Hmsg in Hrun. injection Hrun as Hrun.
  destruct (nc_classify_spec (rr_session r) pre)
    as (t0 & d0 & s0 & Hc & _ & _ & _ & _ & _ & _ & Hok).
  rewrite Hc in Hrun. injection Hrun as -> -> ->.
  destruct (Hok Ht) as [-> ->].
  exists pre. split; [reflexivity|]. split; [exact H2|].
  split; [|exact H6].
  rewrite H5, H1, <- app_assoc. reflexivity.
Qed.

End FirstSentinel.

Section FirstSentinelExample.

#[local] Existing Instance ExampleYang.

Lemma nc_read_msg_v10_first_sentinel_witness :
  let s := session_on NC_VERSION_10 NC_SERVER
             [RdData (bytes "<a/>]]"); RdAgain; RdData (bytes ">]]><b/>]]>]]>")] in
  exists t data s',
    nc_read_msg s = Some (t, data, s')
    /\ exists msg,
         data = lyxml_parse_mem (c_str msg)
         /\ first_at_end NC_VERSION_10_ENDTAG msg
         /\ stream_bytes (rd_script (ti_fd_in s))
            = msg ++ NC_VERSION_10_ENDTAG
              ++ stream_bytes (rd_script (ti_fd_in s'))
         /\ exists e, s' = set_rd_script s e.
Proof.
  intros s. eexists. eexists. eexists.
  assert (Hrun : nc_read_msg s
                 = Some (NC_MSG_RPC, lyxml_parse_mem (bytes "<a/>"),
                         set_rd_script s [RdData (bytes "<b/>]]>]]>")]))
    by (vm_compute; reflexivity).
  split; [exact Hrun|].
  refine (nc_read_msg_v10_first_sentinel s _ _ _ eq_refl _ Hrun _).
  - vm_compute. discriminate.
  - discriminate.
Defined.

End FirstSentinelExample.

(** ** Bytes between the chunks *)

Lemma delivers_app (evs mid rest : list rd_event) (a b : list byte) :
  delivers evs a mid -> delivers mid b rest -> delivers evs (a ++ b) rest.
Proof.
  induction 1 as [evs|c seg evs bs mid Hd IH|c seg c' seg' evs]; intros Hb.
  - exact Hb.
  - rewrite <- app_assoc. apply delivers_seg. now apply IH.
  - inversion Hb as [evs0|c0 seg0 evs0 bs0 rest0 Hd0|c0 seg0 c1 seg1 evs0];
      subst.
    + rewrite app_nil_r. apply delivers_part.
    + replace ((c :: seg) ++ (c' :: seg') ++ bs0)
        with ((c :: seg ++ c' :: seg') ++ bs0)
        by (cbn; rewrite <- app_assoc; reflexivity).
      apply (delivers_seg c (seg ++ c' :: seg')). exact Hd0.
    + replace ((c :: seg) ++ c' :: seg0 ++ c1 :: seg1)
        with ((c :: seg ++ c' :: seg0) ++ c1 :: seg1)
        by (cbn; rewrite <- app_assoc; reflexivity).
      replace ((c :: seg) ++ c' :: seg0) with (c :: seg ++ c' :: seg0)
        by reflexivity.
      apply (delivers_part c (seg ++ c' :: seg0) c1 seg1).
Qed.

(** What comes before the next line feed and hash sign is read and dropped. *)
Lemma nc_read_msg_v11_skips (s : nc_session) (noise : list byte)
    (mid1 mid2 : list rd_event) (t : Z) (msg : option (list byte))
    (fuel : nat) :
  usable s -> ti_type s = NC_TI_FD ->
  delivers (rd_script (ti_fd_in s)) noise mid1 ->
  delivers mid1 [LF; "#"%byte] mid2 ->
  first_at_end [LF; "#"%byte] noise ->
  len (noise ++ [LF; "#"%byte]) <= INT_MAX ->
  nc_read_msg_v11 (S fuel) s t msg
  = nc_read_msg_v11 (S fuel) (set_rd_script s mid1) t msg.
Proof.
  intros Hu Hti Hd1 Hd2 Hfirst Hmax. cbn [nc_read_msg_v11].
  rewrite (nc_read_until_delivers s [LF; "#"%byte] noise mid2 t eq_refl
             ltac:(discriminate) Hu Hti (delivers_app _ _ _ _ _ Hd1 Hd2)
             Hfirst).
  rewrite (nc_read_until_delivers (set_rd_script s mid1) [LF; "#"%byte] []
             mid2 t eq_refl ltac:(discriminate)
             (usable_set_rd_script _ _ Hu) Hti Hd2
             (first_at_end_nil _)).
  cbn [rr_ret rr_session rr_timeout].
  rewrite set_rd_script_twice.
  rewrite (to_int_count (len (noise ++ [LF; "#"%byte])))
    by (pose proof (len_nonneg (noise ++ [LF; "#"%byte])); lia).
  reflexivity.
Qed.

Lemma first_at_end_header (noise : list byte) :
  ~ contains [LF; "#"%byte] noise -> first_at_end [LF; "#"%byte] noise.
Proof.
  intros Hno k Hk Heq. cbn [length] in Heq.
  destruct (Nat.le_gt_cases (k + 2) (length noise)) as [Hin|Hout].
  - rewrite firstn_skipn_app_within in Heq by exact Hin.
    apply Hno. exists (firstn k noise), (skipn 2 (skipn k noise)).
    rewrite <- Heq, firstn_skipn, firstn_skipn. reflexivity.
  - assert (Hk1 : length (skipn k noise) = 1%nat)
      by (rewrite length_skipn; lia).
    rewrite skipn_app in Heq.
    replace (k - length noise)%nat with 0%nat in Heq by lia.
    destruct (skipn k noise) as [|x [|y l]]; try discriminate Hk1.
    cbn in Heq. discriminate Heq.
Qed.

Lemma chunks_with_noise_length (parts : list (list byte * list byte)) :
  (length parts <= length (chunks_with_noise parts))%nat.
Proof.
  induction parts as [|[noise blk] parts IH]; [cbn; lia|].
  unfold chunks_with_noise in *. cbn [flat_map fst snd length].
  rewrite !length_app.
  assert (H : (1 <= length (chunk_frame blk))%nat)
    by (unfold chunk_frame, chunk_header; rewrite !length_app;
        cbn [length]; lia).
  lia.
Qed.

Lemma nc_read_msg_v11_noise (parts : list (list byte * list byte)) :
  Forall (fun p => noise_ok (fst p) /\ chunk_ok (snd p)) parts ->
  forall msg s t rest fuel noise_end,
    usable s -> ti_type s = NC_TI_FD ->
    noise_ok noise_end ->
    delivers (rd_script (ti_fd_in s))
             (chunks_with_noise parts ++ noise_end ++ END_OF_CHUNKS) rest ->
    msg <> None \/ parts <> [] ->
    (length parts < fuel)%nat ->
    nc_read_msg_v11 fuel s t msg
    = Some (Frame_msg (match msg with Some m => m | None => [] end
                       ++ concat (map snd parts))
                      (set_rd_script s rest)).
Proof.
  induction 1 as [|[noise blk] parts [[Hnoise Hnmax] Hblk] Hparts IH];
    intros msg s t rest fuel noise_end Hu Hti Hend Hd Hsome Hfuel;
    (destruct fuel as [|fuel]; [lia|]).
  - cbn [chunks_with_noise flat_map app] in Hd.
    destruct (delivers_split _ _ _ _ Hd) as (mid1 & Hd1 & Hd2).
    change END_OF_CHUNKS with ([LF; "#"%byte] ++ ["#"%byte; LF]) in Hd2.
    destruct (delivers_split _ _ _ _ Hd2) as (mid2 & Hd3 & _).
    rewrite (nc_read_msg_v11_skips s noise_end mid1 mid2 t msg fuel Hu Hti
               Hd1 Hd3 (first_at_end_header _ (proj1 Hend)) (proj2 Hend)).
    rewrite (nc_read_msg_v11_end (set_rd_script s mid1) rest t msg fuel
               (usable_set_rd_script _ _ Hu) Hti Hd2).
    rewrite set_rd_script_twice. cbn [map concat]. rewrite app_nil_r.
    destruct msg; [reflexivity|]. destruct Hsome as [H|H]; now destruct H.
  - unfold chunks_with_noise in Hd. cbn [flat_map fst snd] in Hd.
    fold (chunks_with_noise parts) in Hd. rewrite <- !app_assoc in Hd.
    destruct (delivers_split _ _ _ _ Hd) as (mid1 & Hd1 & Hd2).
    destruct (delivers_split _ _ _ _ Hd2) as (mid3 & Hd3 & Hd4).
    assert (Hhdr : exists mid2, delivers mid1 [LF; "#"%byte] mid2).
    { unfold chunk_frame, chunk_header in Hd3.
      rewrite <- !app_assoc in Hd3.
      destruct (delivers_split _ _ _ _ Hd3) as (mid2 & H & _).
      now exists mid2. }
    destruct Hhdr as (mid2 & Hd5).
    rewrite (nc_read_msg_v11_skips s noise mid1 mid2 t msg fuel Hu Hti
               Hd1 Hd5 (first_at_end_header _ Hnoise) Hnmax).
    rewrite (nc_read_msg_v11_frame (set_rd_script s mid1) blk mid3 t msg fuel
               (usable_set_rd_script _ _ Hu) Hti Hblk Hd3).
    rewrite set_rd_script_twice.
    rewrite (IH (Some (match msg with Some m => m | None => [] end ++ blk))
                (set_rd_script s mid3) t rest fuel noise_end
                (usable_set_rd_script _ _ Hu) Hti Hend Hd4
                ltac:(left; discriminate) ltac:(cbn [length] in Hfuel; lia)).
    rewrite set_rd_script_twice. cbn [map concat snd].
    rewrite <- app_assoc. reflexivity.
Qed.

(** X12.  The NETCONF 1.1 reader drops what is between the chunks.  Before
    every chunk header, and before the end of chunks, it reads up to the next
    line feed and hash sign and throws away what it has read: a message whose
    chunks are each preceded by any bytes that do not hold a line feed
    followed by a hash sign is accepted, and its body is the chunks put
    together, as if the bytes between them were not there.  This holds where
    every count that nc_read_msg keeps in its int fits there: the bytes
    thrown away before a header, with the two bytes that end them, and each
    chunk are at most INT_MAX bytes long. *)
Theorem nc_read_frame_skips_noise (s : nc_session)
    (parts : list (list byte * list byte)) (noise_end : list byte)
    (rest : list rd_event) :
  usable s -> ti_type s = NC_TI_FD -> version s = NC_VERSION_11 ->
  parts <> [] ->
  Forall (fun p => noise_ok (fst p) /\ chunk_ok (snd p)) parts ->
  noise_ok noise_end ->
  delivers (rd_script (ti_fd_in s))
           (chunks_with_noise parts ++ noise_end ++ END_OF_CHUNKS) rest ->
  nc_read_frame s
  = Some (Frame_msg (concat (map snd parts)) (set_rd_script s rest)).
Proof.
  intros Hu Hti Hv Hne Hparts Hend Hd. unfold nc_read_frame. rewrite Hv.
  apply (nc_read_msg_v11_noise parts Hparts None s NC_READ_TIMEOUT rest _
           noise_end Hu Hti Hend Hd (or_intror Hne)).
  pose proof (delivers_size _ _ _ Hd) as Hsz.
  pose proof (chunks_with_noise_length parts).
  rewrite length_app in Hsz. lia.
Qed.

Lemma nc_read_frame_skips_noise_witness :
  let input := bytes "junk" ++ [LF] ++ bytes "#3" ++ [LF] ++ bytes "<a/"
               ++ bytes "more junk" ++ [LF] ++ bytes "#1" ++ [LF] ++ bytes ">"
               ++ bytes "!" ++ [LF] ++ bytes "##" ++ [LF] in
  let s := session_on NC_VERSION_11 NC_SERVER [RdData input] in
  nc_read_frame s = Some (Frame_msg (bytes "<a/>") (set_rd_script s [])).
Proof.
  intros input s.
  refine (nc_read_frame_skips_noise s
            [(bytes "junk", bytes "<a/"); (bytes "more junk", bytes ">")]
            (bytes "!") [] eq_refl eq_refl eq_refl ltac:(discriminate) _ _ _).
  - assert (Hno : forall g, existsb (Byte.eqb LF) g = false ->
                            ~ contains [LF; "#"%byte] g).
    { intros g Hg (pre & post & ->).
      rewrite existsb_app in Hg. cbn in Hg.
      rewrite orb_true_r in Hg. discriminate. }
    repeat constructor; try (apply Hno; reflexivity); try discriminate;
      vm_compute; discriminate.
  - split; [|vm_compute; discriminate].
    intros (pre & post & H).
    assert (Hg : existsb (Byte.eqb LF) (bytes "!") = true).
    { rewrite H, existsb_app. cbn. now rewrite orb_true_r. }
    discriminate Hg.
  - apply (delivers_one input []). vm_compute. discriminate.
Defined.

(** ** Messages one after the other *)

(** X13.  Reading a message takes exactly its frame off the input.  When
    the input holds any number of messages one after the other (in NETCONF
    1.0 each a body and the end tag, together at most INT_MAX bytes, in
    NETCONF 1.1 each a sequence of chunks of at most INT_MAX bytes each and
    the end of chunks), cut into reads in any way, successive reads of a
    message give the bodies in order, each complete, and leave what follows
    the last frame. *)
Theorem nc_read_frame_pipelined (msgs : list (list (list byte))) :
  forall (s : nc_session) (rest : list rd_event),
    usable s -> ti_type s = NC_TI_FD ->
    Forall (readable (version s)) msgs ->
    delivers (rd_script (ti_fd_in s))
             (flat_map (frame_of (version s)) msgs) rest ->
    reads_frames s (map (@concat byte) msgs) (set_rd_script s rest).
Proof.
  induction msgs as [|blocks msgs IH]; intros s rest Hu Hti Hok Hd.
  - cbn in *. apply delivers_nil_inv in Hd. subst rest.
    apply set_rd_script_same.
  - cbn [flat_map map reads_frames] in *.
    destruct (delivers_split _ _ _ _ Hd) as (mid & Hd1 & Hd2).
    inversion Hok as [|x l Hb Hrest]; subst.
    exists (set_rd_script s mid). split.
    + unfold frame_of, readable in *. destruct (version s) eqn:Hv.
      * destruct Hb as [Hb1 Hb2]. apply nc_read_frame_v10; assumption.
      * destruct Hb as [Hb1 Hb2]. apply nc_read_frame_v11; assumption.
    + rewrite <- (set_rd_script_twice s mid rest).
      apply IH; assumption.
Qed.

Lemma nc_read_frame_pipelined_witness :
  let s := session_on NC_VERSION_11 NC_CLIENT
             [RdData ([LF] ++ bytes "#2" ++ [LF] ++ bytes "<a" ++ [LF]
                      ++ bytes "#2");
              RdData ([LF] ++ bytes "/>" ++ [LF] ++ bytes "##" ++ [LF]
                      ++ [LF] ++ bytes "#4" ++ [LF] ++ bytes "<b/>" ++ [LF]
                      ++ bytes "##" ++ [LF] ++ bytes "x")] in
  reads_frames s [bytes "<a/>"; bytes "<b/>"]
               (set_rd_script s [RdData (bytes "x")]).
Proof.
  intros s.
  refine (nc_read_frame_pipelined
            [[bytes "<a"; bytes "/>"]; [bytes "<b/>"]] s [RdData (bytes "x")]
            eq_refl eq_refl _ _).
  - repeat constructor; try discriminate; vm_compute; discriminate.
  - apply (delivers_seg LF (bytes "#2" ++ [LF] ++ bytes "<a" ++ [LF]
                            ++ bytes "#2") _
             ([LF] ++ bytes "/>" ++ [LF] ++ bytes "##" ++ [LF]
              ++ [LF] ++ bytes "#4" ++ [LF] ++ bytes "<b/>" ++ [LF]
              ++ bytes "##" ++ [LF])).
    apply (delivers_part LF
             (bytes "/>" ++ [LF] ++ bytes "##" ++ [LF]
              ++ [LF] ++ bytes "#4" ++ [LF] ++ bytes "<b/>" ++ [LF]
              ++ bytes "##" ++ [LF])
             "x"%byte []).
Defined.

(** ** What the reader leaves alone *)

Lemma read_from_refl (s : nc_session) : read_from s s.
Proof. unfold read_from. repeat split; auto. Qed.

Lemma read_from_trans (s1 s2 s3 : nc_session) :
  read_from s1 s2 -> read_from s2 s3 -> read_from s1 s3.
Proof.
  intros (A1 & A2 & A3 & A4 & A5 & A6 & A7 & A8)
         (B1 & B2 & B3 & B4 & B5 & B6 & B7 & B8).
  unfold read_from. repeat (split; [congruence|]).
  destruct B8 as [[Hc Hd]|Hcd]; [|now right].
  destruct A8 as [[Ha Hb]|[Ha Hb]]; [left; split; congruence|].
  right. split; [congruence|]. rewrite Hd. exact Hb.
Qed.

Lemma reads_read_from (s s' : nc_session) : reads s s' -> read_from s s'.
Proof. intros (e & ->). unfold read_from. cbn. repeat split; auto. Qed.

Lemma nc_read_loop_read_from (evs : list rd_event) :
  forall s count readd buf sc t,
    read_from s (rr_session (nc_read_loop s evs count readd buf sc t)).
Proof.
  assert (Hfail : forall s e r,
            r = NC_SESSION_TERM_DROPPED \/ r = NC_SESSION_TERM_OTHER ->
            read_from s (set_status (set_rd_script s e) NC_STATUS_INVALID r)).
  { intros s e r Hr. unfold read_from. cbn. repeat split; auto. }
  assert (Hfin : forall s e, read_from s (set_rd_script s e)).
  { intros s e. apply reads_read_from. now exists e. }
  induction evs as [|ev evs IH]; intros s count readd buf sc t;
    cbn [nc_read_loop]; destruct (ti_type s); cbn [rr_session]; auto.
  destruct ev as [bs| | |]; auto.
  - destruct (Z.min (len bs) (count - readd) =? 0); cbn [rr_session]; auto.
    destruct (readd + Z.min (len bs) (count - readd) <? count);
      cbn [rr_session]; auto.
  - destruct (1000000 / NC_TIMEOUT_STEP =? uint16 (sc + 1)).
    + destruct (uint16 (t - 1) =? 0); cbn [rr_session]; auto.
      destruct (readd <? count); cbn [rr_session]; auto.
    + destruct (t =? 0); cbn [rr_session]; auto.
      destruct (readd <? count); cbn [rr_session]; auto.
  - destruct (readd <? count); cbn [rr_session]; auto.
  - cbn [rr_session]. auto.
Qed.

Lemma nc_read_read_from (s : nc_session) (count t : Z) :
  read_from s (rr_session (nc_read s count t)).
Proof.
  unfold nc_read. destruct (not_usable s); [apply read_from_refl|].
  destruct (count =? 0); [apply read_from_refl|].
  apply nc_read_loop_read_from.
Qed.

Lemma nc_read_chunk_read_from (s : nc_session) (n t : Z) :
  read_from s (rr_session (nc_read_chunk s n t)).
Proof.
  unfold nc_read_chunk. destruct (n =? 0); [apply read_from_refl|].
  destruct (malloc_fails (uint64 (n + 1))); [apply read_from_refl|].
  destruct (uint64 (n + 1) =? 0).
  - assert (H : read_from s (rr_session (nc_read_fault s t))).
    { unfold nc_read_fault.
      destruct (not_usable s); [apply read_from_refl|].
      destruct (ti_type s); [apply read_from_refl|].
      unfold read_from. cbn. repeat split; auto. }
    destruct (rr_ret (nc_read_fault s t) <=? 0); exact H.
  - destruct (rr_ret (nc_read s n t) <=? 0); apply nc_read_read_from.
Qed.

Lemma nc_read_until_loop_read_from (endtag : list byte) (limit : Z)
    (fuel : nat) :
  forall s t chunk count r,
    nc_read_until_loop fuel s endtag limit t chunk count = Some r ->
    read_from s (rr_session r).
Proof.
  induction fuel as [|fuel IH]; intros s t chunk count r Hrun;
    [discriminate|].
  cbn [nc_read_until_loop] in Hrun.
  destruct (negb (limit =? 0) && (count =? limit));
    [injection Hrun as <-; apply read_from_refl|].
  pose proof (nc_read_read_from s 1 t) as H1.
  destruct (negb (rr_ret (nc_read s 1 t) =? 1));
    [injection Hrun as <-; exact H1|].
  match type of Hrun with
  | (if ?c then _ else _) = _ => destruct c
  end; [injection Hrun as <-; exact H1|].
  exact (read_from_trans _ _ _ H1 (IH _ _ _ _ _ Hrun)).
Qed.

Lemma nc_read_until_read_from (s : nc_session) (endtag : list byte)
    (limit t : Z) (r : read_res) :
  nc_read_until s endtag limit t = Some r -> read_from s (rr_session r).
Proof. apply nc_read_until_loop_read_from. Qed.

Lemma nc_read_msg_v11_read_from (fuel : nat) :
  forall s t msg fr,
    nc_read_msg_v11 fuel s t msg = Some fr ->
    read_from s (frame_res_session fr).
Proof.
  induction fuel as [|fuel IH]; intros s t msg fr Hrun; [discriminate|].
  cbn [nc_read_msg_v11] in Hrun.
  destruct (nc_read_until s [LF; "#"%byte] 0 t) as [r1|] eqn:E1;
    [|discriminate].
  pose proof (nc_read_until_read_from _ _ _ _ _ E1) as H1.
  destruct (to_int (rr_ret r1) =? -1); [injection Hrun as <-; exact H1|].
  destruct (nc_read_until (rr_session r1) [LF] 0 (rr_timeout r1))
    as [r2|] eqn:E2; [|discriminate].
  pose proof (read_from_trans _ _ _ H1 (nc_read_until_read_from _ _ _ _ _ E2))
    as H2.
  destruct (to_int (rr_ret r2) =? -1); [injection Hrun as <-; exact H2|].
  destruct (strcmp (rr_buf r2) ["#"%byte; LF] =? 0).
  { destruct msg; injection Hrun as <-; exact H2. }
  destruct (strtoul (rr_buf r2) =? 0); [injection Hrun as <-; exact H2|].
  pose proof (read_from_trans _ _ _ H2
                (nc_read_chunk_read_from (rr_session r2) (strtoul (rr_buf r2))
                   (rr_timeout r2))) as H3.
  destruct (to_int (rr_ret (nc_read_chunk (rr_session r2)
                              (strtoul (rr_buf r2)) (rr_timeout r2))) =? -1);
    [injection Hrun as <-; exact H3|].
  exact (read_from_trans _ _ _ H3 (IH _ _ _ _ Hrun)).
Qed.

Lemma nc_read_frame_read_from (s : nc_session) (fr : frame_res) :
  nc_read_frame s = Some fr -> read_from s (frame_res_session fr).
Proof.
  unfold nc_read_frame. destruct (version s).
  - unfold nc_read_msg_v10.
    destruct (nc_read_until s NC_VERSION_10_ENDTAG 0 NC_READ_TIMEOUT)
      as [r|] eqn:E; [|discriminate].
    pose proof (nc_read_until_read_from _ _ _ _ _ E) as H.
    cbv zeta.
    destruct (to_int (rr_ret r) =? -1); intros Hrun; injection Hrun as <-;
      exact H.
  - apply nc_read_msg_v11_read_from.
Qed.

Section ReaderEffects.

Context {LY : LibYang}.

Lemma read_malformed_msg_quiet (s : nc_session) :
  side s = NC_CLIENT \/ version s = NC_VERSION_10 ->
  read_malformed_msg s = (NC_MSG_ERROR, None, s).
Proof.
  intros H. unfold read_malformed_msg, read_error.
  destruct (side s), (version s); try reflexivity.
  destruct H; discriminate.
Qed.

(** X14.  Reading a message only reads.  On a client-side session, on a
    NETCONF 1.0 session, and on any session when a message is returned,
    [nc_read_msg] leaves the output descriptor, the message counter, the
    side, the version and the transport as they were, whatever the input:
    the read script has moved on, and the status is as before or Invalid
    with the reason Dropped or Other.  When a message is returned, nothing
    but the read script has changed. *)
Theorem nc_read_msg_input_only (s s' : nc_session) (t : NC_MSG_TYPE)
    (data : option lyxml_elem) :
  nc_read_msg s = Some (t, data, s') ->
  side s = NC_CLIENT \/ version s = NC_VERSION_10 \/ t <> NC_MSG_ERROR ->
  read_from s s'
  /\ (t <> NC_MSG_ERROR -> exists e, s' = set_rd_script s e).
Proof.
  intros Hrun Hwho. unfold nc_read_msg in Hrun.
  destruct (not_usable s).
  { injection Hrun as <- _ <-. split; [apply read_from_refl|congruence]. }
  destruct (nc_read_frame s) as [fr|] eqn:Hf; [|discriminate].
  pose proof (nc_read_frame_read_from s fr Hf) as Hfrom.
  pose proof (nc_read_frame_session s fr Hf) as Hreads.
  assert (Hmal : forall s1, read_from s s1 ->
            Some (read_malformed_msg s1) = Some (t, data, s') ->
            read_from s s' /\ (t <> NC_MSG_ERROR -> exists e, s' = set_rd_script s e)).
  { intros s1 H1 Hm.
    destruct (read_malformed_msg_error s1) as (s2 & E).
    assert (Ht : t = NC_MSG_ERROR) by (rewrite E in Hm; congruence).
    rewrite read_malformed_msg_quiet in Hm.
    - injection Hm as _ _ <-. split; [exact H1|congruence].
    - destruct H1 as (A1 & _ & A3 & _).
      destruct Hwho as [H|[H|H]]; [left|right|]; congruence. }
  destruct fr as [msg s1|s1|s1]; cbn [frame_res_session frame_session] in *.
  - destruct (nc_classify_spec s1 msg)
      as (t0 & d0 & s0 & Hc & _ & _ & _ & _ & _ & Herr & Hok).
    assert (E : t0 = NC_MSG_ERROR \/ t0 <> NC_MSG_ERROR)
      by (destruct t0; (now left) || (right; discriminate)).
    destruct E as [E|E].
    + destruct (Herr E) as [_ Hm]. rewrite Hm in Hrun.
      exact (Hmal s1 Hfrom Hrun).
    + destruct (Hok E) as [_ ->]. rewrite Hc in Hrun.
      injection Hrun as <- _ <-. split; [exact Hfrom|]. intros _. exact Hreads.
  - exact (Hmal s1 Hfrom Hrun).
  - injection Hrun as <- _ <-. split; [exact Hfrom|congruence].
Qed.

(** X15.  A message that cannot be classified, on a client-side session or
    on a NETCONF 1.0 session: [nc_read_msg] returns NC_MSG_ERROR without
    data, writes nothing, and the session is as the framing left it: the
    frame has been taken off the input, the status has not changed, and the
    next message can be read. *)
Theorem nc_read_msg_malformed_quiet (s s1 : nc_session) :
  usable s ->
  side s = NC_CLIENT \/ version s = NC_VERSION_10 ->
  nc_read_frame s = Some (Frame_malformed s1)
  \/ (exists msg, nc_read_frame s = Some (Frame_msg msg s1) /\ ~ known_root msg) ->
  nc_read_msg s = Some (NC_MSG_ERROR, None, s1)
  /\ exists e, s1 = set_rd_script s e.
Proof.
  intros Hu Hwho Hfault.
  assert (Hread : nc_read_msg s = Some (read_malformed_msg s1)
                  /\ exists e, s1 = set_rd_script s e).
  { unfold nc_read_msg. rewrite Hu.
    destruct Hfault as [Hf|(msg & Hf & Hroot)]; rewrite Hf;
      (split; [|exact (nc_read_frame_session s _ Hf)]); [reflexivity|].
    destruct (nc_classify_spec s1 msg)
      as (t & data & s2 & Hc & _ & _ & _ & _ & H5 & H6 & _).
    f_equal. apply H6, H5, Hroot. }
  destruct Hread as [Hread (e & ->)]. split; [|now exists e].
  rewrite Hread. f_equal. apply read_malformed_msg_quiet. exact Hwho.
Qed.

(** X16.  The reply to a message that cannot be classified, on any
    transport.  On a server-side NETCONF 1.1 session [nc_read_msg] returns
    NC_MSG_ERROR without data, and the session is the one the framing left
    but for what the reply did to it: bytes added to the wire, and a status
    that is as it was (also when writes of the reply failed) or Invalid with
    the reason Dropped (when the peer was gone).  The reason Other of the
    label malformed_msg is never the outcome. *)
Theorem nc_read_msg_malformed_any_transport (s s1 : nc_session) :
  usable s -> side s = NC_SERVER -> version s = NC_VERSION_11 ->
  nc_read_frame s = Some (Frame_malformed s1)
  \/ (exists msg, nc_read_frame s = Some (Frame_msg msg s1) /\ ~ known_root msg) ->
  exists s2,
    nc_read_msg s = Some (NC_MSG_ERROR, None, s2)
    /\ rd_script (ti_fd_in s2) = rd_script (ti_fd_in s1)
    /\ msgid s2 = msgid s
    /\ (exists out, wire (ti_fd_out s2) = wire (ti_fd_out s) ++ out)
    /\ (status s2 = status s /\ term_reason s2 = term_reason s
        \/ status s2 = NC_STATUS_INVALID
           /\ term_reason s2 = NC_SESSION_TERM_DROPPED).
Proof.
  intros Hu Hside Hv Hfault.
  assert (Hread : nc_read_msg s = Some (read_malformed_msg s1)
                  /\ exists e, s1 = set_rd_script s e).
  { unfold nc_read_msg. rewrite Hu.
    destruct Hfault as [Hf|(msg & Hf & Hroot)]; rewrite Hf;
      (split; [|exact (nc_read_frame_session s _ Hf)]); [reflexivity|].
    destruct (nc_classify_spec s1 msg)
      as (t & data & s2 & Hc & _ & _ & _ & _ & H5 & H6 & _).
    f_equal. apply H6, H5, Hroot. }
  destruct Hread as [Hread (e & ->)].
  set (s1 := set_rd_script s e) in *.
  assert (Hu1 : usable s1) by exact (usable_set_rd_script s e Hu).
  set (reply := Args_REPLY None (nc_server_reply_err nc_err_malformed_msg)).
  assert (Hs : sendable s1 reply) by (cbn; discriminate).
  pose proof (nc_write_msg_writes s1 reply ltac:(discriminate)) as Hw.
  pose proof (nc_write_msg_sendable s1 reply Hu1 Hs) as Hret.
  exists (snd (nc_write_msg s1 reply)). split.
  - rewrite Hread. unfold read_malformed_msg.
    change (side s1) with (side s). change (version s1) with (version s).
    rewrite Hside, Hv. fold reply.
    destruct (nc_write_msg s1 reply) as [ret s2]. cbn [fst snd] in *.
    destruct Hret as [[-> _]|[-> Hn]]; [reflexivity|].
    destruct (writes_not_usable _ _ Hw Hu1 Hn) as [-> _]. reflexivity.
  - destruct Hw as [(_ & _ & _ & _ & W5 & W6 & W7 & W8) _].
    split; [exact W6|]. split; [exact W5|]. split; [exact W7|exact W8].
Qed.

End ReaderEffects.

Section ReaderEffectsExample.

#[local] Existing Instance ExampleYang.

Lemma nc_read_msg_input_only_witness :
  let s := session_on NC_VERSION_10 NC_CLIENT
             [RdData (bytes "<rpc-reply/>]]>]]>")] in
  exists t data s',
    nc_read_msg s = Some (t, data, s')
    /\ read_from s s'
    /\ (t <> NC_MSG_ERROR -> exists e, s' = set_rd_script s e).
Proof.
  intros s. eexists. eexists. eexists.
  assert (Hrun : nc_read_msg s
                 = Some (NC_MSG_RPC, lyxml_parse_mem (bytes "<rpc-reply/>"),
                         set_rd_script s []))
    by (vm_compute; reflexivity).
  split; [exact Hrun|].
  exact (nc_read_msg_input_only s _ _ _ Hrun (or_introl eq_refl)).
Defined.

(** X15 at work: a chunk of size 0 on a client-side session. *)
Lemma nc_read_msg_malformed_quiet_witness :
  let s := session_on NC_VERSION_11 NC_CLIENT
             [RdData ([LF] ++ bytes "#0" ++ [LF] ++ bytes "next")] in
  let s1 := set_rd_script s [RdData (bytes "next")] in
  nc_read_msg s = Some (NC_MSG_ERROR, None, s1)
  /\ exists e, s1 = set_rd_script s e.
Proof.
  intros s s1.
  assert (Hf : nc_read_frame s = Some (Frame_malformed s1))
    by (vm_compute; reflexivity).
  exact (nc_read_msg_malformed_quiet s s1 eq_refl (or_introl eq_refl)
           (or_introl Hf)).
Defined.

(** X16 at work: the peer has hung up when the reply is to be written. *)
Lemma nc_read_msg_malformed_any_transport_witness :
  let s := set_poll_script
             (session_on NC_VERSION_11 NC_SERVER
                [RdData ([LF] ++ bytes "#0" ++ [LF])])
             [PollHup] in
  (exists s2, nc_read_msg s = Some (NC_MSG_ERROR, None, s2)
              /\ status s2 = NC_STATUS_INVALID
              /\ term_reason s2 = NC_SESSION_TERM_DROPPED
              /\ wire (ti_fd_out s2) = [])
  /\ exists s2,
       nc_read_msg s = Some (NC_MSG_ERROR, None, s2)
       /\ rd_script (ti_fd_in s2) = rd_script (ti_fd_in (set_rd_script s []))
       /\ msgid s2 = msgid s
       /\ (exists out, wire (ti_fd_out s2) = wire (ti_fd_out s) ++ out)
       /\ (status s2 = status s /\ term_reason s2 = term_reason s
           \/ status s2 = NC_STATUS_INVALID
              /\ term_reason s2 = NC_SESSION_TERM_DROPPED).
Proof.
  intros s. split.
  - eexists. split; [vm_compute; reflexivity|]. repeat split.
  - assert (Hf : nc_read_frame s = Some (Frame_malformed (set_rd_script s [])))
      by (vm_compute; reflexivity).
    exact (nc_read_msg_malformed_any_transport s (set_rd_script s []) eq_refl
             eq_refl eq_refl (or_introl Hf)).
Defined.

End ReaderEffectsExample.

Section ChunkCutShort.

Context {LY : LibYang}.

(** X17.  A chunk that is cut short.  In NETCONF 1.1, when a chunk header
    announces n bytes, for an n up to INT_MAX, and the peer closes after
    fewer, [nc_read_msg] returns NC_MSG_ERROR without data and the session
    is Invalid with the reason Dropped.  This is the label error, not
    malformed_msg: nothing is written, on a server-side session either, and
    what was read of the message is not handed over. *)
Theorem nc_read_msg_chunk_cut_short (s : nc_session) (n : Z)
    (part : list byte) (rest : list rd_event) :
  usable s -> ti_type s = NC_TI_FD -> version s = NC_VERSION_11 ->
  0 < n <= INT_MAX -> len part < n ->
  delivers (rd_script (ti_fd_in s)) (chunk_header n ++ part) rest ->
  rest = [] \/ (exists r', rest = RdData [] :: r') ->
  exists s',
    nc_read_msg s = Some (NC_MSG_ERROR, None, s')
    /\ status s' = NC_STATUS_INVALID
    /\ term_reason s' = NC_SESSION_TERM_DROPPED
    /\ ti_fd_out s' = ti_fd_out s.
Proof.
  intros Hu Hti Hv Hn Hlen Hd Hend.
  assert (Hul : 0 <= n <= ULONG_MAX) by (unfold INT_MAX, ULONG_MAX in *; lia).
  destruct (delivers_split _ _ _ _ Hd) as (mid & Hd1 & Hd2).
  rewrite chunk_header_split in Hd1 by exact Hul.
  assert (Hno : Forall (fun b => b <> LF) (utoa n)) by (apply utoa_no_LF; lia).
  assert (Htok : utoa n <> ["#"%byte]).
  { destruct (utoa_head n ltac:(lia)) as (d & tl & E & Hdig).
    rewrite E. intros H. injection H as -> _. discriminate Hdig. }
  set (s2 := set_rd_script s mid).
  assert (Hu2 : usable s2) by exact (usable_set_rd_script s mid Hu).
  assert (Hr : rr_ret (nc_read s2 n NC_READ_TIMEOUT) = -1
               /\ status (rr_session (nc_read s2 n NC_READ_TIMEOUT))
                  = NC_STATUS_INVALID
               /\ term_reason (rr_session (nc_read s2 n NC_READ_TIMEOUT))
                  = NC_SESSION_TERM_DROPPED).
  { unfold nc_read. rewrite Hu2.
    replace (n =? 0) with false by (symmetry; apply Z.eqb_neq; lia).
    change (rd_script (ti_fd_in s2)) with mid.
    pose proof (len_nonneg part) as Hpart.
    assert (Hend' : rest = [] \/ (exists r', rest = RdData [] :: r')
                    \/ (exists r', rest = RdError :: r'))
      by (destruct Hend as [He|He]; [now left|right; now left]).
    destruct (nc_read_loop_short mid rest part Hd2 Hend'
                s2 n 0 [] 0 NC_READ_TIMEOUT Hti ltac:(lia) ltac:(lia))
      as (H1 & H2 & H3).
    split; [exact H1|]. split; [exact H2|]. rewrite H3.
    destruct Hend as [->|(r' & ->)]; reflexivity. }
  destruct Hr as (Hr1 & Hr2 & Hr3).
  exists (rr_session (nc_read s2 n NC_READ_TIMEOUT)).
  split; [|split; [exact Hr2|split; [exact Hr3|]]].
  - unfold nc_read_msg. rewrite Hu. unfold nc_read_frame. rewrite Hv.
    rewrite (nc_read_msg_v11_header s (utoa n) mid NC_READ_TIMEOUT None _
               Hu Hti Hd1 Hno).
    cbv zeta.
    rewrite to_int_count
      by (rewrite len_app; pose proof (utoa_len n Hul);
          pose proof (len_nonneg (utoa n)); change (len [LF]) with 1;
          unfold INT_MAX; lia).
    rewrite (strcmp_not_end_of_chunks _ Htok Hno).
    rewrite (strtoul_utoa n [LF] Hul eq_refl).
    replace (n =? 0) with false by (symmetry; apply Z.eqb_neq; lia).
    fold s2. unfold nc_read_chunk, malloc_fails.
    replace (n =? 0) with false by (symmetry; apply Z.eqb_neq; lia).
    rewrite uint64_small by (unfold ULONG_MAX, INT_MAX in *; lia).
    replace (PTRDIFF_MAX <? n + 1) with false
      by (symmetry; apply Z.ltb_ge; unfold PTRDIFF_MAX, INT_MAX in *; lia).
    replace (n + 1 =? 0) with false by (symmetry; apply Z.eqb_neq; lia).
    rewrite Hr1. reflexivity.
  - pose proof (nc_read_read_from s2 n NC_READ_TIMEOUT)
      as (_ & _ & _ & _ & _ & H & _).
    exact H.
Qed.

End ChunkCutShort.

Section ChunkCutShortExample.

#[local] Existing Instance ExampleYang.

Lemma nc_read_msg_chunk_cut_short_witness :
  let s := session_on NC_VERSION_11 NC_SERVER
             [RdData ([LF] ++ bytes "#10" ++ [LF] ++ bytes "<rpc")] in
  exists s',
    nc_read_msg s = Some (NC_MSG_ERROR, None, s')
    /\ status s' = NC_STATUS_INVALID
    /\ term_reason s' = NC_SESSION_TERM_DROPPED
    /\ ti_fd_out s' = ti_fd_out s.
Proof.
  intros s.
  refine (nc_read_msg_chunk_cut_short s 10 (bytes "<rpc") [] eq_refl eq_refl
            eq_refl _ _ _ (or_introl eq_refl)).
  - split; [lia|vm_compute; discriminate].
  - vm_compute. reflexivity.
  - apply (delivers_one ([LF] ++ bytes "#10" ++ [LF] ++ bytes "<rpc") []).
    discriminate.
Defined.

End ChunkCutShortExample.

(** * What the message writer writes *)

Lemma call_ok_lit (s : string) (n : Z) :
  (0 <=? n) && (n <=? len (bytes s)) = true -> call_ok (lit s n).
Proof.
  intros H. apply andb_prop in H. destruct H as [H1 H2].
  apply Z.leb_le in H1. apply Z.leb_le in H2. split; assumption.
Qed.

Lemma call_bytes_lit (s : string) :
  call_bytes (lit s (len (bytes s))) = bytes s.
Proof. apply call_bytes_raw_len. Qed.

Lemma calls_bytes_element (open close : string) (no nc : Z) (s : list byte) :
  no = len (bytes open) -> nc = len (bytes close) ->
  calls_bytes [lit open no; str s true; lit close nc]
  = bytes open ++ escaped s ++ bytes close.
Proof.
  intros -> ->. unfold calls_bytes. cbn [flat_map].
  rewrite !call_bytes_lit, call_bytes_str, app_nil_r. reflexivity.
Qed.

Lemma call_ok_element (open close : string) (no nc : Z) (s : list byte) :
  no = len (bytes open) -> nc = len (bytes close) ->
  Forall call_ok [lit open no; str s true; lit close nc].
Proof.
  intros -> ->. repeat constructor; try apply call_ok_str;
    apply call_ok_raw_len.
Qed.

Lemma flat_map_app_cons {A : Type} (f g : A -> list byte) (l : list A) :
  (forall x, f x = g x) -> flat_map f l = flat_map g l.
Proof.
  intros H. induction l as [|x l IH]; [reflexivity|].
  cbn. now rewrite H, IH.
Qed.

Section ErrorWritten.

Context {LY : LibYang}.

Lemma nc_write_error_ok (err : nc_server_error) :
  Forall call_ok (nc_write_error err).
Proof.
  unfold nc_write_error.
  repeat (apply Forall_app; split).
  - repeat constructor; apply call_ok_lit; reflexivity.
  - repeat constructor; apply call_ok_lit; reflexivity.
  - constructor; [|constructor].
    destruct (err_type err); apply call_ok_lit; reflexivity.
  - repeat constructor; apply call_ok_lit; reflexivity.
  - repeat constructor; apply call_ok_lit; reflexivity.
  - constructor; [|constructor].
    destruct (err_tag err); apply call_ok_lit; reflexivity.
  - repeat constructor; apply call_ok_lit; reflexivity.
  - repeat constructor; apply call_ok_lit; reflexivity.
  - destruct (err_apptag err); [|constructor].
    apply call_ok_element; reflexivity.
  - destruct (err_path err); [|constructor].
    apply call_ok_element; reflexivity.
  - destruct (err_message err); [|constructor].
    repeat (apply Forall_app; split).
    + repeat constructor; apply call_ok_lit; reflexivity.
    + destruct (err_message_lang err); [|constructor].
      repeat constructor; try apply call_ok_str;
        try (cbn; lia); try (vm_compute; discriminate).
    + repeat constructor; try apply call_ok_str;
        apply call_ok_lit; reflexivity.
  - match goal with |- context [if ?c then _ else _] => destruct c end;
      [|constructor].
    repeat (apply Forall_app; split).
    + repeat constructor; apply call_ok_lit; reflexivity.
    + destruct (-1 <? err_sid err); [|constructor].
      repeat constructor; try apply call_ok_str;
        apply call_ok_lit; reflexivity.
    + apply Forall_flat_map. intros a. apply call_ok_element; reflexivity.
    + apply Forall_flat_map. intros a. apply call_ok_element; reflexivity.
    + apply Forall_flat_map. intros a. apply call_ok_element; reflexivity.
    + apply Forall_flat_map. intros o. apply call_ok_printed.
    + repeat constructor; apply call_ok_lit; reflexivity.
  - repeat constructor; apply call_ok_lit; reflexivity.
Qed.

End ErrorWritten.

Lemma app_eq2 {A : Type} (a a' b b' : list A) :
  a = a' -> b = b' -> a ++ b = a' ++ b'.
Proof. now intros -> ->. Qed.

Section ErrorBytes.

Context {LY : LibYang}.

Lemma has_error_info_eq (err : nc_server_error) :
  (-1 <? err_sid err)
  || negb (length (err_attr err) =? 0)%nat
  || negb (length (err_elem err) =? 0)%nat
  || negb (length (err_ns err) =? 0)%nat
  || negb (length (err_other err) =? 0)%nat
  = has_error_info err.
Proof.
  unfold has_error_info.
  destruct (-1 <? err_sid err), (err_attr err), (err_elem err), (err_ns err),
    (err_other err); reflexivity.
Qed.

Lemma nc_write_error_bytes (err : nc_server_error) :
  calls_bytes (nc_write_error err) = rpc_error_body err.
Proof.
  unfold nc_write_error, rpc_error_body.
  rewrite has_error_info_eq, !calls_bytes_app.
  apply app_eq2; [reflexivity|].
  apply app_eq2; [reflexivity|].
  apply app_eq2; [destruct (err_type err); reflexivity|].
  apply app_eq2; [reflexivity|].
  apply app_eq2; [reflexivity|].
  apply app_eq2; [destruct (err_tag err); reflexivity|].
  apply app_eq2; [reflexivity|].
  apply app_eq2; [reflexivity|].
  apply app_eq2.
  { destruct (err_apptag err); [|reflexivity].
    apply calls_bytes_element; reflexivity. }
  apply app_eq2.
  { destruct (err_path err); [|reflexivity].
    apply calls_bytes_element; reflexivity. }
  apply app_eq2.
  { destruct (err_message err) as [message|]; [|reflexivity].
    rewrite !calls_bytes_app.
    apply app_eq2; [reflexivity|].
    apply app_eq2.
    - destruct (err_message_lang err) as [lang|]; [|reflexivity].
      unfold calls_bytes. cbn [flat_map].
      rewrite call_bytes_str, app_nil_r. reflexivity.
    - unfold calls_bytes. cbn [flat_map].
      rewrite call_bytes_str, app_nil_r. reflexivity. }
  apply app_eq2; [|reflexivity].
  destruct (has_error_info err); [|reflexivity].
  unfold error_info. rewrite !calls_bytes_app, !calls_bytes_flat_map.
  apply app_eq2; [reflexivity|].
  rewrite <- !app_assoc.
  apply app_eq2.
  { destruct (-1 <? err_sid err); [|reflexivity].
    unfold calls_bytes. cbn [flat_map].
    rewrite call_bytes_str, app_nil_r.
    rewrite c_str_nul_free; [reflexivity|].
    apply nul_free_digits, utoa_all_digits.
    unfold uint32. apply Z.mod_pos_bound. reflexivity. }
  apply app_eq2.
  { apply flat_map_app_cons. intros a. apply calls_bytes_element; reflexivity. }
  apply app_eq2.
  { apply flat_map_app_cons. intros a. apply calls_bytes_element; reflexivity. }
  apply app_eq2.
  { apply flat_map_app_cons. intros a. apply calls_bytes_element; reflexivity. }
  apply app_eq2; [|reflexivity].
  apply flat_map_app_cons. intros o. apply calls_bytes_printed.
Qed.

Lemma reply_calls_ok (rpc_elem : option lyxml_elem) (reply : nc_server_reply) :
  Forall call_ok (reply_calls rpc_elem reply)
  /\ Forall call_ok (reply_end_calls rpc_elem).
Proof.
  unfold reply_calls, reply_end_calls. split.
  - repeat (apply Forall_app; split).
    + destruct (rpc_prefix rpc_elem);
        repeat constructor; try apply call_ok_str;
        apply call_ok_lit; reflexivity.
    + destruct rpc_elem.
      * apply Forall_app. split; [apply call_ok_printed|].
        repeat constructor; apply call_ok_lit; reflexivity.
      * repeat constructor; try (cbn; lia); vm_compute; discriminate.
    + destruct reply.
      * repeat constructor; apply call_ok_lit; reflexivity.
      * apply call_ok_printed.
      * apply Forall_flat_map. apply nc_write_error_ok.
      * constructor.
  - destruct (rpc_prefix rpc_elem);
      repeat constructor; try apply call_ok_str;
      apply call_ok_lit; reflexivity.
Qed.

Lemma reply_calls_bytes (rpc_elem : option lyxml_elem)
    (reply : nc_server_reply) :
  calls_bytes (reply_calls rpc_elem reply)
  = reply_start_tag rpc_elem ++ reply_content reply
  /\ calls_bytes (reply_end_calls rpc_elem)
     = bytes "</" ++ reply_name rpc_elem ++ bytes ">".
Proof.
  unfold reply_calls, reply_end_calls, reply_start_tag, reply_name. split.
  - rewrite !calls_bytes_app, <- !app_assoc.
    destruct (rpc_prefix rpc_elem) as [prefix|].
    + unfold calls_bytes at 1. cbn [flat_map].
      rewrite call_bytes_str, app_nil_r. cbn [call_bytes].
      change (call_bytes (lit "<" 1)) with (bytes "<").
      change (call_bytes (lit ":rpc-reply" 10)) with (bytes ":rpc-reply").
      rewrite <- !app_assoc.
      apply app_eq2; [reflexivity|]. apply app_eq2; [reflexivity|].
      apply app_eq2; [reflexivity|].
      apply app_eq2.
      * destruct rpc_elem; [|reflexivity].
        rewrite calls_bytes_app, calls_bytes_printed. reflexivity.
      * destruct reply; try reflexivity.
        -- apply calls_bytes_printed.
        -- rewrite calls_bytes_flat_map.
           apply flat_map_app_cons, nc_write_error_bytes.
    + change (calls_bytes [lit "<rpc-reply" 10])
        with (bytes "<" ++ bytes "rpc-reply").
      rewrite <- !app_assoc.
      apply app_eq2; [reflexivity|]. apply app_eq2; [reflexivity|].
      apply app_eq2.
      * destruct rpc_elem; [|reflexivity].
        rewrite calls_bytes_app, calls_bytes_printed. reflexivity.
      * destruct reply; try reflexivity.
        -- apply calls_bytes_printed.
        -- rewrite calls_bytes_flat_map.
           apply flat_map_app_cons, nc_write_error_bytes.
  - destruct (rpc_prefix rpc_elem) as [prefix|].
    + unfold calls_bytes. cbn [flat_map].
      rewrite call_bytes_str, app_nil_r. cbn [call_bytes].
      change (call_bytes (lit "</" 2)) with (bytes "</").
      change (call_bytes (lit ":rpc-reply>" 11))
        with (bytes ":rpc-reply" ++ bytes ">").
      rewrite <- !app_assoc. reflexivity.
    + reflexivity.
Qed.

End ErrorBytes.

Section RepliesWritten.

Context {LY : LibYang}.

(** X18.  A reply as [nc_write_msg] writes it.  On a transport without
    faults a reply of type ok, data or error goes out as one message, framed
    for the version of the session, and [nc_write_msg] returns 0.  The body
    is the start tag, the content and the end tag; the start and the end tag
    carry the same name, rpc-reply with the namespace prefix of the rpc that
    is answered when it has one; the start tag repeats the attributes of
    that rpc as libyang prints them; the content is the ok element, the data
    tree as libyang prints it, or the rpc-error elements one after the
    other. *)
Theorem nc_write_msg_reply (s : nc_session) (rpc_elem : option lyxml_elem)
    (reply : nc_server_reply) :
  healthy s -> reply <> NC_RPL_NOTIF ->
  exists s' frame,
    nc_write_msg s (Args_REPLY rpc_elem reply) = (0, s')
    /\ sent s frame s'
    /\ framed (version s) (reply_body rpc_elem reply) frame.
Proof.
  intros Hs Hty.
  rewrite nc_write_msg_reply_eq; [|exact (healthy_usable _ Hs)|exact Hty].
  destruct (reply_calls_ok rpc_elem reply) as [Hok1 Hok2].
  destruct (reply_calls_bytes rpc_elem reply) as [Hb1 Hb2].
  assert (Hw : staged_ok {| warg_session := s; warg_buf := [] |}).
  { split; [exact Hs|]. unfold warg_len. cbn [warg_buf]. cbv. discriminate. }
  destruct (nc_write_msg_flush_healthy
              {| warg_session := s; warg_buf := [] |}
              (reply_calls rpc_elem reply ++ reply_end_calls rpc_elem)
              Hw eq_refl ltac:(apply Forall_app; split; assumption))
    as (s' & frame & E & Hsent & Hframed).
  cbn [warg_session] in *.
  exists s', frame. split; [exact E|]. split; [exact Hsent|].
  rewrite calls_bytes_app, Hb1, Hb2, <- app_assoc in Hframed. exact Hframed.
Qed.

(** X19.  A reply of a type that [nc_write_msg] does not know (the default
    case of its switch on the reply type): it returns -1, but the start tag
    of the reply has gone out, closed as a whole message by the end of
    message of the session's version.  The session is still the one it was,
    but for the wire. *)
Theorem nc_write_msg_unknown_reply (s : nc_session)
    (rpc_elem : option lyxml_elem) :
  healthy s ->
  exists s' frame,
    nc_write_msg s (Args_REPLY rpc_elem NC_RPL_NOTIF) = (-1, s')
    /\ sent s frame s'
    /\ framed (version s) (reply_start_tag rpc_elem) frame.
Proof.
  intros Hs. unfold nc_write_msg. rewrite (healthy_usable _ Hs).
  destruct (reply_calls_ok rpc_elem NC_RPL_NOTIF) as [Hok1 _].
  destruct (reply_calls_bytes rpc_elem NC_RPL_NOTIF) as [Hb1 _].
  assert (Hw : staged_ok {| warg_session := s; warg_buf := [] |}).
  { split; [exact Hs|]. unfold warg_len. cbn [warg_buf]. cbv. discriminate. }
  destruct (nc_write_message_healthy
              {| warg_session := s; warg_buf := [] |}
              (reply_calls rpc_elem NC_RPL_NOTIF) Hw eq_refl Hok1)
    as (r & s' & frame & E & _ & Hsent & Hframed).
  cbn [warg_session] in *. rewrite E.
  exists s', frame. split; [reflexivity|]. split; [exact Hsent|].
  rewrite Hb1 in Hframed. cbn [reply_content] in Hframed.
  rewrite app_nil_r in Hframed. exact Hframed.
Qed.

(** X20.  An rpc-error as [nc_write_error] writes it.  Through the write
    callback, on a transport without faults and from any state of the
    staging buffer, the calls of [nc_write_error] add to the message exactly
    the text of the rpc-error element: the error type and tag by name, the
    severity error, then the application tag, the path and the message (with
    its language) if the error has them, each escaped, then the error-info
    element if the error has a session id above -1 or any bad attribute,
    element, namespace or other item, and the closing tag.  No literal is cut
    short by its count. *)
Theorem nc_write_error_written (err : nc_server_error) (w : wclb_arg) :
  staged_ok w ->
  exists blocks,
    staged_ok (nc_write_calls w (nc_write_error err))
    /\ sent (warg_session w) (on_wire (version (warg_session w)) blocks)
            (warg_session (nc_write_calls w (nc_write_error err)))
    /\ concat blocks ++ warg_buf (nc_write_calls w (nc_write_error err))
       = warg_buf w ++ rpc_error_body err.
Proof.
  intros Hw.
  destruct (nc_write_calls_healthy (nc_write_error err)
              (nc_write_error_ok err) w Hw) as (blocks & H1 & H2 & H3 & _).
  exists blocks. split; [exact H1|]. split; [exact H2|].
  rewrite H3, nc_write_error_bytes. reflexivity.
Qed.

End RepliesWritten.

Section RepliesWrittenExample.

#[local] Existing Instance ExampleYang.

Lemma nc_write_msg_reply_witness :
  let s := session_on NC_VERSION_10 NC_SERVER [] in
  let rpc := {| ex_name := bytes "rpc";
                ex_ns := Some {| ns_prefix := Some (bytes "nc");
                                 ns_value := NC_NS_BASE |} |} in
  (exists s', nc_write_msg s (Args_REPLY (Some rpc) NC_RPL_OK) = (0, s')
              /\ wire (ti_fd_out s')
                 = bytes "<nc:rpc-reply><ok/></nc:rpc-reply>]]>]]>")
  /\ exists s' frame,
       nc_write_msg s (Args_REPLY (Some rpc) NC_RPL_OK) = (0, s')
       /\ sent s frame s'
       /\ framed (version s) (reply_body (Some rpc) NC_RPL_OK) frame.
Proof.
  intros s rpc. split.
  - eexists. split; vm_compute; reflexivity.
  - exact (nc_write_msg_reply s (Some rpc) NC_RPL_OK
             (healthy_session_on _ _ _) ltac:(discriminate)).
Defined.

Lemma nc_write_msg_unknown_reply_witness :
  let s := session_on NC_VERSION_10 NC_SERVER [] in
  (exists s', nc_write_msg s (Args_REPLY None NC_RPL_NOTIF) = (-1, s')
              /\ wire (ti_fd_out s')
                 = bytes "<rpc-replyxmlns=" ++ [DQ] ++ NC_NS_BASE ++ [DQ]
                   ++ bytes ">]]>]]>")
  /\ exists s' frame,
       nc_write_msg s (Args_REPLY None NC_RPL_NOTIF) = (-1, s')
       /\ sent s frame s'
       /\ framed (version s) (reply_start_tag None) frame.
Proof.
  intros s. split.
  - eexists. split; vm_compute; reflexivity.
  - exact (nc_write_msg_unknown_reply s None (healthy_session_on _ _ _)).
Defined.

Lemma nc_write_error_written_witness :
  let w := {| warg_session := session_on NC_VERSION_11 NC_SERVER [];
              warg_buf := bytes "<rpc-reply>" |} in
  let err := {| err_type := NC_ERR_TYPE_APP; err_tag := NC_ERR_BAD_ELEM;
                err_apptag := None; err_path := Some (bytes "/a[b<1]");
                err_message := Some (bytes "no & no");
                err_message_lang := Some (bytes "en"); err_sid := 7;
                err_attr := []; err_elem := [bytes "b"]; err_ns := [];
                err_other := [] |} in
  staged_ok w
  /\ exists blocks,
       staged_ok (nc_write_calls w (nc_write_error err))
       /\ sent (warg_session w) (on_wire (version (warg_session w)) blocks)
               (warg_session (nc_write_calls w (nc_write_error err)))
       /\ concat blocks ++ warg_buf (nc_write_calls w (nc_write_error err))
          = warg_buf w ++ rpc_error_body err.
Proof.
  intros w err.
  assert (Hw : staged_ok w).
  { split; [apply healthy_session_on|vm_compute; discriminate]. }
  split; [exact Hw|]. exact (nc_write_error_written err w Hw).
Defined.

End RepliesWrittenExample.

(** ** Raw mode of the write callback *)

(** X21.  The write callback in raw mode, on a transport without faults,
    does one of three things with the count bytes it is handed.  When they
    fit into the staging buffer with what is staged, they are staged and
    nothing is written.  When they do not fit but are at most WRITE_BUFSIZE
    = 1024 bytes, what is staged goes out as one block (a chunk in NETCONF
    1.1) and they are staged in its place.  When they are more than 1024
    bytes, what is staged goes out first and then they go out directly, as
    one block of their own whatever their number, and nothing stays staged.
    The order of the bytes is kept in all three. *)
Theorem nc_write_clb_raw (w : wclb_arg) (buf : list byte) (count : Z) :
  staged_ok w -> 0 <= count <= len buf ->
  (warg_len w + count <= WRITE_BUFSIZE ->
   nc_write_clb w (Some buf) count false
   = (count, {| warg_session := warg_session w;
                warg_buf := warg_buf w ++ firstn (Z.to_nat count) buf |}))
  /\ (WRITE_BUFSIZE < warg_len w + count -> count <= WRITE_BUFSIZE ->
      exists r s',
        nc_write_clb w (Some buf) count false
        = (r, {| warg_session := s';
                 warg_buf := firstn (Z.to_nat count) buf |})
        /\ sent (warg_session w)
                (on_wire (version (warg_session w)) [warg_buf w]) s')
  /\ (WRITE_BUFSIZE < count ->
      exists r s',
        nc_write_clb w (Some buf) count false
        = (r, {| warg_session := s'; warg_buf := [] |})
        /\ sent (warg_session w)
                (on_wire (version (warg_session w))
                   (staged_block (warg_buf w)
                    ++ [firstn (Z.to_nat count) buf])) s').
Proof.
  intros [Hs Hlen] Hc. pose proof (len_nonneg (warg_buf w)) as Hpos.
  unfold warg_len in *. split; [|split].
  - intros Hfit. unfold nc_write_clb, warg_len.
    replace (WRITE_BUFSIZE <? len (warg_buf w) + count) with false
      by (symmetry; apply Z.ltb_ge; lia).
    rewrite andb_false_r. cbn [Z.eqb negb andb].
    replace (WRITE_BUFSIZE <? count) with false
      by (symmetry; apply Z.ltb_ge; lia).
    unfold stage. rewrite Z.add_0_l. reflexivity.
  - intros Hover Hsmall. unfold nc_write_clb, warg_len.
    replace (len (warg_buf w) =? 0) with false
      by (symmetry; apply Z.eqb_neq; lia).
    replace (WRITE_BUFSIZE <? len (warg_buf w) + count) with true
      by (symmetry; apply Z.ltb_lt; lia).
    cbn [negb andb].
    destruct (nc_write_clb_flush_healthy w (conj Hs Hlen))
      as (ret & s' & -> & Hret & Hsent).
    replace (ret =? -1) with false by (symmetry; apply Z.eqb_neq; lia).
    replace (WRITE_BUFSIZE <? count) with false
      by (symmetry; apply Z.ltb_ge; lia).
    cbn [negb andb]. unfold stage. cbn [warg_session warg_buf app].
    exists (ret + count), s'. split; [reflexivity|].
    destruct (warg_buf w) as [|b l] eqn:Eb;
      [unfold len in Hover; cbn [length Z.of_nat] in Hover; lia|].
    exact Hsent.
  - intros Hbig. unfold nc_write_clb.
    assert (Hdump : exists c1 s1,
              (if negb (warg_len w =? 0)
                  && (WRITE_BUFSIZE <? warg_len w + count)
               then nc_write_clb_flush w else (0, w))
              = (c1, {| warg_session := s1; warg_buf := [] |})
              /\ 0 <= c1
              /\ sent (warg_session w)
                      (on_wire (version (warg_session w))
                         (staged_block (warg_buf w))) s1).
    { unfold warg_len. destruct (len (warg_buf w) =? 0) eqn:E0.
      - apply Z.eqb_eq, len_0 in E0. cbn [negb andb].
        exists 0, (warg_session w). destruct w as [sw bw]. cbn in *. subst bw.
        split; [reflexivity|]. split; [lia|].
        destruct (version sw); apply sent_nil; exact Hs.
      - replace (WRITE_BUFSIZE <? len (warg_buf w) + count) with true
          by (symmetry; apply Z.ltb_lt; lia).
        cbn [negb andb]. apply nc_write_clb_flush_healthy.
        split; [exact Hs|exact Hlen]. }
    destruct Hdump as (c1 & s1 & -> & Hc1 & Hsent1).
    replace (c1 =? -1) with false by (symmetry; apply Z.eqb_neq; lia).
    replace (WRITE_BUFSIZE <? count) with true
      by (symmetry; apply Z.ltb_lt; lia).
    cbn [negb andb warg_session warg_buf].
    destruct (nc_write_starttag_and_msg_healthy s1 buf count
                (sent_healthy _ _ _ Hs Hsent1) Hc)
      as (ret & s2 & -> & Hret & Hsent2).
    exists (if ret =? -1 then -1 else c1 + ret), s2.
    split; [now destruct (ret =? -1)|].
    rewrite on_wire_app. rewrite (sent_version _ _ _ Hsent1) in Hsent2.
    exact (sent_trans _ _ _ _ _ Hsent1 Hsent2).
Qed.

Lemma nc_write_clb_raw_witness :
  let w := {| warg_session := session_on NC_VERSION_11 NC_SERVER [];
              warg_buf := bytes "<data>" |} in
  let buf := repeat "x"%byte 2000 in
  (staged_ok w /\ 0 <= 2000 <= len buf)
  /\ exists r s',
       nc_write_clb w (Some buf) 2000 false
       = (r, {| warg_session := s'; warg_buf := [] |})
       /\ sent (warg_session w)
               (on_wire (version (warg_session w))
                  (staged_block (warg_buf w)
                   ++ [firstn (Z.to_nat 2000) buf])) s'.
Proof.
  intros w buf.
  assert (Hw : staged_ok w).
  { split; [apply healthy_session_on|vm_compute; discriminate]. }
  assert (Hc : 0 <= 2000 <= len buf)
    by (split; [lia|vm_compute; discriminate]).
  split; [split; assumption|].
  apply (proj2 (proj2 (nc_write_clb_raw w buf 2000 Hw Hc))).
  vm_compute. reflexivity.
Defined.

(** * What a read returns *)

Section ReadResults.

Context {LY : LibYang}.

Lemma nc_classify_result (s : nc_session) (msg : list byte) :
  (exists s', nc_classify s msg = (NC_MSG_ERROR, None, s'))
  \/ exists t d,
       nc_classify s msg = (t, Some d, s)
       /\ (t = NC_MSG_HELLO \/ t = NC_MSG_RPC \/ t = NC_MSG_REPLY
           \/ t = NC_MSG_NOTIF).
Proof.
  unfold nc_classify.
  destruct (lyxml_parse_mem (c_str msg)) as [data|];
    [|left; apply read_malformed_msg_error].
  destruct (elem_ns data) as [ns|]; [|left; apply read_malformed_msg_error].
  repeat match goal with
         | |- context [if ?c then _ else _] => destruct c
         end;
    try (left; apply read_malformed_msg_error);
    right; eexists; eexists; (split; [reflexivity|]); tauto.
Qed.

(** X22.  What [nc_read_msg] returns.  It always returns, and it returns
    one of five message types: NC_MSG_ERROR without data, or NC_MSG_HELLO,
    NC_MSG_RPC, NC_MSG_REPLY or NC_MSG_NOTIF with the parsed tree.  It never
    returns NC_MSG_WOULDBLOCK: when the input runs dry inside a message the
    outcome is NC_MSG_ERROR, after the read budget. *)
Theorem nc_read_msg_result (s : nc_session) :
  exists t data s',
    nc_read_msg s = Some (t, data, s')
    /\ (t = NC_MSG_ERROR /\ data = None
        \/ (t = NC_MSG_HELLO \/ t = NC_MSG_RPC \/ t = NC_MSG_REPLY
            \/ t = NC_MSG_NOTIF)
           /\ exists d, data = Some d).
Proof.
  unfold nc_read_msg. destruct (not_usable s).
  { exists NC_MSG_ERROR, None, s. split; [reflexivity|now left]. }
  destruct (nc_read_frame_total s) as (fr & ->).
  destruct fr as [msg s1|s1|s1].
  - destruct (nc_classify_result s1 msg) as [(s' & E)|(t & d & E & Ht)];
      rewrite E.
    + exists NC_MSG_ERROR, None, s'. split; [reflexivity|now left].
    + exists t, (Some d), s1. split; [reflexivity|]. right.
      split; [exact Ht|now exists d].
  - destruct (read_malformed_msg_error s1) as (s' & E). rewrite E.
    exists NC_MSG_ERROR, None, s'. split; [reflexivity|now left].
  - exists NC_MSG_ERROR, None, s1. split; [reflexivity|now left].
Qed.

Lemma nc_read_msg_not_wouldblock (s s' : nc_session) (t : NC_MSG_TYPE)
    (data : option lyxml_elem) :
  nc_read_msg s = Some (t, data, s') -> t <> NC_MSG_WOULDBLOCK.
Proof.
  intros Hrun. destruct (nc_read_msg_total s) as (res & E).
  unfold nc_read_msg in Hrun. destruct (not_usable s).
  { injection Hrun as <- _ _. discriminate. }
  destruct (nc_read_frame s) as [fr|]; [|discriminate].
  destruct fr as [msg s1|s1|s1].
  - destruct (nc_classify_result s1 msg) as [(s2 & E2)|(t2 & d & E2 & Ht)];
      rewrite E2 in Hrun; injection Hrun as <- _ _; [discriminate|].
    destruct Ht as [->|[->|[->| ->]]]; discriminate.
  - destruct (read_malformed_msg_error s1) as (s2 & E2). rewrite E2 in Hrun.
    injection Hrun as <- _ _. discriminate.
  - injection Hrun as <- _ _. discriminate.
Qed.

(** X23.  [nc_read_msg_poll] on a session on file descriptors that can be
    read from.  A poll that fails makes the session Invalid with the reason
    Other; a descriptor that poll shows hung up makes it Invalid with the
    reason Dropped, also when the error bit is set as well; the error bit
    alone gives the reason Other; in all three NC_MSG_ERROR is returned and
    no input is read.  A poll that times out gives NC_MSG_WOULDBLOCK and
    leaves the session as it is.  Otherwise the outcome is that of
    [nc_read_msg].  NC_MSG_WOULDBLOCK is returned in no other case: it
    stands for a poll that timed out, with no byte read and the session
    unchanged. *)
Theorem nc_read_msg_poll_cases (s : nc_session) (answer : poll_answer) :
  usable s -> ti_type s = NC_TI_FD ->
  (poll_ret answer < 0 ->
   nc_read_msg_poll s answer
   = Some (NC_MSG_ERROR, None,
           set_status s NC_STATUS_INVALID NC_SESSION_TERM_OTHER))
  /\ (0 <= poll_ret answer -> revents_hup answer = true ->
      nc_read_msg_poll s answer
      = Some (NC_MSG_ERROR, None,
              set_status s NC_STATUS_INVALID NC_SESSION_TERM_DROPPED))
  /\ (0 <= poll_ret answer -> revents_hup answer = false ->
      revents_err answer = true ->
      nc_read_msg_poll s answer
      = Some (NC_MSG_ERROR, None,
              set_status s NC_STATUS_INVALID NC_SESSION_TERM_OTHER))
  /\ (poll_ret answer = 0 -> revents_hup answer = false ->
      revents_err answer = false ->
      nc_read_msg_poll s answer = Some (NC_MSG_WOULDBLOCK, None, s))
  /\ (0 < poll_ret answer -> revents_hup answer = false ->
      revents_err answer = false ->
      nc_read_msg_poll s answer = nc_read_msg s)
  /\ (forall data s',
        nc_read_msg_poll s answer = Some (NC_MSG_WOULDBLOCK, data, s') ->
        poll_ret answer = 0 /\ data = None /\ s' = s).
Proof.
  intros Hu Hti. unfold nc_read_msg_poll, nc_read_poll. rewrite Hu, Hti.
  destruct (poll_ret answer <? 0) eqn:Eneg;
    destruct (revents_hup answer), (revents_err answer);
    destruct (poll_ret answer =? 0) eqn:E0;
    cbn [Z.eqb Z.ltb Z.compare]; rewrite ?Eneg, ?E0;
    pose proof (Z.ltb_spec (poll_ret answer) 0) as Hn; rewrite Eneg in Hn;
    pose proof (Z.eqb_spec (poll_ret answer) 0) as Hz; rewrite E0 in Hz;
    inversion Hn; inversion Hz;
    repeat split; intros; try reflexivity; try discriminate; try lia;
    try congruence;
    match goal with
    | H : nc_read_msg _ = Some (NC_MSG_WOULDBLOCK, _, _) |- _ =>
        now destruct (nc_read_msg_not_wouldblock _ _ _ _ H)
    end.
Qed.

End ReadResults.

Section ReadResultsExample.

#[local] Existing Instance ExampleYang.

(** X23 at work: the descriptor is hung up and in error, and input is
    there. *)
Lemma nc_read_msg_poll_cases_witness :
  let s := session_on NC_VERSION_10 NC_SERVER [RdData (bytes "<rpc/>]]>]]>")] in
  let answer := {| poll_ret := 1; revents_hup := true; revents_err := true |} in
  nc_read_msg_poll s answer
  = Some (NC_MSG_ERROR, None,
          set_status s NC_STATUS_INVALID NC_SESSION_TERM_DROPPED).
Proof.
  intros s answer.
  destruct (nc_read_msg_poll_cases s answer eq_refl eq_refl)
    as (_ & H & _).
  apply H; [simpl; lia|reflexivity].
Defined.

End ReadResultsExample.

(** * Messages there and back *)

Lemma gt_free_after_weaken (l : list byte) (p : bool) :
  tag_safe l = true -> gt_free_after p l = true.
Proof.
  unfold tag_safe. destruct l as [|b l]; [reflexivity|]. cbn [gt_free_after].
  destruct (Byte.eqb b ">"%byte); [discriminate|auto].
Qed.

Lemma gt_free_after_app (a b : list byte) :
  forall p, gt_free_after p a = true -> tag_safe b = true ->
            gt_free_after p (a ++ b) = true.
Proof.
  induction a as [|x a IH]; intros p Ha Hb; cbn [app].
  - now apply gt_free_after_weaken.
  - cbn [gt_free_after] in *. destruct (Byte.eqb x ">"%byte).
    + apply andb_prop in Ha. destruct Ha as [-> Ha]. cbn [andb]. auto.
    + auto.
Qed.

Lemma tag_safe_app (a b : list byte) :
  tag_safe a = true -> tag_safe b = true -> tag_safe (a ++ b) = true.
Proof. apply gt_free_after_app. Qed.

Lemma tag_safe_flat_map {A : Type} (f : A -> list byte) (l : list A) :
  (forall x, tag_safe (f x) = true) -> tag_safe (flat_map f l) = true.
Proof.
  intros H. induction l as [|x l IH]; [reflexivity|].
  cbn [flat_map]. now apply tag_safe_app.
Qed.

Lemma tag_safe_escape (text : list byte) : tag_safe (xml_escape text) = true.
Proof.
  apply tag_safe_flat_map. intros ch. unfold xml_escape_char.
  destruct (Byte.eqb ch "&"%byte); [reflexivity|].
  destruct (Byte.eqb ch "<"%byte); [reflexivity|].
  destruct (Byte.eqb ch ">"%byte) eqn:E; [reflexivity|].
  unfold tag_safe. cbn [gt_free_after]. now rewrite E.
Qed.

Lemma tag_safe_digits (l : list byte) :
  Forall (fun b => is_digit b = true) l -> tag_safe l = true.
Proof.
  intros H. unfold tag_safe.
  assert (Hall : forall p, gt_free_after p l = true); [|apply Hall].
  induction H as [|b l Hb _ IH]; intros p; [reflexivity|].
  cbn [gt_free_after].
  destruct (Byte.eqb b ">"%byte) eqn:E; [|apply IH].
  apply byte_eqb_eq in E. subst b. discriminate Hb.
Qed.

Lemma gt_free_after_bracket_gt (pre post : list byte) :
  forall p, gt_free_after p (pre ++ "]"%byte :: ">"%byte :: post) = false.
Proof.
  induction pre as [|x pre IH]; intros p; cbn [app gt_free_after].
  - reflexivity.
  - destruct (Byte.eqb x ">"%byte); [|apply IH].
    rewrite IH. apply andb_false_r.
Qed.

Lemma tag_safe_first_at_end (body : list byte) :
  tag_safe body = true -> first_at_end NC_VERSION_10_ENDTAG body.
Proof.
  intros Hsafe. apply first_at_end_endtag.
  - intros (pre & post & E). subst body.
    change (pre ++ NC_VERSION_10_ENDTAG ++ post)
      with (pre ++ "]"%byte :: ("]"%byte :: ">"%byte :: bytes "]]>" ++ post))
      in Hsafe.
    change (pre ++ "]"%byte :: "]"%byte :: ">"%byte :: bytes "]]>" ++ post)
      with (pre ++ ["]"%byte] ++ "]"%byte :: ">"%byte :: bytes "]]>" ++ post)
      in Hsafe.
    rewrite app_assoc in Hsafe. unfold tag_safe in Hsafe.
    rewrite gt_free_after_bracket_gt in Hsafe. discriminate.
  - intros (pre & E). subst body.
    change (pre ++ bytes "]]>")
      with (pre ++ ["]"%byte] ++ "]"%byte :: ">"%byte :: []) in Hsafe.
    rewrite app_assoc in Hsafe. unfold tag_safe in Hsafe.
    rewrite gt_free_after_bracket_gt in Hsafe. discriminate.
Qed.

Lemma hello_body_safe (capabilities : list (list byte)) (sid : option Z) :
  tag_safe (hello_body capabilities sid) = true.
Proof.
  unfold hello_body. rewrite !app_assoc. rewrite <- app_assoc.
  apply tag_safe_app; [reflexivity|].
  apply tag_safe_app.
  - apply tag_safe_flat_map. intros c.
    apply tag_safe_app; [reflexivity|].
    apply tag_safe_app; [apply tag_safe_escape|reflexivity].
  - destruct sid as [sid|]; [|reflexivity].
    apply tag_safe_app; [reflexivity|].
    apply tag_safe_app; [|reflexivity].
    apply tag_safe_digits, utoa_all_digits.
    unfold uint32. apply Z.mod_pos_bound. reflexivity.
Qed.

Section ThereAndBack.

Context {LY : LibYang}.

(** X24.  A hello comes back whatever its capabilities hold.  On a NETCONF
    1.0 session with a transport without faults, the hello that
    [nc_write_msg] writes, with any capabilities and with or without a
    session id, is read by the peer's [nc_read_msg] as exactly its body,
    however the bytes are cut into reads, as long as the body and the end
    tag together have a length that an int holds: the capabilities go out
    escaped and no other part of the body holds a right angle bracket after
    a right square bracket, so the body cannot hold the end tag or run into
    it. *)
Theorem nc_write_msg_hello_roundtrip (sw : nc_session)
    (capabilities : list (list byte)) (sid : option Z) :
  healthy sw -> version sw = NC_VERSION_10 ->
  len (hello_body capabilities sid ++ NC_VERSION_10_ENDTAG) <= INT_MAX ->
  exists sw' frame,
    nc_write_msg sw (Args_HELLO capabilities sid) = (0, sw')
    /\ wire (ti_fd_out sw') = wire (ti_fd_out sw) ++ frame
    /\ forall sr rest,
         usable sr -> ti_type sr = NC_TI_FD -> version sr = NC_VERSION_10 ->
         delivers (rd_script (ti_fd_in sr)) frame rest ->
         nc_read_frame sr
         = Some (Frame_msg (hello_body capabilities sid)
                           (set_rd_script sr rest))
         /\ nc_read_msg sr
            = Some (nc_classify (set_rd_script sr rest)
                                (hello_body capabilities sid)).
Proof.
  intros Hs Hv Hmax. unfold nc_write_msg.
  pose proof (healthy_usable _ Hs) as Hu. unfold usable in Hu.
  rewrite Hu, Hv.
  destruct (nc_write_msg_flush_healthy
              {| warg_session := sw; warg_buf := [] |}
              (hello_calls capabilities sid))
    as (sw' & frame & -> & Hsent & Hframed);
    [split; [exact Hs | cbv; discriminate] | reflexivity
    | apply hello_calls_ok |].
  cbn [warg_session] in *. rewrite Hv in Hframed.
  apply framed_v10 in Hframed. rewrite hello_calls_bytes in Hframed.
  subst frame. exists sw', (hello_body capabilities sid ++ NC_VERSION_10_ENDTAG).
  split; [reflexivity|]. split; [apply sent_fields in Hsent; tauto|].
  intros sr rest Hur Hfd Hvr Hd.
  assert (Hframe : nc_read_frame sr
                   = Some (Frame_msg (hello_body capabilities sid)
                                     (set_rd_script sr rest))).
  { apply nc_read_frame_v10; try assumption.
    apply tag_safe_first_at_end, hello_body_safe. }
  split; [exact Hframe|].
  unfold nc_read_msg. rewrite Hur, Hframe. reflexivity.
Qed.

Lemma message_body_nonempty (s : nc_session) (args : nc_msg_args) :
  sendable s args -> message_body s args <> [].
Proof.
  destruct args as [content attrs|rpc_elem reply|notif|caps sid|type];
    cbn [sendable message_body]; intros Hs; try discriminate.
  now destruct Hs.
Qed.

Lemma nc_write_msg_healthy (s : nc_session) (args : nc_msg_args) :
  healthy s -> sendable s args ->
  exists s' frame,
    nc_write_msg s args = (0, s')
    /\ wire (ti_fd_out s') = wire (ti_fd_out s) ++ frame
    /\ framed (version s) (message_body s args) frame.
Proof.
  intros Hs Hok.
  assert (Hw : staged_ok {| warg_session := s; warg_buf := [] |}).
  { split; [exact Hs|]. unfold warg_len. cbn [warg_buf]. cbv. discriminate. }
  destruct args as [content attrs|rpc_elem reply|notif|caps sid|type];
    cbn [sendable message_body] in *.
  - destruct (nc_write_msg_rpc_healthy s content attrs Hs)
      as (s' & frame & E & _ & Hsent & Hframed).
    exists s', frame. split; [exact E|]. split; [|exact Hframed].
    apply sent_fields in Hsent. cbn in Hsent. tauto.
  - rewrite nc_write_msg_reply_eq; [|exact (healthy_usable _ Hs)|exact Hok].
    destruct (reply_calls_ok rpc_elem reply) as [Hok1 Hok2].
    destruct (reply_calls_bytes rpc_elem reply) as [Hb1 Hb2].
    destruct (nc_write_msg_flush_healthy
                {| warg_session := s; warg_buf := [] |}
                (reply_calls rpc_elem reply ++ reply_end_calls rpc_elem)
                Hw eq_refl ltac:(apply Forall_app; split; assumption))
      as (s' & frame & E & Hsent & Hframed).
    cbn [warg_session] in *.
    exists s', frame. split; [exact E|].
    split; [apply sent_fields in Hsent; tauto|].
    rewrite calls_bytes_app, Hb1, Hb2, <- app_assoc in Hframed. exact Hframed.
  - destruct (nc_write_msg_notif_healthy s notif Hs)
      as (s' & frame & E & Hsent & Hframed).
    exists s', frame. split; [exact E|]. split; [|exact Hframed].
    apply sent_fields in Hsent. tauto.
  - unfold nc_write_msg.
    pose proof (healthy_usable _ Hs) as Hu. unfold usable in Hu.
    rewrite Hu, Hok.
    destruct (nc_write_msg_flush_healthy
                {| warg_session := s; warg_buf := [] |}
                (hello_calls caps sid) Hw eq_refl (hello_calls_ok caps sid))
      as (s' & frame & -> & Hsent & Hframed).
    cbn [warg_session] in *. rewrite hello_calls_bytes, Hok in Hframed.
    exists s', frame. split; [reflexivity|].
    split; [apply sent_fields in Hsent; tauto|exact Hframed].
  - destruct Hok.
Qed.

(** X25.  A message of NETCONF 1.1 comes back whatever it holds.  On a
    NETCONF 1.1 session with a transport without faults, whatever
    [nc_write_msg] writes for an rpc, a reply or a notification, of a length
    that an int holds, is read by the peer's reader as exactly the body that
    was written, however the bytes are cut into reads and whatever the body
    holds: the chunks carry their length, so no content can be taken for the
    end of the message. *)
Theorem nc_write_msg_v11_roundtrip (sw : nc_session) (args : nc_msg_args) :
  healthy sw -> version sw = NC_VERSION_11 -> sendable sw args ->
  len (message_body sw args) <= INT_MAX ->
  exists sw' frame,
    nc_write_msg sw args = (0, sw')
    /\ wire (ti_fd_out sw') = wire (ti_fd_out sw) ++ frame
    /\ forall sr rest,
         usable sr -> ti_type sr = NC_TI_FD -> version sr = NC_VERSION_11 ->
         delivers (rd_script (ti_fd_in sr)) frame rest ->
         nc_read_frame sr
         = Some (Frame_msg (message_body sw args) (set_rd_script sr rest))
         /\ nc_read_msg sr
            = Some (nc_classify (set_rd_script sr rest)
                                (message_body sw args)).
Proof.
  intros Hs Hv Hok Hmax.
  destruct (nc_write_msg_healthy sw args Hs Hok)
    as (sw' & frame & E & Hwire & Hframed).
  exists sw', frame. split; [exact E|]. split; [exact Hwire|].
  intros sr rest Hur Hfd Hvr Hd.
  rewrite Hv in Hframed. destruct Hframed as (blocks & Hne & Hcat & ->).
  assert (Hframe : nc_read_frame sr
                   = Some (Frame_msg (message_body sw args)
                                     (set_rd_script sr rest))).
  { rewrite <- Hcat in *. apply nc_read_frame_v11; try assumption.
    - now apply chunk_ok_blocks.
    - intros ->. apply (message_body_nonempty sw args Hok).
      rewrite <- Hcat. reflexivity. }
  split; [exact Hframe|].
  unfold nc_read_msg. rewrite Hur, Hframe. reflexivity.
Qed.

End ThereAndBack.

Section ThereAndBackExample.

#[local] Existing Instance ExampleYang.

(** X24 at work: a capability that holds the end tag. *)
Lemma nc_write_msg_hello_roundtrip_witness :
  let sw := session_on NC_VERSION_10 NC_SERVER [] in
  let caps := [bytes "urn:ietf:params:netconf:base:1.0"; bytes "a]]>]]>b"] in
  exists sw' frame,
    nc_write_msg sw (Args_HELLO caps (Some 7)) = (0, sw')
    /\ wire (ti_fd_out sw') = wire (ti_fd_out sw) ++ frame
    /\ forall sr rest,
         usable sr -> ti_type sr = NC_TI_FD -> version sr = NC_VERSION_10 ->
         delivers (rd_script (ti_fd_in sr)) frame rest ->
         nc_read_frame sr
         = Some (Frame_msg (hello_body caps (Some 7)) (set_rd_script sr rest))
         /\ nc_read_msg sr
            = Some (nc_classify (set_rd_script sr rest)
                                (hello_body caps (Some 7))).
Proof.
  intros sw caps.
  refine (nc_write_msg_hello_roundtrip sw caps (Some 7)
            (healthy_session_on _ _ _) eq_refl _).
  vm_compute. discriminate.
Defined.

(** X25 at work: a notification whose tree holds the end of chunks. *)
Lemma nc_write_msg_v11_roundtrip_witness :
  let sw := session_on NC_VERSION_11 NC_SERVER [] in
  let args := Args_NOTIF {| eventtime := bytes "2016-01-01T00:00:00Z";
                            tree := [bytes "<e>"; [LF; "#"%byte; "#"%byte; LF];
                                     bytes "</e>"] |} in
  exists sw' frame,
    nc_write_msg sw args = (0, sw')
    /\ wire (ti_fd_out sw') = wire (ti_fd_out sw) ++ frame
    /\ forall sr rest,
         usable sr -> ti_type sr = NC_TI_FD -> version sr = NC_VERSION_11 ->
         delivers (rd_script (ti_fd_in sr)) frame rest ->
         nc_read_frame sr
         = Some (Frame_msg (message_body sw args) (set_rd_script sr rest))
         /\ nc_read_msg sr
            = Some (nc_classify (set_rd_script sr rest)
                                (message_body sw args)).
Proof.
  intros sw args.
  refine (nc_write_msg_v11_roundtrip sw args (healthy_session_on _ _ _)
            eq_refl I _).
  vm_compute. discriminate.
Defined.

End ThereAndBackExample.

(** * The read budget of a message *)

Lemma nc_read_loop_agains (k : nat) :
  forall s evs count readd buf sc t,
    ti_type s = NC_TI_FD -> readd < count ->
    0 <= sc -> sc + Z.of_nat k < 1000 -> t <> 0 ->
    nc_read_loop s (repeat RdAgain k ++ evs) count readd buf sc t
    = nc_read_loop s evs count readd buf (sc + Z.of_nat k) t.
Proof.
  induction k as [|k IH]; intros s evs count readd buf sc t Hti Hrd Hsc Hk Ht.
  - cbn [repeat app Z.of_nat]. now rewrite Z.add_0_r.
  - cbn [repeat app nc_read_loop]. rewrite Hti, sleep_step.
    unfold uint16. rewrite (Z.mod_small (sc + 1)) by lia.
    replace (1000 =? sc + 1) with false by (symmetry; apply Z.eqb_neq; lia).
    replace (t =? 0) with false by (symmetry; apply Z.eqb_neq; lia).
    replace (readd <? count) with true by (symmetry; apply Z.ltb_lt; lia).
    rewrite IH by (assumption || lia). f_equal; lia.
Qed.

(** One byte that comes after a full second: the read takes a second off
    the budget, or fails when that was the last second. *)
Lemma nc_read_slow_byte (s : nc_session) (b : byte) (evs : list rd_event)
    (t : Z) :
  usable s -> ti_type s = NC_TI_FD -> 0 < t < 2 ^ 16 ->
  rd_script (ti_fd_in s) = slow_byte b ++ evs ->
  (1 < t ->
   nc_read s 1 t
   = {| rr_ret := 1; rr_buf := [b]; rr_timeout := t - 1;
        rr_session := set_rd_script s evs |})
  /\ (t = 1 ->
      rr_ret (nc_read s 1 t) = -1
      /\ status (rr_session (nc_read s 1 t)) = NC_STATUS_INVALID
      /\ term_reason (rr_session (nc_read s 1 t)) = NC_SESSION_TERM_OTHER).
Proof.
  intros Hu Hti Ht Hs. unfold nc_read. rewrite Hu, Hs. cbn [Z.eqb].
  unfold slow_byte. rewrite sleep_step.
  change (Z.to_nat 1000) with (S 999).
  replace (repeat RdAgain (S 999)) with (repeat RdAgain 999 ++ [RdAgain])
    by (rewrite <- repeat_cons; reflexivity).
  rewrite <- !app_assoc.
  rewrite (nc_read_loop_agains 999 s _ 1 0 [] 0 t Hti) by lia.
  cbn [app nc_read_loop]. rewrite Hti, sleep_step.
  change (uint16 (0 + Z.of_nat 999 + 1)) with 1000. cbn [Z.eqb Pos.eqb].
  unfold uint16. rewrite (Z.mod_small (t - 1)) by lia.
  split.
  - intros H1.
    replace (t - 1 =? 0) with false by (symmetry; apply Z.eqb_neq; lia).
    reflexivity.
  - intros ->. repeat split.
Qed.

Lemma stream_size_app (a b : list rd_event) :
  stream_size (a ++ b) = (stream_size a + stream_size b)%nat.
Proof.
  induction a as [|[bs| | |] a IH]; cbn [app stream_size]; lia.
Qed.

Lemma stream_size_slow (bs : list byte) :
  (length bs <= stream_size (flat_map slow_byte bs))%nat.
Proof.
  induction bs as [|b bs IH]; [cbn; lia|].
  cbn [flat_map length]. rewrite stream_size_app.
  assert (H : (1 <= stream_size (slow_byte b))%nat).
  { unfold slow_byte. rewrite stream_size_app. cbn [stream_size]. lia. }
  lia.
Qed.

Lemma endtag_check_last (pre_e : list byte) (last b : byte)
    (chunk : list byte) :
  nul_free (pre_e ++ [last]) = true -> b <> last ->
  (Z.of_nat (strlen (pre_e ++ [last])) <=? len chunk + 1)
  && (strncmp (pre_e ++ [last])
        (skipn (Z.to_nat (len chunk + 1 - Z.of_nat (strlen (pre_e ++ [last]))))
               (chunk ++ [b]))
        (strlen (pre_e ++ [last])) =? 0)
  = false.
Proof.
  intros Hnf Hb. rewrite strlen_nul_free by exact Hnf.
  destruct (Z.of_nat (length (pre_e ++ [last])) <=? len chunk + 1) eqn:E;
    [|reflexivity].
  apply Z.leb_le in E. cbn [andb]. apply Z.eqb_neq. intros H0.
  apply (strncmp_0_iff _ _ Hnf) in H0.
  assert (Hl : len chunk + 1 = len (chunk ++ [b]))
    by (rewrite len_app; reflexivity).
  rewrite Hl in *. unfold len in *.
  set (k := Z.to_nat (Z.of_nat (length (chunk ++ [b]))
                      - Z.of_nat (length (pre_e ++ [last])))) in *.
  rewrite firstn_all2 in H0 by (rewrite length_skipn; lia).
  pose proof (firstn_skipn k (chunk ++ [b])) as Hfs.
  rewrite H0, app_assoc in Hfs.
  apply app_inj_tail in Hfs. destruct Hfs as [_ Hfs]. now apply Hb.
Qed.

Lemma nc_read_until_loop_slow_fails (pre_e : list byte) (last : byte) :
  nul_free (pre_e ++ [last]) = true ->
  forall bs chunk t fuel s evs,
    usable s -> ti_type s = NC_TI_FD -> 0 < t < 2 ^ 16 ->
    Forall (fun b => b <> last) bs ->
    rd_script (ti_fd_in s) = flat_map slow_byte bs ++ evs ->
    t <= len bs -> (Z.to_nat t <= fuel)%nat ->
    exists r,
      nc_read_until_loop fuel s (pre_e ++ [last]) 0 t chunk (len chunk)
      = Some r
      /\ rr_ret r = -1
      /\ status (rr_session r) = NC_STATUS_INVALID
      /\ term_reason (rr_session r) = NC_SESSION_TERM_OTHER.
Proof.
  intros Hnf.
  induction bs as [|b bs IH]; intros chunk t fuel s evs Hu Hti Ht Hno Hs Hlen
                                     Hfuel.
  { cbn in Hlen. lia. }
  destruct fuel as [|fuel]; [lia|].
  cbn [flat_map] in Hs. rewrite <- app_assoc in Hs.
  destruct (nc_read_slow_byte s b _ t Hu Hti Ht Hs) as [Hgo Hstop].
  cbn [nc_read_until_loop]. cbn [Z.eqb negb andb].
  destruct (Z.eq_dec t 1) as [E1|E1].
  - destruct (Hstop E1) as (H1 & H2 & H3). rewrite H1. cbn [Z.eqb negb].
    eexists. split; [reflexivity|]. repeat split; assumption.
  - rewrite (Hgo ltac:(lia)). cbn [rr_ret rr_buf rr_session rr_timeout].
    cbn [Z.eqb Pos.eqb negb].
    inversion Hno as [|x l Hb Hno']; subst.
    rewrite (endtag_check_last pre_e last b chunk Hnf Hb).
    replace (len chunk + 1) with (len (chunk ++ [b]))
      by (rewrite len_app; reflexivity).
    apply (IH (chunk ++ [b]) (t - 1) fuel (set_rd_script s (flat_map slow_byte bs ++ evs))
              evs (usable_set_rd_script _ _ Hu) Hti ltac:(lia) Hno' eq_refl).
    + rewrite len_cons in Hlen. lia.
    + lia.
Qed.

Lemma nc_read_until_loop_slow_passes (pre_e : list byte) (last : byte) :
  nul_free (pre_e ++ [last]) = true ->
  forall bs chunk t fuel s evs,
    usable s -> ti_type s = NC_TI_FD -> 0 < t < 2 ^ 16 ->
    Forall (fun b => b <> last) bs ->
    rd_script (ti_fd_in s) = flat_map slow_byte bs ++ evs ->
    len bs < t ->
    nc_read_until_loop (length bs + fuel) s (pre_e ++ [last]) 0 t chunk
                       (len chunk)
    = nc_read_until_loop fuel (set_rd_script s evs) (pre_e ++ [last]) 0
                         (t - len bs) (chunk ++ bs) (len (chunk ++ bs)).
Proof.
  intros Hnf.
  induction bs as [|b bs IH]; intros chunk t fuel s evs Hu Hti Ht Hno Hs Hlen.
  { cbn [flat_map app] in Hs. cbn [length Nat.add]. rewrite app_nil_r.
    change (len []) with 0. rewrite Z.sub_0_r, <- Hs, set_rd_script_same.
    reflexivity. }
  cbn [flat_map] in Hs. rewrite <- app_assoc in Hs. rewrite len_cons in Hlen.
  pose proof (len_nonneg bs) as Hbs.
  destruct (nc_read_slow_byte s b _ t Hu Hti Ht Hs) as [Hgo _].
  cbn [length Nat.add nc_read_until_loop]. cbn [Z.eqb negb andb].
  rewrite (Hgo ltac:(lia)). cbn [rr_ret rr_buf rr_session rr_timeout].
  cbn [Z.eqb Pos.eqb negb].
  inversion Hno as [|x l Hb Hno']; subst.
  rewrite (endtag_check_last pre_e last b chunk Hnf Hb).
  replace (len chunk + 1) with (len (chunk ++ [b]))
    by (rewrite len_app; reflexivity).
  rewrite (IH (chunk ++ [b]) (t - 1) fuel
              (set_rd_script s (flat_map slow_byte bs ++ evs)) evs
              (usable_set_rd_script _ _ Hu) Hti ltac:(lia) Hno' eq_refl
              ltac:(lia)).
  rewrite set_rd_script_twice, <- app_assoc, len_cons.
  cbn [app]. f_equal. lia.
Qed.

Lemma tag_safe_no_gt (l : list byte) :
  Forall (fun b => b <> ">"%byte) l -> tag_safe l = true.
Proof.
  intros H. unfold tag_safe.
  assert (Hall : forall p, gt_free_after p l = true); [|apply Hall].
  induction H as [|b l Hb _ IH]; intros p; [reflexivity|].
  cbn [gt_free_after].
  destruct (Byte.eqb b ">"%byte) eqn:E; [|apply IH].
  apply byte_eqb_eq in E. contradiction.
Qed.

Section BudgetShared.

Context {LY : LibYang}.

(** X26.  The read budget belongs to the message, and whole seconds add up
    over its reads.  In NETCONF 1.0, when every byte of the input comes
    after a full second of reads that would block (1,000,000 microseconds of
    sleeps within the read of that one byte), each byte costs one second of
    the 30 the message has: with 30 such bytes or more before the end tag,
    [nc_read_msg] gives up at the thirtieth, returns NC_MSG_ERROR and leaves
    the session Invalid with the reason Other; with fewer, and the end tag
    after them without delay, the message is read. *)
Theorem nc_read_msg_budget_shared (s : nc_session) (bs : list byte)
    (evs : list rd_event) :
  usable s -> ti_type s = NC_TI_FD -> version s = NC_VERSION_10 ->
  Forall (fun b => b <> ">"%byte) bs ->
  rd_script (ti_fd_in s) = flat_map slow_byte bs ++ evs ->
  (NC_READ_TIMEOUT <= len bs ->
   exists s',
     nc_read_msg s = Some (NC_MSG_ERROR, None, s')
     /\ status s' = NC_STATUS_INVALID
     /\ term_reason s' = NC_SESSION_TERM_OTHER)
  /\ (len bs < NC_READ_TIMEOUT ->
      forall rest,
        delivers evs NC_VERSION_10_ENDTAG rest ->
        nc_read_frame s = Some (Frame_msg bs (set_rd_script s rest))).
Proof.
  intros Hu Hti Hv Hno Hs.
  assert (Hnf : nul_free (bytes "]]>]]" ++ [">"%byte]) = true) by reflexivity.
  pose proof (stream_size_slow bs) as Hsz.
  assert (Hsize : stream_size (rd_script (ti_fd_in s))
                  = (stream_size (flat_map slow_byte bs) + stream_size evs)%nat)
    by (rewrite Hs; apply stream_size_app).
  split.
  - intros Hlong.
    destruct (nc_read_until_loop_slow_fails (bytes "]]>]]") ">"%byte Hnf bs []
                NC_READ_TIMEOUT (S (stream_size (rd_script (ti_fd_in s)))) s
                evs Hu Hti ltac:(split; reflexivity) Hno Hs Hlong)
      as (r & Hr & H1 & H2 & H3).
    { unfold len, NC_READ_TIMEOUT in *. lia. }
    exists (rr_session r). split; [|split; assumption].
    unfold nc_read_msg. rewrite Hu. unfold nc_read_frame, nc_read_msg_v10.
    rewrite Hv. unfold nc_read_until.
    change NC_VERSION_10_ENDTAG with (bytes "]]>]]" ++ [">"%byte]).
    change 0 with (len []) at 2. rewrite Hr, H1. reflexivity.
  - intros Hshort rest Hd.
    unfold nc_read_frame, nc_read_msg_v10. rewrite Hv. unfold nc_read_until.
    pose proof (delivers_size _ _ _ Hd) as Hdsz.
    change (length NC_VERSION_10_ENDTAG) with 6%nat in Hdsz.
    replace (S (stream_size (rd_script (ti_fd_in s))))
      with (length bs
            + (S (stream_size (rd_script (ti_fd_in s))) - length bs))%nat
      by lia.
    change NC_VERSION_10_ENDTAG with (bytes "]]>]]" ++ [">"%byte]) at 1.
    change 0 with (len []) at 2.
    rewrite (nc_read_until_loop_slow_passes (bytes "]]>]]") ">"%byte Hnf bs []
               NC_READ_TIMEOUT _ s evs Hu Hti ltac:(split; reflexivity)
               Hno Hs Hshort).
    cbn [app].
    change (bytes "]]>]]" ++ [">"%byte]) with NC_VERSION_10_ENDTAG.
    pose proof (tag_safe_first_at_end bs (tag_safe_no_gt bs Hno)) as Hfirst.
    rewrite (nc_read_until_loop_delivers NC_VERSION_10_ENDTAG eq_refl
               ltac:(discriminate) NC_VERSION_10_ENDTAG bs evs rest
               (set_rd_script s evs) (NC_READ_TIMEOUT - len bs) _
               (usable_set_rd_script _ _ Hu) Hti eq_refl Hd
               ltac:(discriminate)).
    + cbn [rr_ret rr_buf rr_session]. cbv zeta.
      rewrite set_rd_script_twice.
      pose proof (len_nonneg bs).
      rewrite len_app. change (len NC_VERSION_10_ENDTAG) with 6.
      rewrite to_int_small
        by (unfold NC_READ_TIMEOUT, INT_MAX in *; lia).
      unfold NC_VERSION_10_ENDTAG_LEN, cut_at.
      replace (len bs + 6 =? -1) with false
        by (symmetry; apply Z.eqb_neq; lia).
      replace (len bs + 6 - 6) with (len bs) by lia.
      replace (0 <=? len bs) with true by (symmetry; apply Z.leb_le; lia).
      now rewrite firstn_len_app.
    + intros k Hk. apply Hfirst. rewrite length_app in Hk.
      change (length NC_VERSION_10_ENDTAG) with 6%nat in Hk. lia.
    + rewrite length_app. lia.
    + rewrite length_app.
      replace (length bs + length NC_VERSION_10_ENDTAG
               - length NC_VERSION_10_ENDTAG)%nat with (length bs) by lia.
      rewrite skipn_app, Nat.sub_diag, skipn_all. reflexivity.
    + change (length NC_VERSION_10_ENDTAG) with 6%nat. lia.
Qed.

End BudgetShared.

Section BudgetSharedExample.

#[local] Existing Instance ExampleYang.

(** X26 at work: two slow bytes, then the end tag. *)
Lemma nc_read_msg_budget_shared_witness :
  let s := session_on NC_VERSION_10 NC_SERVER
             (flat_map slow_byte (bytes "ab")
              ++ [RdData (bytes "]]>]]>")]) in
  nc_read_frame s = Some (Frame_msg (bytes "ab") (set_rd_script s [])).
Proof.
  intros s.
  refine (proj2 (nc_read_msg_budget_shared s (bytes "ab")
                   [RdData (bytes "]]>]]>")] eq_refl eq_refl eq_refl _
                   eq_refl) _ [] _).
  - repeat constructor; discriminate.
  - vm_compute. reflexivity.
  - apply delivers_one. discriminate.
Defined.

End BudgetSharedExample.
